(* ===== verification/_CoqProject ===== *)
-Q . S2P
Prelude.v
Primitives.v
Types.v
World.v
Arena.v
ArenaProofs.v
Noise.v
NoiseProofs.v
Onion.v
OnionProofs.v
Network.v
NetworkProofs.v
Database.v
DatabaseProofs.v
StateMachine.v
StateMachineProofs.v
FileTransfer.v
FileTransferProofs.v
History.v
HistoryProofs.v
Keys.v
KeysProofs.v
Control.v
ControlProofs.v
TorProcess.v
TorProofs.v
Frontend.v
FrontendProofs.v
Seccomp.v
SeccompProofs.v
Startup.v
StartupProofs.v
Messages.v
EventLoop.v
StdinHandler.v
Input.v
InputProofs.v
Partial.v
Buffers.v
Tui.v
TuiProofs.v
TuiSession.v
TuiEdit.v
LineEdit.v
LineEditProofs.v
LineEditText.v
LineEditDraw.v
Ansi.v
AnsiProofs.v
Sandbox.v
Main.v
MainProofs.v
LoopFilter.v
MainFilter.v
EventLoopProofs.v
LoopProofs.v
StdinProofs.v
SandboxProofs.v
MessagesProofs.v
Scenarios.v
