(* ===== verification/Prelude.v ===== *)
(** * Noxtor: a verification development

    Noxtor is a peer-to-peer chat program in C.  Two users talk over Tor onion
    services; every connection is a Noise XX handshake followed by encrypted
    frames, contacts and undelivered messages live in an encrypted database,
    files are sent in chunks, key material lives in a guarded arena, and the
    whole program is one epoll loop over sixteen peer slots that runs behind
    seccomp and Landlock.  This library models the program as Rocq functions,
    from main to the last handler, and proves the properties it relies on.

    ** The program and the files that model it

    Shared by all:

    - [Prelude]: bytes, machine integers, the state monad [St], record update,
      the error codes of include/common.h, shared lemmas and tactics.
    - [Primitives]: what the program calls and does not contain.  [OS] answers
      every system call from the whole history of calls, so a theorem over all
      [OS] covers every behaviour of the kernel, of SQLite and of the user's
      terminal; [Crypto] is libsodium, with the documented facts the code relies
      on as [CryptoLaws].  [kind_os] and [toy_crypto] are concrete instances.
    - [Types]: the structs and enums of include/types.h and its neighbours.
    - [World]: the state everything runs on: [app_state], the rows of the
      database and the history of calls; access to a peer slot; the rules for
      frame conditions ([keeps], [within]) and Hoare triples.
    - [Partial], [Buffers]: code with undefined behaviour as a partial monad with
      a total-correctness triple, and edits inside a buffer; used where memory
      safety is the subject (the two line editors and the chat panel).

    Components, callees first:

    - [Arena]: src/arena.c, the mapping with guard pages and canary, the bump
      allocator, restore, destroy, aborts.
    - [Noise]: src/noise.c: cipher states, HKDF over BLAKE2b, the three
      handshake messages, split, transport.
    - [Onion], [Keys]: src/crypto.c, v3 onion addresses, the signed claim that
      binds an address to a static key, key derivation, salt and identity files.
    - [Network], [Control], [TorProcess]: src/network.c, frame headers, parsing,
      epoll; reads and writes with deadlines, the control dialogue, hidden
      services, SOCKS5; torrc, starting, checking and stopping Tor, stale
      directories.
    - [Database], [History]: src/database.c, opening, contacts, the message queue
      and the history over rows of ciphertext.
    - [StateMachine]: src/state_machine.c, the transition table, the dispatcher
      and its actions (teardown, key prompt, key approval).
    - [FileTransfer]: src/file_transfer.c, sending and receiving files.
    - [Frontend]: src/frontend.c with the sanitiser of a peer's text, the parts of
      src/fe_ansi.c and src/log.c the other files use, which PINs are valid.
    - [Seccomp]: src/seccomp.c, the table, rules with arguments, loading by stage.
    - [Startup]: the steps of src/main.c (signals, configuration directory, PIN
      entry, erasing all keys) and src/cet_shstk.c.
    - [Messages], [EventLoop], [StdinHandler], [Input]: sending and queueing text;
      reassembly, handshake with identity claim, frames, deadlines, the death of
      Tor, accept, read and write events; the key prompt and the commands; the
      buffer of standard input (src/stdin_handler.c, src/event_loop.c).
    - [Tui]: src/tui.c, src/fe_tui.c and their callers in the build with the
      full-screen interface: panels, scrollback with its heap, the input line.
    - [LineEdit]: src/linenoise.c as the program uses it: characters and clusters
      in UTF-8, editing keys, folds, bracketed paste, drawing, start and stop.
    - [Ansi]: src/fe_ansi.c and src/log.c, what a terminal is sent for prompts,
      messages, progress and log lines, and who owns the line.
    - [Sandbox]: src/landlock_sandbox.c and the head of event_loop.
    - [Main]: main and cleanup, every step in order with its exits.

    A [struct peer_session *] is the index of a slot; a pointer that can be
    NULL is an option; a C string is the list of its characters; a C function
    that changes state is a function in [St world], with its guards and early
    returns in the order of the code.  Lines printed for the user are [Ui]
    calls of the event loop's model; [Ansi] and [Tui] are what draws them.

    ** What is proved

    - [ArenaProofs]: the arena implements a stack of zeroed bytes, overflows are
      caught, destroying it erases it.
    - [NoiseProofs]: a complete handshake gives both ends the same keys and
      authenticates both static keys; no nonce is used twice with a key; paired
      sessions deliver every message and stay paired; a rejected ciphertext
      changes nothing; failed and finished handshakes hold no keys and stay
      dead.
    - [OnionProofs], [NetworkProofs]: addresses are accepted exactly when
      canonical, claims verify, frame headers round-trip, PIDs and service ids
      are parsed exactly.
    - [KeysProofs]: an identity is read back with the key it was sealed with and
      never with another; key files are published only when complete.
    - [ControlProofs], [TorProofs]: deadlines hold, answers are taken off the wire
      exactly, SOCKS5 refines its protocol, a hidden service is created with the
      program's key; Tor runs behind a verified control connection or not at all.
    - [DatabaseProofs], [HistoryProofs]: what is stored is read back, contacts and
      conversations do not disturb each other, the queue is flushed in order, the
      tables stay well formed.
    - [StateMachineProofs]: dispatch follows the table, teardown retires a slot
      completely and closes exactly its descriptors, an approval is bound to
      the prompt the user saw.
    - [FileTransferProofs]: file names are safe whatever the peer announces; a
      file is reported as received only if it has the announced size and hash.
    - [FrontendProofs]: no text of a peer sends the terminal an escape sequence.
    - [SeccompProofs], [LoopFilter], [MainFilter]: what the filters forbid for
      good, and that no run of the program makes a call that kills it.
    - [StartupProofs], [MainProofs]: PIN entry, the verdict on the shadow stack;
      the loop is entered ready, and nothing secret is left at any exit.
    - [EventLoopProofs], [LoopProofs]: a session needs a proof of identity;
      sequence numbers are enforced; reassembly is independent of how the
      stream is cut; deadlines; the death of Tor; the inbound rate limit.
    - [StdinProofs], [InputProofs]: what an answer to a prompt can do, which lines
      stay inside, dialling is all or nothing and limited; the input buffer stays
      well formed and every line of a pipe is handled once, in order.
    - [TuiProofs], [TuiSession], [TuiEdit]: whole sessions of the full-screen
      interface are free of undefined behaviour and of leaks; its input line
      refines a list of characters; a message is wrapped without losing text.
    - [LineEditProofs], [LineEditText], [LineEditDraw]: no input makes the line
      editor leave its buffer; it refines an editor of code points that moves by
      clusters; plain lines are drawn with the cursor in view, and the lines and
      terminals for which the drawing never ends.
    - [AnsiProofs]: on a terminal of any width messages appear in order above the
      prompt and the line being typed, which survive; the width of the prompt; the
      editor's line is hidden exactly while it is suspended.
    - [MessagesProofs]: chunks end at code points; a message typed on one side
      is shown on the other, through the senders and the frame loop as they
      are; a message is queued whole or not at all; two ways in which a file
      transfer and the text channel get out of step.
    - [SandboxProofs]: the rules are tight, the start is fail-closed.
    - [Scenarios]: concrete runs at which the theorems are applied.

    ** Bounds and fuel

    [sm_dispatch] has fuel 2: an action dispatches at most once more, and
    [dispatch_terminates] shows that more fuel changes nothing.  The frame loop
    has as much fuel as there are bytes in the buffer, each round consumes at
    least fourteen ([frame_loop_terminates]).  A message is sent, queued and
    wrapped with its length as fuel, each piece has at least one byte.  The loops
    that retry a call after EINTR have fuel for every byte plus [IO_RETRIES]
    interruptions, after which the model reports the I/O error; the C code would
    go on.  The entries of a directory ([dir_max]), the lines of a status file,
    the depth of a removal, the attempts at the PIN, the children waited for, the
    reads of one event and the rounds of the event loop are arguments over which
    the theorems quantify.  A paste has fuel for all the input there is; running
    out of it, or of that of a word, would be undefined behaviour and is shown not
    to happen.  The scroll loops of the line editor have fuel as an argument, for
    they need not end.  Integers that can wrap (sequence numbers, nonces, epochs,
    sizes, widths) are reduced at their width where the code computes with them.

    ** What is not modelled

    The loopback demonstration of debug builds and the build without seccomp; the
    inside of termbox, SQLite, libsodium, libseccomp, Tor and the kernel, which
    are parameters; of linenoise completion, hints, mask and multi-line mode,
    growing buffers, the blocking API and raw mode, which the program does not
    use or only passes through; the source positions and hex dumps of debug logs;
    where log lines are written, and the texts of the welcome and help lines.  The
    failure branches of libsodium's incremental hash are left out: they cannot be
    taken with the arguments the code passes.  Memory safety is a subject in
    [Arena], [Tui] and [LineEdit]; elsewhere arrays are lists, and the code's own
    bounds checks are modelled where they decide what happens. *)

From Stdlib Require Export ZArith Lia Strings.Byte.
From stdpp Require Export base list list_numbers option strings relations.
From coqutil Require Export Byte.
Close Scope nat_scope.
Open Scope Z_scope.

(** ** Scope of the development *)

Declare Scope nox_scope.
Delimit Scope nox_scope with nox.
Open Scope nox_scope.

(** ** Bytes and byte strings

    A [uint8_t] or a [char] is a [Byte.byte]; a C array of them is a list.  A
    C string is the list of its characters up to, and not including, the
    terminating NUL. *)

Abbreviation bytes := (list byte).

(** The bytes of a string literal (UTF-8, as the compiler lays them out). *)
Definition lit (s : String.string) : bytes := String.list_byte_of_string s.

#[global] Instance byte_eq_dec : EqDecision byte := Byte.byte_eq_dec.

Lemma byte_eqb_spec a b : Bool.reflect (a = b) (Byte.eqb a b).
Proof.
  destruct (Byte.eqb a b) eqn:E; constructor.
  - by apply Byte.byte_dec_bl.
  - intros H%Byte.byte_dec_lb. congruence.
Qed.

Definition NUL : byte := Byte.x00.

(** [memset(p, 0, n)], [sodium_memzero(p, n)]. *)
Definition zeros (n : nat) : bytes := replicate n NUL.

(** [sodium_is_zero(p, n)] on an array of n bytes. *)
Definition is_zero (b : bytes) : bool := forallb (Byte.eqb NUL) b.

(** [strlen] / the C-string view of an array: what precedes the first NUL. *)
Fixpoint cstr (b : bytes) : bytes :=
  match b with
  | [] => []
  | c :: b' => if Byte.eqb c NUL then [] else c :: cstr b'
  end.

(** A C string in a zeroed array of n bytes. *)
Definition pad_to (n : nat) (s : bytes) : bytes := take n s ++ zeros (n - length s).

Definition bytes_eqb (a b : bytes) : bool := bool_decide (a = b).

(** ** Machine integers *)

Definition u8 (z : Z) : Z := z mod 2 ^ 8.
Definition u16 (z : Z) : Z := z mod 2 ^ 16.
Definition u32 (z : Z) : Z := z mod 2 ^ 32.
Definition u64 (z : Z) : Z := z mod 2 ^ 64.
Definition UINT32_MAX : Z := 2 ^ 32 - 1.
Definition UINT64_MAX : Z := 2 ^ 64 - 1.

(** Length of a byte string as the [size_t] the code compares. *)
Definition len {A} (l : list A) : Z := Z.of_nat (length l).

Arguments u8 : simpl never.
Arguments u16 : simpl never.
Arguments u32 : simpl never.
Arguments u64 : simpl never.
Arguments UINT32_MAX : simpl never.
Arguments UINT64_MAX : simpl never.
Arguments len {A} l : simpl never.
Arguments zeros : simpl never.

(** ** State passing

    Code that reads or writes a state of type [S] is a function from the
    state to its result and the new state; the notation of the [MBind] and
    [MRet] classes sequences it. *)

Definition St (S A : Type) : Type := S -> A * S.

#[global] Instance St_ret {S} : MRet (St S) := fun A a s => (a, s).
#[global] Instance St_bind {S} : MBind (St S) :=
  fun A B k m s => let '(a, s') := m s in k a s'.

Definition get {S} : St S S := fun s => (s, s).
Definition put {S} (s : S) : St S unit := fun _ => (tt, s).
Definition gets {S A} (f : S -> A) : St S A := fun s => (f s, s).
Definition modify {S} (f : S -> S) : St S unit := fun s => (tt, f s).
Definition skip {S} : St S unit := fun s => (tt, s).

Lemma bind_eq {S A B} (m : St S A) (k : A -> St S B) s :
  mbind k m s = k (m s).1 (m s).2.
Proof. unfold mbind, St_bind. by destruct (m s). Qed.

(** [wp m Q s]: run from [s], [m] ends in a result and a state that [Q] holds of.
    Code has no other outcome, so this is total correctness. *)
Definition wp {S A} (m : St S A) (Q : A -> S -> Prop) (s : S) : Prop := Q (m s).1 (m s).2.

Lemma wp_ret {S A} (a : A) (Q : A -> S -> Prop) s : Q a s -> wp (mret a) Q s.
Proof. done. Qed.
Lemma wp_bind {S A B} (m : St S A) (k : A -> St S B) Q s :
  wp m (fun a => wp (k a) Q) s -> wp (mbind k m) Q s.
Proof. unfold wp. by rewrite bind_eq. Qed.
Lemma wp_mono {S A} (m : St S A) (Q R : A -> S -> Prop) s :
  wp m Q s -> (forall a s', Q a s' -> R a s') -> wp m R s.
Proof. intros HQ HR. by apply HR. Qed.

(** ** Record update

    A record type declares its eta-expansion once; [r <| f := v |>] then
    builds the record with field [f] replaced, found by searching the
    expansion for the projection. *)

Class Eta (R : Type) := eta : R -> R.
Class FieldSetter {R E : Type} (proj : R -> E) := set_field : (E -> E) -> R -> R.

Ltac head_of t := lazymatch t with ?f _ => head_of f | _ => t end.

Ltac build_setter R E proj :=
  exact (fun (g : E -> E) (r : R) => ltac:(
    let e := eval cbv beta delta [eta] in (eta r) in
    let h := head_of e in
    let e := eval cbv beta delta [h] in e in
    lazymatch e with
    | context C [proj r] => let b := context C [g (proj r)] in exact b
    end)).

#[export] Hint Extern 1 (@FieldSetter ?R ?E ?proj) => build_setter R E proj
  : typeclass_instances.

Notation "r <| f := v |>" := (set_field (proj := f) (fun _ => v) r)
  (at level 12, f constr at level 0, left associativity) : nox_scope.
Notation "r <| f ::= g |>" := (set_field (proj := f) g r)
  (at level 12, f constr at level 0, left associativity) : nox_scope.

(** ** Error codes: [nox_err_t] of include/common.h *)

Inductive nox_err :=
| NOX_OK | NOX_ERR_ALLOC | NOX_ERR_CRYPTO | NOX_ERR_IO | NOX_ERR_PROTO
| NOX_ERR_AUTH | NOX_ERR_LOCKED | NOX_ERR_PIN | NOX_ERR_CONFIG | NOX_ERR_TOR
| NOX_ERR_NET | NOX_ERR_DB | NOX_ERR_OVERFLOW | NOX_ERR_STATE
| NOX_ERR_NOT_FOUND | NOX_ERR_LANDLOCK_UNSUPPORTED.

#[global] Instance nox_err_eq_dec : EqDecision nox_err.
Proof. solve_decision. Defined.

Definition err_ok (e : nox_err) : bool := match e with NOX_OK => true | _ => false end.

(** ** Shared lemmas *)

Lemma is_zero_spec b : is_zero b = true <-> b = zeros (length b).
Proof.
  unfold is_zero, zeros. induction b as [|c b IH]; [done|]; simpl.
  rewrite andb_true_iff, IH. destruct (byte_eqb_spec NUL c) as [<-|Hne]; split.
  - intros [_ Hb]. by f_equal.
  - intros [= Hb]. done.
  - intros [? _]. done.
  - intros [= Hc _]. by destruct Hne.
Qed.

Lemma is_zero_zeros n : is_zero (zeros n) = true.
Proof. apply is_zero_spec. unfold zeros. by rewrite length_replicate. Qed.

Lemma bytes_eqb_eq a b : bytes_eqb a b = true <-> a = b.
Proof. unfold bytes_eqb. apply bool_decide_eq_true. Qed.

Lemma bytes_eqb_refl a : bytes_eqb a a = true.
Proof. by apply bytes_eqb_eq. Qed.

Lemma err_ok_true e : err_ok e = true <-> e = NOX_OK.
Proof. by destruct e. Qed.

Lemma err_ok_false e : e <> NOX_OK -> err_ok e = false.
Proof. by destruct e. Qed.

Lemma length_zeros n : length (zeros n) = n.
Proof. apply length_replicate. Qed.

Lemma length_pad_to n s : length (pad_to n s) = n.
Proof. unfold pad_to. rewrite length_app, length_take, length_zeros. lia. Qed.

Lemma len_nonneg {A} (l : list A) : 0 <= len l.
Proof. unfold len; lia. Qed.

Lemma cstr_no_nul b : NUL ∉ cstr b.
Proof.
  induction b as [|c b IH]; simpl; [by apply not_elem_of_nil|].
  destruct (byte_eqb_spec c NUL); [by apply not_elem_of_nil|].
  rewrite not_elem_of_cons. split; [congruence | done].
Qed.

Lemma length_cstr b : (length (cstr b) <= length b)%nat.
Proof. induction b as [|c b IH]; cbn; [lia|]. case_match; cbn; lia. Qed.

Lemma cstr_id b : NUL ∉ b -> cstr b = b.
Proof.
  induction b as [|c b IH]; simpl; [done|]. rewrite not_elem_of_cons.
  intros [H1 H2]. destruct (byte_eqb_spec c NUL); [congruence|]. f_equal. auto.
Qed.

Lemma cstr_app_nul b c : NUL ∉ b -> cstr (b ++ NUL :: c) = b.
Proof.
  induction b as [|d b IH]; simpl; [done|]. rewrite not_elem_of_cons.
  intros [H1 H2]. destruct (byte_eqb_spec d NUL); [congruence|]. f_equal. auto.
Qed.

Lemma testbit_above w z b : 0 <= z < 2 ^ w -> w <= b -> Z.testbit z b = false.
Proof.
  intros Hz Hb. destruct (decide (w < 0)).
  { rewrite (Z.pow_neg_r 2 w) in Hz by lia. lia. }
  rewrite <-(Z.mod_small z (2 ^ w)) by lia. apply Z.mod_pow2_bits_high. lia.
Qed.

(** ** Automation *)

Create HintDb nox.
#[export] Hint Resolve len_nonneg is_zero_zeros bytes_eqb_refl cstr_no_nul : nox.
#[export] Hint Rewrite @length_zeros @length_app @length_take @length_drop : nox.

(** Run the sequencing of the state monad in the goal. *)
Ltac run_st :=
  cbv beta iota delta [mbind mret St_bind St_ret get put gets modify skip fst snd].
Ltac run_st_in H :=
  cbv beta iota delta [mbind mret St_bind St_ret get put gets modify skip fst snd] in H.

(** Run a step whose error code is known. *)
Ltac run_ok := run_st; cbn [err_ok negb]; run_st.

(** Case analysis on every [if] and [match] of the goal, keeping equations. *)
Ltac split_code :=
  repeat (case_match; simplify_eq/=; try done).
