(* ===== verification/Primitives.v ===== *)
(** * What the program calls and does not contain

    The kernel and libc (through [OS]) and libsodium (through [Crypto]).
    Neither is under src/: both are parameters of every definition that uses
    them, and what the code relies on is stated as the laws of [CryptoLaws].
    A concrete instance, [toy_crypto], shows that the laws can hold
    together. *)

From S2P Require Import Prelude.

(** ** System calls and library calls with an effect outside the process state

    [trace] is the history of such calls, the latest first.  The environment
    answers a call from the whole history before it, so a theorem over every
    [OS] covers every behaviour the environment can show. *)

Inductive ui_kind := UiError | UiSystem | UiOutgoing.

(** The members of struct stat and struct statvfs the code reads. *)
Inductive stat_field :=
| St_mode | St_uid | St_size | F_bavail | F_frsize
| Cred_len | Cred_pid | Cred_uid.         (* getsockopt(SO_PEERCRED) *)

(** A rule for libseccomp: the action is to kill the process or to fail with
    ENOSYS; every comparison (argument, mask, value) must hold. *)
Record scmp_rule := ScmpRule {
  sr_kill : bool;
  sr_sys : String.string;
  sr_cmp : list (nat * Z * Z) }.

Inductive syscall :=
| Malloc (n : Z)                          (* sodium_malloc / malloc: 0 is NULL *)
| RandomBytes (n : Z)                     (* randombytes_buf: the bytes are the data *)
| Close (fd : Z)
| EpollAdd (epfd fd : Z)
| EpollDel (epfd fd : Z)
| EpollMod (epfd fd events : Z)
| Unlinkat (dirfd : Z) (name : bytes)
| Openat (dirfd : Z) (name : bytes) (flags : Z)
| Open (path : bytes)
| Fstat (fd : Z) | Fstatvfs (fd : Z)
| StatField (fd : Z) (f : stat_field)     (* a member the last (f)stat of fd stored *)
| Getuid
| Flock (fd : Z)
| Lseek (fd off : Z)
| Read (fd n : Z)
| Write (fd : Z) (buf : bytes)
| Writev (fd : Z) (buf : bytes)           (* the concatenation of the iovecs *)
| Recv (fd n : Z)
| IoctlFionread (fd : Z)
| Accept4 (fd : Z)
| ClockMonotonic                          (* ret is tv_sec *)
| Time                                    (* time(NULL) *)
| Kill (pid sig : Z)
| Fsync (fd : Z)
| Fchmod (fd mode : Z) | Chmod (path : bytes) (mode : Z)
| Renameat (dirfd : Z) (old new : bytes)
| Getpid
| SignKeypair                             (* crypto_sign_keypair: 0 and the secret key *)
| SodiumInit                              (* sodium_init: negative is a failure *)
| Sysconf                                 (* sysconf(_SC_PAGESIZE) *)
| Stderr (what : String.string)           (* fprintf(stderr, ...) *)
| ClockNs                                 (* clock_gettime(CLOCK_MONOTONIC), in ns *)
| Nanosleep (ns : Z) | SleepRem           (* SleepRem: what an interrupted sleep left, in ns *)
| Poll (fd events timeout_ms : Z)
| ShutdownFlag | TorDiedFlag              (* g_shutdown and g_tor_died, set by handlers *)
| SetTorPid (pid : Z)                     (* g_tor_pid, read by the SIGCHLD handler *)
| Socket                                  (* socket(AF_UNIX, SOCK_STREAM | SOCK_CLOEXEC, 0) *)
| ConnectUnix (fd : Z) (path : bytes)
| BindUnix (fd : Z) (path : bytes)
| Listen (fd backlog : Z)
| Umask (mask : Z)
| PeerCred (fd : Z)
| FcntlGetfl (fd : Z) | FcntlSetfl (fd flags : Z)
| EpollCreate
| OpenPath (path : bytes) (flags : Z)
| Unlink (path : bytes) | Rmdir (path : bytes)
| Mkdir (path : bytes) (mode : Z) | Mkdirat (dirfd : Z) (name : bytes) (mode : Z)
| Fdopendir (fd : Z) | Opendir (path : bytes)
| Readdir (fd : Z)                        (* ret 0 is the end, else data is d_name *)
| Closedir (fd : Z)
| FstatatDir (dirfd : Z) (name : bytes)   (* fstatat: negative fails, 1 is a directory *)
| Lstat (path : bytes)                    (* negative fails, else st_uid *)
| ReadComm (pid : Z)                      (* the line of /proc/pid/comm, ret 0: none *)
| Access (path : bytes)
| Geteuid | Getppid
| Fork
| Waitpid (pid options : Z)
| Prctl (option arg : Z) | Setsid | Dup2 (old new : Z) | CloseRange (first : Z)
| SysconfOpenMax
| Execv (path : bytes) (argv : list bytes)
| Getenv (name : bytes) | Getpwuid        (* ret 0 is NULL, else data is the string, pw_dir *)
| Realpath (path : bytes)                 (* ret 0 is NULL *)
| LstatMode (path : bytes)                (* negative fails, else st_mode *)
| FstatatMode (dirfd : Z) (name : bytes)  (* AT_SYMLINK_NOFOLLOW: negative fails, else st_mode *)
| StatSize (name : bytes)                 (* st_size of the last stat or fstatat of the name *)
| Stat (path : bytes)
| Isatty | Tcgetattr                      (* of standard input: 0 is success *)
| Tcsetattr (mode : String.string)        (* the settings written, by name *)
| Sigaction (sig : Z) | Sigprocmask (block : bool)
| Setrlimit | Getrlimit | RlimCur         (* RLIMIT_CORE; RLIMIT_MEMLOCK and its rlim_cur *)
| RandomUniform (n : Z)                   (* randombytes_uniform *)
| Fgets (n : Z)                           (* from stdin: ret 0 is NULL, else data *)
| EditStart | EditStop                    (* linenoise: 0 is success *)
| EditFeed                                (* 0: more, 1: a line, the data, else errno *)
| CpuHasShstk | ArchPrctl (op arg : Z)    (* for ARCH_SHSTK_STATUS data is the word *)
| ReadStatus                              (* a line of /proc/self/status, ret 0: no more *)
| CetTrigger                              (* 0: returned, else si_code of the fault *)
| WaitStatus                              (* the status the last waitpid stored *)
| Mmap (n : Z) | Munmap (n : Z) | Mprotect (off n prot : Z) | Madvise (advice : Z)
| Mlock (n : Z) | Munlock (n : Z)
| LandlockVersion                         (* landlock_create_ruleset, VERSION flag *)
| LandlockCreate (handled : Z) (scoped : bool)
| LandlockAddRule (ruleset_fd allowed parent_fd : Z)
| LandlockRestrict (ruleset_fd : Z)
| NoNewPrivs                              (* prctl(PR_SET_NO_NEW_PRIVS, 1) *)
| ScmpInit                                (* seccomp_init(SCMP_ACT_ALLOW): 0 is NULL *)
| ScmpBadarch | ScmpTsync                 (* seccomp_attr_set of the two attributes *)
| ScmpRuleAdd (r : scmp_rule)             (* seccomp_rule_add: 0, -EDOM or an error *)
| ScmpLoad (rules : list scmp_rule)       (* seccomp_load of a context with these rules *)
| ScmpRelease
| SqlOpen (path : bytes)                  (* sqlite3_open_v2: 0 is SQLITE_OK *)
| SqlExec (sql : String.string)           (* sqlite3_exec: 0 is SQLITE_OK *)
| SqlClose
| SqlPrepare (sql : String.string)        (* 0 is SQLITE_OK *)
| SqlBind (i : Z)                         (* 0 is SQLITE_OK *)
| SqlStep                                 (* 0: the engine carried the step out *)
| Ui (k : ui_kind) (what : String.string) (* a line shown to the user *)
| UiIncoming (text : bytes)               (* a decrypted message shown to the user *)
| Wipe (what : String.string).            (* sodium_memzero of memory that is then freed *)

Record sysret := SysRet {
  sr_ret : Z;
  sr_errno : Z;
  sr_data : bytes }.

Abbreviation trace := (list syscall).

Class OS := os_answer : trace -> syscall -> sysret.

(** Interrupted calls a retry loop of the model tolerates. *)
Definition IO_RETRIES : nat := 64.

(** One call: consult the environment, extend the history. *)
Definition sys `{OS} (c : syscall) : St trace sysret :=
  fun tr => (os_answer tr c, c :: tr).

(** [sodium_malloc(n)]: whether it returned non-NULL. *)
Definition malloc_ok `{OS} (n : Z) : St trace bool :=
  r ← sys (Malloc n); mret (negb (sr_ret r =? 0)).

(** ** libsodium *)

Class Crypto := {
  (** [crypto_generichash_blake2b] without key, or the concatenation of the
      [_update] calls between [_init] and [_final] *)
  blake2b : nat -> bytes -> bytes;
  (** [crypto_scalarmult_curve25519]: None when it returns non-zero *)
  x25519 : bytes -> bytes -> option bytes;
  (** [crypto_scalarmult_base] *)
  x25519_base : bytes -> bytes;
  (** [crypto_aead_chacha20poly1305_ietf_*] key nonce ad message *)
  aead_encrypt : bytes -> bytes -> bytes -> bytes -> option bytes;
  aead_decrypt : bytes -> bytes -> bytes -> bytes -> option bytes;
  (** [crypto_sign_seed_keypair]: the public key of a seed *)
  ed25519_pub : bytes -> bytes;
  (** [crypto_sign_detached] with the secret key of a seed, and
      [crypto_sign_verify_detached] *)
  ed25519_sign : bytes -> bytes -> bytes;
  ed25519_verify : bytes -> bytes -> bytes -> bool;
  (** [crypto_hash_sha3256] *)
  sha3_256 : bytes -> bytes;
  (** [crypto_generichash] with a key: output length, key, message *)
  blake2b_keyed : nat -> bytes -> bytes -> bytes;
  (** [crypto_secretbox_easy] and [crypto_secretbox_open_easy]: key nonce message *)
  secretbox : bytes -> bytes -> bytes -> option bytes;
  secretbox_open : bytes -> bytes -> bytes -> option bytes }.

(** Documented behaviour the code relies on. *)
Class CryptoLaws (C : Crypto) := {
  blake2b_length n m : length (blake2b n m) = n;
  x25519_length s p o : x25519 s p = Some o -> length o = 32%nat;
  x25519_base_length s : length (x25519_base s) = 32%nat;
  (** Diffie-Hellman agreement *)
  x25519_comm a b : x25519 a (x25519_base b) = x25519 b (x25519_base a);
  aead_encrypt_length k n ad m c :
    aead_encrypt k n ad m = Some c -> length c = (length m + 16)%nat;
  aead_decrypt_encrypt k n ad m c :
    aead_encrypt k n ad m = Some c -> aead_decrypt k n ad c = Some m;
  aead_decrypt_length k n ad c m :
    aead_decrypt k n ad c = Some m -> length c = (length m + 16)%nat;
  (** in the libsodium API only a message over 2^38 bytes is refused *)
  aead_encrypt_total k n ad m :
    len m <= 4096 -> is_Some (aead_encrypt k n ad m);
  ed25519_pub_length s : length (ed25519_pub s) = 32%nat;
  ed25519_sign_length s m : length (ed25519_sign s m) = 64%nat;
  ed25519_verify_sign s m : ed25519_verify (ed25519_pub s) m (ed25519_sign s m) = true;
  sha3_256_length m : length (sha3_256 m) = 32%nat;
  secretbox_length k n m c : secretbox k n m = Some c -> length c = (length m + 16)%nat;
  secretbox_open_secretbox k n m c :
    secretbox k n m = Some c -> secretbox_open k n c = Some m;
  secretbox_total k n m : len m <= 8192 -> is_Some (secretbox k n m) }.

(** The part of libsodium that only the key store uses. *)
Class KeyCrypto := {
  (** [crypto_pwhash] with Argon2id, MODERATE limits: pin and salt.  None when
      it runs out of memory *)
  pwhash : bytes -> bytes -> option bytes;
  (** [crypto_kdf_derive_from_key], 32 bytes: subkey id, context, master key *)
  kdf : Z -> bytes -> bytes -> option bytes;
  (** [crypto_hash_sha512] *)
  sha512 : bytes -> bytes;
  (** [crypto_sign_ed25519_sk_to_pk] *)
  sk_to_pk : bytes -> option bytes;
  (** [crypto_sign_ed25519_pk_to_curve25519], [crypto_sign_ed25519_sk_to_curve25519] *)
  pk_to_curve : bytes -> option bytes;
  sk_to_curve : bytes -> option bytes }.

Class KeyCryptoLaws (K : KeyCrypto) := {
  sha512_length m : length (sha512 m) = 64%nat;
  (** the public key is stored in the secret key, extracting it cannot fail *)
  sk_to_pk_total sk : length sk = 64%nat -> is_Some (sk_to_pk sk);
  (** what is written is as long as the key that was asked for *)
  pwhash_length pin salt k : pwhash pin salt = Some k -> length k = 32%nat;
  kdf_length i ctx m k : kdf i ctx m = Some k -> length k = 32%nat;
  pk_to_curve_length pk k : pk_to_curve pk = Some k -> length k = 32%nat;
  sk_to_curve_length sk k : sk_to_curve sk = Some k -> length k = 32%nat }.

(** ** A concrete environment and a concrete crypto, for witnesses *)

(** Every allocation succeeds, every write is complete, every other call
    returns 0. *)
Definition kind_os : OS := fun _ c =>
  match c with
  | Malloc _ => SysRet 1 0 []
  | RandomBytes n => SysRet 0 0 (replicate (Z.to_nat n) Byte.x07)
  | Write _ b => SysRet (len b) 0 []
  | Writev _ b => SysRet (len b) 0 []
  | _ => SysRet 0 0 []
  end.

(** The same environment out of memory. *)
Definition nomem_os : OS := fun tr c =>
  match c with Malloc _ => SysRet 0 12 [] | _ => kind_os tr c end.

Module Toy.

(** A checksum of a byte string, over 0..255. *)
Definition checksum (b : bytes) : Z :=
  foldl (fun a c => (a * 31 + byte.unsigned c + 7) mod 251) 1 b.

Definition blake2b (n : nat) (m : bytes) : bytes :=
  imap (fun i _ => byte.of_Z (checksum m + Z.of_nat i)) (replicate n tt).

Definition x25519_base (s : bytes) : bytes :=
  byte.of_Z (checksum s) :: replicate 31 Byte.x01.

(** The group element of a public key is its first byte. *)
Definition x25519 (s p : bytes) : option bytes :=
  match p with
  | c :: _ => Some (Byte.x01 :: replicate 31 (byte.of_Z (checksum s * byte.unsigned c)))
  | [] => None
  end.

Definition tag (k n ad m : bytes) : bytes := blake2b 16 (k ++ n ++ ad ++ m).

Definition aead_encrypt (k n ad m : bytes) : option bytes := Some (m ++ tag k n ad m).

Definition aead_decrypt (k n ad c : bytes) : option bytes :=
  let m := take (length c - 16) c in
  if bool_decide ((16 <= length c)%nat /\ drop (length c - 16) c = tag k n ad m)
  then Some m else None.

Definition ed25519_pub (s : bytes) : bytes := blake2b 32 s.
Definition ed25519_sign (s m : bytes) : bytes := blake2b 64 (ed25519_pub s ++ m).
Definition ed25519_verify (p m g : bytes) : bool := bytes_eqb g (blake2b 64 (p ++ m)).

Lemma checksum_range b : 0 <= checksum b < 251.
Proof.
  unfold checksum. assert (0 <= 1 < 251) as H by lia. revert H.
  generalize 1. induction b as [|c b IH]; simpl; intros z Hz; [lia|].
  apply IH. apply Z.mod_pos_bound. lia.
Qed.

Lemma length_blake2b n m : length (blake2b n m) = n.
Proof. unfold blake2b. by rewrite length_imap, length_replicate. Qed.

Lemma aead_encrypt_length k n ad m c :
  aead_encrypt k n ad m = Some c -> length c = (length m + 16)%nat.
Proof.
  intros [= <-]. unfold tag. by rewrite length_app, length_blake2b.
Qed.

Lemma aead_decrypt_encrypt k n ad m c :
  aead_encrypt k n ad m = Some c -> aead_decrypt k n ad c = Some m.
Proof.
  intros E. pose proof (aead_encrypt_length _ _ _ _ _ E) as Hl.
  unfold aead_encrypt in E. simplify_eq. unfold aead_decrypt. rewrite Hl.
  replace (length m + 16 - 16)%nat with (length m) by lia.
  rewrite take_app_length, drop_app_length, bool_decide_true; [done|].
  split; [lia|done].
Qed.

End Toy.

Definition toy_crypto : Crypto := {|
  blake2b := Toy.blake2b; x25519 := Toy.x25519; x25519_base := Toy.x25519_base;
  aead_encrypt := Toy.aead_encrypt; aead_decrypt := Toy.aead_decrypt;
  ed25519_pub := Toy.ed25519_pub; ed25519_sign := Toy.ed25519_sign;
  ed25519_verify := Toy.ed25519_verify; sha3_256 := Toy.blake2b 32;
  blake2b_keyed := fun n k m => Toy.blake2b n (k ++ m);
  secretbox := fun k n m => Toy.aead_encrypt k n [] m;
  secretbox_open := fun k n c => Toy.aead_decrypt k n [] c |}.

#[global] Instance toy_crypto_laws : CryptoLaws toy_crypto.
Proof.
  split; cbn [toy_crypto blake2b x25519 x25519_base aead_encrypt aead_decrypt
              ed25519_pub ed25519_sign ed25519_verify sha3_256 blake2b_keyed
              secretbox secretbox_open]; intros.
  - apply Toy.length_blake2b.
  - destruct p; [done|]. cbv [Toy.x25519] in H. by simplify_eq/=.
  - done.
  - unfold Toy.x25519, Toy.x25519_base. do 4 f_equal.
    pose proof (Toy.checksum_range a). pose proof (Toy.checksum_range b).
    rewrite !byte.unsigned_of_Z. unfold byte.wrap.
    rewrite !Z.mod_small by lia. lia.
  - by eapply Toy.aead_encrypt_length.
  - by apply Toy.aead_decrypt_encrypt.
  - unfold Toy.aead_decrypt in H. case_bool_decide as Hd; [|done].
    simplify_eq. rewrite length_take. lia.
  - by eexists.
  - apply Toy.length_blake2b.
  - apply Toy.length_blake2b.
  - unfold Toy.ed25519_verify, Toy.ed25519_sign. apply bytes_eqb_refl.
  - apply Toy.length_blake2b.
  - by eapply Toy.aead_encrypt_length.
  - by apply Toy.aead_decrypt_encrypt.
  - by eexists.
Qed.

Definition toy_keys : KeyCrypto := {|
  pwhash := fun p s => Some (Toy.blake2b 32 (p ++ s));
  kdf := fun i c k => Some (Toy.blake2b 32 (byte.of_Z i :: c ++ k));
  sha512 := Toy.blake2b 64;
  sk_to_pk := fun sk => Some (drop 32 sk);
  pk_to_curve := fun pk => Some (Toy.blake2b 32 pk);
  sk_to_curve := fun sk => Some (pad_to 32 sk) |}.

#[global] Instance toy_keys_laws : KeyCryptoLaws toy_keys.
Proof.
  split; intros; simplify_eq/=; by eexists || apply Toy.length_blake2b || apply length_pad_to.
Qed.
