(* ===== verification/Types.v ===== *)
(** * Data: include/types.h, include/common.h and include/state_machine.h

    One record per C struct, one inductive type per C enum.  A pointer that
    can be NULL is an [option]; a [char] array holding a C string is the
    string; a raw array is the list of its bytes; a [struct timespec] read
    only for its seconds is a number of seconds.  A field nothing in the
    modelled code reads or writes has no counterpart: the single-peer legacy
    fields of [app_state] and the linenoise editor's state. *)

From S2P Require Import Prelude.

(** ** Constants of include/common.h, include/noise.h, include/network.h *)

Definition NOX_KEY_LEN : Z := 32.
Definition NOX_MAC_LEN : Z := 16.
Definition NOX_MAX_MSG_LEN : Z := 4096.
Definition NOX_FRAME_MAGIC : Z := 0xDEADC0DE.
Definition NOX_ONION_LEN : Z := 62.
Definition NOX_ONION_B32_LEN : Z := 56.
Definition NOX_ONION_BODY_LEN : Z := 35.
Definition NOX_HS_PAYLOAD_V1_VER : byte := Byte.x01.
Definition NOX_HS_PAYLOAD_V1_LEN : Z := 127.
Definition NOX_CONTACT_NAME_LEN : Z := 64.
Definition NOX_HANDSHAKE_TIMEOUT_SEC : Z := 30.
Definition NOX_TOFU_TIMEOUT_SEC : Z := 120.
Definition NOX_FILE_CHUNK_TIMEOUT_SEC : Z := 60.
Definition NOX_PEER_IDLE_TIMEOUT_SEC : Z := 3600.
Definition NOX_HALFFRAME_TIMEOUT_SEC : Z := 60.
Definition NOX_MAX_PEERS : nat := 16.
Definition FRAME_HEADER_WIRE_SIZE : Z := 13.
Definition RECV_BUF_CAPACITY : Z := 13 + 4096 + NOX_MAC_LEN.
Definition TX_BUF_CAPACITY : Z := 13 + 4096 + NOX_MAC_LEN.
Definition NOISE_MAX_HANDSHAKE_LEN : Z := 256.
Definition NOISE_MAX_PAYLOAD_LEN : Z := NOX_MAX_MSG_LEN + NOX_MAC_LEN.

(** ** Peer states and events *)

Inductive peer_state_t :=
| ST_IDLE | ST_CONNECTING | ST_HANDSHAKE_INIT | ST_HANDSHAKE_RESP
| ST_TOFU_PENDING | ST_ACTIVE | ST_FILE_TX | ST_FILE_RX.

Inductive peer_event_t :=
| EV_CONNECT_CMD | EV_PEER_ACCEPTED | EV_HANDSHAKE_MSG | EV_HANDSHAKE_DONE
| EV_SESSION_READY | EV_TOFU_ACCEPTED | EV_TOFU_REJECTED
| EV_PEER_DISCONNECTED | EV_HANDSHAKE_TIMEOUT | EV_HANDSHAKE_ERROR
| EV_FILE_START | EV_FILE_RX_START | EV_FILE_DONE | EV_RATE_LIMIT
| EV_SEQ_MISMATCH | EV_ARENA_FAIL | EV_TOR_DIED.

#[global] Instance peer_state_eq_dec : EqDecision peer_state_t.
Proof. solve_decision. Defined.
#[global] Instance peer_event_eq_dec : EqDecision peer_event_t.
Proof. solve_decision. Defined.

(** ** Frames *)

(** [enum msg_type] as the byte on the wire. *)
Definition NOX_MSG_TEXT : Z := 1.
Definition NOX_MSG_FILE : Z := 2.
Definition NOX_MSG_ACK : Z := 3.
Definition NOX_MSG_CTRL : Z := 4.

Record frame_header := FrameHeader {
  fh_magic : Z;   (* uint32_t *)
  fh_type : Z;    (* uint8_t *)
  fh_seq : Z;     (* uint32_t *)
  fh_len : Z }.   (* uint32_t *)

(** ** Noise *)

Record noise_cipher_state := CipherState {
  cs_k : bytes;
  cs_n : Z;       (* _Atomic uint64_t *)
  cs_has_key : bool }.

Record noise_symmetric_state := SymmetricState {
  ss_ck : bytes;
  ss_h : bytes;
  ss_cs : noise_cipher_state }.

Record noise_handshake := Handshake {
  hs_ss : noise_symmetric_state;
  hs_s : bytes; hs_s_pub : bytes;
  hs_e : bytes; hs_e_pub : bytes;
  hs_rs : bytes; hs_re : bytes;
  hs_initiator : bool;
  hs_msg_index : Z;
  hs_split_done : bool;
  hs_failed : bool }.

Record noise_session := Session {
  ns_tx : noise_cipher_state;
  ns_rx : noise_cipher_state;
  ns_remote_static : bytes }.

#[global] Instance eta_cs : Eta noise_cipher_state :=
  fun r => CipherState (cs_k r) (cs_n r) (cs_has_key r).
#[global] Instance eta_ss : Eta noise_symmetric_state :=
  fun r => SymmetricState (ss_ck r) (ss_h r) (ss_cs r).
#[global] Instance eta_hs : Eta noise_handshake :=
  fun r => Handshake (hs_ss r) (hs_s r) (hs_s_pub r) (hs_e r) (hs_e_pub r)
    (hs_rs r) (hs_re r) (hs_initiator r) (hs_msg_index r) (hs_split_done r) (hs_failed r).
#[global] Instance eta_ns : Eta noise_session :=
  fun r => Session (ns_tx r) (ns_rx r) (ns_remote_static r).

(** [sizeof] of the two structs the code allocates (x86-64). *)
Definition SIZEOF_noise_session : Z := 128.
Definition SIZEOF_noise_handshake : Z := 384.

(** ** File transfer *)

Record file_rx_state := FileRx {
  rx_active : bool;
  rx_fd : Z;
  rx_filename : bytes;
  rx_expected_size : Z;    (* uint64_t *)
  rx_received_bytes : Z;   (* uint64_t *)
  rx_expected_hash : bytes;
  rx_hash_state : bytes;   (* the bytes hashed so far *)
  rx_last_chunk_ts : Z;
  rx_local_name : bytes }.

Record file_tx_state := FileTx {
  tx_active : bool;
  tx_fd : Z;
  tx_filename : bytes;
  tx_total_size : Z;       (* uint64_t *)
  tx_sent_bytes : Z;       (* uint64_t *)
  tx_hash : bytes;
  tx_plain_buf : option bytes;
  tx_buf : bytes;          (* the TX_BUF_CAPACITY bytes *)
  tx_len : Z;
  tx_offset : Z;
  tx_current_chunk_size : Z }.

#[global] Instance eta_rx : Eta file_rx_state :=
  fun r => FileRx (rx_active r) (rx_fd r) (rx_filename r) (rx_expected_size r)
    (rx_received_bytes r) (rx_expected_hash r) (rx_hash_state r)
    (rx_last_chunk_ts r) (rx_local_name r).
#[global] Instance eta_tx : Eta file_tx_state :=
  fun r => FileTx (tx_active r) (tx_fd r) (tx_filename r) (tx_total_size r)
    (tx_sent_bytes r) (tx_hash r) (tx_plain_buf r) (tx_buf r) (tx_len r)
    (tx_offset r) (tx_current_chunk_size r).

(** [sodium_memzero(&ps->rx_file, sizeof)] and its tx counterpart. *)
Definition rx_zero : file_rx_state :=
  FileRx false 0 [] 0 0 (zeros 32) [] 0 [].
Definition tx_zero : file_tx_state :=
  FileTx false 0 [] 0 0 (zeros 32) None (zeros (Z.to_nat TX_BUF_CAPACITY)) 0 0 0.

(** ** Peer session *)

Record peer_session := PeerSession {
  ps_peer_onion : bytes;
  ps_name : bytes;
  ps_fd : Z;
  ps_session : option noise_session;
  ps_hs : option noise_handshake;
  ps_handshake_start : Z;
  ps_tx_seq : Z;           (* uint32_t *)
  ps_rx_seq : Z;           (* uint32_t *)
  ps_queue_flushed : bool;
  ps_state : peer_state_t;
  ps_connect_target : bytes;
  ps_tofu_pending : bool;
  ps_tofu_peer_fd : Z;
  ps_tofu_new_key : bytes;
  ps_tofu_onion : bytes;
  ps_tofu_name : bytes;
  ps_tofu_start : Z;
  ps_tofu_was_zero_key : bool;
  ps_tofu_epoch : Z;       (* uint64_t *)
  ps_peer_verified : bool;
  ps_recv_buf : bytes;     (* the RECV_BUF_CAPACITY bytes *)
  ps_recv_pos : Z;
  ps_last_active : Z;
  ps_rx_file : file_rx_state;
  ps_tx_file : file_tx_state;
  ps_unread_count : Z }.

#[global] Instance eta_ps : Eta peer_session :=
  fun r => PeerSession (ps_peer_onion r) (ps_name r) (ps_fd r) (ps_session r)
    (ps_hs r) (ps_handshake_start r) (ps_tx_seq r) (ps_rx_seq r)
    (ps_queue_flushed r) (ps_state r) (ps_connect_target r) (ps_tofu_pending r)
    (ps_tofu_peer_fd r) (ps_tofu_new_key r) (ps_tofu_onion r) (ps_tofu_name r)
    (ps_tofu_start r) (ps_tofu_was_zero_key r) (ps_tofu_epoch r)
    (ps_peer_verified r) (ps_recv_buf r) (ps_recv_pos r) (ps_last_active r)
    (ps_rx_file r) (ps_tx_file r) (ps_unread_count r).


(** ** Application state *)

Inductive transport_type_t := TRANSPORT_DIRECT | TRANSPORT_SNOWFLAKE | TRANSPORT_OBFS4.

Record app_state := AppState {
  as_peers : list peer_session;
  as_active_peer_idx : Z;
  as_my_static_priv : option bytes;
  as_my_static_pub : option bytes;
  as_my_onion_seed : option bytes;
  as_db_key : option bytes;
  as_hs_attempt_count : Z;
  as_hs_window_start : Z;
  as_hs_inbound_count : Z;
  as_hs_inbound_window_start : Z;
  as_tor_ctrl_fd : Z;
  as_tor_pid : Z;
  as_onion_addr : bytes;
  as_epoll_fd : Z;
  as_listen_fd : Z;
  as_socks_path : bytes;
  as_running : bool;
  as_ghost_mode : bool;
  as_allow_unsandboxed_fs : bool;
  as_tofu_epoch : Z;         (* uint64_t *)
  as_tofu_prompt_epoch : Z;  (* uint64_t *)
  as_tofu_prompt_fp : bytes;
  as_active_peer_onion : bytes;
  as_config_dir_fd : Z;
  as_downloads_dir_fd : Z;
  as_config_dir : bytes;
  as_tor_data_dir : bytes;
  as_torrc_path : bytes;
  as_listen_path : bytes;
  as_transport_type : transport_type_t;
  as_obfs4_bridge_line : bytes;
  as_stdin_buf : option bytes;   (* the stdin_len bytes in use; None is NULL *)
  as_stdin_cap : Z;
  as_stdin_closed : bool;
  as_ln_active : bool }.

#[global] Instance eta_as : Eta app_state :=
  fun r => AppState (as_peers r) (as_active_peer_idx r) (as_my_static_priv r)
    (as_my_static_pub r) (as_my_onion_seed r) (as_db_key r)
    (as_hs_attempt_count r) (as_hs_window_start r) (as_hs_inbound_count r)
    (as_hs_inbound_window_start r) (as_tor_ctrl_fd r) (as_tor_pid r)
    (as_onion_addr r) (as_epoll_fd r) (as_listen_fd r) (as_socks_path r)
    (as_running r) (as_ghost_mode r) (as_allow_unsandboxed_fs r)
    (as_tofu_epoch r) (as_tofu_prompt_epoch r) (as_tofu_prompt_fp r)
    (as_active_peer_onion r) (as_config_dir_fd r) (as_downloads_dir_fd r)
    (as_config_dir r) (as_tor_data_dir r) (as_torrc_path r) (as_listen_path r)
    (as_transport_type r) (as_obfs4_bridge_line r)
    (as_stdin_buf r) (as_stdin_cap r) (as_stdin_closed r) (as_ln_active r).

(** A free peer slot as main.c initialises it. *)
Definition idle_peer : peer_session := {|
  ps_peer_onion := []; ps_name := []; ps_fd := -1; ps_session := None;
  ps_hs := None; ps_handshake_start := 0; ps_tx_seq := 0; ps_rx_seq := 0;
  ps_queue_flushed := false; ps_state := ST_IDLE; ps_connect_target := [];
  ps_tofu_pending := false; ps_tofu_peer_fd := -1;
  ps_tofu_new_key := zeros 32; ps_tofu_onion := []; ps_tofu_name := [];
  ps_tofu_start := 0; ps_tofu_was_zero_key := false; ps_tofu_epoch := 0;
  ps_peer_verified := false; ps_recv_buf := zeros (Z.to_nat RECV_BUF_CAPACITY);
  ps_recv_pos := 0; ps_last_active := 0;
  ps_rx_file := rx_zero;
  ps_tx_file := tx_zero; ps_unread_count := 0 |}.
