(* ===== verification/World.v ===== *)
(** * The state the program runs on

    [world] is everything the modelled code reads and writes: the application
    state, the database behind src/database.c and the history of calls to the
    environment.  A [struct peer_session *] is the index of a slot of
    [state->peers]. *)

From S2P Require Import Prelude Primitives Types.

(** ** The tables of contacts.db, as rows of blobs (db_init of src/database.c) *)

Record contact_row := ContactRow {
  cr_onion_hash : bytes; cr_nonce : bytes; cr_payload : bytes }.
Record queue_row := QueueRow {
  qr_id : Z; qr_recipient_hash : bytes; qr_nonce : bytes; qr_payload : bytes }.
Record message_row := MessageRow {
  mr_id : Z; mr_peer_hash : bytes; mr_nonce : bytes; mr_payload : bytes;
  mr_timestamp : Z; mr_is_outgoing : bool }.

(** [nox_db_state_t] and the file it is connected to. *)
Record db_state := DbState {
  db_ready : bool;
  db_key : option bytes;
  db_contacts : list contact_row;
  db_queue : list queue_row;          (* ascending ids *)
  db_queue_next : Z;                  (* next AUTOINCREMENT id of queue *)
  db_messages : list message_row;     (* ascending ids *)
  db_messages_next : Z }.

#[global] Instance eta_db : Eta db_state :=
  fun r => DbState (db_ready r) (db_key r) (db_contacts r) (db_queue r)
    (db_queue_next r) (db_messages r) (db_messages_next r).

Record world := World {
  w_app : app_state;
  w_db : db_state;
  w_tr : trace }.

#[global] Instance eta_world : Eta world := fun r => World (w_app r) (w_db r) (w_tr r).

(** ** Access *)

(** Run code that only talks to the environment. *)
Definition lift_tr {A} (m : St trace A) : St world A :=
  fun w => let '(a, tr) := m (w_tr w) in (a, w <| w_tr := tr |>).

Section Access.
Context `{OS}.

Definition call (c : syscall) : St world sysret := lift_tr (sys c).
Definition call_ (c : syscall) : St world unit := _ ← call c; mret tt.
Definition alloc (n : Z) : St world bool := lift_tr (malloc_ok n).
Definition ui (k : ui_kind) (s : String.string) : St world unit := call_ (Ui k s).

(** [clock_gettime(CLOCK_MONOTONIC, &ts)], in seconds. *)
Definition now_monotonic : St world Z := r ← call ClockMonotonic; mret (sr_ret r).

End Access.

Definition app {A} (f : app_state -> A) : St world A := gets (fun w => f (w_app w)).
Definition upd_app (f : app_state -> app_state) : St world unit :=
  modify (fun w => w <| w_app := f (w_app w) |>).
Definition upd_db (f : db_state -> db_state) : St world unit :=
  modify (fun w => w <| w_db := f (w_db w) |>).

Definition peer_at (i : nat) (a : app_state) : peer_session :=
  default idle_peer (as_peers a !! i).
Definition peer (i : nat) : St world peer_session := app (peer_at i).
Definition set_peer_at (i : nat) (p : peer_session) (a : app_state) : app_state :=
  a <| as_peers := <[i := p]> (as_peers a) |>.
Definition upd_peer (i : nat) (f : peer_session -> peer_session) : St world unit :=
  upd_app (fun a => set_peer_at i (f (peer_at i a)) a).

(** The slot [i] exists. *)
Definition has_peer (i : nat) (w : world) : Prop := (i < length (as_peers (w_app w)))%nat.

(** ** Lemmas *)

Lemma peer_at_set_eq i p a :
  (i < length (as_peers a))%nat -> peer_at i (set_peer_at i p a) = p.
Proof.
  intros Hi. unfold peer_at, set_peer_at. cbn. by rewrite list_lookup_insert_eq.
Qed.

Lemma peer_at_set_ne i j p a : i <> j -> peer_at j (set_peer_at i p a) = peer_at j a.
Proof.
  intros Hij. unfold peer_at, set_peer_at. cbn. by rewrite list_lookup_insert_ne.
Qed.

Lemma length_set_peer i p a : length (as_peers (set_peer_at i p a)) = length (as_peers a).
Proof. unfold set_peer_at. cbn. apply length_insert. Qed.

#[export] Hint Rewrite length_set_peer : nox.
Arguments peer_at : simpl never.
Arguments set_peer_at : simpl never.

(** ** Frame conditions

    [keeps π m]: running [m] does not change what [π] reads of the world.
    The rules below follow the structure of the code; [keep_code] applies
    them. *)

Definition keeps {A B} (π : world -> B) (m : St world A) : Prop :=
  forall w, π (m w).2 = π w.

(** [π] does not read the history of calls. *)
Class NoTrace {B} (π : world -> B) := no_trace w tr : π (w <| w_tr := tr |>) = π w.

#[global] Instance no_trace_app : NoTrace w_app.
Proof. done. Qed.
#[global] Instance no_trace_db : NoTrace w_db.
Proof. done. Qed.
#[global] Instance no_trace_app_part {B} (f : app_state -> B) : NoTrace (fun w => f (w_app w)).
Proof. done. Qed.

Section Keeps.
Context `{OS} {B : Type} (π : world -> B).

Lemma keeps_ret {A} (a : A) : keeps π (mret a).
Proof. done. Qed.
Lemma keeps_skip : keeps π skip.
Proof. done. Qed.
Lemma keeps_gets {A} (f : world -> A) : keeps π (gets f).
Proof. done. Qed.
Lemma keeps_bind {A C} (m : St world A) (k : A -> St world C) :
  keeps π m -> (forall a, keeps π (k a)) -> keeps π (mbind k m).
Proof. intros Hm Hk w. rewrite bind_eq. by rewrite Hk, Hm. Qed.
Lemma keeps_lift `{!NoTrace π} {A} (m : St trace A) : keeps π (lift_tr m).
Proof. intros w. unfold lift_tr. destruct (m (w_tr w)). cbn. apply no_trace. Qed.
Lemma keeps_call `{!NoTrace π} c : keeps π (call c).
Proof. by apply keeps_lift. Qed.
Lemma keeps_call_ `{!NoTrace π} c : keeps π (call_ c).
Proof. apply keeps_bind; [by apply keeps_call|done]. Qed.
Lemma keeps_ui `{!NoTrace π} k s : keeps π (ui k s).
Proof. by apply keeps_call_. Qed.
Lemma keeps_alloc `{!NoTrace π} n : keeps π (alloc n).
Proof. by apply keeps_lift. Qed.
Lemma keeps_now `{!NoTrace π} : keeps π now_monotonic.
Proof. apply keeps_bind; [by apply keeps_call|done]. Qed.

End Keeps.

Lemma keeps_app_upd_db f : keeps w_app (upd_db f).
Proof. done. Qed.
Lemma keeps_db_upd_app f : keeps w_db (upd_app f).
Proof. done. Qed.
Lemma keeps_db_upd_peer i f : keeps w_db (upd_peer i f).
Proof. done. Qed.
Lemma keeps_part {A B} (f : app_state -> B) (m : St world A) :
  keeps w_app m -> keeps (fun w => f (w_app w)) m.
Proof. intros Hm w. by rewrite Hm. Qed.

#[export] Hint Resolve keeps_ret keeps_skip keeps_gets keeps_lift keeps_call keeps_call_
  keeps_ui keeps_alloc keeps_now keeps_app_upd_db keeps_db_upd_app keeps_db_upd_peer : keeps.

Ltac keep_code :=
  repeat lazymatch goal with
  | |- keeps _ (mbind _ _) => apply keeps_bind; [|intros]
  | |- keeps _ (match _ with _ => _ end) => case_match
  | |- keeps _ _ =>
      first [ solve [eauto with keeps typeclass_instances] | progress cbv beta zeta
            | apply keeps_bind; [|intros] ]
  end.

(** [within R m]: [m] moves the world along the preorder [R]. *)
Definition within {A} (R : relation world) (m : St world A) : Prop := forall w, R w (m w).2.

Section Within.
Context (R : relation world) `{!PreOrder R}.

Lemma within_ret {A} (a : A) : within R (mret a).
Proof. intros w. reflexivity. Qed.
Lemma within_skip : within R skip.
Proof. intros w. reflexivity. Qed.
Lemma within_gets {A} (f : world -> A) : within R (gets f).
Proof. intros w. reflexivity. Qed.
Lemma within_bind {A C} (m : St world A) (k : A -> St world C) :
  within R m -> (forall a, within R (k a)) -> within R (mbind k m).
Proof. intros Hm Hk w. rewrite bind_eq. etransitivity; [apply Hm|apply Hk]. Qed.

End Within.

(** Follow the code; [leaf] proves the calls and the updates. *)
Ltac within_code leaf :=
  repeat lazymatch goal with
  | |- within _ (mbind _ _) => apply (within_bind _); [|intros]
  | |- within _ (mret _) => apply (within_ret _)
  | |- within _ skip => apply (within_skip _)
  | |- within _ (gets _) => apply (within_gets _)
  | |- within _ (match _ with _ => _ end) => case_match
  | |- within _ _ => first [ solve [leaf] | progress cbv beta zeta ]
  end.

(** [slot_rel r i]: slot [i] still exists and moved along [r]. *)
Definition slot_rel (r : relation peer_session) (i : nat) (w w' : world) : Prop :=
  has_peer i w -> has_peer i w' /\ r (peer_at i (w_app w)) (peer_at i (w_app w')).

#[global] Instance slot_rel_preorder r i : PreOrder r -> PreOrder (slot_rel r i).
Proof.
  intros Hr. split.
  - intros w Hi. split; [done|reflexivity].
  - intros x y z H1 H2 Hi. destruct (H1 Hi) as [Hy R1]. destruct (H2 Hy) as [Hz R2].
    split; [done|]. by etransitivity.
Qed.

Lemma slot_rel_app r i {A} (m : St world A) `{!Reflexive r} :
  keeps w_app m -> within (slot_rel r i) m.
Proof. intros Hm w Hi. unfold has_peer. rewrite Hm. by split. Qed.

Lemma slot_rel_upd_peer (r : relation peer_session) i f :
  (forall p, r p (f p)) -> within (slot_rel r i) (upd_peer i f).
Proof.
  intros Hf w Hi. unfold has_peer. cbn. rewrite length_set_peer, peer_at_set_eq by done.
  split; [done|apply Hf].
Qed.

Lemma slot_rel_upd_app (r : relation peer_session) i f `{!Reflexive r} :
  (forall a, as_peers (f a) = as_peers a) -> within (slot_rel r i) (upd_app f).
Proof.
  intros Hf w Hi. unfold has_peer, peer_at. cbn. rewrite Hf. by split.
Qed.

(** ** Hoare triples *)

Definition hoare {A} (P : world -> Prop) (m : St world A) (Q : A -> world -> Prop) : Prop :=
  forall w, P w -> Q (m w).1 (m w).2.

Lemma hoare_ret {A} (P : world -> Prop) (a : A) (Q : A -> world -> Prop) :
  (forall w, P w -> Q a w) -> hoare P (mret a) Q.
Proof. intros H w Hw. by apply H. Qed.

Lemma hoare_bind {A B} P (m : St world A) R (k : A -> St world B) Q :
  hoare P m R -> (forall a, hoare (R a) (k a) Q) -> hoare P (mbind k m) Q.
Proof. intros Hm Hk w Hw. rewrite bind_eq. apply Hk, Hm, Hw. Qed.

(** A step that keeps the precondition. *)
Lemma hoare_keep {A B} P (m : St world A) (k : A -> St world B) Q :
  hoare P m (fun _ => P) -> (forall a, hoare P (k a) Q) -> hoare P (mbind k m) Q.
Proof. intros Hm Hk. by apply (hoare_bind P m (fun _ => P)). Qed.

(** A read. *)
Lemma hoare_gets {A B} P (f : world -> A) (k : A -> St world B) Q :
  (forall a, hoare (fun w => P w /\ a = f w) (k a) Q) -> hoare P (mbind k (gets f)) Q.
Proof. intros Hk w Hw. rewrite bind_eq. by apply (Hk (f w)). Qed.

Lemma hoare_read {A B} P (f : world -> A) (k : A -> St world B) Q :
  (forall a, hoare P (k a) Q) -> hoare P (mbind k (gets f)) Q.
Proof. intros Hk w Hw. rewrite bind_eq. by apply Hk. Qed.

Lemma hoare_weaken {A} (P P' : world -> Prop) (m : St world A) (Q Q' : A -> world -> Prop) :
  hoare P' m Q' -> (forall w, P w -> P' w) -> (forall a w, Q' a w -> Q a w) -> hoare P m Q.
Proof. intros H HP HQ w Hw. apply HQ, H, HP, Hw. Qed.

Lemma hoare_pure {A} (φ : Prop) P (m : St world A) Q :
  (φ -> hoare P m Q) -> hoare (fun w => P w /\ φ) m Q.
Proof. intros H w [Hw Hφ]. by apply H. Qed.

Lemma peer_at_upd i f w :
  has_peer i w -> peer_at i (w_app (upd_peer i f w).2) = f (peer_at i (w_app w)).
Proof. intros Hi. cbn. by rewrite peer_at_set_eq. Qed.

(** The number of slots never changes. *)
Definition n_peers (w : world) : nat := length (as_peers (w_app w)).

#[global] Instance no_trace_n_peers : NoTrace n_peers.
Proof. done. Qed.

Lemma keeps_n_peers_upd i f : keeps n_peers (upd_peer i f).
Proof. intros w. unfold n_peers. cbn. apply length_insert. Qed.
#[export] Hint Resolve keeps_n_peers_upd : keeps.

Lemma has_peer_keeps {A} i (m : St world A) w :
  keeps n_peers m -> has_peer i w -> has_peer i (m w).2.
Proof. intros Hm Hi. unfold has_peer. pose proof (Hm w) as E. unfold n_peers in E. by rewrite E. Qed.

(** Read slots through updates of other fields and through [set_peer_at]. *)
Lemma set_peer_at_twice i p q a :
  set_peer_at i q (set_peer_at i p a) = set_peer_at i q a.
Proof. unfold set_peer_at. destruct a. cbv [set_field]. cbn. f_equal. apply list_insert_insert_eq. Qed.

Lemma app_ui `{OS} k s w : w_app (ui k s w).2 = w_app w.
Proof. done. Qed.
Lemma app_call_ `{OS} c w : w_app (call_ c w).2 = w_app w.
Proof. done. Qed.

Lemma app_now `{OS} w : w_app (now_monotonic w).2 = w_app w.
Proof. done. Qed.
Lemma app_call `{OS} c w : w_app (call c w).2 = w_app w.
Proof. done. Qed.

Lemma tr_ui `{OS} k s w : w_tr (ui k s w).2 = Ui k s :: w_tr w.
Proof. done. Qed.
Lemma tr_call_ `{OS} c w : w_tr (call_ c w).2 = c :: w_tr w.
Proof. done. Qed.

Ltac norm_peers :=
  repeat first
    [ rewrite app_ui | rewrite app_call_ | rewrite app_call | rewrite app_now | match goal with
      | |- context [peer_at ?i (@set_field ?R ?E ?q ?s ?g ?a)] =>
          change (peer_at i (@set_field R E q s g a)) with (peer_at i a)
      | |- context [as_peers (@set_field ?R ?E ?q ?s ?g ?a)] =>
          change (as_peers (@set_field R E q s g a)) with (as_peers a)
      | |- context [w_app (@set_field ?R ?E ?q ?s ?g ?a)] =>
          let x := eval cbn in (w_app (@set_field R E q s g a)) in
          change (w_app (@set_field R E q s g a)) with x
      end
    | rewrite set_peer_at_twice
    | rewrite length_set_peer
    | rewrite peer_at_set_eq by (rewrite ?length_set_peer; assumption)
    | rewrite peer_at_set_ne by congruence ].

(** ** A concrete world for the witnesses: sixteen free slots, an open
    database with a key, no call made yet *)

Definition boot_app : app_state := {|
  as_peers := replicate NOX_MAX_PEERS idle_peer; as_active_peer_idx := -1;
  as_my_static_priv := Some (replicate 32 Byte.x11);
  as_my_static_pub := Some (replicate 32 Byte.x12);
  as_my_onion_seed := Some (replicate 32 Byte.x13);
  as_db_key := Some (replicate 32 Byte.x14);
  as_hs_attempt_count := 0; as_hs_window_start := 0;
  as_hs_inbound_count := 0; as_hs_inbound_window_start := 0;
  as_tor_ctrl_fd := 4; as_tor_pid := 100; as_onion_addr := [];
  as_epoll_fd := 3; as_listen_fd := 5; as_socks_path := lit "/tmp/s";
  as_running := true; as_ghost_mode := false; as_allow_unsandboxed_fs := false;
  as_tofu_epoch := 0; as_tofu_prompt_epoch := 0; as_tofu_prompt_fp := zeros 32;
  as_active_peer_onion := []; as_config_dir_fd := 6; as_downloads_dir_fd := 7;
  as_config_dir := lit "/home/u/.nox"; as_tor_data_dir := []; as_torrc_path := [];
  as_listen_path := []; as_transport_type := TRANSPORT_DIRECT; as_obfs4_bridge_line := [];
  as_stdin_buf := None; as_stdin_cap := 0; as_stdin_closed := false; as_ln_active := false |}.

Definition boot_db : db_state :=
  DbState true (Some (replicate 32 Byte.x14)) [] [] 1 [] 1.

Definition boot : world := World boot_app boot_db [].

(** [boot] with slot 0 changed. *)
Definition boot_with (p : peer_session) : world :=
  boot <| w_app := set_peer_at 0 p boot_app |>.

Lemma boot_has_peer p : has_peer 0 (boot_with p).
Proof. vm_compute. lia. Defined.
