(* ===== verification/Arena.v ===== *)
(** * The secure arena: src/arena.c

    Key material lives in one private mapping: a guard page, the usable area
    served by a bump allocator, a random canary, a guard page.  The state is
    [struct secure_arena], the bytes of the mapping (from [base], the guard
    pages included), the protected ranges and the history of calls.  Code that
    calls abort() ends in [Abort]; the state then is the one the process dies
    with.  Addresses and sizes are 64-bit [size_t] values. *)

From S2P Require Import Prelude Primitives.

Definition SIZE_MAX : Z := 2 ^ 64 - 1.
Definition NOX_CANARY_LEN : Z := 16.
Definition NOX_ARENA_DEFAULT_SIZE : Z := 64 * 1024.
Definition MAX_WIPE : Z := 256 * 1024 * 1024.
Definition PROT_NONE : Z := 0.
Definition MADV_DONTFORK : Z := 10.
Definition MADV_DONTDUMP : Z := 16.

Record secure_arena := SecureArena {
  ar_base : Z;                        (* 0 is NULL *)
  ar_total_size : Z;
  ar_usable_size : Z;
  ar_offset : Z;
  ar_page_size : Z;
  ar_fork_safe : bool;
  ar_dump_safe : bool;
  ar_locked : bool;
  ar_canary : bytes }.

#[global] Instance eta_arena : Eta secure_arena :=
  fun r => SecureArena (ar_base r) (ar_total_size r) (ar_usable_size r) (ar_offset r)
    (ar_page_size r) (ar_fork_safe r) (ar_dump_safe r) (ar_locked r) (ar_canary r).

(** [sodium_memzero(a, sizeof( *a))] *)
Definition zero_arena : secure_arena :=
  SecureArena 0 0 0 0 0 false false false (zeros 16).

Record machine := Machine {
  m_arena : secure_arena;
  m_map : option bytes;               (* the mapping, if there is one *)
  m_guards : list (Z * Z);            (* PROT_NONE ranges: offset and length *)
  m_freed : option bytes;             (* what the mapping held when it was unmapped *)
  m_tr : trace }.

#[global] Instance eta_machine : Eta machine :=
  fun r => Machine (m_arena r) (m_map r) (m_guards r) (m_freed r) (m_tr r).

(** ** Code that may abort *)

Inductive result (A : Type) := Return (a : A) | Abort.
Arguments Return {A} a.
Arguments Abort {A}.

Definition AM (A : Type) : Type := machine -> result A * machine.

#[global] Instance AM_ret : MRet AM := fun A a m => (Return a, m).
#[global] Instance AM_bind : MBind AM := fun A B k c m =>
  match c m with
  | (Return a, m') => k a m'
  | (Abort, m') => (Abort, m')
  end.

Definition abort {A} : AM A := fun m => (Abort, m).
Definition read {A} (f : machine -> A) : AM A := fun m => (Return (f m), m).
Definition change (f : machine -> machine) : AM unit := fun m => (Return tt, f m).
Definition set_arena (f : secure_arena -> secure_arena) : AM unit :=
  change (fun m => m <| m_arena := f (m_arena m) |>).

(** ** Memory, by offset from [base] *)

Definition mem_read (off n : Z) (b : bytes) : bytes :=
  take (Z.to_nat n) (drop (Z.to_nat off) b).
Definition mem_write (off : Z) (v b : bytes) : bytes :=
  take (Z.to_nat off) b ++ v ++ drop (Z.to_nat off + length v) b.

Definition mapping (m : machine) : bytes := default [] (m_map m).
Definition peek (off n : Z) : AM bytes := read (fun m => mem_read off n (mapping m)).
Definition poke (off : Z) (v : bytes) : AM unit :=
  change (fun m => m <| m_map := mem_write off v <$> m_map m |>).
(** [sodium_memzero] of a range *)
Definition wipe (off n : Z) : AM unit := poke off (zeros (Z.to_nat n)).

(** A store of the program through a pointer: outside the mapping or inside a
    guard page it is a SIGSEGV. *)
Definition touches (off n : Z) (g : Z * Z) : bool :=
  (off <? g.1 + g.2) && (g.1 <? off + n).
Definition store (addr : Z) (v : bytes) : AM unit :=
  m ← read id;
  let off := addr - ar_base (m_arena m) in
  if (off <? 0) || (len (mapping m) <? off + len v) || existsb (touches off (len v)) (m_guards m)
  then abort else poke off v.

Section Arena.
Context `{OS}.

Definition acall (c : syscall) : AM sysret :=
  fun m => (Return (os_answer (m_tr m) c), m <| m_tr := c :: m_tr m |>).

(** [munmap]: on success the mapping is gone; what it held is remembered. *)
Definition unmap (n : Z) : AM sysret :=
  r ← acall (Munmap n);
  _ ← (if sr_ret r =? 0
       then change (fun m => m <| m_freed := m_map m |> <| m_map := None |> <| m_guards := [] |>)
       else change id);
  mret r.

(** [randombytes_buf(p, n)]: exactly n bytes. *)
Definition random_into (n : Z) : AM bytes :=
  r ← acall (RandomBytes n); mret (pad_to (Z.to_nat n) (sr_data r)).

Definition get_page_size : AM Z :=
  r ← acall Sysconf;
  mret (if sr_ret r <=? 0 then 0 else sr_ret r).

Definition page_align (size page_size : Z) : Z :=
  if (page_size =? 0) || negb (Z.land page_size (page_size - 1) =? 0) then 0
  else if SIZE_MAX - (page_size - 1) <? size then 0
  else Z.land (u64 (size + page_size - 1)) (u64 (Z.lnot (page_size - 1))).

Definition arena_is_valid (a : secure_arena) : bool :=
  if (ar_base a =? 0) || (ar_page_size a =? 0) then false
  else if negb (Z.land (ar_page_size a) (ar_page_size a - 1) =? 0) then false
  else if negb (ar_base a mod ar_page_size a =? 0) then false
  else if (ar_usable_size a =? 0) || (ar_total_size a <=? ar_usable_size a) then false
  else if SIZE_MAX / 2 <? ar_page_size a then false
  else
    let guard_total := 2 * ar_page_size a in
    if ar_total_size a <? guard_total then false
    else if SIZE_MAX - NOX_CANARY_LEN <? ar_usable_size a then false
    else
      let usable := ar_usable_size a + NOX_CANARY_LEN in
      if negb (usable mod ar_page_size a =? 0) then false
      else if SIZE_MAX - guard_total <? usable then false
      else if negb (ar_total_size a =? usable + guard_total) then false
      else if ar_usable_size a <? ar_offset a then false
      else Z.land (ar_offset a) 15 =? 0.

(** The bounded wipe of the usable area and the canary that precedes the end. *)
Definition wipe_usable : AM unit :=
  a ← read m_arena;
  let n := ar_usable_size a + NOX_CANARY_LEN in
  let n := if MAX_WIPE <? n then MAX_WIPE else n in
  if ar_page_size a + n <=? ar_total_size a then wipe (ar_page_size a) n else mret tt.

Definition secure_abort {A} (msg : String.string) : AM A :=
  _ ← acall (Stderr msg);
  a ← read m_arena;
  _ ← (if arena_is_valid a then wipe_usable else mret tt);
  abort.

(** Give the mapping back and clear the struct: the exits of arena_init after
    mmap. *)
Definition init_fail (total : Z) : AM nox_err :=
  _ ← unmap total;
  _ ← set_arena (fun _ => zero_arena);
  mret NOX_ERR_ALLOC.

(** Fill the struct and write the canary behind the usable area. *)
Definition init_finish (base page_size usable total : Z) : AM nox_err :=
  _ ← set_arena (fun a =>
        a <| ar_base := base |> <| ar_total_size := total |>
          <| ar_usable_size := usable - NOX_CANARY_LEN |> <| ar_offset := 0 |>
          <| ar_page_size := page_size |> <| ar_locked := true |>);
  canary ← random_into NOX_CANARY_LEN;
  _ ← set_arena (fun a => a <| ar_canary := canary |>);
  _ ← poke (page_size + (usable - NOX_CANARY_LEN)) canary;
  mret NOX_OK.

(** The advice and the guard pages. *)
Definition init_protect (base page_size usable total : Z) : AM nox_err :=
  _ ← set_arena (fun a => a <| ar_fork_safe := false |> <| ar_dump_safe := false |>);
  r ← acall (Madvise MADV_DONTFORK);
  _ ← set_arena (fun a => a <| ar_fork_safe := sr_ret r =? 0 |>);
  r ← acall (Madvise MADV_DONTDUMP);
  _ ← set_arena (fun a => a <| ar_dump_safe := sr_ret r =? 0 |>);
  r ← acall (Mprotect 0 page_size PROT_NONE);
  if negb (sr_ret r =? 0) then init_fail total
  else
    _ ← change (fun m => m <| m_guards := (0, page_size) :: m_guards m |>);
    r ← acall (Mprotect (page_size + usable) page_size PROT_NONE);
    if negb (sr_ret r =? 0) then init_fail total
    else
      _ ← change (fun m => m <| m_guards := (page_size + usable, page_size) :: m_guards m |>);
      init_finish base page_size usable total.

(** NOX_ARENA_STRICT_LOCK is defined: a failed mlock ends the set-up. *)
Definition init_map (page_size usable total : Z) : AM nox_err :=
  r ← acall (Mmap total);
  let base := sr_ret r in
  if base =? -1 then mret NOX_ERR_ALLOC
  else
    _ ← change (fun m => m <| m_map := Some (zeros (Z.to_nat total)) |> <| m_guards := [] |>);
    r ← acall (Mlock usable);
    if negb (sr_ret r =? 0) then init_fail total
    else init_protect base page_size usable total.

Definition arena_init (size : Z) : AM nox_err :=
  if size =? 0 then mret NOX_ERR_ALLOC
  else
    r ← acall SodiumInit;
    if sr_ret r <? 0 then mret NOX_ERR_ALLOC
    else
      page_size ← get_page_size;
      if page_size =? 0 then mret NOX_ERR_ALLOC
      else if SIZE_MAX - NOX_CANARY_LEN <? size then mret NOX_ERR_ALLOC
      else
        let usable := page_align (size + NOX_CANARY_LEN) page_size in
        if usable =? 0 then mret NOX_ERR_ALLOC
        else if u64 (SIZE_MAX - 2 * page_size) <? usable then mret NOX_ERR_ALLOC
        else init_map page_size usable (u64 (page_size + usable + page_size)).

(** The canary lies in the mapping, below the upper guard page. *)
Definition canary_in_mapping (a : secure_arena) : bool :=
  ar_usable_size a + NOX_CANARY_LEN + ar_page_size a + ar_page_size a <=? ar_total_size a.

Definition canary_intact : AM bool :=
  a ← read m_arena;
  c ← peek (ar_page_size a + ar_usable_size a) NOX_CANARY_LEN;
  mret (bytes_eqb c (ar_canary a)).

Definition arena_check_canary : AM unit :=
  a ← read m_arena;
  if ar_base a =? 0 then mret tt
  else if negb (arena_is_valid a) then secure_abort "arena struct corrupt"
  else if negb (canary_in_mapping a) then secure_abort "canary outside the mapping"
  else
    ok ← canary_intact;
    if negb ok then secure_abort "arena canary corrupt" else mret tt.

Definition align16 (size : Z) : Z := Z.land (size + 15) (u64 (Z.lnot 15)).

(** The address of the block, 0 for NULL. *)
Definition arena_alloc (size : Z) : AM Z :=
  a ← read m_arena;
  if (ar_base a =? 0) || (size =? 0) then mret 0
  else
    _ ← arena_check_canary;
    if ar_usable_size a <? ar_offset a then abort
    else if SIZE_MAX - 15 <? size then mret 0
    else
      let aligned_size := align16 size in
      if SIZE_MAX - ar_offset a <? aligned_size then mret 0
      else if ar_usable_size a <? ar_offset a + aligned_size then mret 0
      else
        let ptr := ar_base a + ar_page_size a + ar_offset a in
        _ ← set_arena (fun a => a <| ar_offset := ar_offset a + aligned_size |>);
        mret ptr.

Definition arena_alloc_canary (size : Z) : AM Z :=
  ptr ← arena_alloc size;
  if ptr =? 0 then mret 0
  else
    v ← random_into size;
    _ ← store ptr v;
    mret ptr.

Definition arena_destroy : AM unit :=
  a ← read m_arena;
  if ar_base a =? 0 then mret tt
  else if negb (arena_is_valid a) then _ ← acall (Stderr "arena struct corrupt"); abort
  else
    canary_ok ← (if negb (canary_in_mapping a)
                 then _ ← acall (Stderr "canary outside the mapping"); mret false
                 else canary_intact);
    _ ← (if negb canary_ok then _ ← acall (Stderr "arena canary corrupt"); mret tt else mret tt);
    _ ← wipe_usable;
    _ ← unmap (ar_total_size a);
    _ ← set_arena (fun _ => zero_arena);
    if negb canary_ok then abort else mret tt.

Definition arena_bytes_used (a : secure_arena) : Z := ar_offset a.
Definition arena_bytes_free (a : secure_arena) : Z :=
  if ar_usable_size a <? ar_offset a then 0 else ar_usable_size a - ar_offset a.
Definition arena_save (a : secure_arena) : Z := ar_offset a.

Definition arena_restore (saved_offset : Z) : AM unit :=
  a ← read m_arena;
  if ar_base a =? 0 then mret tt
  else
    _ ← arena_check_canary;
    if ar_usable_size a <? ar_offset a then secure_abort "arena offset corrupt"
    else if ar_usable_size a <? saved_offset then mret tt
    else if negb (saved_offset mod 16 =? 0) then mret tt
    else if ar_offset a <? saved_offset then mret tt
    else if saved_offset =? ar_offset a then mret tt
    else
      _ ← wipe (ar_page_size a + saved_offset) (ar_offset a - saved_offset);
      set_arena (fun a => a <| ar_offset := saved_offset |>).

End Arena.
