(* ===== verification/ArenaProofs.v ===== *)
(** * The secure arena implements a stack of zeroed bytes

    The specification of the arena is a byte string that grows at its end by
    zeros, shrinks back to a saved length and can be written inside.  The
    allocator, the canary and the wipes implement it: see [arena_refines]. *)

From S2P Require Import Prelude Primitives Arena.

#[local] Arguments Z.land : simpl never.
#[local] Arguments Z.mul : simpl never.

(** ** Rounding with masks *)

Lemma pow2_of_land p : 0 < p -> Z.land p (p - 1) = 0 -> p = 2 ^ Z.log2 p.
Proof.
  intros Hp Hl. pose proof (Z.log2_spec p Hp) as [Hlo Hhi].
  destruct (decide (p = 2 ^ Z.log2 p)) as [|Hne]; [done|exfalso].
  assert (0 <= Z.log2 p) by apply Z.log2_nonneg.
  assert (Z.log2 (p - 1) = Z.log2 p) as El.
  { apply Z.log2_unique; [lia|]. rewrite <-Z.add_1_r in *. lia. }
  assert (0 < p - 1) by (pose proof (Z.pow_pos_nonneg 2 (Z.log2 p)); lia).
  pose proof (Z.bit_log2 p Hp) as B1. pose proof (Z.bit_log2 (p - 1)) as B2.
  rewrite El in B2. pose proof (Z.land_spec p (p - 1) (Z.log2 p)) as B.
  rewrite Hl, B1, B2, Z.bits_0 in B by lia. done.
Qed.

(** Clearing the low k bits of a 64-bit value. *)
Lemma clear_low k x :
  0 <= k < 64 -> 0 <= x < 2 ^ 64 ->
  Z.land x (u64 (Z.lnot (2 ^ k - 1))) = x / 2 ^ k * 2 ^ k.
Proof.
  intros Hk Hx. rewrite <-Z.shiftr_div_pow2, <-Z.shiftl_mul_pow2 by lia.
  rewrite <-Z.ldiff_ones_r by lia. apply Z.bits_inj'. intros i Hi.
  unfold u64. rewrite Z.land_spec, Z.ldiff_spec.
  destruct (decide (i < 64)).
  - rewrite Z.mod_pow2_bits_low, Z.lnot_spec by lia. do 3 f_equal.
    rewrite Z.ones_equiv. done.
  - rewrite (testbit_above 64 x i) by lia. done.
Qed.

Lemma page_align_spec size k :
  0 <= k < 64 -> 0 <= size <= SIZE_MAX - (2 ^ k - 1) ->
  page_align size (2 ^ k) = (size + 2 ^ k - 1) / 2 ^ k * 2 ^ k.
Proof.
  intros Hk Hs. unfold page_align, SIZE_MAX in *.
  assert (0 < 2 ^ k) by (apply Z.pow_pos_nonneg; lia).
  assert (Z.land (2 ^ k) (2 ^ k - 1) = 0) as ->.
  { rewrite Z.sub_1_r, <-Z.ones_equiv, Z.land_ones by lia.
    apply Z.mod_same. lia. }
  rewrite (proj2 (Z.eqb_neq (2 ^ k) 0)), (proj2 (Z.ltb_ge _ _)) by lia. cbn [negb orb Z.eqb].
  unfold u64 at 1. rewrite Z.mod_small by lia.
  replace (size + 2 ^ k - 1) with (size + (2 ^ k - 1)) by lia.
  by rewrite clear_low by lia.
Qed.

(** When it is not 0, [page_align] is a multiple of the page size above size. *)
Lemma page_align_nonzero size ps :
  0 <= size -> 0 < ps <= SIZE_MAX -> page_align size ps <> 0 ->
  Z.land ps (ps - 1) = 0 /\ page_align size ps mod ps = 0 /\ size <= page_align size ps.
Proof.
  intros Hs Hp Hn. pose proof Hn as Hn'. unfold page_align in Hn'.
  destruct (_ || _) eqn:E1; [done|]. destruct (_ <? size) eqn:E2; [done|]. clear Hn'.
  assert (Z.land ps (ps - 1) = 0) as Hl by lia. split; [done|].
  pose proof (pow2_of_land ps ltac:(lia) Hl) as Hk. pose proof (Z.log2_nonneg ps).
  assert (Z.log2 ps < 64) by (apply Z.log2_lt_pow2; unfold SIZE_MAX in *; lia).
  revert Hk. generalize dependent (Z.log2 ps). intros k Hk0 Hk64 ->. clear Hl E1 Hn.
  rewrite page_align_spec by lia.
  pose proof (Z.div_mod (size + 2 ^ k - 1) (2 ^ k)).
  pose proof (Z.mod_pos_bound (size + 2 ^ k - 1) (2 ^ k)).
  split; [apply Z.mod_mul; lia|lia].
Qed.

(** The least multiple of 16 that is not below n. *)
Definition round16 (n : Z) : Z := (n + 15) / 16 * 16.

Lemma align16_spec n : 0 <= n <= SIZE_MAX - 15 -> align16 n = round16 n.
Proof.
  intros Hn. unfold align16, round16, SIZE_MAX in *.
  change 15 with (2 ^ 4 - 1) at 2. rewrite clear_low by lia. done.
Qed.

Lemma round16_bounds n : n <= round16 n < n + 16 /\ round16 n mod 16 = 0.
Proof.
  unfold round16. pose proof (Z.mod_pos_bound (n + 15) 16). pose proof (Z.div_mod (n + 15) 16).
  split; [lia|]. apply Z.mod_mul. lia.
Qed.

Lemma land15_mod x : 0 <= x -> Z.land x 15 = x mod 16.
Proof. intros. change 15 with (Z.ones 4). by rewrite Z.land_ones. Qed.

(** ** Memory *)

Lemma mem_read_mid x y z off n :
  len x = off -> len y = n -> mem_read off n (x ++ y ++ z) = y.
Proof.
  unfold mem_read, len. intros <- <-. rewrite !Nat2Z.id.
  by rewrite drop_app_length, take_app_length.
Qed.

Lemma mem_write_mid x y z v off :
  len x = off -> len y = len v -> mem_write off v (x ++ y ++ z) = x ++ v ++ z.
Proof.
  unfold mem_write, len. intros <- Hy. rewrite !Nat2Z.id, take_app_length.
  rewrite <-drop_drop, drop_app_length. replace (length v) with (length y) by lia.
  by rewrite drop_app_length.
Qed.

Lemma mem_write_length off v b :
  0 <= off -> off + len v <= len b -> length (mem_write off v b) = length b.
Proof.
  unfold mem_write, len. intros. rewrite !length_app, length_take, length_drop. lia.
Qed.

Lemma mem_read_write off v b :
  0 <= off -> off + len v <= len b -> mem_read off (len v) (mem_write off v b) = v.
Proof.
  intros. unfold mem_write. apply mem_read_mid; [|done].
  unfold len in *. rewrite length_take. lia.
Qed.

Lemma zeros_app n k : zeros n ++ zeros k = zeros (n + k).
Proof. unfold zeros. by rewrite replicate_add. Qed.

Lemma len_app {A} (x y : list A) : len (x ++ y) = len x + len y.
Proof. unfold len. rewrite length_app. lia. Qed.

Lemma len_zeros n : 0 <= n -> len (zeros (Z.to_nat n)) = n.
Proof. unfold len. rewrite length_zeros. lia. Qed.

(** ** What a valid struct says *)

Record arena_ok (a : secure_arena) : Prop := {
  ok_base : 0 < ar_base a;
  ok_page : 0 < ar_page_size a;
  ok_usable : 0 < ar_usable_size a;
  ok_total : ar_total_size a = ar_usable_size a + 16 + 2 * ar_page_size a;
  ok_max : ar_total_size a <= SIZE_MAX;
  ok_offset : 0 <= ar_offset a <= ar_usable_size a;
  ok_aligned : ar_offset a mod 16 = 0;
  ok_valid : arena_is_valid a = true }.

(** The fields are [size_t] values. *)
Definition unsigned_fields (a : secure_arena) : Prop :=
  0 <= ar_base a /\ 0 <= ar_page_size a /\ 0 <= ar_usable_size a /\ 0 <= ar_offset a.

Lemma valid_ok a : unsigned_fields a -> arena_is_valid a = true -> arena_ok a.
Proof.
  intros (Hb & Hp & Hu & Ho) Hv. pose proof Hv as Hv'. unfold arena_is_valid, NOX_CANARY_LEN in Hv.
  repeat match type of Hv with (if ?c then false else _) = true =>
    destruct c eqn:?; [discriminate Hv|] end.
  rewrite land15_mod in Hv by done. split; done || lia.
Qed.

(** Moving the offset keeps the struct valid. *)
Lemma valid_set_offset a o :
  arena_is_valid a = true -> 0 <= o <= ar_usable_size a -> o mod 16 = 0 ->
  arena_is_valid (a <| ar_offset := o |>) = true.
Proof.
  unfold arena_is_valid. cbn. intros Hv Ho Hm.
  repeat (case_match; try done); [lia|]. rewrite land15_mod by lia. lia.
Qed.

(** ** The specification: a stack of bytes *)

Inductive op := OpAlloc (n : Z) | OpHoney (n : Z) | OpStore (addr : Z) (v : bytes) | OpRestore (s : Z).

Section Spec.
Variables (start cap : Z).   (* address and size of the usable area *)

Definition fits (n : Z) (used : bytes) : Prop := 0 < n /\ len used + round16 n <= cap.

Inductive spec_step : bytes -> op -> Z -> bytes -> Prop :=
| spec_alloc n used : fits n used ->
    spec_step used (OpAlloc n) (start + len used) (used ++ zeros (Z.to_nat (round16 n)))
| spec_alloc_full n used : ~ fits n used -> spec_step used (OpAlloc n) 0 used
| spec_honey n used v : fits n used -> len v = n ->
    spec_step used (OpHoney n) (start + len used)
      (used ++ v ++ zeros (Z.to_nat (round16 n - n)))
| spec_honey_full n used : ~ fits n used -> spec_step used (OpHoney n) 0 used
| spec_store off v used : 0 <= off -> off + len v <= len used ->
    spec_step used (OpStore (start + off) v) 0 (mem_write off v used)
| spec_restore s used : 0 <= s <= len used -> s mod 16 = 0 ->
    spec_step used (OpRestore s) 0 (take (Z.to_nat s) used)
| spec_restore_no s used : ~ (s <= len used /\ s mod 16 = 0) ->
    spec_step used (OpRestore s) 0 used.

Inductive spec_run : bytes -> list op -> list Z -> bytes -> Prop :=
| spec_done used : spec_run used [] [] used
| spec_more used o r used1 ops rs used2 :
    spec_step used o r used1 -> spec_run used1 ops rs used2 ->
    spec_run used (o :: ops) (r :: rs) used2.

End Spec.

(** ** The machine holds a stack *)

Definition layout (a : secure_arena) (lower used upper : bytes) : bytes :=
  lower ++ (used ++ zeros (Z.to_nat (ar_usable_size a - ar_offset a))) ++ ar_canary a ++ upper.

Record holds (m : machine) (used : bytes) : Prop := Holds {
  h_ok : arena_ok (m_arena m);
  h_canary : len (ar_canary (m_arena m)) = 16;
  h_used : len used = ar_offset (m_arena m);
  h_map : exists lower upper,
    len lower = ar_page_size (m_arena m) /\ len upper = ar_page_size (m_arena m) /\
    m_map m = Some (layout (m_arena m) lower used upper);
  h_guards : m_guards m =
    [(ar_page_size (m_arena m) + ar_usable_size (m_arena m) + 16, ar_page_size (m_arena m));
     (0, ar_page_size (m_arena m))] }.

(** Bytes of the stack are where their addresses say. *)
Lemma holds_read m used off n :
  holds m used -> 0 <= off -> 0 <= n -> off + n <= len used ->
  mem_read (ar_page_size (m_arena m) + off) n (mapping m) =
    take (Z.to_nat n) (drop (Z.to_nat off) used).
Proof.
  intros [Hok _ Hu (lo & up & Hlo & _ & Hm) _] Hoff Hn Hend. unfold mapping, layout in *.
  rewrite Hm. cbn [default]. unfold id, mem_read.
  replace (Z.to_nat (ar_page_size (m_arena m) + off)) with (length lo + Z.to_nat off)%nat
    by (unfold len in *; lia).
  rewrite <-drop_drop, drop_app_length, <-app_assoc.
  rewrite drop_app_le, take_app_le; [done| |]; unfold len in *; rewrite ?length_drop; lia.
Qed.

Section ArenaProofs.
Context `{OS}.

Lemma am_bind {A B} (c : AM A) (k : A -> AM B) m a m' :
  c m = (Return a, m') -> mbind k c m = k a m'.
Proof. unfold mbind, AM_bind. by intros ->. Qed.

Lemma am_bind_abort {A B} (c : AM A) (k : A -> AM B) m m' :
  c m = (Abort, m') -> mbind k c m = (Abort, m').
Proof. unfold mbind, AM_bind. by intros ->. Qed.

Lemma am_read {A B} (f : machine -> A) (k : A -> AM B) m : mbind k (read f) m = k (f m) m.
Proof. done. Qed.

Lemma canary_in_mapping_ok a : arena_ok a -> canary_in_mapping a = true.
Proof. intros []. unfold canary_in_mapping, NOX_CANARY_LEN. lia. Qed.

Lemma canary_position m used :
  holds m used ->
  mem_read (ar_page_size (m_arena m) + ar_usable_size (m_arena m)) 16 (mapping m) =
    ar_canary (m_arena m).
Proof.
  intros [Hok Hc Hu (lo & up & Hlo & _ & Hm) _]. unfold mapping, layout in *. rewrite Hm.
  cbn [default]. unfold id. rewrite app_assoc. apply mem_read_mid; [|done].
  destruct Hok. rewrite !len_app, len_zeros by lia. lia.
Qed.

Lemma check_canary_ok m used : holds m used -> arena_check_canary m = (Return tt, m).
Proof.
  intros Hh. pose proof Hh as [Hok Hc _ _ _]. unfold arena_check_canary.
  rewrite am_read, (proj2 (Z.eqb_neq _ _)) by (destruct Hok; lia).
  rewrite (ok_valid _ Hok), canary_in_mapping_ok by done. cbn [negb].
  unfold canary_intact. unfold mbind at 1, AM_bind at 1. rewrite !am_read.
  unfold peek, read, mbind at 1, AM_bind at 1. unfold NOX_CANARY_LEN.
  rewrite (canary_position m used Hh), bytes_eqb_refl. done.
Qed.

(** The struct after the offset moved. *)
Lemma ok_set_offset a o :
  arena_ok a -> 0 <= o <= ar_usable_size a -> o mod 16 = 0 -> arena_ok (a <| ar_offset := o |>).
Proof.
  intros [] Ho Hm. split; cbn; try done. by apply valid_set_offset.
Qed.

(** Address and size of the usable area. *)
Definition start (a : secure_arena) : Z := ar_base a + ar_page_size a.

(** The stack grows by [ext] at the cost of the free zeros. *)
Definition at_offset (o : Z) (m : machine) : machine :=
  m <| m_arena := m_arena m <| ar_offset := o |> |>.

Lemma holds_grow m used k :
  holds m used -> 0 <= k -> len used + k <= ar_usable_size (m_arena m) -> k mod 16 = 0 ->
  holds (at_offset (len used + k) m) (used ++ zeros (Z.to_nat k)).
Proof.
  intros [Hok Hc Hu (lo & up & Hlo & Hup & Hm) Hg] Hk Hfit Hmod.
  split; cbn; try done.
  - apply ok_set_offset; [done|pose proof (len_nonneg used); lia|]. pose proof (ok_aligned _ Hok) as Ha.
    rewrite Hu, Zplus_mod, Ha, Hmod. done.
  - rewrite len_app, len_zeros by lia. lia.
  - exists lo, up. split_and!; [done|done|]. rewrite Hm. unfold layout. cbn. do 3 f_equal.
    rewrite <-app_assoc, zeros_app. do 2 f_equal. lia.
Qed.

Lemma block_alloc_ok n m used :
  holds m used -> fits (ar_usable_size (m_arena m)) n used ->
  arena_alloc n m = (Return (start (m_arena m) + len used), at_offset (len used + round16 n) m) /\
  holds (at_offset (len used + round16 n) m) (used ++ zeros (Z.to_nat (round16 n))).
Proof.
  intros Hh [Hn Hfit]. pose proof (round16_bounds n) as [Hr Hr16].
  pose proof Hh as [Hok Hc Hu _ _].
  split; [|apply holds_grow; done || lia].
  unfold arena_alloc. rewrite am_read, !(proj2 (Z.eqb_neq _ _)) by (destruct Hok; lia).
  cbn [orb]. rewrite (am_bind _ _ _ _ _ (check_canary_ok m used Hh)).
  assert (n <= SIZE_MAX - 15) by (destruct Hok; pose proof (len_nonneg used); lia).
  rewrite align16_spec, !(proj2 (Z.ltb_ge _ _)) by (destruct Hok; lia).
  cbv beta iota delta [mbind AM_bind set_arena change mret AM_ret].
  unfold start, at_offset. by rewrite <-Hu, <-Z.add_assoc.
Qed.

Lemma alloc_full n m used :
  holds m used -> 0 <= n <= SIZE_MAX -> ~ fits (ar_usable_size (m_arena m)) n used ->
  arena_alloc n m = (Return 0, m).
Proof.
  intros Hh Hn Hfit. pose proof Hh as [Hok Hc Hu _ _]. unfold fits in Hfit.
  pose proof (round16_bounds n) as [Hr _].
  unfold arena_alloc. rewrite am_read.
  destruct (decide (n = 0)) as [->|Hn0]; [by rewrite orb_true_r|].
  rewrite !(proj2 (Z.eqb_neq _ _)) by (destruct Hok; lia).
  cbn [orb]. rewrite (am_bind _ _ _ _ _ (check_canary_ok m used Hh)).
  rewrite (proj2 (Z.ltb_ge _ _)) by (destruct Hok; lia).
  destruct (SIZE_MAX - 15 <? n) eqn:E; [done|]. rewrite align16_spec by lia.
  destruct (_ <? round16 n); [done|].
  by rewrite (proj2 (Z.ltb_lt _ _)) by lia.
Qed.

Lemma store_ok m used off v :
  holds m used -> 0 <= off -> off + len v <= len used ->
  exists m', store (start (m_arena m) + off) v m = (Return tt, m') /\
    m_arena m' = m_arena m /\ holds m' (mem_write off v used).
Proof.
  intros Hh Hoff Hend. pose proof Hh as [Hok Hc Hu (lo & up & Hlo & Hup & Hm) Hg].
  pose proof (len_nonneg v) as Hv. unfold store. rewrite am_read. change (id m) with m.
  replace (start (m_arena m) + off - ar_base (m_arena m)) with (ar_page_size (m_arena m) + off)
    by (unfold start; lia).
  assert (len (mapping m) = ar_total_size (m_arena m)) as Hlen.
  { unfold mapping. rewrite Hm. cbn [default]. unfold id, layout. destruct Hok.
    rewrite !len_app, len_zeros by lia. lia. }
  rewrite Hlen, Hg. cbn [existsb]. unfold touches. cbn [fst snd].
  match goal with |- context [if ?c then abort else _] =>
    assert (c = false) as -> by (destruct Hok; lia) end.
  eexists. split; [reflexivity|]. split; [done|].
  split; cbn; try done.
  - unfold len. rewrite mem_write_length by done. apply Hu.
  - exists lo, up. split_and!; [done|done|]. rewrite Hm. cbn. f_equal. unfold layout.
    rewrite <-(take_drop (Z.to_nat off) used) at 1.
    rewrite <-(take_drop (length v) (drop (Z.to_nat off) used)) at 1.
    rewrite <-!app_assoc, (app_assoc lo). rewrite mem_write_mid.
    + unfold mem_write. rewrite drop_drop. by rewrite <-!app_assoc.
    + rewrite len_app. unfold len in *. rewrite length_take. lia.
    + unfold len in *. rewrite length_take, length_drop. lia.
Qed.

Lemma holds_tr m used tr : holds m used -> holds (m <| m_tr := tr |>) used.
Proof. by intros []. Qed.

Lemma honey_ok n m used :
  holds m used -> fits (ar_usable_size (m_arena m)) n used ->
  exists m' v, arena_alloc_canary n m = (Return (start (m_arena m) + len used), m') /\
    len v = n /\ start (m_arena m') = start (m_arena m) /\
    ar_usable_size (m_arena m') = ar_usable_size (m_arena m) /\
    holds m' (used ++ v ++ zeros (Z.to_nat (round16 n - n))).
Proof.
  intros Hh Hf. destruct (block_alloc_ok n m used Hh Hf) as [Ea Hh1]. destruct Hf as [Hn _].
  pose proof (round16_bounds n) as [Hr _]. pose proof (len_nonneg used).
  set (m1 := at_offset _ m) in *.
  unfold arena_alloc_canary. rewrite (am_bind _ _ _ _ _ Ea).
  rewrite (proj2 (Z.eqb_neq _ _)) by (destruct Hh as [[]]; unfold start; lia).
  set (v := pad_to (Z.to_nat n) (sr_data (os_answer (m_tr m1) (RandomBytes n)))).
  assert (len v = n) as Hv by (unfold len, v; rewrite length_pad_to; lia).
  rewrite (am_bind _ _ m1 v (m1 <| m_tr := RandomBytes n :: m_tr m1 |>)) by done.
  destruct (store_ok _ _ (len used) v (holds_tr _ _ (RandomBytes n :: m_tr m1) Hh1))
    as (m' & Es & Ear & Hh'); [lia| |].
  { rewrite len_app, len_zeros by lia. lia. }
  rewrite (am_bind _ _ _ _ _ Es). exists m', v. split_and!; [done|done| | |].
  - by rewrite Ear.
  - by rewrite Ear.
  - assert (zeros (Z.to_nat (round16 n)) =
      zeros (Z.to_nat n) ++ zeros (Z.to_nat (round16 n - n))) as Ez
      by (rewrite zeros_app; f_equal; lia).
    rewrite Ez, mem_write_mid in Hh'; [done|done|]. rewrite len_zeros by lia. done.
Qed.

Lemma honey_full n m used :
  holds m used -> 0 <= n <= SIZE_MAX -> ~ fits (ar_usable_size (m_arena m)) n used ->
  arena_alloc_canary n m = (Return 0, m).
Proof.
  intros Hh Hn Hf. unfold arena_alloc_canary.
  by rewrite (am_bind _ _ _ _ _ (alloc_full n m used Hh Hn Hf)).
Qed.

(** Giving back the end of the stack. *)
Lemma holds_shrink m used s :
  holds m used -> 0 <= s < len used -> s mod 16 = 0 ->
  holds ((m <| m_map := mem_write (ar_page_size (m_arena m) + s)
             (zeros (Z.to_nat (ar_offset (m_arena m) - s))) <$> m_map m |>)
         <| m_arena := m_arena m <| ar_offset := s |> |>) (take (Z.to_nat s) used).
Proof.
  intros [Hok Hc Hu (lo & up & Hlo & Hup & Hm) Hg] Hs Hmod. pose proof Hok as [].
  split; cbn; try done.
  - apply ok_set_offset; [done|lia|done].
  - unfold len in *. rewrite length_take. lia.
  - exists lo, up. split_and!; [done|done|]. rewrite Hm. cbn. f_equal. unfold layout. cbn.
    rewrite <-(take_drop (Z.to_nat s) used) at 1.
    rewrite <-!app_assoc, (app_assoc lo), mem_write_mid.
    + rewrite <-!app_assoc. do 2 f_equal. rewrite app_assoc, zeros_app. do 2 f_equal.
      unfold len in *. lia.
    + rewrite len_app. unfold len in *. rewrite length_take. lia.
    + unfold len in *. rewrite length_drop, length_zeros. lia.
Qed.

Lemma restore_ok s m used :
  holds m used -> 0 <= s <= len used -> s mod 16 = 0 ->
  exists m', arena_restore s m = (Return tt, m') /\
    start (m_arena m') = start (m_arena m) /\
    ar_usable_size (m_arena m') = ar_usable_size (m_arena m) /\
    holds m' (take (Z.to_nat s) used).
Proof.
  intros Hh Hs Hmod. pose proof Hh as [Hok Hc Hu _ _]. pose proof Hok as [].
  unfold arena_restore. rewrite am_read, (proj2 (Z.eqb_neq _ _)) by lia.
  rewrite (am_bind _ _ _ _ _ (check_canary_ok m used Hh)).
  rewrite !(proj2 (Z.ltb_ge _ _)), Hmod by lia. cbn [Z.eqb negb].
  destruct (s =? ar_offset (m_arena m)) eqn:E.
  - exists m. split_and!; [done..|]. rewrite take_ge; [done|]. unfold len in *. lia.
  - eexists. split_and!; [reflexivity|done|done|].
    exact (holds_shrink m used s Hh ltac:(lia) Hmod).
Qed.

Lemma restore_no s m used :
  holds m used -> ~ (s <= len used /\ s mod 16 = 0) -> arena_restore s m = (Return tt, m).
Proof.
  intros Hh Hs. pose proof Hh as [Hok Hc Hu _ _]. pose proof Hok as [].
  unfold arena_restore. rewrite am_read, (proj2 (Z.eqb_neq _ _)) by lia.
  rewrite (am_bind _ _ _ _ _ (check_canary_ok m used Hh)).
  rewrite (proj2 (Z.ltb_ge _ _)) by lia.
  destruct (_ <? s) eqn:E1; [done|]. destruct (s mod 16 =? 0) eqn:E2; [|done]. cbn [negb].
  destruct (ar_offset (m_arena m) <? s) eqn:E3; [done|]. lia.
Qed.

(** ** Refinement *)

Definition run_op (o : op) : AM Z :=
  match o with
  | OpAlloc n => arena_alloc n
  | OpHoney n => arena_alloc_canary n
  | OpStore addr v => _ ← store addr v; mret 0
  | OpRestore s => _ ← arena_restore s; mret 0
  end.

Fixpoint run_ops (ops : list op) : AM (list Z) :=
  match ops with
  | [] => mret []
  | o :: ops => r ← run_op o; rs ← run_ops ops; mret (r :: rs)
  end.

(** Arguments are [size_t] values; the program stores only into what it was
    given. *)
Definition op_inside (a : secure_arena) (o : op) : Prop :=
  match o with
  | OpAlloc n | OpHoney n => 0 <= n <= SIZE_MAX
  | OpStore addr v => start a <= addr /\ addr + len v <= start a + ar_offset a
  | OpRestore s => 0 <= s
  end.

Inductive disciplined : machine -> list op -> Prop :=
| disc_nil m : disciplined m []
| disc_cons m o ops : op_inside (m_arena m) o ->
    (forall r m', run_op o m = (Return r, m') -> disciplined m' ops) ->
    disciplined m (o :: ops).

Lemma step_refines m used o :
  holds m used -> op_inside (m_arena m) o ->
  exists r m' used', run_op o m = (Return r, m') /\
    spec_step (start (m_arena m)) (ar_usable_size (m_arena m)) used o r used' /\
    holds m' used' /\ start (m_arena m') = start (m_arena m) /\
    ar_usable_size (m_arena m') = ar_usable_size (m_arena m).
Proof.
  intros Hh Ho.
  assert (forall n, Decision (fits (ar_usable_size (m_arena m)) n used)) as Hdec
    by (intros n; unfold fits; apply _).
  destruct o as [n|n|addr v|s]; cbn [run_op].
  - destruct (Hdec n) as [Hf|Hf].
    + destruct (block_alloc_ok n m used Hh Hf) as [E Hh']. do 3 eexists. split; [exact E|].
      split; [by constructor|]. done.
    + exists 0, m, used. split; [by eapply alloc_full|]. split; [by constructor|]. done.
  - destruct (Hdec n) as [Hf|Hf].
    + destruct (honey_ok n m used Hh Hf) as (m' & v & E & Hv & Hs & Hc & Hh').
      do 3 eexists. split; [exact E|]. split; [by constructor|]. done.
    + exists 0, m, used. split; [by eapply honey_full|]. split; [by constructor|]. done.
  - destruct Ho as [Ho1 Ho2]. pose proof Hh as [_ _ Hu _ _].
    destruct (store_ok m used (addr - start (m_arena m)) v Hh) as (m' & E & Ha & Hh'); [lia|lia|].
    replace (start (m_arena m) + (addr - start (m_arena m))) with addr in E by lia.
    exists 0, m', (mem_write (addr - start (m_arena m)) v used). rewrite Ha.
    split; [by rewrite (am_bind _ _ _ _ _ E)|]. split; [|done].
    replace addr with (start (m_arena m) + (addr - start (m_arena m))) at 1 by lia.
    constructor; lia.
  - cbn in Ho. destruct (decide (s <= len used /\ s mod 16 = 0)) as [[Hs Hm]|Hno].
    + destruct (restore_ok s m used Hh) as (m' & E & Hs' & Hc & Hh'); [lia|done|].
      exists 0, m', (take (Z.to_nat s) used).
      split; [by rewrite (am_bind _ _ _ _ _ E)|]. split; [by constructor|]. done.
    + exists 0, m, used. split; [by rewrite (am_bind _ _ _ _ _ (restore_no s m used Hh Hno))|].
      split; [by constructor|]. done.
Qed.

(** C9 The allocator refines a stack of zeroed bytes: a program that stores only
    into memory the arena gave it gets, operation by operation, the results of
    the specification, the memory holds the bytes of the specification, and
    nothing aborts.  In particular blocks are disjoint and 16-byte aligned,
    fresh memory is zero, memory given back by arena_restore is erased, and a
    request is refused exactly when it does not fit. *)
Theorem arena_refines m used ops :
  holds m used -> disciplined m ops ->
  exists rs m' used', run_ops ops m = (Return rs, m') /\
    spec_run (start (m_arena m)) (ar_usable_size (m_arena m)) used ops rs used' /\
    holds m' used'.
Proof.
  intros Hh Hd. revert used Hh. induction Hd as [m|m o ops Ho _ IH]; intros used Hh.
  - exists [], m, used. split; [done|]. split; [constructor|done].
  - destruct (step_refines m used o Hh Ho) as (r & m1 & used1 & E & Hs & Hh1 & Es & Ec).
    destruct (IH r m1 E used1 Hh1) as (rs & m' & used' & Er & Hr & Hh').
    exists (r :: rs), m', used'. split_and!; [|econstructor; [exact Hs|by rewrite <-Es, <-Ec]|done].
    cbn [run_ops]. by rewrite (am_bind _ _ _ _ _ E), (am_bind _ _ _ _ _ Er).
Qed.

(** ** Erasure *)

(** The usable area and the canary are zero (up to the bound of the code). *)
Definition wiped (a : secure_arena) (b : bytes) : Prop :=
  let n := Z.min (ar_usable_size a + NOX_CANARY_LEN) MAX_WIPE in
  len b = ar_total_size a /\ mem_read (ar_page_size a) n b = zeros (Z.to_nat n).

Lemma len_mem_write off v b : 0 <= off -> off + len v <= len b -> len (mem_write off v b) = len b.
Proof.
  intros. unfold mem_write, len in *. rewrite !length_app, length_take, length_drop. lia.
Qed.

Definition canary_bytes (m : machine) : bytes :=
  mem_read (ar_page_size (m_arena m) + ar_usable_size (m_arena m)) NOX_CANARY_LEN (mapping m).

Lemma wipe_usable_spec m :
  arena_ok (m_arena m) -> len (mapping m) = ar_total_size (m_arena m) ->
  exists b, wipe_usable m = (Return tt, m <| m_map := Some b |>) /\ wiped (m_arena m) b.
Proof.
  intros Hok Hlen. pose proof Hok as []. unfold wipe_usable. rewrite am_read.
  set (n := ar_usable_size (m_arena m) + NOX_CANARY_LEN) in *.
  assert ((if MAX_WIPE <? n then MAX_WIPE else n) = Z.min n MAX_WIPE) as -> by (case_match; lia).
  unfold NOX_CANARY_LEN in n.
  assert (0 <= Z.min n MAX_WIPE <= n) by (unfold MAX_WIPE; lia).
  rewrite (proj2 (Z.leb_le _ _)) by lia.
  unfold mapping in Hlen. destruct (m_map m) as [b|] eqn:Em; cbn [default] in Hlen;
    [|unfold len in Hlen; cbn in Hlen; lia].
  eexists. split.
  { unfold wipe, poke, change. rewrite Em. reflexivity. }
  unfold wiped.
  change ((ar_usable_size (m_arena m) + NOX_CANARY_LEN) `min` MAX_WIPE) with (n `min` MAX_WIPE).
  pose proof (mem_read_write (ar_page_size (m_arena m))
    (zeros (Z.to_nat (n `min` MAX_WIPE))) b) as Hrw.
  rewrite len_zeros in Hrw by lia. unfold id in Hlen.
  split; [rewrite len_mem_write; rewrite ?len_zeros; lia|apply Hrw; lia].
Qed.

Lemma secure_abort_spec {A} msg m :
  arena_ok (m_arena m) -> len (mapping m) = ar_total_size (m_arena m) ->
  exists m', secure_abort (A := A) msg m = (Abort, m') /\ wiped (m_arena m) (mapping m').
Proof.
  intros Hok Hlen. set (m1 := m <| m_tr := Stderr msg :: m_tr m |>).
  destruct (wipe_usable_spec m1) as (b & E & Hw); [done|done|].
  exists (m1 <| m_map := Some b |>). split; [|exact Hw]. unfold secure_abort.
  rewrite (am_bind _ _ m (os_answer (m_tr m) (Stderr msg)) m1) by done. rewrite am_read.
  change (m_arena m1) with (m_arena m). rewrite (ok_valid _ Hok).
  by rewrite (am_bind _ _ _ _ _ E).
Qed.

Lemma canary_intact_spec m :
  canary_intact m = (Return (bytes_eqb (canary_bytes m) (ar_canary (m_arena m))), m).
Proof. done. Qed.

Lemma check_canary_broken m :
  arena_ok (m_arena m) -> len (mapping m) = ar_total_size (m_arena m) ->
  canary_bytes m <> ar_canary (m_arena m) ->
  exists m', arena_check_canary m = (Abort, m') /\ wiped (m_arena m) (mapping m').
Proof.
  intros Hok Hlen Hc. unfold arena_check_canary. rewrite am_read.
  rewrite (proj2 (Z.eqb_neq _ _)) by (destruct Hok; lia).
  rewrite (ok_valid _ Hok), canary_in_mapping_ok by done. cbn [negb].
  rewrite (am_bind _ _ _ _ _ (canary_intact_spec m)).
  destruct (bytes_eqb _ _) eqn:E; [by apply bytes_eqb_eq in E|]. by apply secure_abort_spec.
Qed.

(** An overrun that changed the canary is noticed before the arena is used
    again: arena_alloc and arena_restore abort, and by then the keys in the
    usable area are erased. *)
Theorem arena_overflow_detected m n s :
  unsigned_fields (m_arena m) -> arena_is_valid (m_arena m) = true ->
  len (mapping m) = ar_total_size (m_arena m) ->
  canary_bytes m <> ar_canary (m_arena m) -> n <> 0 ->
  exists m1 m2, arena_alloc n m = (Abort, m1) /\ wiped (m_arena m) (mapping m1) /\
    arena_restore s m = (Abort, m2) /\ wiped (m_arena m) (mapping m2).
Proof.
  intros Hf Hv Hlen Hc Hn. pose proof (valid_ok _ Hf Hv) as Hok.
  destruct (check_canary_broken m Hok Hlen Hc) as (m' & E & Hw). exists m', m'.
  assert (ar_base (m_arena m) <> 0) by (destruct Hok; lia).
  split_and!; [|done| |done].
  - unfold arena_alloc. rewrite am_read, !(proj2 (Z.eqb_neq _ _)) by done. cbn [orb].
    by apply am_bind_abort.
  - unfold arena_restore. rewrite am_read, (proj2 (Z.eqb_neq _ _)) by done.
    by apply am_bind_abort.
Qed.

Definition munmap_works : Prop := forall tr n, sr_ret (os_answer tr (Munmap n)) = 0.

Lemma unmap_spec n m b :
  m_map m = Some b -> exists r m', unmap n m = (Return r, m') /\
    (m_map m' = None /\ m_freed m' = Some b \/ m_map m' = Some b /\ ~ munmap_works).
Proof.
  intros Hm. unfold unmap. cbv beta iota delta [mbind AM_bind acall]. cbn.
  destruct (_ =? 0) eqn:E; eexists _, _; (split; [reflexivity|]); cbn; [auto|].
  right. split; [done|]. intros Hw. rewrite Hw in E. done.
Qed.

(** arena_destroy erases the usable area before the mapping is given back,
    clears the struct whatever happens, and returns only when the canary was
    intact; otherwise the process aborts after the erasure. *)
Theorem arena_destroy_erases m :
  unsigned_fields (m_arena m) -> arena_is_valid (m_arena m) = true ->
  len (mapping m) = ar_total_size (m_arena m) ->
  exists r m' b, arena_destroy m = (r, m') /\ m_arena m' = zero_arena /\ wiped (m_arena m) b /\
    (m_map m' = None /\ m_freed m' = Some b \/ m_map m' = Some b /\ ~ munmap_works) /\
    r = (if decide (canary_bytes m = ar_canary (m_arena m)) then Return tt else Abort).
Proof.
  intros Hf Hv Hlen. pose proof (valid_ok _ Hf Hv) as Hok. unfold arena_destroy.
  rewrite am_read, (proj2 (Z.eqb_neq _ _)) by (destruct Hok; lia).
  rewrite Hv, canary_in_mapping_ok by done. cbn [negb].
  rewrite (am_bind _ _ _ _ _ (canary_intact_spec m)). unfold bytes_eqb.
  rewrite bool_decide_decide.
  set (ok := if decide _ then true else false).
  assert (exists m1, (if negb ok then _ ← acall (Stderr "arena canary corrupt"); mret tt else mret tt) m
    = (Return tt, m1) /\ m_arena m1 = m_arena m /\ m_map m1 = m_map m) as (m1 & E1 & Ea & Em)
    by (destruct ok; eexists; split; [reflexivity|done|reflexivity|done]).
  rewrite (am_bind _ _ _ _ _ E1).
  destruct (wipe_usable_spec m1) as (b & E2 & Hw).
  { by rewrite Ea. }
  { unfold mapping. rewrite Em, Ea. exact Hlen. }
  rewrite (am_bind _ _ _ _ _ E2). rewrite Ea in Hw.
  destruct (unmap_spec (ar_total_size (m_arena m)) (m1 <| m_map := Some b |>) b)
    as (r & m2 & E3 & Hm2); [done|].
  rewrite (am_bind _ _ _ _ _ E3).
  rewrite (am_bind _ _ m2 tt (m2 <| m_arena := zero_arena |>)) by done.
  subst ok. destruct (decide _); eexists _, _, b; split_and!; done.
Qed.

(** An arena that holds something can be given back: erased, without a complaint. *)
Lemma destroy_holds m used :
  munmap_works -> holds m used ->
  exists m' b, arena_destroy m = (Return tt, m') /\ m_arena m' = zero_arena /\ m_map m' = None /\
    m_freed m' = Some b /\ wiped (m_arena m) b.
Proof.
  intros Hw Hh. pose proof Hh as [Hok Hc Hu (lo & up & Hlo & Hup & Hm) _]. pose proof Hok as [].
  destruct (arena_destroy_erases m) as (r & m' & b & E & Ha & Hb & Hf & Hr);
    [by unfold unsigned_fields; lia|done| |].
  - unfold mapping. rewrite Hm. cbn. unfold layout, id.
    rewrite !len_app, len_zeros by lia. lia.
  - rewrite decide_True in Hr by exact (canary_position m used Hh). subst r.
    destruct Hf as [[Hn Hf]|[_ []]]; [|done]. by exists m', b.
Qed.

(** ** Set-up *)

(** After a failure there is no mapping; one that was given back had never been
    written to. *)
Record init_failed (m m' : machine) : Prop := {
  if_map : m_map m' = None;
  if_arena : m_arena m' = m_arena m \/ m_arena m' = zero_arena;
  if_freed : m_freed m' = m_freed m \/ exists n, m_freed m' = Some (zeros n) }.

Lemma init_fail_spec total n m :
  munmap_works -> m_map m = Some (zeros n) ->
  exists m', init_fail total m = (Return NOX_ERR_ALLOC, m') /\ m_map m' = None /\
    m_arena m' = zero_arena /\ m_freed m' = Some (zeros n).
Proof.
  intros Hu Hm. unfold init_fail, unmap. cbv beta iota delta [mbind AM_bind acall]. cbn.
  rewrite Hu. cbn. eexists. split; [reflexivity|done].
Qed.

(** The sizes arena_init computed. *)
Record sizes_ok (base page_size usable total : Z) : Prop := {
  so_base : 0 < base /\ base mod page_size = 0;
  so_page : 0 < page_size <= 2 ^ 63 - 1 /\ Z.land page_size (page_size - 1) = 0;
  so_usable : 16 < usable /\ usable mod page_size = 0;
  so_total : total = usable + 2 * page_size /\ total <= SIZE_MAX }.

Lemma fresh_valid a base ps usable total :
  sizes_ok base ps usable total ->
  ar_base a = base -> ar_page_size a = ps -> ar_usable_size a = usable - 16 ->
  ar_total_size a = total -> ar_offset a = 0 -> arena_ok a.
Proof.
  intros [[] [] [Hu Hum] []] Hb Hp Hus Ht Ho. apply valid_ok.
  - unfold unsigned_fields. lia.
  - unfold arena_is_valid, NOX_CANARY_LEN. rewrite Hb, Hp, Hus, Ht, Ho.
    replace (usable - 16 + 16) with usable by lia. rewrite Hum.
    change (SIZE_MAX / 2) with (2 ^ 63 - 1).
    repeat (case_match; try lia). done.
Qed.

(** A fresh arena. *)
Record init_ready (ps usable : Z) (m m' : machine) : Prop := {
  ir_holds : holds m' [];
  ir_usable : ar_usable_size (m_arena m') = usable - 16;
  ir_page : ar_page_size (m_arena m') = ps;
  ir_locked : ar_locked (m_arena m') = true;
  ir_freed : m_freed m' = m_freed m }.

Lemma init_finish_spec base ps usable total m :
  sizes_ok base ps usable total -> m_map m = Some (zeros (Z.to_nat total)) ->
  m_guards m = [(ps + usable, ps); (0, ps)] ->
  exists m', init_finish base ps usable total m = (Return NOX_OK, m') /\ init_ready ps usable m m'.
Proof.
  intros Hs Hm Hg. destruct m as [a mp gs fr tr]. cbn in Hm, Hg. subst mp gs.
  eexists. split; [reflexivity|]. split; try done. split; cbn; try done.
  - by eapply fresh_valid.
  - unfold len. by rewrite length_pad_to.
  - destruct Hs as [_ [? _] [? _] [-> _]].
    exists (zeros (Z.to_nat ps)), (zeros (Z.to_nat ps)). rewrite !len_zeros by lia.
    split_and!; [done|done|]. f_equal. unfold layout, NOX_CANARY_LEN. cbn.
    match goal with |- mem_write _ ?v _ = _ => set (c := v) end.
    assert (len c = 16) as Hc by (unfold len, c; by rewrite length_pad_to).
    replace (zeros (Z.to_nat (usable + 2 * ps))) with
      ((zeros (Z.to_nat ps) ++ zeros (Z.to_nat (usable - 16))) ++ zeros 16 ++ zeros (Z.to_nat ps))
      by (rewrite !zeros_app; f_equal; lia).
    rewrite mem_write_mid.
    + rewrite <-!app_assoc. do 2 f_equal. f_equal. lia.
    + rewrite len_app, !len_zeros by lia. done.
    + done.
  - unfold NOX_CANARY_LEN. do 2 f_equal. lia.
Qed.

(** How a part of arena_init ends. *)
Definition init_ends (ps usable : Z) (m : machine) (x : result nox_err * machine) : Prop :=
  exists e m', x = (Return e, m') /\
    (e = NOX_OK /\ init_ready ps usable m m' \/ e = NOX_ERR_ALLOC /\ init_failed m m').

Lemma init_ends_fail ps usable total n m0 m :
  munmap_works -> m_map m = Some (zeros n) -> init_ends ps usable m0 (init_fail total m).
Proof.
  intros Hu Hm. destruct (init_fail_spec total n m Hu Hm) as (m' & -> & H1 & H2 & H3).
  eexists _, _. split; [reflexivity|right]. split; [done|split; eauto].
Qed.

Lemma init_protect_spec base ps usable total m :
  munmap_works -> sizes_ok base ps usable total ->
  m_map m = Some (zeros (Z.to_nat total)) -> m_guards m = [] ->
  init_ends ps usable m (init_protect base ps usable total m).
Proof.
  intros Hun Hs Hm Hg. destruct m as [a mp gs fr tr]. cbn in Hm, Hg. subst mp gs.
  unfold init_protect, set_arena. cbv beta iota delta [mbind AM_bind acall change mret AM_ret].
  destruct (negb _); [by eapply init_ends_fail|]. destruct (negb _); [by eapply init_ends_fail|].
  edestruct (init_finish_spec base ps usable total) as (m' & E & [Hh Hu Hp Hl Hf]);
    [exact Hs| | |eexists NOX_OK, m'; split; [exact E|left; split; [done|by split]]]; done.
Qed.

(** The sizes: at least what was asked for, less than a page more. *)
Lemma page_align_upper size ps :
  0 <= size -> 0 < ps <= SIZE_MAX -> page_align size ps <> 0 -> page_align size ps < size + ps.
Proof.
  intros Hs Hp Hn. pose proof Hn as Hn'. unfold page_align in Hn'.
  destruct (_ || _) eqn:E1; [done|]. destruct (_ <? size) eqn:E2; [done|]. clear Hn'.
  pose proof (pow2_of_land ps ltac:(lia) ltac:(lia)) as Hk. pose proof (Z.log2_nonneg ps).
  assert (Z.log2 ps < 64) by (apply Z.log2_lt_pow2; unfold SIZE_MAX in *; lia).
  rewrite Hk in E2 |- *. rewrite page_align_spec by (unfold SIZE_MAX in *; lia).
  pose proof (Z.mul_div_le (size + 2 ^ Z.log2 ps - 1) (2 ^ Z.log2 ps)).
  rewrite Z.mul_comm. lia.
Qed.

(** arena_init either fails with NOX_ERR_ALLOC and leaves no mapping behind,
    or delivers a valid, locked arena that holds the empty stack between two
    guard pages, with at least the requested size and an intact canary. *)
Theorem arena_init_correct size m :
  0 <= size <= SIZE_MAX -> m_map m = None -> munmap_works ->
  (forall tr, sr_ret (os_answer tr Sysconf) <= SIZE_MAX / 2) ->
  (forall tr tr' n, let b := sr_ret (os_answer tr (Mmap n)) in
     let ps := sr_ret (os_answer tr' Sysconf) in
     b = -1 \/ 0 < b /\ (0 < ps -> b mod ps = 0)) ->
  let ps := sr_ret (os_answer (SodiumInit :: m_tr m) Sysconf) in
  exists e m', arena_init size m = (Return e, m') /\
    (e = NOX_OK /\ (exists usable, init_ready ps usable m m' /\
       size + 16 <= usable < size + 16 + ps) \/
     e = NOX_ERR_ALLOC /\ init_failed m m').
Proof.
  intros Hsz Hm Hun Hps Hmm. unfold arena_init, get_page_size.
  cbv zeta. set (ps := sr_ret (os_answer (SodiumInit :: m_tr m) Sysconf)).
  set (usable := page_align (size + NOX_CANARY_LEN) ps).
  assert (forall m', m_arena m' = m_arena m -> m_map m' = None -> m_freed m' = m_freed m ->
    exists e m'', (Return NOX_ERR_ALLOC, m') = (Return e, m'') /\
      (e = NOX_OK /\ (exists usable, init_ready ps usable m m'' /\
         size + 16 <= usable < size + 16 + ps) \/ e = NOX_ERR_ALLOC /\ init_failed m m'')) as Hfail.
  { intros m' H1 H2 H3. exists NOX_ERR_ALLOC, m'. split; [done|right]. split; [done|split; eauto]. }
  destruct (size =? 0) eqn:E0; [by apply Hfail|].
  cbv beta iota delta [mbind AM_bind acall mret AM_ret]. cbn.
  destruct (_ <? 0); [by apply Hfail|].
  match goal with |- context [if sr_ret (os_answer ?t Sysconf) <=? 0 then _ else _] =>
    change (sr_ret (os_answer t Sysconf)) with ps end.
  assert (ps <= 2 ^ 63 - 1) as Hp by apply Hps.
  destruct (ps <=? 0) eqn:Ep; [by apply Hfail|].
  destruct (ps =? 0); [by apply Hfail|]. destruct (_ <? size) eqn:Esz; [by apply Hfail|].
  fold usable. destruct (usable =? 0) eqn:Eu; [by apply Hfail|].
  destruct (_ <? usable) eqn:Et; [by apply Hfail|].
  assert (0 <= size + NOX_CANARY_LEN) by (unfold NOX_CANARY_LEN; lia).
  assert (0 < ps <= SIZE_MAX) by (unfold SIZE_MAX in *; lia).
  destruct (page_align_nonzero (size + NOX_CANARY_LEN) ps) as (Hpow & Hum & Hge);
    [done|done|fold usable; lia|]. fold usable in Hum, Hge.
  pose proof (page_align_upper (size + NOX_CANARY_LEN) ps) as Hup. fold usable in Hup.
  unfold NOX_CANARY_LEN in *.
  enough (init_ends ps usable m (init_map ps usable (u64 (ps + usable + ps))
    (m <| m_tr := Sysconf :: SodiumInit :: m_tr m |>))) as (e & m' & E & Hr).
  { exists e, m'. split; [exact E|]. destruct Hr as [[-> Hr]|[-> Hr]]; [left|right]; (split; [done|]).
    - exists usable. split; [done|lia].
    - done. }
  assert (u64 (SIZE_MAX - 2 * ps) = SIZE_MAX - 2 * ps) as Eu1
    by (apply Z.mod_small; unfold SIZE_MAX in *; lia).
  rewrite Eu1 in Et.
  assert (u64 (ps + usable + ps) = usable + 2 * ps) as ->
    by (unfold u64; rewrite Z.mod_small by (unfold SIZE_MAX in *; lia); lia).
  unfold init_map. cbv beta iota delta [mbind AM_bind acall]. cbn [m_tr].
  match goal with |- context [os_answer ?t (Mmap ?n)] => destruct (Hmm t (SodiumInit :: m_tr m) n) as [Eb|[Hb Hal]];
    set (base := sr_ret (os_answer t (Mmap n))) in * end.
  { rewrite Eb. exists NOX_ERR_ALLOC. eexists. split; [reflexivity|right]. split; [done|split; eauto]. }
  change (0 < ps -> base mod ps = 0) in Hal.
  rewrite (proj2 (Z.eqb_neq _ _)) by lia. cbv beta iota delta [change].
  destruct (negb _); [by eapply init_ends_fail|].
  edestruct (init_protect_spec base ps usable (usable + 2 * ps)) as (e & m' & E & Hr);
    [done| | | |eexists e, m'; split; [exact E|]]; [|done|done|].
  - split; [split; [lia|apply Hal; lia]|split; [lia|done]|split; [lia|done]|lia].
  - destruct Hr as [(-> & [])|(-> & [])]; [left|right]; (split; [done|]); by split.
Qed.

End ArenaProofs.

(** ** A concrete arena: pages of 32 bytes, 40 bytes asked for *)

Definition arena_os : OS := fun tr c =>
  match c with
  | Sysconf => SysRet 32 0 []
  | Mmap _ => SysRet 4096 0 []
  | _ => kind_os tr c
  end.

Definition blank : machine := Machine zero_arena None [] None [].
Definition demo_arena : machine := (@arena_init arena_os 40 blank).2.

Lemma demo_holds : holds demo_arena [].
Proof.
  split; [split; vm_compute; done|done|done| |done].
  exists (zeros 32), (zeros 32). split_and!; vm_compute; reflexivity.
Qed.

(** Two keys, a store into the second, one block too many. *)
Definition demo_ops : list op :=
  [OpAlloc 16; OpAlloc 5; OpStore 4144 [Byte.x01]; OpAlloc 32; OpRestore 16].

Lemma arena_refines_witness :
  exists rs m' used', @run_ops arena_os demo_ops demo_arena = (Return rs, m') /\
    spec_run 4128 48 [] demo_ops rs used' /\ holds m' used'.
Proof.
  apply (@arena_refines arena_os demo_arena [] demo_ops); [exact demo_holds|].
  repeat (apply disc_cons; [vm_compute; first [discriminate | split; discriminate]|];
    let r := fresh in let m := fresh in let E := fresh in
    intros r m E; vm_compute in E; injection E; intros ? ?; subst; clear E).
  apply disc_nil.
Defined.

(** An overrun from the second block into the canary. *)
Definition smashed : machine :=
  demo_arena <| m_map := mem_write 80 [Byte.xff] <$> m_map demo_arena |>.

Lemma arena_overflow_detected_witness :
  exists m1 m2, @arena_alloc arena_os 8 smashed = (Abort, m1) /\
    wiped (m_arena smashed) (mapping m1) /\
    @arena_restore arena_os 0 smashed = (Abort, m2) /\ wiped (m_arena smashed) (mapping m2).
Proof.
  apply (@arena_overflow_detected arena_os smashed 8 0); vm_compute; try done; split_and!; discriminate.
Defined.

Lemma arena_destroy_erases_witness :
  exists r m' b, @arena_destroy arena_os demo_arena = (r, m') /\ m_arena m' = zero_arena /\
    wiped (m_arena demo_arena) b /\
    (m_map m' = None /\ m_freed m' = Some b \/ m_map m' = Some b /\ ~ @munmap_works arena_os) /\
    r = (if decide (canary_bytes demo_arena = ar_canary (m_arena demo_arena))
         then Return tt else Abort).
Proof.
  apply (@arena_destroy_erases arena_os demo_arena); vm_compute; try done; split_and!; discriminate.
Defined.
