(* ===== verification/Noise.v ===== *)
(** * The Noise XX implementation: src/noise.c

    Cipher state, symmetric state, handshake state and transport, function by
    function.  A C function that changes the struct it is given returns the
    new struct; one that writes an output buffer returns the bytes written.
    Allocation failures (each HMAC and HKDF allocates) and the ephemeral key
    come from the environment, through [sys].  Buffers are never NULL here
    except where the code gives NULL a meaning (the static keys of
    [handshake_init]). *)

From S2P Require Import Prelude Primitives Types.

Definition NOISE_HASHLEN : nat := 64.
Definition BLAKE2B_BLOCK_SIZE : nat := 128.

Definition NOISE_PROTOCOL_NAME : bytes := lit "Noise_XX_25519_ChaChaPoly_BLAKE2b".
Definition PROLOGUE : bytes := lit "Mustafa Kemal Atatürk".

Section Noise.
Context `{OS} `{Crypto}.

(** ** 1. Cipher state *)

Definition cipher_init : noise_cipher_state := CipherState (zeros 32) 0 false.

Definition cipher_init_key (key : bytes) : noise_cipher_state :=
  CipherState (take 32 key) 0 true.

(** Four zero bytes, then the counter in little-endian order. *)
Definition encode_nonce (n : Z) : bytes :=
  zeros 4 ++ ((fun i => byte.of_Z (Z.shiftr n (8 * i))) <$> seqZ 0 8).

Arguments encode_nonce : simpl never.

Definition cipher_encrypt (cs : noise_cipher_state) (ad pt : bytes)
    : option bytes * noise_cipher_state :=
  if NOX_MAX_MSG_LEN <? len pt then (None, cs)
  else if negb (cs_has_key cs) then (Some pt, cs)
  else
    let current_n := cs_n cs in
    let cs := cs <| cs_n := u64 (current_n + 1) |> in
    if UINT64_MAX <=? current_n then (None, cs <| cs_n := UINT64_MAX |>)
    else
      match aead_encrypt (cs_k cs) (encode_nonce current_n) ad pt with
      | None => (None, cs)
      | Some ct => (Some ct, cs)
      end.

Definition cipher_decrypt (cs : noise_cipher_state) (ad ct : bytes)
    : option bytes * noise_cipher_state :=
  if NOISE_MAX_PAYLOAD_LEN <? len ct then (None, cs)
  else if negb (cs_has_key cs) then (Some ct, cs)
  else if len ct <? NOX_MAC_LEN then (None, cs)
  else
    let current_n := cs_n cs in
    if UINT64_MAX <=? current_n then (None, cs)
    else
      match aead_decrypt (cs_k cs) (encode_nonce current_n) ad ct with
      | None => (None, cs)
      | Some pt => (Some pt, cs <| cs_n := u64 (current_n + 1) |>)
      end.

(** ** 2. Symmetric state *)

Definition symmetric_init (protocol_name : bytes) : noise_symmetric_state :=
  let h :=
    if (length protocol_name <=? NOISE_HASHLEN)%nat
    then protocol_name ++ zeros (NOISE_HASHLEN - length protocol_name)
    else blake2b NOISE_HASHLEN protocol_name in
  SymmetricState h h cipher_init.

Definition symmetric_mix_hash (ss : noise_symmetric_state) (data : bytes)
    : noise_symmetric_state :=
  ss <| ss_h := blake2b NOISE_HASHLEN (ss_h ss ++ data) |>.

Definition byte_xor (x : Z) (b : byte) : byte := byte.of_Z (Z.lxor (byte.unsigned b) x).

(** The error and what the out buffer holds. *)
Definition noise_hmac_blake2b_64 (key data : bytes) : St trace (nox_err * bytes) :=
  k_ok ← malloc_ok (Z.of_nat BLAKE2B_BLOCK_SIZE);
  ipad_ok ← malloc_ok (Z.of_nat BLAKE2B_BLOCK_SIZE);
  opad_ok ← malloc_ok (Z.of_nat BLAKE2B_BLOCK_SIZE);
  inner_ok ← malloc_ok (Z.of_nat NOISE_HASHLEN);
  if negb (k_ok && ipad_ok && opad_ok && inner_ok)
  then mret (NOX_ERR_ALLOC, zeros NOISE_HASHLEN)
  else if (BLAKE2B_BLOCK_SIZE <? length key)%nat
  then mret (NOX_ERR_CRYPTO, zeros NOISE_HASHLEN)
  else
    let k := key ++ zeros (BLAKE2B_BLOCK_SIZE - length key) in
    let ipad := map (byte_xor 0x36) k in
    let opad := map (byte_xor 0x5c) k in
    let inner := blake2b NOISE_HASHLEN (ipad ++ data) in
    mret (NOX_OK, blake2b NOISE_HASHLEN (opad ++ inner)).

(** The error and what [out1] and [out2] hold. *)
Definition hkdf_blake2b (ck ikm : bytes) : St trace (nox_err * bytes * bytes) :=
  let failed err := (err, zeros NOISE_HASHLEN, zeros NOISE_HASHLEN) in
  temp_ok ← malloc_ok (Z.of_nat NOISE_HASHLEN);
  buf_ok ← malloc_ok (Z.of_nat NOISE_HASHLEN + 1);
  if negb (temp_ok && buf_ok) then mret (failed NOX_ERR_ALLOC)
  else
    '(err, temp_key) ← noise_hmac_blake2b_64 ck ikm;
    if negb (err_ok err) then mret (failed err)
    else
      '(err, out1) ← noise_hmac_blake2b_64 temp_key [Byte.x01];
      if negb (err_ok err) then mret (failed err)
      else
        '(err, out2) ← noise_hmac_blake2b_64 temp_key (out1 ++ [Byte.x02]);
        if negb (err_ok err) then mret (failed err)
        else mret (NOX_OK, out1, out2).

(** [ss->ck] is both the key and the first output buffer: it holds the
    output whether or not the derivation succeeded. *)
Definition symmetric_mix_key (ss : noise_symmetric_state) (ikm : bytes)
    : St trace (nox_err * noise_symmetric_state) :=
  '(err, ck, temp_k) ← hkdf_blake2b (ss_ck ss) ikm;
  let ss := ss <| ss_ck := ck |> in
  if negb (err_ok err) then mret (err, ss)
  else mret (NOX_OK, ss <| ss_cs := cipher_init_key temp_k |>).

Definition symmetric_encrypt_and_hash (ss : noise_symmetric_state) (pt : bytes)
    : option bytes * noise_symmetric_state :=
  let '(r, cs) := cipher_encrypt (ss_cs ss) (ss_h ss) pt in
  let ss := ss <| ss_cs := cs |> in
  match r with
  | None => (None, ss)
  | Some ct => (Some ct, symmetric_mix_hash ss ct)
  end.

Definition symmetric_decrypt_and_hash (ss : noise_symmetric_state) (ct : bytes)
    (out_cap : Z) : option bytes * noise_symmetric_state :=
  if cs_has_key (ss_cs ss) && ((len ct <? NOX_MAC_LEN) || (out_cap <? len ct - NOX_MAC_LEN))
  then (None, ss)
  else if negb (cs_has_key (ss_cs ss)) && (out_cap <? len ct) then (None, ss)
  else
    let '(r, cs) := cipher_decrypt (ss_cs ss) (ss_h ss) ct in
    let ss := ss <| ss_cs := cs |> in
    match r with
    | None => (None, ss <| ss_h := zeros NOISE_HASHLEN |>)
    | Some pt => (Some pt, symmetric_mix_hash ss ct)
    end.

(** The new symmetric state and, on success, the two cipher states. *)
Definition symmetric_split (ss : noise_symmetric_state)
    : St trace (nox_err * noise_symmetric_state
                * option (noise_cipher_state * noise_cipher_state)) :=
  '(err, temp_k1, temp_k2) ← hkdf_blake2b (ss_ck ss) [];
  if negb (err_ok err) then mret (err, ss, None)
  else
    mret (NOX_OK,
          SymmetricState (zeros NOISE_HASHLEN) (zeros NOISE_HASHLEN) cipher_init,
          Some (cipher_init_key temp_k1, cipher_init_key temp_k2)).

(** ** 3. Handshake state *)

Definition noise_dh (priv pub : bytes) : nox_err * bytes :=
  if is_zero pub then (NOX_ERR_CRYPTO, zeros 32)
  else
    match x25519 priv pub with
    | None => (NOX_ERR_CRYPTO, zeros 32)
    | Some out => if is_zero out then (NOX_ERR_CRYPTO, out) else (NOX_OK, out)
    end.

(** [crypto_box_curve25519xsalsa20poly1305_keypair(hs->e_pub, hs->e)] *)
Definition gen_ephemeral (hs : noise_handshake) : St trace noise_handshake :=
  r ← sys (RandomBytes 32);
  let e := sr_data r in
  mret (hs <| hs_e := e |> <| hs_e_pub := x25519_base e |>).

Definition handshake_init (initiator : bool) (s_priv s_pub : option bytes)
    : nox_err * option noise_handshake :=
  match s_priv, s_pub with
  | Some s, Some sp =>
      (NOX_OK, Some {|
        hs_ss := symmetric_mix_hash (symmetric_init NOISE_PROTOCOL_NAME) PROLOGUE;
        hs_s := s; hs_s_pub := sp;
        hs_e := zeros 32; hs_e_pub := zeros 32; hs_rs := zeros 32; hs_re := zeros 32;
        hs_initiator := initiator; hs_msg_index := 0;
        hs_split_done := false; hs_failed := false |})
  | _, _ => (NOX_ERR_PROTO, None)
  end.

(** DH then MixKey, the body of each ee, es and se step. *)
Definition dh_mix (hs : noise_handshake) (priv pub : bytes)
    : St trace (nox_err * noise_handshake) :=
  let '(err, dh_out) := noise_dh priv pub in
  if negb (err_ok err) then mret (NOX_ERR_CRYPTO, hs)
  else
    '(err, ss) ← symmetric_mix_key (hs_ss hs) dh_out;
    mret (err, hs <| hs_ss := ss |>).

Definition write_msg0 (hs : noise_handshake) (payload : bytes) (out_len : Z)
    : St trace (nox_err * noise_handshake * bytes) :=
  if out_len <? NOX_KEY_LEN + len payload then mret (NOX_ERR_PROTO, hs, [])
  else
    hs ← gen_ephemeral hs;
    let out := hs_e_pub hs in
    let hs := hs <| hs_ss := symmetric_mix_hash (hs_ss hs) (hs_e_pub hs) |> in
    let '(ct, ss) := symmetric_encrypt_and_hash (hs_ss hs) payload in
    let hs := hs <| hs_ss := ss |> in
    match ct with
    | None => mret (NOX_ERR_CRYPTO, hs, out)
    | Some ct => mret (NOX_OK, hs, out ++ ct)
    end.

Definition write_msg1 (hs : noise_handshake) (payload : bytes) (out_len : Z)
    : St trace (nox_err * noise_handshake * bytes) :=
  if out_len <? NOX_KEY_LEN + NOX_KEY_LEN + NOX_MAC_LEN + len payload + NOX_MAC_LEN
  then mret (NOX_ERR_PROTO, hs, [])
  else
    hs ← gen_ephemeral hs;
    let out := hs_e_pub hs in
    let hs := hs <| hs_ss := symmetric_mix_hash (hs_ss hs) (hs_e_pub hs) |> in
    '(err, hs) ← dh_mix hs (hs_e hs) (hs_re hs);
    if negb (err_ok err) then mret (err, hs, out)
    else
      let '(ct, ss) := symmetric_encrypt_and_hash (hs_ss hs) (hs_s_pub hs) in
      let hs := hs <| hs_ss := ss |> in
      match ct with
      | None => mret (NOX_ERR_CRYPTO, hs, out)
      | Some ct_s =>
          '(err, hs) ← dh_mix hs (hs_s hs) (hs_re hs);
          if negb (err_ok err) then mret (err, hs, out ++ ct_s)
          else
            let '(ct, ss) := symmetric_encrypt_and_hash (hs_ss hs) payload in
            let hs := hs <| hs_ss := ss |> in
            match ct with
            | None => mret (NOX_ERR_CRYPTO, hs, out ++ ct_s)
            | Some ct => mret (NOX_OK, hs <| hs_s := zeros 32 |>, out ++ ct_s ++ ct)
            end
      end.

Definition write_msg2 (hs : noise_handshake) (payload : bytes) (out_len : Z)
    : St trace (nox_err * noise_handshake * bytes) :=
  if out_len <? NOX_KEY_LEN + NOX_MAC_LEN + len payload + NOX_MAC_LEN
  then mret (NOX_ERR_PROTO, hs, [])
  else
    let '(ct, ss) := symmetric_encrypt_and_hash (hs_ss hs) (hs_s_pub hs) in
    let hs := hs <| hs_ss := ss |> in
    match ct with
    | None => mret (NOX_ERR_CRYPTO, hs, [])
    | Some ct_s =>
        '(err, hs) ← dh_mix hs (hs_s hs) (hs_re hs);
        if negb (err_ok err) then mret (err, hs, ct_s)
        else
          let '(ct, ss) := symmetric_encrypt_and_hash (hs_ss hs) payload in
          let hs := hs <| hs_ss := ss |> in
          match ct with
          | None => mret (NOX_ERR_CRYPTO, hs, ct_s)
          | Some ct => mret (NOX_OK, hs <| hs_s := zeros 32 |>, ct_s ++ ct)
          end
    end.

(** The wipe each of the handshake functions performs when a step fails. *)
Definition hs_wipe_failed (hs : noise_handshake) : noise_handshake :=
  hs <| hs_failed := true |>
     <| hs_e := zeros 32 |> <| hs_e_pub := zeros 32 |>
     <| hs_s := zeros 32 |> <| hs_s_pub := zeros 32 |>
     <| hs_re := zeros 32 |> <| hs_rs := zeros 32 |>
     <| hs_ss := SymmetricState (zeros NOISE_HASHLEN) (zeros NOISE_HASHLEN)
                   (ss_cs (hs_ss hs) <| cs_k := zeros 32 |>) |>.

(** Advance or wipe, as [handshake_write] and [handshake_read] end. *)
Definition hs_conclude (err : nox_err) (hs : noise_handshake) : noise_handshake :=
  if err_ok err then hs <| hs_msg_index := hs_msg_index hs + 1 |> else hs_wipe_failed hs.

Definition handshake_write (hs : noise_handshake) (payload : bytes) (out_len : Z)
    : St trace (nox_err * noise_handshake * bytes) :=
  if hs_split_done hs || hs_failed hs then mret (NOX_ERR_STATE, hs, [])
  else if NOISE_MAX_HANDSHAKE_LEN <? len payload then mret (NOX_ERR_PROTO, hs, [])
  else
    let conclude (m : St trace (nox_err * noise_handshake * bytes)) :=
      '(err, hs, out) ← m; mret (err, hs_conclude err hs, out) in
    if hs_initiator hs then
      if hs_msg_index hs =? 0 then conclude (write_msg0 hs payload out_len)
      else if hs_msg_index hs =? 2 then conclude (write_msg2 hs payload out_len)
      else mret (NOX_ERR_STATE, hs, [])
    else
      if hs_msg_index hs =? 1 then conclude (write_msg1 hs payload out_len)
      else mret (NOX_ERR_STATE, hs, []).

Definition read_msg0 (hs : noise_handshake) (msg : bytes) (out_cap : Z)
    : St trace (nox_err * noise_handshake * bytes) :=
  if len msg <? NOX_KEY_LEN then mret (NOX_ERR_PROTO, hs, [])
  else
    let hs := hs <| hs_re := take 32 msg |> in
    let hs := hs <| hs_ss := symmetric_mix_hash (hs_ss hs) (hs_re hs) |> in
    let '(pt, ss) := symmetric_decrypt_and_hash (hs_ss hs) (drop 32 msg) out_cap in
    let hs := hs <| hs_ss := ss |> in
    match pt with
    | None => mret (NOX_ERR_AUTH, hs, [])
    | Some pt => mret (NOX_OK, hs, pt)
    end.

Definition read_msg1 (hs : noise_handshake) (msg : bytes) (out_cap : Z)
    : St trace (nox_err * noise_handshake * bytes) :=
  if len msg <? NOX_KEY_LEN + NOX_KEY_LEN + NOX_MAC_LEN
  then mret (NOX_ERR_PROTO, hs, [])
  else
    let hs := hs <| hs_re := take 32 msg |> in
    let hs := hs <| hs_ss := symmetric_mix_hash (hs_ss hs) (hs_re hs) |> in
    '(err, hs) ← dh_mix hs (hs_e hs) (hs_re hs);
    if negb (err_ok err) then mret (err, hs, [])
    else
      let '(pt, ss) :=
        symmetric_decrypt_and_hash (hs_ss hs) (take 48 (drop 32 msg)) NOX_KEY_LEN in
      let hs := hs <| hs_ss := ss |> in
      match pt with
      | None => mret (NOX_ERR_AUTH, hs, [])
      | Some rs =>
          let hs := hs <| hs_rs := rs |> in
          '(err, hs) ← dh_mix hs (hs_e hs) (hs_rs hs);
          if negb (err_ok err) then mret (err, hs, [])
          else
            let '(pt, ss) := symmetric_decrypt_and_hash (hs_ss hs) (drop 80 msg) out_cap in
            let hs := hs <| hs_ss := ss |> in
            match pt with
            | None => mret (NOX_ERR_AUTH, hs, [])
            | Some pt => mret (NOX_OK, hs, pt)
            end
      end.

Definition read_msg2 (hs : noise_handshake) (msg : bytes) (out_cap : Z)
    : St trace (nox_err * noise_handshake * bytes) :=
  if len msg <? NOX_KEY_LEN + NOX_MAC_LEN then mret (NOX_ERR_PROTO, hs, [])
  else
    let '(pt, ss) := symmetric_decrypt_and_hash (hs_ss hs) (take 48 msg) NOX_KEY_LEN in
    let hs := hs <| hs_ss := ss |> in
    match pt with
    | None => mret (NOX_ERR_AUTH, hs, [])
    | Some rs =>
        let hs := hs <| hs_rs := rs |> in
        '(err, hs) ← dh_mix hs (hs_e hs) (hs_rs hs);
        if negb (err_ok err) then mret (err, hs, [])
        else
          let '(pt, ss) := symmetric_decrypt_and_hash (hs_ss hs) (drop 48 msg) out_cap in
          let hs := hs <| hs_ss := ss |> in
          match pt with
          | None => mret (NOX_ERR_AUTH, hs, [])
          | Some pt => mret (NOX_OK, hs, pt)
          end
    end.

(** The ephemeral private key is erased once its last DH is done. *)
Definition hs_drop_e (err : nox_err) (hs : noise_handshake) : noise_handshake :=
  if err_ok err then hs <| hs_e := zeros 32 |> else hs.

Definition handshake_read (hs : noise_handshake) (msg : bytes) (out_cap : Z)
    : St trace (nox_err * noise_handshake * bytes) :=
  if hs_split_done hs || hs_failed hs then mret (NOX_ERR_STATE, hs, [])
  else
    if hs_initiator hs then
      if hs_msg_index hs =? 1 then
        '(err, hs, pl) ← read_msg1 hs msg out_cap;
        mret (err, hs_conclude err (hs_drop_e err hs), pl)
      else mret (NOX_ERR_STATE, hs, [])
    else
      if hs_msg_index hs =? 0 then
        '(err, hs, pl) ← read_msg0 hs msg out_cap;
        mret (err, hs_conclude err hs, pl)
      else if hs_msg_index hs =? 2 then
        '(err, hs, pl) ← read_msg2 hs msg out_cap;
        mret (err, hs_conclude err (hs_drop_e err hs), pl)
      else mret (NOX_ERR_STATE, hs, []).

Definition handshake_is_complete (hs : noise_handshake) : bool := 3 <=? hs_msg_index hs.

(** The new handshake state and, on success, the session. *)
Definition handshake_split (hs : noise_handshake)
    : St trace (nox_err * noise_handshake * option noise_session) :=
  if hs_split_done hs || hs_failed hs then mret (NOX_ERR_STATE, hs, None)
  else if negb (handshake_is_complete hs) then mret (NOX_ERR_STATE, hs, None)
  else
    '(err, ss, cs) ← symmetric_split (hs_ss hs);
    let hs := hs <| hs_ss := ss |> in
    match cs with
    | None => mret (err, hs_wipe_failed hs, None)
    | Some (c1, c2) =>
        let session :=
          if hs_initiator hs then Session c1 c2 (hs_rs hs) else Session c2 c1 (hs_rs hs) in
        mret (NOX_OK,
          hs <| hs_e := zeros 32 |> <| hs_e_pub := zeros 32 |>
             <| hs_s := zeros 32 |> <| hs_s_pub := zeros 32 |>
             <| hs_re := zeros 32 |> <| hs_rs := zeros 32 |>
             <| hs_split_done := true |>,
          Some session)
    end.

(** ** 4. Transport *)

Definition noise_encrypt (s : noise_session) (pt : bytes) : option bytes * noise_session :=
  if NOX_MAX_MSG_LEN <? len pt then (None, s)
  else
    let '(r, cs) := cipher_encrypt (ns_tx s) [] pt in
    (r, s <| ns_tx := cs |>).

Definition noise_decrypt (s : noise_session) (ct : bytes) : option bytes * noise_session :=
  if NOISE_MAX_PAYLOAD_LEN <? len ct then (None, s)
  else if len ct <? NOX_MAC_LEN then (None, s)
  else
    let '(r, cs) := cipher_decrypt (ns_rx s) [] ct in
    (r, s <| ns_rx := cs |>).

End Noise.
