(* ===== verification/NoiseProofs.v ===== *)
(** * Theorems about the Noise implementation

    The key schedule as a pure function when memory is available; agreement
    of the two ends of an XX handshake; nonce discipline; fail-closed
    behaviour after an error; transport round trips. *)

From S2P Require Import Prelude Primitives Types Noise.

Section NoiseProofs.
Context `{HOS : OS} `{HC : Crypto} {HL : CryptoLaws HC}.

(** ** Nonces *)

Lemma encode_nonce_inj m n :
  0 <= m < 2 ^ 64 -> 0 <= n < 2 ^ 64 -> encode_nonce m = encode_nonce n -> m = n.
Proof.
  intros Hm Hn E. apply app_inv_head in E. apply Z.bits_inj'. intros b Hb.
  destruct (decide (64 <= b)).
  { by rewrite !(testbit_above 64) by lia. }
  assert (byte.of_Z (Z.shiftr m (8 * (b / 8))) = byte.of_Z (Z.shiftr n (8 * (b / 8)))) as E2.
  { assert (0 <= b / 8 < 8) as Hq.
    { split; [apply Z.div_pos; lia | apply Z.div_lt_upper_bound; lia]. }
    apply (f_equal (fun l => l !! Z.to_nat (b / 8))) in E.
    rewrite !list_lookup_fmap, !lookup_seqZ_lt in E by lia. cbn -[Z.shiftr Z.div Z.mul] in E.
    rewrite Z2Nat.id in E by lia. by injection E. }
  apply (f_equal byte.unsigned) in E2. rewrite !byte.unsigned_of_Z in E2.
  unfold byte.wrap in E2. apply (f_equal (fun z => Z.testbit z (b mod 8))) in E2.
  pose proof (Z.mod_pos_bound b 8). rewrite !Z.mod_pow2_bits_low in E2 by lia.
  rewrite !Z.shiftr_spec in E2 by lia.
  replace (b mod 8 + 8 * (b / 8)) with b in E2 by (pose proof (Z.div_mod b 8); lia).
  done.
Qed.

(** ** One encryption, one decryption *)

(** Shape of a cipher state the code can reach: the counter is a [uint64_t]. *)
Definition cs_wf (cs : noise_cipher_state) : Prop := 0 <= cs_n cs <= UINT64_MAX.

Lemma cipher_encrypt_keyed cs ad pt ct cs' :
  cs_wf cs -> cs_has_key cs = true -> cipher_encrypt cs ad pt = (Some ct, cs') ->
  cs_n cs < UINT64_MAX /\ aead_encrypt (cs_k cs) (encode_nonce (cs_n cs)) ad pt = Some ct /\
  cs' = cs <| cs_n := cs_n cs + 1 |>.
Proof.
  unfold cipher_encrypt, cs_wf, UINT64_MAX. intros Hwf Hk E. rewrite Hk in E.
  destruct (_ <? len pt) eqn:?; [done|]. cbn -[u64 Z.pow encode_nonce Z.leb] in E.
  destruct (_ <=? cs_n cs) eqn:?; [done|].
  destruct (aead_encrypt _ _ _ _) eqn:?; simplify_eq.
  unfold u64. rewrite Z.mod_small by lia. split_and!; try done; lia.
Qed.

Lemma cipher_encrypt_None_wf cs ad pt cs' :
  cs_wf cs -> cipher_encrypt cs ad pt = (None, cs') ->
  cs_wf cs' /\ cs_k cs' = cs_k cs /\ cs_has_key cs' = cs_has_key cs /\ cs_n cs <= cs_n cs'.
Proof.
  unfold cipher_encrypt, cs_wf, UINT64_MAX. intros Hwf E.
  destruct (_ <? len pt); [by simplify_eq|].
  destruct (cs_has_key cs) eqn:Hk; cbn -[u64 Z.pow encode_nonce Z.leb] in E; [|done].
  destruct (_ <=? cs_n cs) eqn:?; [simplify_eq; cbn -[Z.pow]; split_and!; try done; lia|].
  destruct (aead_encrypt _ _ _ _); simplify_eq. cbn -[u64 Z.pow].
  unfold u64. rewrite Z.mod_small by lia. split_and!; try done; lia.
Qed.

Lemma cipher_decrypt_cases cs ad ct :
  cs_wf cs ->
  match cipher_decrypt cs ad ct with
  | (None, cs') => cs' = cs
  | (Some pt, cs') =>
      if cs_has_key cs then
        cs_n cs < UINT64_MAX /\
        aead_decrypt (cs_k cs) (encode_nonce (cs_n cs)) ad ct = Some pt /\
        cs' = cs <| cs_n := cs_n cs + 1 |>
      else cs' = cs /\ pt = ct
  end.
Proof.
  unfold cipher_decrypt, cs_wf, UINT64_MAX. intros Hwf.
  destruct (_ <? len ct); [done|]. destruct (cs_has_key cs); [|done]. cbn -[Z.pow u64 Z.leb].
  destruct (len ct <? _); [done|]. destruct (_ <=? cs_n cs) eqn:?; [done|].
  destruct (aead_decrypt _ _ _ _); [|done].
  unfold u64. rewrite Z.mod_small by lia. split_and!; try done; lia.
Qed.

(** What a decryptor in the encryptor's state makes of its output. *)
Lemma cipher_decrypt_encrypt cs ad pt ct cs' :
  cs_wf cs -> cipher_encrypt cs ad pt = (Some ct, cs') ->
  cipher_decrypt cs ad ct = (Some pt, cs').
Proof.
  intros Hwf E. destruct (cs_has_key cs) eqn:Hk.
  - pose proof (cipher_encrypt_keyed _ _ _ _ _ Hwf Hk E) as (Hn & Ha & ->).
    assert (len pt <= NOX_MAX_MSG_LEN) as Hl.
    { unfold cipher_encrypt in E. destruct (Z.ltb_spec NOX_MAX_MSG_LEN (len pt)); [done|lia]. }
    pose proof (aead_encrypt_length _ _ _ _ _ Ha) as Hlc.
    unfold cipher_decrypt, NOISE_MAX_PAYLOAD_LEN, NOX_MAX_MSG_LEN, NOX_MAC_LEN, len in *.
    rewrite Hk, Hlc. cbn -[u64 Z.pow Z.leb Z.of_nat Nat.add].
    rewrite (proj2 (Z.ltb_ge _ _)) by lia. rewrite (proj2 (Z.ltb_ge _ _)) by lia.
    rewrite (proj2 (Z.leb_gt _ _)) by lia. rewrite (aead_decrypt_encrypt _ _ _ _ _ Ha).
    unfold cs_wf, UINT64_MAX, u64 in *. by rewrite Z.mod_small by lia.
  - unfold cipher_encrypt in E. unfold cipher_decrypt, NOISE_MAX_PAYLOAD_LEN, NOX_MAC_LEN.
    rewrite Hk in *. cbn -[Z.ltb] in *.
    destruct (Z.ltb_spec NOX_MAX_MSG_LEN (len pt)); simplify_eq.
    by rewrite (proj2 (Z.ltb_ge _ _)) by lia.
Qed.

Lemma cipher_encrypt_total cs ad pt :
  len pt <= NOX_MAX_MSG_LEN -> (cs_has_key cs = true -> cs_n cs < UINT64_MAX) ->
  exists ct cs', cipher_encrypt cs ad pt = (Some ct, cs').
Proof.
  intros Hl Hn. unfold cipher_encrypt. rewrite (proj2 (Z.ltb_ge _ _)) by lia.
  destruct (cs_has_key cs); cbn -[u64 Z.pow Z.leb encode_nonce]; [|eauto].
  rewrite (proj2 (Z.leb_gt _ _)) by auto.
  destruct (aead_encrypt_total (cs_k cs) (encode_nonce (cs_n cs)) ad pt) as [c ->];
    [exact Hl|]. eauto.
Qed.

(** ** Symmetric state *)

Lemma symmetric_decrypt_encrypt ss pt ct ss' cap :
  cs_wf (ss_cs ss) -> len pt <= cap ->
  symmetric_encrypt_and_hash ss pt = (Some ct, ss') ->
  symmetric_decrypt_and_hash ss ct cap = (Some pt, ss').
Proof.
  unfold symmetric_encrypt_and_hash, symmetric_decrypt_and_hash. intros Hwf Hcap E.
  destruct (cipher_encrypt _ _ _) as [[c|] cs] eqn:Ec; simplify_eq/=.
  rewrite (cipher_decrypt_encrypt _ _ _ _ _ Hwf Ec).
  destruct (cs_has_key (ss_cs ss)) eqn:Hk; cbn -[Z.ltb].
  - pose proof (cipher_encrypt_keyed _ _ _ _ _ Hwf Hk Ec) as (_ & Ha & _).
    apply aead_encrypt_length in Ha. unfold len, NOX_MAC_LEN in *. rewrite Ha.
    rewrite (proj2 (Z.ltb_ge _ _)) by lia. cbn -[Z.ltb].
    by rewrite (proj2 (Z.ltb_ge _ _)) by lia.
  - unfold cipher_encrypt in Ec. rewrite Hk in Ec. cbn -[Z.ltb] in Ec.
    destruct (_ <? len pt); simplify_eq. by rewrite (proj2 (Z.ltb_ge _ _)) by lia.
Qed.

(** The length of what [symmetric_encrypt_and_hash] puts on the wire, and the
    cipher state it leaves. *)
Lemma symmetric_encrypt_facts ss pt :
  cs_wf (ss_cs ss) -> (cs_has_key (ss_cs ss) = true -> cs_n (ss_cs ss) < UINT64_MAX) ->
  len pt <= NOX_MAX_MSG_LEN ->
  exists ct ss', symmetric_encrypt_and_hash ss pt = (Some ct, ss') /\
    length ct = (if cs_has_key (ss_cs ss) then length pt + 16 else length pt)%nat /\
    ss_ck ss' = ss_ck ss /\ cs_wf (ss_cs ss') /\
    cs_has_key (ss_cs ss') = cs_has_key (ss_cs ss) /\
    cs_n (ss_cs ss') = (if cs_has_key (ss_cs ss) then cs_n (ss_cs ss) + 1 else cs_n (ss_cs ss)).
Proof.
  intros Hwf Hn Hl. unfold symmetric_encrypt_and_hash.
  destruct (cipher_encrypt_total (ss_cs ss) (ss_h ss) pt Hl Hn) as (ct & cs' & Ec).
  rewrite Ec. eexists ct, _. split; [done|].
  destruct (cs_has_key (ss_cs ss)) eqn:Hk.
  - destruct (cipher_encrypt_keyed _ _ _ _ _ Hwf Hk Ec) as (? & Ha & ->).
    apply aead_encrypt_length in Ha. unfold cs_wf, UINT64_MAX in *.
    cbn -[Z.pow Nat.add]. split_and!; try done; lia.
  - unfold cipher_encrypt in Ec. rewrite Hk in Ec. cbn -[Z.ltb] in Ec.
    destruct (_ <? len pt); simplify_eq. by cbn.
Qed.

(** ** Key schedule *)

(** HMAC and HKDF as functions, when every allocation succeeds. *)
Definition hmac64 (key data : bytes) : bytes :=
  let k := key ++ zeros (BLAKE2B_BLOCK_SIZE - length key) in
  blake2b NOISE_HASHLEN
    (map (byte_xor 0x5c) k ++ blake2b NOISE_HASHLEN (map (byte_xor 0x36) k ++ data)).
Definition hkdf1 (ck ikm : bytes) : bytes := hmac64 (hmac64 ck ikm) [Byte.x01].
Definition hkdf2 (ck ikm : bytes) : bytes :=
  hmac64 (hmac64 ck ikm) (hkdf1 ck ikm ++ [Byte.x02]).

(** An environment in which memory is available. *)
Definition mem_ok : Prop := forall tr n, sr_ret (os_answer tr (Malloc n)) <> 0.

Lemma malloc_ok_true n tr : mem_ok -> malloc_ok n tr = (true, Malloc n :: tr).
Proof.
  intros Hm. unfold malloc_ok, sys. run_st. specialize (Hm tr n).
  by rewrite (proj2 (Z.eqb_neq _ _)).
Qed.

Lemma length_hmac64 k d : length (hmac64 k d) = 64%nat.
Proof. apply blake2b_length. Qed.

Lemma hmac_ok key data tr :
  mem_ok -> (length key <= 128)%nat ->
  exists tr', noise_hmac_blake2b_64 key data tr = ((NOX_OK, hmac64 key data), tr').
Proof.
  intros Hm Hk. unfold noise_hmac_blake2b_64. run_st.
  rewrite !malloc_ok_true by done. cbn [andb negb].
  rewrite (proj2 (Nat.ltb_ge _ _)) by done. eexists. reflexivity.
Qed.

Lemma hkdf_ok ck ikm tr :
  mem_ok -> (length ck <= 128)%nat ->
  exists tr', hkdf_blake2b ck ikm tr = ((NOX_OK, hkdf1 ck ikm, hkdf2 ck ikm), tr').
Proof.
  intros Hm Hck. unfold hkdf_blake2b. run_st. rewrite !malloc_ok_true by done. cbn [andb negb].
  run_st. edestruct hmac_ok as [tr1 ->]; [done|done|]. run_ok.
  edestruct hmac_ok as [tr2 ->]; [done|rewrite length_hmac64; lia|]. run_ok.
  edestruct hmac_ok as [tr3 ->]; [done|rewrite length_hmac64; lia|]. run_ok.
  by eexists.
Qed.

(** Every way [hkdf_blake2b] can fail leaves both outputs zero. *)
Lemma hkdf_fail_zero ck ikm tr :
  let '((err, o1, o2), _) := hkdf_blake2b ck ikm tr in
  err <> NOX_OK -> o1 = zeros NOISE_HASHLEN /\ o2 = zeros NOISE_HASHLEN.
Proof.
  unfold hkdf_blake2b. run_st. do 2 (destruct (malloc_ok _ _) as [? ?]; run_st).
  destruct (negb _); [done|].
  do 3 (destruct (noise_hmac_blake2b_64 _ _ _) as [[? ?] ?]; run_st;
        match goal with |- context [err_ok ?e] => destruct (negb (err_ok e)) end; [done|]).
  done.
Qed.

(** MixKey on a symmetric state. *)
Definition mix_key (ss : noise_symmetric_state) (ikm : bytes) : noise_symmetric_state :=
  SymmetricState (hkdf1 (ss_ck ss) ikm) (ss_h ss) (cipher_init_key (hkdf2 (ss_ck ss) ikm)).

Lemma cs_wf_init k : cs_wf (cipher_init_key k).
Proof. unfold cs_wf, cipher_init_key, UINT64_MAX. cbn. lia. Qed.

Lemma noise_dh_ok priv pub o :
  is_zero pub = false -> x25519 priv pub = Some o -> is_zero o = false ->
  noise_dh priv pub = (NOX_OK, o).
Proof. intros H1 H2 H3. unfold noise_dh. by rewrite H1, H2, H3. Qed.

Lemma dh_mix_ok hs priv pub o tr :
  mem_ok -> (length (ss_ck (hs_ss hs)) <= 128)%nat ->
  is_zero pub = false -> x25519 priv pub = Some o -> is_zero o = false ->
  exists tr', dh_mix hs priv pub tr = ((NOX_OK, hs <| hs_ss := mix_key (hs_ss hs) o |>), tr').
Proof.
  intros Hm Hck H1 H2 H3. unfold dh_mix. rewrite (noise_dh_ok _ _ _ H1 H2 H3).
  run_ok. unfold symmetric_mix_key. run_st.
  edestruct hkdf_ok as [tr' ->]; [done|done|]. run_ok. by eexists.
Qed.

Lemma length_hkdf1 ck ikm : length (hkdf1 ck ikm) = 64%nat.
Proof. apply length_hmac64. Qed.

(** ** An XX handshake between two ends

    [xx_run] lets an initiator with static key [si] and a responder with
    static key [sr] exchange the three messages with payloads [p0], [p1] and
    [p2], every message written and read by the code above, and then split. *)

Definition xx_run (si sr p0 p1 p2 : bytes) (cap : Z)
    : St trace (option (noise_session * noise_session * (bytes * bytes * bytes))) :=
  match handshake_init true (Some si) (Some (x25519_base si)),
        handshake_init false (Some sr) (Some (x25519_base sr)) with
  | (NOX_OK, Some hi), (NOX_OK, Some hr) =>
      '(e1, hi, m0) ← handshake_write hi p0 NOISE_MAX_HANDSHAKE_LEN;
      '(e2, hr, q0) ← handshake_read hr m0 cap;
      '(e3, hr, m1) ← handshake_write hr p1 NOISE_MAX_HANDSHAKE_LEN;
      '(e4, hi, q1) ← handshake_read hi m1 cap;
      '(e5, hi, m2) ← handshake_write hi p2 NOISE_MAX_HANDSHAKE_LEN;
      '(e6, hr, q2) ← handshake_read hr m2 cap;
      '(e7, hi, ssn_i) ← handshake_split hi;
      '(e8, hr, ssn_r) ← handshake_split hr;
      if err_ok e1 && err_ok e2 && err_ok e3 && err_ok e4 && err_ok e5 && err_ok e6
         && err_ok e7 && err_ok e8
      then
        match ssn_i, ssn_r with
        | Some a, Some b => mret (Some (a, b, (q0, q1, q2)))
        | _, _ => mret None
        end
      else mret None
  | _, _ => mret None
  end.

(** Private keys on which X25519 works: any two give a non-zero secret. *)
Definition good_keys (K : bytes -> Prop) : Prop :=
  forall a b, K a -> K b ->
    is_zero (x25519_base b) = false /\
    exists o, x25519 a (x25519_base b) = Some o /\ is_zero o = false.

(** The session keys of the two ends match crosswise. *)
Definition paired (a b : noise_session) : Prop := ns_tx a = ns_rx b /\ ns_rx a = ns_tx b.

(** *** The messages, one at a time *)

(** A symmetric state in the middle of a handshake. *)
Definition ss_ready (ss : noise_symmetric_state) (keyed : bool) : Prop :=
  cs_has_key (ss_cs ss) = keyed /\ 0 <= cs_n (ss_cs ss) < 16 /\
  length (ss_ck ss) = 64%nat.

Lemma ss_ready_wf ss k : ss_ready ss k -> cs_wf (ss_cs ss).
Proof. unfold ss_ready, cs_wf, UINT64_MAX. intros (_ & ? & _). lia. Qed.

Lemma ss_ready_mix_hash ss k d : ss_ready ss k -> ss_ready (symmetric_mix_hash ss d) k.
Proof. done. Qed.

Lemma ss_ready_mix_key ss k o : ss_ready ss k -> ss_ready (mix_key ss o) true.
Proof.
  intros (_ & _ & _). unfold ss_ready, mix_key. cbn -[hkdf1 hkdf2].
  by rewrite length_hkdf1.
Qed.

(** Encrypting in a ready state succeeds, and a reader in the same state
    recovers the plaintext and the writer's state. *)
Lemma ss_exchange ss k pt :
  ss_ready ss k -> cs_n (ss_cs ss) < 15 -> len pt <= NOX_MAX_MSG_LEN ->
  exists ct ss', symmetric_encrypt_and_hash ss pt = (Some ct, ss') /\
    (forall cap, len pt <= cap -> symmetric_decrypt_and_hash ss ct cap = (Some pt, ss')) /\
    length ct = (if k then length pt + 16 else length pt)%nat /\
    ss_ready ss' k /\
    cs_n (ss_cs ss') <= cs_n (ss_cs ss) + 1.
Proof.
  intros Hr Hn Hl. pose proof (ss_ready_wf _ _ Hr) as Hwf.
  destruct Hr as (Hk & Hb & Hck).
  destruct (symmetric_encrypt_facts ss pt Hwf) as (ct & ss' & E & Hlen & Hck' & _ & Hk' & Hn');
    [unfold UINT64_MAX; lia|done|].
  exists ct, ss'. rewrite Hk in *. split_and!; try done.
  - intros cap Hcap. by apply symmetric_decrypt_encrypt.
  - unfold ss_ready. rewrite Hk', Hck', Hn'. destruct k; split_and!; try done; lia.
  - rewrite Hn'. destruct k; lia.
Qed.

Ltac hs_cbn := cbv beta iota zeta delta
  [hs_ss hs_s hs_s_pub hs_e hs_e_pub hs_rs hs_re hs_initiator hs_msg_index
   hs_split_done hs_failed set_field orb negb andb err_ok
   mbind mret St_bind St_ret fst snd hs_conclude hs_drop_e].

Lemma msg0_exchange ss p0 cap tr :
  ss_ready ss false -> cs_n (ss_cs ss) = 0 -> 32 + len p0 <= 256 -> len p0 <= cap ->
  let e := sr_data (os_answer tr (RandomBytes 32)) in
  exists ss' m0,
    (forall s sp e0 ep0 rs re, exists tr',
      handshake_write (Handshake ss s sp e0 ep0 rs re true 0 false false) p0 256 tr =
      ((NOX_OK, Handshake ss' s sp e (x25519_base e) rs re true 1 false false, m0), tr')) /\
    (forall s sp e0 ep0 rs re tr2, exists tr2',
      handshake_read (Handshake ss s sp e0 ep0 rs re false 0 false false) m0 cap tr2 =
      ((NOX_OK, Handshake ss' s sp e0 ep0 rs (x25519_base e) false 1 false false, p0), tr2')) /\
    ss_ready ss' false.
Proof.
  intros Hr Hn Hl Hc e. set (ep := x25519_base e).
  destruct (ss_exchange (symmetric_mix_hash ss ep) false p0) as (ct & ss' & E & D & Hct & Hr' & Hn');
    [by apply ss_ready_mix_hash|cbn; lia|unfold NOX_MAX_MSG_LEN; lia|].
  exists ss', (ep ++ ct). split_and!; [| |done].
  - intros. unfold handshake_write, NOISE_MAX_HANDSHAKE_LEN. hs_cbn.
    rewrite (proj2 (Z.ltb_ge _ _)) by (pose proof (len_nonneg p0); lia).
    cbn [Z.eqb Pos.eqb]. unfold write_msg0, NOX_KEY_LEN.
    rewrite (proj2 (Z.ltb_ge _ _)) by lia. unfold gen_ephemeral, sys. hs_cbn.
    fold e. fold ep. rewrite E. hs_cbn. by eexists.
  - intros. unfold handshake_read. hs_cbn. cbn [Z.eqb Pos.eqb]. unfold read_msg0, NOX_KEY_LEN.
    assert (length ep = 32%nat) as Hep by apply x25519_base_length.
    rewrite (proj2 (Z.ltb_ge _ _)) by (unfold len; rewrite length_app; lia). hs_cbn.
    rewrite take_app_length', drop_app_length' by done. rewrite D by done. hs_cbn. by eexists.
Qed.

(** The facts two good keys give a DH step. *)
Lemma good_keys_dh K a b :
  good_keys K -> K a -> K b ->
  is_zero (x25519_base b) = false /\ is_zero (x25519_base a) = false /\
  exists o, x25519 a (x25519_base b) = Some o /\ x25519 b (x25519_base a) = Some o /\
            is_zero o = false.
Proof.
  intros HK Ha Hb. destruct (HK a b Ha Hb) as (H1 & o & H2 & H3).
  destruct (HK b a Hb Ha) as (H4 & _). split_and!; [done..|].
  exists o. by rewrite (x25519_comm b a).
Qed.

(** A DH step with MixKey, in a ready state, on a literal handshake. *)
Lemma dh_mix_literal ss s sp e ep rs re ini idx priv pub o k tr :
  mem_ok -> ss_ready ss k -> is_zero pub = false -> x25519 priv pub = Some o ->
  is_zero o = false ->
  exists tr', dh_mix (Handshake ss s sp e ep rs re ini idx false false) priv pub tr =
    ((NOX_OK, Handshake (mix_key ss o) s sp e ep rs re ini idx false false), tr').
Proof.
  intros Hm (_ & _ & Hck) H1 H2 H3.
  apply (dh_mix_ok (Handshake ss s sp e ep rs re ini idx false false)); try done.
  cbn. lia.
Qed.

Lemma mix_key_n ss o : cs_n (ss_cs (mix_key ss o)) = 0.
Proof. done. Qed.

Ltac dh_step := edestruct dh_mix_literal as [? ->];
  [eassumption
  |solve [eauto using ss_ready_mix_hash, ss_ready_mix_key]
  |eassumption|eassumption|eassumption|hs_cbn].

Lemma msg1_exchange (K : bytes -> Prop) ss ei sr p1 cap tr :
  mem_ok -> good_keys K -> K ei -> K sr ->
  let e := sr_data (os_answer tr (RandomBytes 32)) in
  K e -> ss_ready ss false -> 96 + len p1 <= 256 -> len p1 <= cap ->
  exists ss' m1,
    (forall e0 ep0 rs, exists tr',
      handshake_write
        (Handshake ss sr (x25519_base sr) e0 ep0 rs (x25519_base ei) false 1 false false) p1 256 tr =
      ((NOX_OK, Handshake ss' (zeros 32) (x25519_base sr) e (x25519_base e) rs
                  (x25519_base ei) false 2 false false, m1), tr')) /\
    (forall s sp rs re tr2, exists tr2',
      handshake_read (Handshake ss s sp ei (x25519_base ei) rs re true 1 false false) m1 cap tr2 =
      ((NOX_OK, Handshake ss' s sp (zeros 32) (x25519_base ei) (x25519_base sr)
                  (x25519_base e) true 2 false false, p1), tr2')) /\
    ss_ready ss' true /\ cs_n (ss_cs ss') <= 2.
Proof.
  intros Hm HK Hei Hsr e He Hr Hl Hc. set (ep := x25519_base e).
  destruct (good_keys_dh K e ei HK He Hei) as (Z1 & Z2 & o1 & D1 & D1' & Zo1).
  destruct (good_keys_dh K sr ei HK Hsr Hei) as (_ & Z3 & o2 & D2 & D2' & Zo2).
  set (ss1 := mix_key (symmetric_mix_hash ss ep) o1).
  assert (ss_ready ss1 true) as Hr1 by eauto using ss_ready_mix_key, ss_ready_mix_hash.
  destruct (ss_exchange ss1 true (x25519_base sr)) as (cts & ss2 & E1 & R1 & L1 & Hr2 & _);
    [done|unfold ss1; rewrite mix_key_n; lia
    |unfold len, NOX_MAX_MSG_LEN; rewrite x25519_base_length; lia|].
  rewrite x25519_base_length in L1.
  destruct (ss_exchange (mix_key ss2 o2) true p1) as (ct & ss3 & E2 & R2 & L2 & Hr3 & Hn3);
    [by eapply ss_ready_mix_key|rewrite mix_key_n; lia|unfold NOX_MAX_MSG_LEN; lia|].
  rewrite mix_key_n in Hn3.
  exists ss3, (ep ++ cts ++ ct). split_and!; [| |done|lia].
  - intros. unfold handshake_write, NOISE_MAX_HANDSHAKE_LEN. hs_cbn.
    rewrite (proj2 (Z.ltb_ge _ _)) by (pose proof (len_nonneg p1); lia).
    cbn [Z.eqb Pos.eqb]. unfold write_msg1, NOX_KEY_LEN, NOX_MAC_LEN.
    rewrite (proj2 (Z.ltb_ge _ _)) by lia. unfold gen_ephemeral, sys. hs_cbn.
    fold e. fold ep. dh_step. fold ss1. rewrite E1. hs_cbn. dh_step. rewrite E2. hs_cbn.
    by eexists.
  - intros. unfold handshake_read. hs_cbn. cbn [Z.eqb Pos.eqb].
    unfold read_msg1, NOX_KEY_LEN, NOX_MAC_LEN.
    assert (length ep = 32%nat) as Hep by apply x25519_base_length.
    rewrite (proj2 (Z.ltb_ge _ _)) by (unfold len; rewrite !length_app; lia). hs_cbn.
    rewrite take_app_length' by done. rewrite (drop_app_length' ep _ 32) by done.
    rewrite take_app_length' by done.
    replace (drop 80 (ep ++ cts ++ ct)) with ct by (rewrite app_assoc, drop_app_length'; [done|];
      rewrite length_app; lia).
    dh_step. fold ss1. rewrite R1 by (unfold len; rewrite x25519_base_length; lia). hs_cbn.
    dh_step. rewrite R2 by done. hs_cbn. by eexists.
Qed.

Lemma msg2_exchange (K : bytes -> Prop) ss er si p2 cap tr :
  mem_ok -> good_keys K -> K er -> K si ->
  ss_ready ss true -> cs_n (ss_cs ss) <= 2 -> 64 + len p2 <= 256 -> len p2 <= cap ->
  exists ss' m2,
    (forall e ep rs, exists tr',
      handshake_write
        (Handshake ss si (x25519_base si) e ep rs (x25519_base er) true 2 false false) p2 256 tr =
      ((NOX_OK, Handshake ss' (zeros 32) (x25519_base si) e ep rs
                  (x25519_base er) true 3 false false, m2), tr')) /\
    (forall s sp rs re tr2, exists tr2',
      handshake_read (Handshake ss s sp er (x25519_base er) rs re false 2 false false) m2 cap tr2 =
      ((NOX_OK, Handshake ss' s sp (zeros 32) (x25519_base er) (x25519_base si)
                  re false 3 false false, p2), tr2')) /\
    ss_ready ss' true.
Proof.
  intros Hm HK Her Hsi Hr Hn Hl Hc.
  destruct (good_keys_dh K si er HK Hsi Her) as (Z1 & Z2 & o & D & D' & Zo).
  destruct (ss_exchange ss true (x25519_base si)) as (cts & ss2 & E1 & R1 & L1 & Hr2 & _);
    [done|lia|unfold len, NOX_MAX_MSG_LEN; rewrite x25519_base_length; lia|].
  rewrite x25519_base_length in L1.
  destruct (ss_exchange (mix_key ss2 o) true p2) as (ct & ss3 & E2 & R2 & L2 & Hr3 & Hn3);
    [by eapply ss_ready_mix_key|rewrite mix_key_n; lia|unfold NOX_MAX_MSG_LEN; lia|].
  exists ss3, (cts ++ ct). split_and!; [| |done].
  - intros. unfold handshake_write, NOISE_MAX_HANDSHAKE_LEN. hs_cbn.
    rewrite (proj2 (Z.ltb_ge _ _)) by (pose proof (len_nonneg p2); lia).
    cbn [Z.eqb Pos.eqb]. unfold write_msg2, NOX_KEY_LEN, NOX_MAC_LEN.
    rewrite (proj2 (Z.ltb_ge _ _)) by lia. hs_cbn. rewrite E1. hs_cbn.
    dh_step. rewrite E2. hs_cbn. by eexists.
  - intros. unfold handshake_read. hs_cbn. cbn [Z.eqb Pos.eqb].
    unfold read_msg2, NOX_KEY_LEN, NOX_MAC_LEN.
    rewrite (proj2 (Z.ltb_ge _ _)) by (unfold len; rewrite !length_app; lia). hs_cbn.
    rewrite take_app_length', drop_app_length' by lia.
    rewrite R1 by (unfold len; rewrite x25519_base_length; lia). hs_cbn.
    dh_step. rewrite R2 by done. hs_cbn. by eexists.
Qed.

Lemma split_ok ss s sp e ep rs re ini tr k :
  mem_ok -> ss_ready ss k ->
  exists hs' tr', handshake_split (Handshake ss s sp e ep rs re ini 3 false false) tr =
    ((NOX_OK, hs',
      Some (let c1 := cipher_init_key (hkdf1 (ss_ck ss) []) in
            let c2 := cipher_init_key (hkdf2 (ss_ck ss) []) in
            if ini then Session c1 c2 rs else Session c2 c1 rs)), tr').
Proof.
  intros Hm (_ & _ & Hck). unfold handshake_split, handshake_is_complete. hs_cbn.
  cbn [Z.leb Z.compare Pos.compare Pos.compare_cont]. unfold symmetric_split. hs_cbn.
  edestruct hkdf_ok as [tr' ->]; [done|lia|]. hs_cbn. by do 2 eexists.
Qed.

(** C2 The XX handshake is complete and the two ends agree.  With memory
    available and keys on which X25519 works, the three messages are all
    accepted, every payload arrives unchanged, both splits succeed, the
    transport keys match crosswise with both counters at zero, and each end
    has authenticated the other's static public key. *)
Theorem xx_handshake_agreement (K : bytes -> Prop) si sr p0 p1 p2 cap tr :
  mem_ok -> good_keys K -> K si -> K sr ->
  (forall tr, K (sr_data (os_answer tr (RandomBytes 32)))) ->
  32 + len p0 <= 256 -> 96 + len p1 <= 256 -> 64 + len p2 <= 256 ->
  len p0 <= cap -> len p1 <= cap -> len p2 <= cap ->
  exists a b,
    (xx_run si sr p0 p1 p2 cap tr).1 = Some (a, b, (p0, p1, p2)) /\
    paired a b /\ cs_n (ns_tx a) = 0 /\ cs_n (ns_rx a) = 0 /\
    cs_has_key (ns_tx a) = true /\ cs_has_key (ns_rx a) = true /\
    ns_remote_static a = x25519_base sr /\ ns_remote_static b = x25519_base si.
Proof.
  intros Hm HK Hsi Hsr Hrnd L0 L1 L2 C0 C1 C2. unfold xx_run, handshake_init. hs_cbn.
  set (ss0 := symmetric_mix_hash _ _).
  assert (ss_ready ss0 false) as Hr0 by (split_and!; [done|done|done|done]).
  destruct (msg0_exchange ss0 p0 cap tr) as (ss1 & m0 & W0 & R0 & Hr1); [done..|].
  edestruct W0 as [tr1 ->]. hs_cbn. edestruct R0 as [tr2 ->]. hs_cbn.
  edestruct (msg1_exchange K ss1) as (ss2 & m1 & W1 & R1 & Hr2 & Hn2);
    [done|done|apply Hrnd|exact Hsr|apply Hrnd|done|exact L1|exact C1|].
  edestruct W1 as [tr3 ->]. hs_cbn. edestruct R1 as [tr4 ->]. hs_cbn.
  edestruct (msg2_exchange K ss2) as (ss3 & m2 & W2 & R2 & Hr3);
    [done|done|apply Hrnd|exact Hsi|done|done|exact L2|exact C2|].
  edestruct W2 as [tr5 ->]. hs_cbn. edestruct R2 as [tr6 ->]. hs_cbn.
  edestruct split_ok as (hi & tr7 & ->); [done|done|]. hs_cbn.
  edestruct split_ok as (hr & tr8 & ->); [done|done|]. hs_cbn.
  by do 2 eexists.
Qed.

(** ** Nonce discipline *)

(** Encrypt a list of (associated data, plaintext) pairs in order, keeping
    for each ciphertext the counter it was made with. *)
Fixpoint encrypt_run (cs : noise_cipher_state) (l : list (bytes * bytes))
    : list (Z * (bytes * bytes)) :=
  match l with
  | [] => []
  | (ad, pt) :: l =>
      match cipher_encrypt cs ad pt with
      | (Some ct, cs') => (cs_n cs, (ad, ct)) :: encrypt_run cs' l
      | (None, cs') => encrypt_run cs' l
      end
  end.

Lemma encrypt_run_above l cs :
  cs_wf cs -> cs_has_key cs = true ->
  Forall (fun r => cs_n cs <= r.1 < UINT64_MAX) (encrypt_run cs l) /\
  NoDup (encrypt_run cs l).*1.
Proof.
  revert cs. induction l as [|[ad pt] l IH]; intros cs Hwf Hk; simpl; [split; constructor|].
  destruct (cipher_encrypt cs ad pt) as [[ct|] cs'] eqn:E; simpl.
  - destruct (cipher_encrypt_keyed _ _ _ _ _ Hwf Hk E) as (Hn & _ & ->).
    destruct (IH (cs <| cs_n := cs_n cs + 1 |>)) as [IH1 IH2];
      [unfold cs_wf in *; cbn; lia|done|]. cbn in IH1.
    split.
    + constructor; [unfold cs_wf in Hwf; cbn; lia|].
      eapply Forall_impl; [exact IH1|]. cbn. lia.
    + constructor; [|done]. rewrite list_elem_of_fmap. intros ([n x] & E2 & Hin).
      rewrite Forall_forall in IH1. specialize (IH1 _ Hin). cbn in *. lia.
  - destruct (cipher_encrypt_None_wf _ _ _ _ Hwf E) as (Hwf' & _ & Hk' & Hn).
    destruct (IH cs') as [IH1 IH2]; [done|congruence|]. split; [|done].
    eapply Forall_impl; [exact IH1|]. cbn. lia.
Qed.


(** ** Transport *)

(** One message from [a] to [b]. *)
Definition deliver (a b : noise_session) (m : bytes)
    : option bytes * noise_session * noise_session :=
  match noise_encrypt a m with
  | (None, a') => (None, a', b)
  | (Some ct, a') => let '(r, b') := noise_decrypt b ct in (r, a', b')
  end.

(** A conversation: each message goes from left to right when its flag is
    set, and from right to left otherwise. *)
Fixpoint converse (a b : noise_session) (l : list (bool * bytes))
    : list (option bytes) * noise_session * noise_session :=
  match l with
  | [] => ([], a, b)
  | (true, m) :: l =>
      let '(r, a, b) := deliver a b m in
      let '(rs, a, b) := converse a b l in (r :: rs, a, b)
  | (false, m) :: l =>
      let '(r, b, a) := deliver b a m in
      let '(rs, a, b) := converse a b l in (r :: rs, a, b)
  end.

Definition ns_wf (s : noise_session) : Prop :=
  cs_has_key (ns_tx s) = true /\ cs_has_key (ns_rx s) = true /\
  cs_wf (ns_tx s) /\ cs_wf (ns_rx s).

Lemma deliver_ok a b m :
  ns_wf a -> paired a b -> len m <= NOX_MAX_MSG_LEN -> cs_n (ns_tx a) < UINT64_MAX ->
  exists a' b', deliver a b m = (Some m, a', b') /\ paired a' b' /\ ns_wf a' /\
    ns_tx a' = ns_tx a <| cs_n := cs_n (ns_tx a) + 1 |> /\ ns_rx a' = ns_rx a.
Proof.
  intros (Hk & Hk2 & Hwf & Hwf2) [P1 P2] Hl Hn.
  destruct (cipher_encrypt_total (ns_tx a) [] m Hl (fun _ => Hn)) as (ct & cs' & E).
  destruct (cipher_encrypt_keyed _ _ _ _ _ Hwf Hk E) as (_ & Ha & Ecs).
  pose proof (aead_encrypt_length _ _ _ _ _ Ha) as Hlc.
  unfold deliver, noise_encrypt, noise_decrypt.
  rewrite (proj2 (Z.ltb_ge _ _)) by lia. rewrite E.
  unfold NOISE_MAX_PAYLOAD_LEN, NOX_MAC_LEN, len, NOX_MAX_MSG_LEN in *.
  rewrite (proj2 (Z.ltb_ge _ _)) by lia. rewrite (proj2 (Z.ltb_ge _ _)) by lia.
  rewrite <-P1, (cipher_decrypt_encrypt _ _ _ _ _ Hwf E).
  eexists _, _. split; [done|]. unfold paired, ns_wf. cbn. subst cs'.
  unfold cs_wf in *. cbn. split_and!; try done; lia.
Qed.

(** Two paired sessions deliver every message of a conversation, in both
    directions, unchanged and in order, and stay paired. *)
Theorem transport_roundtrip l a b :
  ns_wf a -> paired a b ->
  Forall (fun x => len x.2 <= NOX_MAX_MSG_LEN) l ->
  cs_n (ns_tx a) + len l < UINT64_MAX -> cs_n (ns_rx a) + len l < UINT64_MAX ->
  exists a' b', converse a b l = (Some <$> l.*2, a', b') /\ paired a' b'.
Proof.
  revert a b. induction l as [|[d m] l IH]; intros a b Hwf Hp Hl Hn1 Hn2; [by eexists _, _|].
  apply Forall_cons in Hl as [Hm Hl]. cbn in Hm.
  assert (len ((d, m) :: l) = len l + 1) as Hlen by (unfold len; cbn [length]; lia).
  rewrite Hlen in *. pose proof (len_nonneg l). destruct d; cbn.
  - destruct (deliver_ok a b m) as (a1 & b1 & -> & Hp1 & Hwf1 & Etx & Erx); [done|done|done|lia|].
    destruct (IH a1 b1) as (a2 & b2 & -> & Hp2); try done.
    + rewrite Etx. cbn. lia.
    + rewrite Erx. lia.
    + by eexists _, _.
  - assert (ns_wf b /\ paired b a) as [Hwfb Hpb].
    { destruct Hp as [P1 P2], Hwf as (?&?&?&?). unfold ns_wf, paired. by rewrite <-P1, <-P2. }
    assert (ns_rx a = ns_tx b /\ ns_tx a = ns_rx b) as [Q1 Q2] by (by destruct Hp).
    destruct (deliver_ok b a m) as (b1 & a1 & -> & Hp1 & Hwf1 & Etx & Erx);
      [done|done|done|rewrite <-Q1; lia|].
    assert (ns_wf a1 /\ paired a1 b1) as [Hwfa Hpa].
    { destruct Hp1 as [P1 P2], Hwf1 as (?&?&?&?). unfold ns_wf, paired. by rewrite <-P1, <-P2. }
    destruct (IH a1 b1) as (a2 & b2 & -> & Hp2); try done.
    + destruct Hpa as [P _]. rewrite P, Erx, <-Q2. lia.
    + destruct Hpa as [_ P]. rewrite P, Etx, <-Q1. cbn. lia.
    + by eexists _, _.
Qed.

(** A ciphertext the receiver cannot authenticate does not advance the
    receive counter or change the session in any way; an accepted one
    consumes exactly one counter value. *)
Theorem decrypt_nonce_sync s ct :
  cs_has_key (ns_rx s) = true -> cs_wf (ns_rx s) ->
  match noise_decrypt s ct with
  | (None, s') => s' = s
  | (Some pt, s') =>
      aead_decrypt (cs_k (ns_rx s)) (encode_nonce (cs_n (ns_rx s))) [] ct = Some pt /\
      ns_tx s' = ns_tx s /\ ns_rx s' = ns_rx s <| cs_n := cs_n (ns_rx s) + 1 |>
  end.
Proof.
  intros Hk Hwf. unfold noise_decrypt. destruct (_ <? len ct); [done|].
  destruct (len ct <? _); [done|].
  pose proof (cipher_decrypt_cases (ns_rx s) [] ct Hwf) as HC0. rewrite Hk in HC0.
  destruct (cipher_decrypt _ _ _) as [[pt|] cs'].
  - destruct HC0 as (_ & Ha & ->). done.
  - subst. by destruct s.
Qed.

(** ** The handshake as a state machine *)

(** What the message functions never change. *)
Definition same_control (a b : noise_handshake) : Prop :=
  hs_msg_index a = hs_msg_index b /\ hs_split_done a = hs_split_done b /\
  hs_failed a = hs_failed b /\ hs_initiator a = hs_initiator b.

Lemma dh_mix_control hs priv pub tr :
  same_control hs (dh_mix hs priv pub tr).1.2.
Proof.
  unfold dh_mix, same_control. destruct (noise_dh priv pub) as [e o].
  destruct (negb (err_ok e)); [done|]. run_st.
  by destruct (symmetric_mix_key _ _ _) as [[? ?] ?].
Qed.

(** Follow the code of a message function, one branch at a time. *)
Ltac msg_cases :=
  repeat match goal with
  | |- context [dh_mix ?h ?a ?b ?t] =>
      pose proof (dh_mix_control h a b t); destruct (dh_mix h a b t) as [[? ?] ?]; run_st
  | |- context [let '(_, _) := ?x in _] => destruct x as [[?|] ?]; run_st
  | |- context [if ?b then _ else _] => destruct b; run_st
  end; unfold same_control in *; cbn in *; intuition congruence.

Lemma write_msgs_control hs pl cap tr :
  same_control hs (write_msg0 hs pl cap tr).1.1.2 /\
  same_control hs (write_msg1 hs pl cap tr).1.1.2 /\
  same_control hs (write_msg2 hs pl cap tr).1.1.2.
Proof.
  split_and!.
  - unfold write_msg0, gen_ephemeral, sys. run_st. msg_cases.
  - unfold write_msg1, gen_ephemeral, sys. run_st. msg_cases.
  - unfold write_msg2. run_st. msg_cases.
Qed.

Lemma read_msgs_control hs m cap tr :
  same_control hs (read_msg0 hs m cap tr).1.1.2 /\
  same_control hs (read_msg1 hs m cap tr).1.1.2 /\
  same_control hs (read_msg2 hs m cap tr).1.1.2.
Proof.
  split_and!.
  - unfold read_msg0. run_st. msg_cases.
  - unfold read_msg1. run_st. msg_cases.
  - unfold read_msg2. run_st. msg_cases.
Qed.

(** Any call of the handshake interface, with any arguments and answers. *)
Inductive hs_step : noise_handshake -> noise_handshake -> Prop :=
| hs_step_write hs pl cap tr :
    hs_step hs (handshake_write hs pl cap tr).1.1.2
| hs_step_read hs msg cap tr :
    hs_step hs (handshake_read hs msg cap tr).1.1.2
| hs_step_split hs tr :
    hs_step hs (handshake_split hs tr).1.1.2.

(** Nothing secret is left in the struct. *)
Definition hs_wiped (hs : noise_handshake) : Prop :=
  hs_s hs = zeros 32 /\ hs_e hs = zeros 32 /\ ss_ck (hs_ss hs) = zeros 64 /\
  ss_h (hs_ss hs) = zeros 64 /\ cs_k (ss_cs (hs_ss hs)) = zeros 32 /\
  hs_rs hs = zeros 32 /\ hs_re hs = zeros 32.

Definition hs_inv (hs : noise_handshake) : Prop :=
  0 <= hs_msg_index hs <= 3 /\
  (hs_failed hs || hs_split_done hs = true -> hs_wiped hs) /\
  (hs_split_done hs = true -> hs_msg_index hs = 3).

Lemma hs_inv_conclude err hs hs' :
  same_control hs hs' -> hs_failed hs = false -> hs_split_done hs = false ->
  0 <= hs_msg_index hs < 3 -> hs_inv (hs_conclude err hs').
Proof.
  intros (Hi & Hs & Hf & _) Hf0 Hs0 Hb. unfold hs_conclude, hs_inv.
  destruct (err_ok err); cbn.
  - rewrite <-Hi, <-Hs, <-Hf, Hf0, Hs0. split_and!; try done; lia.
  - rewrite <-Hi, <-Hs, Hs0. split_and!; try done; lia.
Qed.

Lemma hs_drop_e_control err hs : same_control hs (hs_drop_e err hs).
Proof. unfold hs_drop_e. by destruct (err_ok err). Qed.

Lemma same_control_trans a b c : same_control a b -> same_control b c -> same_control a c.
Proof. unfold same_control. intuition congruence. Qed.

Lemma hs_step_inv hs hs' : hs_inv hs -> hs_step hs hs' -> hs_inv hs'.
Proof.
  intros Hinv Hstep. destruct Hstep as [hs pl cap tr|hs msg cap tr|hs tr].
  - unfold handshake_write. destruct (hs_split_done hs || hs_failed hs) eqn:Hfl; [done|].
    apply orb_false_iff in Hfl as [Hs Hf]. destruct (_ <? len pl); [done|].
    destruct (write_msgs_control hs pl cap tr) as (C0 & C1 & C2).
    repeat case_match; run_st; try done;
      match goal with |- context [?m hs pl cap tr] =>
        destruct (m hs pl cap tr) as [[[? ?] ?] ?] end; cbn in *;
      (eapply (hs_inv_conclude _ hs); [eassumption|done|done|lia]).
  - unfold handshake_read. destruct (hs_split_done hs || hs_failed hs) eqn:Hfl; [done|].
    apply orb_false_iff in Hfl as [Hs Hf].
    destruct (read_msgs_control hs msg cap tr) as (C0 & C1 & C2).
    repeat case_match; run_st; try done;
      match goal with |- context [?m hs msg cap tr] =>
        destruct (m hs msg cap tr) as [[[? ?] ?] ?] end; cbn in *;
      (eapply (hs_inv_conclude _ hs);
        [eauto using same_control_trans, hs_drop_e_control|done|done|lia]).
  - unfold handshake_split. destruct (hs_split_done hs || hs_failed hs) eqn:Hfl; [done|].
    apply orb_false_iff in Hfl as [Hs Hf]. destruct Hinv as (Hi & _).
    destruct (handshake_is_complete hs) eqn:Hc; cbn [negb]; [|unfold hs_inv; cbn; rewrite Hs, Hf; split_and!; done || lia].
    unfold symmetric_split. run_st. destruct (hkdf_blake2b _ _ _) as [[[e o1] o2] tr'].
    unfold handshake_is_complete in Hc. unfold hs_inv.
    destruct (err_ok e); cbn; split_and!; try done; lia.
Qed.

(** C19 Whatever the peer sends and whatever the environment answers, a
    handshake that has failed or has been split holds no key material, the
    message index stays within the pattern's three messages, and a split
    happens only after the third message. *)
Theorem handshake_reachable_invariant ini sk pk hs0 hs :
  handshake_init ini (Some sk) (Some pk) = (NOX_OK, Some hs0) ->
  rtc hs_step hs0 hs -> hs_inv hs.
Proof.
  intros E. injection E as <-. intros Hr.
  remember (Handshake _ _ _ _ _ _ _ _ _ _ _) as h0 eqn:E0.
  assert (hs_inv h0) as Hinv by (subst; split_and!; done). clear E0.
  induction Hr; [done|]. eauto using hs_step_inv.
Qed.

(** A failed or already split handshake is dead: every later call returns
    NOX_ERR_STATE, outputs nothing and changes nothing. *)
Theorem handshake_dead hs pl msg cap tr :
  hs_failed hs || hs_split_done hs = true ->
  handshake_write hs pl cap tr = ((NOX_ERR_STATE, hs, []), tr) /\
  handshake_read hs msg cap tr = ((NOX_ERR_STATE, hs, []), tr) /\
  handshake_split hs tr = ((NOX_ERR_STATE, hs, None), tr).
Proof.
  intros Hd. rewrite orb_comm in Hd.
  unfold handshake_write, handshake_read, handshake_split. by rewrite Hd.
Qed.

(** [noise_dh] never reports success with an all-zero shared secret, and
    refuses an all-zero public key. *)
Theorem noise_dh_contributory priv pub out :
  noise_dh priv pub = (NOX_OK, out) -> is_zero out = false /\ is_zero pub = false /\
  x25519 priv pub = Some out.
Proof.
  unfold noise_dh. destruct (is_zero pub); [done|].
  destruct (x25519 priv pub) as [o|]; [|done]. destruct (is_zero o) eqn:?; [done|].
  intros [= ->]. done.
Qed.

End NoiseProofs.

(** ** Witnesses *)

Lemma kind_mem_ok : @mem_ok kind_os.
Proof. intros tr n. done. Qed.

Lemma toy_good_keys : @good_keys toy_crypto (fun _ => True).
Proof.
  intros a b _ _. split.
  - unfold is_zero. cbn -[Byte.eqb]. apply andb_false_intro2. done.
  - eexists. split; [reflexivity|done].
Qed.

(** Two ends with toy keys exchange an identity claim of 127 bytes. *)
Lemma xx_handshake_agreement_witness :
  exists a b,
    (@xx_run kind_os toy_crypto (zeros 32) (replicate 32 Byte.x09) (lit "hi")
       (replicate 127 Byte.x41) (replicate 127 Byte.x42) 127 []).1
      = Some (a, b, (lit "hi", replicate 127 Byte.x41, replicate 127 Byte.x42)) /\
    paired a b.
Proof.
  destruct (@xx_handshake_agreement kind_os toy_crypto toy_crypto_laws (fun _ => True)
    (zeros 32) (replicate 32 Byte.x09) (lit "hi") (replicate 127 Byte.x41)
    (replicate 127 Byte.x42) 127 []) as (a & b & H1 & H2 & _);
    [exact kind_mem_ok|exact toy_good_keys|done|done|done|done..|].
  exists a, b. split; assumption.
Defined.

Definition toy_cs (n : Z) : noise_cipher_state := CipherState (replicate 32 Byte.x05) n true.


Lemma transport_roundtrip_witness :
  let a := Session (toy_cs 0) (toy_cs 7) [] in
  let b := Session (toy_cs 7) (toy_cs 0) [] in
  exists a' b',
    @converse toy_crypto a b [(true, lit "hello"); (false, lit "hey"); (true, lit "bye")]
    = ([Some (lit "hello"); Some (lit "hey"); Some (lit "bye")], a', b') /\ paired a' b'.
Proof.
  apply (@transport_roundtrip toy_crypto toy_crypto_laws
    [(true, lit "hello"); (false, lit "hey"); (true, lit "bye")]
    (Session (toy_cs 0) (toy_cs 7) []) (Session (toy_cs 7) (toy_cs 0) [])).
  - unfold ns_wf, cs_wf, UINT64_MAX. cbn. lia.
  - split; reflexivity.
  - repeat constructor; discriminate.
  - reflexivity.
  - reflexivity.
Defined.

Lemma decrypt_nonce_sync_witness :
  let s := Session (toy_cs 0) (toy_cs 7) [] in
  (@noise_decrypt toy_crypto s (replicate 20 Byte.x41)).2 = s.
Proof.
  pose proof (@decrypt_nonce_sync toy_crypto (Session (toy_cs 0) (toy_cs 7) [])
    (replicate 20 Byte.x41) eq_refl) as H.
  assert (cs_wf (ns_rx (Session (toy_cs 0) (toy_cs 7) []))) as Hw
    by (unfold cs_wf, UINT64_MAX; cbn; lia).
  specialize (H Hw). vm_compute in H |- *. exact H.
Defined.

(** A responder that reads a truncated first message has failed and is wiped. *)
Lemma handshake_reachable_invariant_witness :
  exists hs0 hs,
    @handshake_init toy_crypto false (Some (replicate 32 Byte.x03)) (Some (zeros 32))
      = (NOX_OK, Some hs0) /\
    hs = (@handshake_read kind_os toy_crypto hs0 (lit "short") 127 []).1.1.2 /\
    hs_failed hs = true /\ hs_wiped hs.
Proof.
  eexists _, _. split; [reflexivity|]. split; [reflexivity|]. split; [reflexivity|].
  apply (@handshake_reachable_invariant kind_os toy_crypto false
    (replicate 32 Byte.x03) (zeros 32) _ _ eq_refl
    (rtc_once _ _ (hs_step_read _ (lit "short") 127 []))).
  reflexivity.
Defined.

Lemma handshake_dead_witness :
  exists hs,
    hs_failed hs = true /\
    @handshake_split kind_os toy_crypto hs [] = ((NOX_ERR_STATE, hs, None), []).
Proof.
  set (hs0 := Handshake (SymmetricState (zeros 64) (zeros 64) (toy_cs 0)) [] [] [] [] [] []
                true 1 false false).
  exists (hs_wipe_failed hs0). split; [reflexivity|].
  apply (@handshake_dead kind_os toy_crypto (hs_wipe_failed hs0) [] [] 0 []). reflexivity.
Defined.

Lemma noise_dh_contributory_witness :
  exists out, @noise_dh toy_crypto (zeros 32) (replicate 32 Byte.x09) = (NOX_OK, out) /\
    is_zero out = false.
Proof.
  eexists. split; [reflexivity|].
  apply (@noise_dh_contributory toy_crypto (zeros 32) (replicate 32 Byte.x09) _ eq_refl).
Defined.
