(* ===== verification/Onion.v ===== *)
(** * Onion addresses and the identity claim: src/crypto.c, src/network.c

    A v3 onion address is the base32 text of a 35-byte body (32 bytes of
    Ed25519 key, 2 of checksum, 1 of version) followed by ".onion".  A peer
    proves that it owns its address by signing the address and its Noise
    static key.  libsodium's sha3-256 and signing functions have no failing
    case on these inputs; the branches the code has for one are not
    reachable and not modelled. *)

From S2P Require Import Prelude Primitives Types.

Definition NOX_ONION_BIND_CTX : bytes := lit "noxtor-bind-v1".
Definition NOX_ONION_CKSUM_CTX : bytes := lit ".onion checksum".
Definition ONION_SUFFIX : bytes := lit ".onion".

(** The charset test: [(c >= 'a' && c <= 'z') || (c >= '2' && c <= '7')]. *)
Definition b32_char (c : byte) : bool :=
  let z := byte.unsigned c in
  ((97 <=? z) && (z <=? 122)) || ((50 <=? z) && (z <=? 55)).

(** The value of a base32 character. *)
Definition b32_val (c : byte) : option Z :=
  let z := byte.unsigned c in
  if (97 <=? z) && (z <=? 122) then Some (z - 97)
  else if (50 <=? z) && (z <=? 55) then Some (26 + (z - 50))
  else None.

(** The loop of onion_b32_decode from the state [acc] (a uint32_t), [bits] and
    the bytes written so far. *)
Fixpoint b32_loop (cs : bytes) (acc bits : Z) (out : bytes) : option (Z * bytes) :=
  match cs with
  | [] => Some (bits, out)
  | c :: cs =>
      match b32_val c with
      | None => None
      | Some v =>
          let acc := Z.lor (u32 (Z.shiftl acc 5)) v in
          let bits := bits + 5 in
          if 8 <=? bits
          then b32_loop cs acc (bits - 8)
                 (out ++ [byte.of_Z (Z.land (Z.shiftr acc (bits - 8)) 0xFF)])
          else b32_loop cs acc bits out
      end
  end.

Definition onion_b32_decode (inp : bytes) : nox_err * bytes :=
  match b32_loop (take (Z.to_nat NOX_ONION_B32_LEN) inp) 0 0 [] with
  | None => (NOX_ERR_CRYPTO, [])
  | Some (bits, out) =>
      if negb (bits =? 0) || negb (len out =? NOX_ONION_BODY_LEN) then (NOX_ERR_CRYPTO, out)
      else (NOX_OK, out)
  end.

Definition onion_bind_msg (addr static_pub : bytes) : bytes :=
  NOX_ONION_BIND_CTX ++ take (Z.to_nat NOX_ONION_LEN) addr ++ static_pub.

Section Onion.
Context `{Crypto}.

Definition onion_checksum (pub : bytes) : bytes :=
  take 2 (sha3_256 (NOX_ONION_CKSUM_CTX ++ pub ++ [Byte.x03])).

(** The error and, on success, the key of the address. *)
Definition crypto_onion_pubkey (addr : bytes) : nox_err * bytes :=
  if negb (len addr =? NOX_ONION_LEN) then (NOX_ERR_PROTO, [])
  else if negb (bytes_eqb (drop (Z.to_nat NOX_ONION_B32_LEN) addr) ONION_SUFFIX)
  then (NOX_ERR_PROTO, [])
  else if negb (forallb b32_char (take (Z.to_nat NOX_ONION_B32_LEN) addr))
  then (NOX_ERR_PROTO, [])
  else
    let '(err, body) := onion_b32_decode addr in
    if negb (err_ok err) then (NOX_ERR_CRYPTO, [])
    else if negb (bool_decide (nth (Z.to_nat (NOX_ONION_BODY_LEN - 1)) body NUL = Byte.x03))
    then (NOX_ERR_PROTO, [])
    else
      let pub := take 32 body in
      if negb (bytes_eqb (onion_checksum pub) (take 2 (drop 32 body))) then (NOX_ERR_PROTO, [])
      else (NOX_OK, pub).

Definition crypto_onion_sign (addr static_pub onion_seed : bytes) : nox_err * bytes :=
  if negb (len addr =? NOX_ONION_LEN) then (NOX_ERR_PROTO, [])
  else (NOX_OK, ed25519_sign onion_seed (onion_bind_msg addr static_pub)).

Definition crypto_onion_verify (sig addr static_pub : bytes) : nox_err :=
  let '(err, pub) := crypto_onion_pubkey addr in
  if negb (err_ok err) then err
  else if ed25519_verify pub (onion_bind_msg addr static_pub) sig then NOX_OK
  else NOX_ERR_AUTH.

(** src/network.c *)
Definition validate_onion_address (addr : bytes) : bool :=
  err_ok (crypto_onion_pubkey addr).1.

(** src/stdin_handler.c: the check of an address typed by the user. *)
Definition validate_onion_input (onion : bytes) : bool :=
  (len onion =? NOX_ONION_LEN)
    && forallb b32_char (take 56 onion)
    && bytes_eqb (drop 56 onion) ONION_SUFFIX.

End Onion.
