(* ===== verification/OnionProofs.v ===== *)
(** * Theorems about onion addresses

    The streaming base32 decoder computes the big-endian number its input
    spells; the accepted addresses are exactly the encodings of a key, so an
    address determines its key and a key its address; an honest claim
    verifies. *)

From S2P Require Import Prelude Primitives Types Onion.

(** ** Positional notation *)

(** The number a list of digits in base [b] spells, after [acc]. *)
Definition be_from (b acc : Z) (l : list Z) : Z := foldl (fun a d => a * b + d) acc l.
Definition be_val (b : Z) (l : list Z) : Z := be_from b 0 l.

(** The [n] last digits of [z] in base [b]. *)
Fixpoint digits (b : Z) (n : nat) (z : Z) : list Z :=
  match n with
  | O => []
  | S n => digits b n (z / b) ++ [z mod b]
  end.

Lemma be_from_app b acc l d : be_from b acc (l ++ [d]) = be_from b acc l * b + d.
Proof. unfold be_from. by rewrite foldl_snoc. Qed.

Lemma length_digits b n z : length (digits b n z) = n.
Proof. revert z. induction n as [|n IH]; intros z; [done|]. cbn. rewrite length_app, IH. cbn. lia. Qed.

Lemma digits_range b n z : 0 < b -> Forall (fun d => 0 <= d < b) (digits b n z).
Proof.
  intros Hb. revert z. induction n as [|n IH]; intros z; cbn; [constructor|].
  apply Forall_app. split; [apply IH|]. constructor; [|constructor]. by apply Z.mod_pos_bound.
Qed.

Lemma be_val_digits b n z :
  0 < b -> 0 <= z < b ^ Z.of_nat n -> be_val b (digits b n z) = z.
Proof.
  intros Hb. revert z. induction n as [|n IH]; intros z Hz; cbn [digits].
  - unfold be_val. cbn in *. lia.
  - unfold be_val. rewrite be_from_app. fold (be_val b (digits b n (z / b))).
    rewrite IH; [pose proof (Z.div_mod z b); lia|].
    rewrite Nat2Z.inj_succ, Z.pow_succ_r in Hz by lia. split; [apply Z.div_pos; lia|].
    apply Z.div_lt_upper_bound; lia.
Qed.

Lemma be_val_inj b l1 l2 :
  0 < b -> length l1 = length l2 ->
  Forall (fun d => 0 <= d < b) l1 -> Forall (fun d => 0 <= d < b) l2 ->
  be_val b l1 = be_val b l2 -> l1 = l2.
Proof.
  intros Hb. revert l2. induction l1 as [|x l1 IH] using rev_ind; intros l2 Hl H1 H2 E.
  { by destruct l2. }
  destruct l2 as [|y l2 _] using rev_ind; [rewrite length_app in Hl; cbn in Hl; lia|].
  apply Forall_app in H1 as [H1 Hx%Forall_inv], H2 as [H2 Hy%Forall_inv].
  rewrite !length_app in Hl. cbn in Hl. unfold be_val in *. rewrite !be_from_app in E.
  assert (be_from b 0 l1 = be_from b 0 l2 /\ x = y) as [E1 ->].
  { apply (Z.div_mod_unique b); [left; exact Hx|left; exact Hy|lia]. }
  f_equal. apply IH; [lia|done..].
Qed.

Lemma be_val_range b l :
  0 < b -> Forall (fun d => 0 <= d < b) l -> 0 <= be_val b l < b ^ len l.
Proof.
  intros Hb. unfold len. induction l as [|x l IH] using rev_ind; intros HF; [cbn; lia|].
  apply Forall_app in HF as [HF Hx%Forall_inv]. specialize (IH HF).
  unfold be_val in *. rewrite be_from_app, length_app.
  replace (Z.of_nat (length l + length [x])) with (Z.succ (Z.of_nat (length l))) by (cbn; lia).
  rewrite Z.pow_succ_r by lia. nia.
Qed.

(** ** The alphabet *)

Definition b32_sym (d : Z) : byte := byte.of_Z (if d <? 26 then 97 + d else 50 + (d - 26)).

Lemma b32_val_sym d : 0 <= d < 32 -> b32_val (b32_sym d) = Some d.
Proof.
  intros Hd. unfold b32_val, b32_sym. rewrite byte.unsigned_of_Z. unfold byte.wrap.
  destruct (d <? 26) eqn:E; rewrite Z.mod_small by lia;
    repeat (case_match; [f_equal; lia|] || case_match); lia.
Qed.

Lemma b32_val_Some c v : b32_val c = Some v -> 0 <= v < 32 /\ b32_sym v = c /\ b32_char c = true.
Proof.
  unfold b32_val, b32_sym, b32_char. destruct ((97 <=? _) && _) eqn:E1.
  - intros [= <-]. apply andb_prop in E1 as E2. rewrite (proj2 (Z.ltb_lt _ _)) by lia.
    rewrite Zplus_minus, byte.of_Z_unsigned. split; [lia|done].
  - destruct ((50 <=? _) && _) eqn:E2; [|done]. intros [= <-]. rewrite (proj2 (Z.ltb_ge _ _)) by lia.
    replace (50 + (26 + (byte.unsigned c - 50) - 26)) with (byte.unsigned c) by lia.
    rewrite byte.of_Z_unsigned. split; [lia|done].
Qed.

Lemma b32_char_val c : b32_char c = true -> is_Some (b32_val c).
Proof. unfold b32_char, b32_val. destruct ((97 <=? _) && _); [by eexists|]. cbn [orb]. intros ->. by eexists. Qed.

(** ** The decoder *)

(** Appending five bits. *)
Lemma lor_low5 a v : 0 <= v < 32 -> Z.lor (a * 32) v = a * 32 + v.
Proof.
  intros Hv. symmetry. apply Z.add_nocarry_lor. change 32 with (2 ^ 5) in *.
  apply Z.bits_inj'. intros i Hi. rewrite Z.land_spec, Z.bits_0.
  destruct (decide (i < 5)) as [H5|H5].
  - by rewrite Z.mul_pow2_bits_low.
  - by rewrite (testbit_above 5 v), andb_false_r by lia.
Qed.

Lemma acc_step V v :
  0 <= v < 32 -> Z.lor (u32 (Z.shiftl (V mod 2 ^ 32) 5)) v = (V * 32 + v) mod 2 ^ 32.
Proof.
  intros Hv. unfold u32. rewrite Z.shiftl_mul_pow2 by lia. change (2 ^ 5) with 32.
  rewrite Zmult_mod_idemp_l.
  replace ((V * 32) mod 2 ^ 32) with ((V mod 2 ^ 27) * 32)
    by (change (2 ^ 32) with (2 ^ 27 * 32); by rewrite Zmult_mod_distr_r).
  rewrite lor_low5 by done. change (2 ^ 32) with (2 ^ 27 * 32).
  pose proof (Z.mod_pos_bound V (2 ^ 27)). apply (Zmod_unique _ _ (V / 2 ^ 27)); [lia|].
  pose proof (Z.div_mod V (2 ^ 27)). lia.
Qed.

(** The byte the loop writes. *)
Lemma out_byte V nb :
  0 <= nb <= 24 -> Z.land (Z.shiftr (V mod 2 ^ 32) nb) 0xFF = (V / 2 ^ nb) mod 256.
Proof.
  intros Hn. change 0xFF with (Z.ones 8). rewrite Z.land_ones by lia. change 256 with (2 ^ 8).
  rewrite <-Z.shiftr_div_pow2 by lia. apply Z.bits_inj'. intros i Hi.
  destruct (decide (i < 8)) as [H8|H8].
  - rewrite !Z.mod_pow2_bits_low, !Z.shiftr_spec, Z.mod_pow2_bits_low by lia. done.
  - rewrite !Z.mod_pow2_bits_high by lia. done.
Qed.

(** The invariant of the loop: the bytes written are the number read so far
    without its [bits] low bits, which [acc] still holds. *)
Lemma b32_loop_spec cs vs V bits out :
  mapM b32_val cs = Some vs -> 0 <= bits < 8 ->
  be_val 256 (byte.unsigned <$> out) = V / 2 ^ bits ->
  exists bits' out',
    b32_loop cs (V mod 2 ^ 32) bits out = Some (bits', out') /\ 0 <= bits' < 8 /\
    be_val 256 (byte.unsigned <$> out') = be_from 32 V vs / 2 ^ bits' /\
    8 * len out' + bits' = 8 * len out + bits + 5 * len cs.
Proof.
  revert vs V bits out. induction cs as [|c cs IH]; intros vs V bits out Hm Hb HO.
  { injection Hm as <-. exists bits, out. split_and!; try done || lia. unfold len; cbn; lia. }
  cbn [mapM] in Hm. apply bind_Some in Hm as (v & Hv & (vs' & Hvs & [= <-])%bind_Some).
  apply b32_val_Some in Hv as Hr. cbn [b32_loop]. rewrite Hv, acc_step by apply Hr.
  set (V' := V * 32 + v).
  assert (V' / 32 = V) as HV' by (unfold V'; rewrite Z.div_add_l, Z.div_small by lia; lia).
  assert (V' / 2 ^ (bits + 5) = V / 2 ^ bits) as Hdiv.
  { rewrite Z.pow_add_r, Z.mul_comm, <-Z.div_div by lia. change (2 ^ 5) with 32. by rewrite HV'. }
  destruct (8 <=? bits + 5) eqn:E8.
  - rewrite out_byte by lia.
    destruct (IH vs' V' (bits + 5 - 8)
      (out ++ [byte.of_Z ((V' / 2 ^ (bits + 5 - 8)) mod 256)])) as (b' & o' & Hl & Hb' & HO' & Hlen);
      [done|lia| |].
    + rewrite fmap_app. unfold be_val in *. cbn [fmap list_fmap]. rewrite be_from_app, HO.
      rewrite byte.unsigned_of_Z. unfold byte.wrap. rewrite Zmod_mod.
      rewrite <-Hdiv.
      replace (2 ^ (bits + 5)) with (2 ^ (bits + 5 - 8) * 256)
        by (change 256 with (2 ^ 8); rewrite <-Z.pow_add_r by lia; f_equal; lia).
      rewrite <-Z.div_div by lia.
      pose proof (Z.div_mod (V' / 2 ^ (bits + 5 - 8)) 256 ltac:(lia)). change (2 ^ 8) with 256 in *. lia.
    + exists b', o'. split_and!; [done|lia|lia|done|].
      rewrite Hlen. unfold len. rewrite length_app. cbn [length]. lia.
  - destruct (IH vs' V' (bits + 5) out) as (b' & o' & Hl & Hb' & HO' & Hlen);
      [done|lia|by rewrite HO, <-Hdiv|].
    exists b', o'. split_and!; [done|lia|lia|done|]. rewrite Hlen. unfold len. cbn [length]. lia.
Qed.

Lemma unsigned_range l : Forall (fun d => 0 <= d < 256) (byte.unsigned <$> l).
Proof. apply Forall_fmap, Forall_true. intros c. apply byte.unsigned_range. Qed.

Lemma unsigned_inj (l1 l2 : bytes) : byte.unsigned <$> l1 = byte.unsigned <$> l2 -> l1 = l2.
Proof.
  revert l2. induction l1 as [|x l1 IH]; intros [|y l2]; cbn; try done.
  intros [= E1 E2]. f_equal; [|by apply IH].
  by rewrite <-(byte.of_Z_unsigned x), E1, byte.of_Z_unsigned.
Qed.

Lemma vals_range cs vs : mapM b32_val cs = Some vs -> Forall (fun d => 0 <= d < 32) vs.
Proof.
  intros Hm. apply mapM_Some in Hm. eapply Forall2_Forall_r; [exact Hm|].
  apply Forall_true. intros c v Hv. by apply b32_val_Some in Hv as [? _].
Qed.

(** The reference encoder: the 56 base-32 digits of the number the body
    spells in base 256. *)
Definition b32_encode (body : bytes) : bytes :=
  b32_sym <$> digits 32 56 (be_val 256 (byte.unsigned <$> body)).

Lemma b32_encode_vals body :
  mapM b32_val (b32_encode body) = Some (digits 32 56 (be_val 256 (byte.unsigned <$> body))).
Proof.
  unfold b32_encode. apply mapM_Some. generalize (digits_range 32 56
    (be_val 256 (byte.unsigned <$> body)) ltac:(lia)).
  generalize (digits 32 56 (be_val 256 (byte.unsigned <$> body))).
  induction 1; cbn; constructor; [by apply b32_val_sym|done].
Qed.

(** A full decode, on any 56 characters of the alphabet. *)
Lemma onion_b32_decode_spec inp vs :
  mapM b32_val (take 56 inp) = Some vs -> (56 <= length inp)%nat ->
  exists body, onion_b32_decode inp = (NOX_OK, body) /\ length body = 35%nat /\
    be_val 256 (byte.unsigned <$> body) = be_val 32 vs.
Proof.
  intros Hm Hl. destruct (b32_loop_spec _ vs 0 0 [] Hm) as (b & out & E & Hb & HO & Hlen);
    [lia|done|].
  unfold onion_b32_decode. change (Z.to_nat NOX_ONION_B32_LEN) with 56%nat.
  change (0 mod 2 ^ 32) with 0 in E. rewrite E.
  unfold len in Hlen. rewrite length_take in Hlen. cbn [length] in Hlen.
  assert (b = 0) as -> by lia. assert (length out = 35%nat) as Ho by lia.
  exists out. unfold len. rewrite Ho. rewrite Z.div_1_r in HO. done.
Qed.

Lemma b32_encode_decode body rest :
  length body = 35%nat -> onion_b32_decode (b32_encode body ++ rest) = (NOX_OK, body).
Proof.
  intros Hb. set (z := be_val 256 (byte.unsigned <$> body)).
  assert (length (b32_encode body) = 56%nat) as Hl
    by (unfold b32_encode; by rewrite length_fmap, length_digits).
  destruct (onion_b32_decode_spec (b32_encode body ++ rest) (digits 32 56 z))
    as (body' & E & Hb' & Hv).
  - rewrite take_app_length' by done. apply b32_encode_vals.
  - rewrite length_app. lia.
  - rewrite E. f_equal. apply unsigned_inj, (be_val_inj 256); [lia| |apply unsigned_range..|].
    + by rewrite !length_fmap, Hb, Hb'.
    + rewrite Hv. apply be_val_digits; [lia|].
      pose proof (be_val_range 256 _ ltac:(lia) (unsigned_range body)) as Hr.
      unfold len in Hr. rewrite length_fmap, Hb in Hr. exact Hr.
Qed.

(** The decoder is injective: its input is the encoding of its output. *)
Lemma b32_decode_encode inp body :
  length inp = 56%nat -> forallb b32_char inp = true ->
  onion_b32_decode inp = (NOX_OK, body) -> length body = 35%nat /\ inp = b32_encode body.
Proof.
  intros Hl Hc E.
  assert (exists vs, mapM b32_val inp = Some vs) as [vs Hvs].
  { apply mapM_is_Some. apply Forall_forall. intros c Hin. apply b32_char_val.
    rewrite forallb_forall in Hc. apply Hc. by apply list_elem_of_In. }
  destruct (onion_b32_decode_spec inp vs) as (body' & E' & Hb & Hv);
    [by rewrite take_ge by lia|lia|].
  rewrite E in E'. injection E' as <-. split; [done|].
  assert (length vs = 56%nat) as Hvl.
  { apply mapM_Some in Hvs. apply Forall2_length in Hvs. lia. }
  assert (digits 32 56 (be_val 32 vs) = vs) as Hd.
  { apply (be_val_inj 32); [lia|by rewrite length_digits|apply digits_range; lia|
      by eapply vals_range|].
    apply be_val_digits; [lia|].
    pose proof (be_val_range 32 vs ltac:(lia) (vals_range _ _ Hvs)) as Hr.
    unfold len in Hr. by rewrite Hvl in Hr. }
  unfold b32_encode. rewrite Hv, Hd. apply mapM_Some in Hvs. clear -Hvs.
  induction Hvs as [|c v cs vs Hc _ IH]; cbn; [done|]. f_equal; [|done].
  by apply b32_val_Some in Hc as (_ & -> & _).
Qed.

(** ** Addresses *)

Section OnionProofs.
Context `{HC : Crypto} {HL : CryptoLaws HC}.

(** The address of a key, from the v3 onion service specification. *)
Definition onion_address (pub : bytes) : bytes :=
  b32_encode (pub ++ onion_checksum pub ++ [Byte.x03]) ++ ONION_SUFFIX.

Lemma length_checksum pub : length (onion_checksum pub) = 2%nat.
Proof. unfold onion_checksum. by rewrite length_take, sha3_256_length. Qed.

Lemma b32_encode_chars body : forallb b32_char (b32_encode body) = true.
Proof.
  pose proof (b32_encode_vals body) as Hm. apply mapM_Some in Hm.
  induction Hm as [|c v cs vs Hc _ IH]; [done|]. cbn [forallb].
  by apply b32_val_Some in Hc as (_ & _ & ->).
Qed.

Lemma length_b32_encode body : length (b32_encode body) = 56%nat.
Proof. unfold b32_encode. by rewrite length_fmap, length_digits. Qed.

Lemma pubkey_of_address pub :
  length pub = 32%nat -> crypto_onion_pubkey (onion_address pub) = (NOX_OK, pub).
Proof.
  intros Hp. unfold crypto_onion_pubkey, len, NOX_ONION_LEN.
  change (Z.to_nat NOX_ONION_B32_LEN) with 56%nat.
  change (Z.to_nat (NOX_ONION_BODY_LEN - 1)) with 34%nat.
  set (body := pub ++ onion_checksum pub ++ [Byte.x03]).
  assert (length body = 35%nat) as Hb
    by (unfold body; rewrite !length_app, Hp, length_checksum; done).
  unfold onion_address. fold body.
  rewrite length_app, length_b32_encode, take_app_length', drop_app_length'
    by (by rewrite length_b32_encode).
  change (Z.of_nat (56 + length ONION_SUFFIX) =? 62) with true.
  rewrite bytes_eqb_refl, b32_encode_chars, b32_encode_decode by done. cbn [negb err_ok].
  assert (nth 34 body NUL = Byte.x03) as Hv.
  { unfold body. rewrite app_assoc, nth_lookup, lookup_app_r
      by (rewrite length_app, length_checksum, Hp; done).
    by rewrite length_app, length_checksum, Hp. }
  rewrite bool_decide_true by done. cbn [negb].
  unfold body. rewrite (take_app_length' pub), (drop_app_length' pub),
    (take_app_length' (onion_checksum pub)), bytes_eqb_refl
    by (by rewrite ?length_checksum).
  done.
Qed.

Lemma address_of_pubkey addr pub :
  crypto_onion_pubkey addr = (NOX_OK, pub) -> length pub = 32%nat /\ addr = onion_address pub.
Proof.
  unfold crypto_onion_pubkey, len, NOX_ONION_LEN.
  change (Z.to_nat NOX_ONION_B32_LEN) with 56%nat.
  change (Z.to_nat (NOX_ONION_BODY_LEN - 1)) with 34%nat.
  destruct (Z.of_nat (length addr) =? 62) eqn:El; [|done]. cbn [negb].
  destruct (bytes_eqb (drop 56 addr) ONION_SUFFIX) eqn:Es; [|done]. cbn [negb].
  destruct (forallb b32_char (take 56 addr)) eqn:Ec; [|done]. cbn [negb].
  apply bytes_eqb_eq in Es.
  assert (onion_b32_decode addr = onion_b32_decode (take 56 addr)) as ->
    by (unfold onion_b32_decode; by rewrite take_take).
  destruct (onion_b32_decode (take 56 addr)) as [e body] eqn:Ed.
  destruct e; cbn [err_ok negb]; try done.
  apply b32_decode_encode in Ed as [Hb Ha]; [|rewrite length_take; lia|done].
  case_bool_decide as Hver; [|done]. cbn [negb].
  destruct (bytes_eqb _ _) eqn:Eck; [|done]. intros [= <-]. apply bytes_eqb_eq in Eck.
  split; [rewrite length_take; lia|]. unfold onion_address. rewrite Eck.
  rewrite <-(take_drop 56 addr) at 1. rewrite Es, Ha. do 2 f_equal.
  rewrite <-(take_drop 32 body) at 1. f_equal.
  rewrite <-(take_drop 2 (drop 32 body)) at 1. f_equal. rewrite drop_drop.
  destruct (lookup_lt_is_Some_2 body 34 ltac:(lia)) as [v Hv].
  rewrite nth_lookup, Hv in Hver. cbn in Hver. subst v.
  change (32 + 2)%nat with 34%nat. by rewrite (drop_S _ _ _ Hv), drop_ge by lia.
Qed.

(** The addresses crypto_onion_pubkey accepts are exactly the addresses the
    v3 specification gives to 32-byte keys, and it returns that key: no
    malformed, foreign-version or mistyped address is accepted, no valid one
    is refused, and two different addresses never yield the same key. *)
Theorem onion_pubkey_iff addr pub :
  crypto_onion_pubkey addr = (NOX_OK, pub) <->
  length pub = 32%nat /\ addr = onion_address pub.
Proof. split; [apply address_of_pubkey|]. intros [Hp ->]. by apply pubkey_of_address. Qed.

(** A claim signed with the seed of the address verifies against the
    address and the static key, and the verifier accepts a signature only
    under the key the address encodes. *)
Theorem onion_claim_roundtrip seed static_pub :
  let addr := onion_address (ed25519_pub seed) in
  exists sig, crypto_onion_sign addr static_pub seed = (NOX_OK, sig) /\
    crypto_onion_verify sig addr static_pub = NOX_OK /\
    forall sig' static_pub', crypto_onion_verify sig' addr static_pub' = NOX_OK ->
      ed25519_verify (ed25519_pub seed) (onion_bind_msg addr static_pub') sig' = true.
Proof.
  intros addr.
  assert (crypto_onion_pubkey addr = (NOX_OK, ed25519_pub seed)) as Ek
    by (apply pubkey_of_address, ed25519_pub_length).
  eexists. split_and!.
  - unfold crypto_onion_sign, addr, onion_address, len.
    by rewrite length_app, length_b32_encode.
  - unfold crypto_onion_verify. by rewrite Ek, ed25519_verify_sign.
  - intros sig' sp'. unfold crypto_onion_verify. rewrite Ek. cbn [err_ok negb].
    by destruct (ed25519_verify _ _ _).
Qed.

End OnionProofs.

(** The theorems at a concrete key, with the toy instance of the crypto. *)

Definition demo_seed : bytes := zeros 32.
Definition demo_pub : bytes := @ed25519_pub toy_crypto demo_seed.
Definition demo_addr : bytes := @onion_address toy_crypto demo_pub.

Lemma onion_pubkey_iff_witness : @crypto_onion_pubkey toy_crypto demo_addr = (NOX_OK, demo_pub).
Proof. apply onion_pubkey_iff. split; [vm_compute; reflexivity|reflexivity]. Defined.

Lemma onion_claim_roundtrip_witness :
  exists sig, @crypto_onion_sign toy_crypto demo_addr (zeros 32) demo_seed = (NOX_OK, sig) /\
    @crypto_onion_verify toy_crypto sig demo_addr (zeros 32) = NOX_OK.
Proof.
  destruct (@onion_claim_roundtrip toy_crypto _ demo_seed (zeros 32)) as (sig & H1 & H2 & _).
  exists sig. exact (conj H1 H2).
Defined.
