(* ===== verification/Network.v ===== *)
(** * The wire format and the parsers of src/network.c

    Frame headers, the epoll helpers, and the functions that read text the
    program does not control: names in the configuration directory and the
    answers of the Tor control port. *)

From S2P Require Import Prelude Primitives Types World Onion.

Definition FRAME_MAX_PAYLOAD : Z := 4096 + NOX_MAC_LEN.

(** ** Frame headers *)

(** A uint32_t as four bytes, most significant first. *)
Definition put_be32 (x : Z) : bytes :=
  [byte.of_Z (u8 (Z.shiftr x 24)); byte.of_Z (u8 (Z.shiftr x 16));
   byte.of_Z (u8 (Z.shiftr x 8)); byte.of_Z (u8 x)].

Definition get_be32 (wire : bytes) (i : nat) : Z :=
  let b j := byte.unsigned (nth (i + j) wire NUL) in
  Z.lor (Z.lor (Z.lor (Z.shiftl (b 0%nat) 24) (Z.shiftl (b 1%nat) 16)) (Z.shiftl (b 2%nat) 8))
        (b 3%nat).

Definition frame_header_encode (hdr : frame_header) : bytes :=
  put_be32 (fh_magic hdr) ++ [byte.of_Z (fh_type hdr)] ++
  put_be32 (fh_seq hdr) ++ put_be32 (fh_len hdr).

(** The header is filled in before the checks. *)
Definition frame_header_decode (wire : bytes) : nox_err * frame_header :=
  let hdr := FrameHeader (get_be32 wire 0) (byte.unsigned (nth 4 wire NUL))
               (get_be32 wire 5) (get_be32 wire 9) in
  if negb (fh_magic hdr =? NOX_FRAME_MAGIC) then (NOX_ERR_PROTO, hdr)
  else if (fh_type hdr <? NOX_MSG_TEXT) || (NOX_MSG_CTRL <? fh_type hdr)
  then (NOX_ERR_PROTO, hdr)
  else if FRAME_MAX_PAYLOAD <? fh_len hdr then (NOX_ERR_PROTO, hdr)
  else (NOX_OK, hdr).

(** ** Names and paths *)

Definition SLASH : byte := Byte.x2f.

Definition is_safe_filename (name : bytes) : bool :=
  negb (bool_decide (name = [])) && negb (bool_decide (SLASH ∈ name))
    && negb (bytes_eqb name (lit ".")) && negb (bytes_eqb name (lit "..")).

(** [path[dlen]] is the terminating NUL when the path ends there. *)
Definition path_under_dir (path dir : bytes) : bool :=
  bytes_eqb (take (length dir) path) dir
    && match path !! length dir with
       | None => true
       | Some c => Byte.eqb c SLASH
       end.

(** The characters [isspace] skips and the digits of base 10. *)
Definition is_space (c : byte) : bool :=
  let z := byte.unsigned c in (z =? 32) || ((9 <=? z) && (z <=? 13)).
Definition digit (c : byte) : option Z :=
  let z := byte.unsigned c in if (48 <=? z) && (z <=? 57) then Some (z - 48) else None.

Fixpoint skip_spaces (s : bytes) : bytes :=
  match s with
  | c :: s' => if is_space c then skip_spaces s' else s
  | [] => []
  end.

(** The digits from [s] after the value [acc], and what follows them. *)
Fixpoint digits_value (acc : Z) (s : bytes) : Z * bytes :=
  match s with
  | c :: s' => match digit c with Some d => digits_value (acc * 10 + d) s' | None => (acc, s) end
  | [] => (acc, [])
  end.

Definition LONG_MAX : Z := 2 ^ 63 - 1.
Definition LONG_MIN : Z := - 2 ^ 63.
Definition INT_MAX : Z := 2 ^ 31 - 1.

(** [strtol(str, &endptr, 10)]: the value, whether errno is set, and the text
    from endptr on.  Without a digit nothing is consumed. *)
Definition strtol10 (str : bytes) : Z * bool * bytes :=
  let s := skip_spaces str in
  let '(neg, s) := match s with
                   | Byte.x2d :: s' => (true, s')
                   | Byte.x2b :: s' => (false, s')
                   | _ => (false, s)
                   end in
  match s with
  | c :: _ =>
      match digit c with
      | None => (0, false, str)
      | Some _ =>
          let '(v, rest) := digits_value 0 s in
          let v := if neg : bool then - v else v in
          if v <? LONG_MIN then (LONG_MIN, true, rest)
          else if LONG_MAX <? v then (LONG_MAX, true, rest)
          else (v, false, rest)
      end
  | [] => (0, false, str)
  end.

Definition safe_parse_pid (str : bytes) : Z :=
  let '(pid, erange, rest) := strtol10 str in
  if erange || negb (bool_decide (rest = [])) || (pid <=? 0) || (INT_MAX <? pid) then -1
  else pid.

(** ** The ServiceID of an ADD_ONION answer *)

(** [strstr(hay, needle) + strlen(needle)]. *)
Fixpoint after_str (needle hay : bytes) : option bytes :=
  if bytes_eqb (take (length needle) hay) needle then Some (drop (length needle) hay)
  else match hay with [] => None | _ :: hay' => after_str needle hay' end.

Definition not_eol (c : byte) : bool :=
  negb (Byte.eqb c Byte.x0d) && negb (Byte.eqb c Byte.x0a).

(** The characters up to the end of the line. *)
Fixpoint line_prefix (s : bytes) : bytes :=
  match s with
  | c :: s' => if not_eol c then c :: line_prefix s' else []
  | [] => []
  end.

Section Network.
Context `{OS} `{Crypto}.

Definition parse_service_id (resp : bytes) (onion_len : Z) : nox_err * bytes :=
  match after_str (lit "ServiceID=") resp with
  | None => (NOX_ERR_TOR, [])
  | Some sid =>
      if len sid <? 56 then (NOX_ERR_TOR, [])
      else if negb (len (line_prefix (take 56 sid)) =? 56) then (NOX_ERR_TOR, [])
      else if onion_len <? 63 then (NOX_ERR_OVERFLOW, [])
      else
        let candidate := take 56 sid ++ ONION_SUFFIX in
        if negb (validate_onion_address candidate) then (NOX_ERR_TOR, [])
        else (NOX_OK, candidate)
  end.

(** ** Epoll *)

Definition EPOLLIN : Z := 1.
Definition EPOLLOUT : Z := 4.
Definition EPOLLERR : Z := 8.
Definition EPOLLHUP : Z := 16.
Definition ENOENT : Z := 2.
Definition ESRCH : Z := 3.

Definition epoll_add_fd (epfd fd : Z) : St world nox_err :=
  r ← call (EpollAdd epfd fd);
  mret (if sr_ret r =? 0 then NOX_OK else NOX_ERR_NET).

Definition epoll_remove_fd (epfd fd : Z) : St world nox_err :=
  r ← call (EpollDel epfd fd);
  mret (if sr_ret r =? 0 then NOX_OK
        else if sr_errno r =? ENOENT then NOX_OK else NOX_ERR_NET).

Definition epoll_modify_fd (epfd fd events : Z) : St world nox_err :=
  r ← call (EpollMod epfd fd events);
  mret (if sr_ret r =? 0 then NOX_OK else NOX_ERR_NET).

End Network.
