(* ===== verification/NetworkProofs.v ===== *)
(** * Theorems about the wire format and the parsers

    Frame headers round-trip in both directions; the parsers of foreign text
    return only what they promise. *)

From S2P Require Import Prelude Primitives Types World Onion OnionProofs Network.

(** ** Frame headers *)

Definition header_wf (h : frame_header) : Prop :=
  fh_magic h = NOX_FRAME_MAGIC /\ NOX_MSG_TEXT <= fh_type h <= NOX_MSG_CTRL /\
  0 <= fh_seq h < 2 ^ 32 /\ 0 <= fh_len h <= FRAME_MAX_PAYLOAD.

Lemma unsigned_of_u8 x : byte.unsigned (byte.of_Z (u8 x)) = u8 x.
Proof. rewrite byte.unsigned_of_Z. unfold byte.wrap, u8. by rewrite Zmod_mod. Qed.

(** Four bytes side by side. *)
Lemma lor4 a b c d :
  0 <= a < 256 -> 0 <= b < 256 -> 0 <= c < 256 -> 0 <= d < 256 ->
  Z.lor (Z.lor (Z.lor (Z.shiftl a 24) (Z.shiftl b 16)) (Z.shiftl c 8)) d =
  a * 2 ^ 24 + b * 2 ^ 16 + c * 2 ^ 8 + d.
Proof.
  intros Ha Hb Hc Hd.
  assert (forall x y n, 0 <= n -> 0 <= y < 2 ^ n -> Z.lor (x * 2 ^ n) y = x * 2 ^ n + y) as L.
  { intros x y n Hn Hy. symmetry. apply Z.add_nocarry_lor, Z.bits_inj'. intros i Hi.
    rewrite Z.land_spec, Z.bits_0. destruct (decide (i < n)).
    - by rewrite Z.mul_pow2_bits_low.
    - by rewrite (testbit_above n y), andb_false_r by lia. }
  rewrite !Z.shiftl_mul_pow2 by lia. rewrite L by lia.
  replace (a * 2 ^ 24 + b * 2 ^ 16) with ((a * 2 ^ 8 + b) * 2 ^ 16) by lia. rewrite L by lia.
  replace ((a * 2 ^ 8 + b) * 2 ^ 16 + c * 2 ^ 8) with (((a * 2 ^ 8 + b) * 2 ^ 8 + c) * 2 ^ 8) by lia.
  rewrite L by lia. lia.
Qed.

Lemma get_put_be32 pre x post :
  0 <= x < 2 ^ 32 -> get_be32 (pre ++ put_be32 x ++ post) (length pre) = x.
Proof.
  intros Hx. unfold get_be32. cbv zeta beta. rewrite !app_nth2_plus. unfold put_be32. cbn [Datatypes.app nth].
  rewrite !unsigned_of_u8, lor4 by (apply Z.mod_pos_bound; lia).
  unfold u8. rewrite !Z.shiftr_div_pow2 by lia.
  Z.to_euclidean_division_equations. lia.
Qed.

Lemma put_get_be32 wire i :
  (i + 4 <= length wire)%nat -> put_be32 (get_be32 wire i) = take 4 (drop i wire).
Proof.
  intros Hl. set (q := drop i wire).
  assert (exists a b c d r, q = a :: b :: c :: d :: r) as (a & b & c & d & r & Hq).
  { assert (4 <= length q)%nat as Hq by (unfold q; rewrite length_drop; lia).
    destruct q as [|a [|b [|c [|d r]]]]; cbn in Hq; try lia. by eexists _, _, _, _, _. }
  assert (forall j, nth (i + j) wire NUL = nth j q NUL) as Hn
    by (intros j; unfold q; by rewrite nth_skipn).
  unfold get_be32. cbv zeta beta. rewrite !Hn, Hq. cbn [nth take]. pose proof byte.unsigned_range as R.
  rewrite lor4 by apply R. unfold put_be32.
  pose proof (R a); pose proof (R b); pose proof (R c); pose proof (R d).
  rewrite !Z.shiftr_div_pow2 by lia. unfold u8.
  repeat f_equal; (rewrite <-byte.of_Z_unsigned; f_equal;
    Z.to_euclidean_division_equations; lia).
Qed.

Lemma length_put_be32 x : length (put_be32 x) = 4%nat.
Proof. done. Qed.

(** Only the first 13 bytes matter. *)
Lemma decode_prefix h post :
  header_wf h -> frame_header_decode (frame_header_encode h ++ post) = (NOX_OK, h).
Proof.
  intros (Hm & Ht & Hs & Hl). destruct h as [m t q l]. cbn [fh_magic fh_type fh_seq fh_len] in *.
  unfold frame_header_decode, frame_header_encode. cbn [fh_magic fh_type fh_seq fh_len].
  unfold FRAME_MAX_PAYLOAD, NOX_MAC_LEN, NOX_MSG_TEXT, NOX_MSG_CTRL in *.
  rewrite <-!app_assoc.
  replace (get_be32 _ 0) with m.
  2: { symmetry. apply (get_put_be32 [] m). by rewrite Hm. }
  replace (get_be32 _ 5) with q.
  2: { symmetry. change 5%nat with (length (put_be32 m ++ [byte.of_Z t])).
       rewrite app_assoc. by apply get_put_be32. }
  replace (get_be32 _ 9) with l.
  2: { symmetry. change 9%nat with (length ((put_be32 m ++ [byte.of_Z t]) ++ put_be32 q)).
       rewrite (app_assoc (put_be32 m)), (app_assoc (_ ++ _)). apply get_put_be32. lia. }
  unfold put_be32. cbn [Datatypes.app nth]. rewrite byte.unsigned_of_Z. unfold byte.wrap.
  rewrite (Z.mod_small t) by lia. rewrite Hm, Z.eqb_refl. cbn [negb].
  rewrite (proj2 (Z.ltb_ge _ _)), (proj2 (Z.ltb_ge _ _)), (proj2 (Z.ltb_ge _ _)) by lia.
  done.
Qed.

Lemma decode_encode h :
  header_wf h -> frame_header_decode (frame_header_encode h) = (NOX_OK, h).
Proof. rewrite <-(app_nil_r (frame_header_encode h)). apply decode_prefix. Qed.

Lemma get_be32_range wire i : 0 <= get_be32 wire i < 2 ^ 32.
Proof.
  unfold get_be32. cbv zeta beta. pose proof byte.unsigned_range as R.
  rewrite lor4 by apply R. pose proof (R (nth (i + 0) wire NUL)).
  pose proof (R (nth (i + 1) wire NUL)). pose proof (R (nth (i + 2) wire NUL)).
  pose proof (R (nth (i + 3) wire NUL)). lia.
Qed.

(** What an accepted header is. *)
Lemma decode_inv wire h :
  frame_header_decode wire = (NOX_OK, h) ->
  h = FrameHeader (get_be32 wire 0) (byte.unsigned (nth 4 wire NUL))
        (get_be32 wire 5) (get_be32 wire 9) /\ header_wf h.
Proof.
  unfold frame_header_decode. cbv zeta. cbn [fh_magic fh_type fh_seq fh_len].
  destruct (_ =? NOX_FRAME_MAGIC) eqn:E1; [|done].
  destruct (_ || _) eqn:E2; [done|]. destruct (FRAME_MAX_PAYLOAD <? _) eqn:E3; [done|].
  intros [= <-]. split; [done|].
  pose proof (get_be32_range wire 5). pose proof (get_be32_range wire 9).
  unfold header_wf. cbn [fh_magic fh_type fh_seq fh_len]. lia.
Qed.

Lemma encode_decode wire h :
  (13 <= length wire)%nat -> frame_header_decode wire = (NOX_OK, h) ->
  frame_header_encode h = take 13 wire.
Proof.
  intros Hl [-> _]%decode_inv. unfold frame_header_encode. cbn [fh_magic fh_type fh_seq fh_len].
  rewrite !put_get_be32 by lia. rewrite byte.of_Z_unsigned, drop_0.
  destruct (lookup_lt_is_Some_2 wire 4 ltac:(lia)) as [v Hv].
  rewrite nth_lookup, Hv. cbn [default from_option id].
  rewrite <-(take_drop 4 (take 13 wire)), take_take, skipn_firstn_comm.
  change (4 `min` 13)%nat with 4%nat. change (13 - 4)%nat with 9%nat. f_equal.
  rewrite (drop_S _ _ _ Hv). cbn [Datatypes.app take]. f_equal.
  rewrite <-(take_drop 4 (take 8 (drop 5 wire))), take_take, skipn_firstn_comm, drop_drop.
  done.
Qed.

(** Frame headers round-trip: a well-formed header is decoded from its 13
    bytes exactly, and whatever the decoder accepts is well formed and encodes
    to the 13 bytes it was read from. *)
Theorem frame_header_roundtrip h wire :
  length (frame_header_encode h) = Z.to_nat FRAME_HEADER_WIRE_SIZE /\
  (header_wf h -> frame_header_decode (frame_header_encode h) = (NOX_OK, h)) /\
  ((13 <= length wire)%nat -> frame_header_decode wire = (NOX_OK, h) ->
   header_wf h /\ frame_header_encode h = take 13 wire).
Proof.
  split_and!; [done|apply decode_encode|]. intros Hl E.
  split; [by apply decode_inv in E as [_ ?]|by apply encode_decode].
Qed.

(** ** Process ids in file names *)

(** [n] printed with [k] decimal digits. *)
Definition decimal (k : nat) (n : Z) : bytes :=
  (fun d => byte.of_Z (48 + d)) <$> digits 10 k n.

Lemma digit_of_Z d : 0 <= d < 10 -> digit (byte.of_Z (48 + d)) = Some d.
Proof.
  intros Hd. unfold digit. rewrite byte.unsigned_of_Z. unfold byte.wrap.
  rewrite Z.mod_small by lia. rewrite (proj2 (Z.leb_le _ _)), (proj2 (Z.leb_le _ _)) by lia.
  cbn [andb]. f_equal. lia.
Qed.

Lemma digits_value_digits acc ds :
  Forall (fun d => 0 <= d < 10) ds ->
  digits_value acc ((fun d => byte.of_Z (48 + d)) <$> ds) = (be_from 10 acc ds, []).
Proof.
  intros HF. revert acc. induction HF as [|d ds Hd _ IH]; intros acc; [done|].
  cbn [fmap list_fmap digits_value]. by rewrite digit_of_Z, IH.
Qed.

(** A digit is neither a space nor a sign. *)
Lemma digit_not_special c d :
  digit c = Some d -> is_space c = false /\ c <> Byte.x2d /\ c <> Byte.x2b.
Proof.
  unfold digit, is_space. destruct (_ && _) eqn:E; [|done]. intros _.
  split_and!; [lia|intros ->; done..].
Qed.

Lemma strtol10_digits s c d :
  head s = Some c -> digit c = Some d ->
  strtol10 s = let '(v, rest) := digits_value 0 s in
    if v <? LONG_MIN then (LONG_MIN, true, rest)
    else if LONG_MAX <? v then (LONG_MAX, true, rest) else (v, false, rest).
Proof.
  destruct s as [|c' s]; [done|]. intros [= ->] Hd.
  destruct (digit_not_special c d Hd) as (Hs & H1 & H2).
  unfold strtol10. cbn [skip_spaces]. rewrite Hs.
  destruct c; try done; by rewrite Hd.
Qed.

(** safe_parse_pid inverts the decimal printing of every pid the kernel can
    give, and on any other text returns -1 or a number in that range. *)
Theorem safe_parse_pid_correct str :
  (forall k pid, 1 <= pid <= INT_MAX -> pid < 10 ^ Z.of_nat k -> str = decimal k pid ->
     safe_parse_pid str = pid) /\
  (safe_parse_pid str = -1 \/ 1 <= safe_parse_pid str <= INT_MAX).
Proof.
  split.
  - intros k pid Hp Hk ->. unfold safe_parse_pid.
    pose proof (digits_range 10 k pid ltac:(lia)) as HF.
    pose proof (be_val_digits 10 k pid ltac:(lia) ltac:(lia)) as Hv.
    unfold decimal. destruct (digits 10 k pid) as [|d ds] eqn:E; [cbn in Hv; lia|].
    erewrite strtol10_digits; [|done|apply digit_of_Z; by apply Forall_inv in HF].
    rewrite digits_value_digits by done. unfold be_val in Hv. rewrite Hv.
    unfold INT_MAX, LONG_MIN, LONG_MAX in *.
    rewrite (proj2 (Z.ltb_ge _ _)), (proj2 (Z.ltb_ge _ _)) by lia.
    rewrite bool_decide_true by done. cbn [negb orb].
    rewrite (proj2 (Z.leb_gt _ _)), (proj2 (Z.ltb_ge _ _)) by lia. done.
  - unfold safe_parse_pid. destruct (strtol10 str) as [[v er] rest].
    destruct (_ || _) eqn:E; [by left|right]. apply orb_false_iff in E as [E E2].
    apply orb_false_iff in E as [_ E1]. lia.
Qed.

(** ** The ServiceID *)

Section NetworkProofs.
Context `{HC : Crypto} {HL : CryptoLaws HC}.

(** Whatever the Tor control port answers, an address taken from an
    ADD_ONION answer is a valid v3 address of some 32-byte key and it fits the
    caller's buffer. *)
Theorem service_id_valid resp onion_len onion :
  parse_service_id resp onion_len = (NOX_OK, onion) ->
  len onion + 1 <= onion_len /\ exists pub, length pub = 32%nat /\ onion = onion_address pub.
Proof.
  unfold parse_service_id. destruct (after_str _ resp) as [sid|]; [|done].
  destruct (len sid <? 56) eqn:El; [done|]. destruct (negb (_ =? 56)); [done|].
  destruct (onion_len <? 63) eqn:Eo; [done|].
  destruct (validate_onion_address _) eqn:Ev; [|done]. intros [= <-].
  unfold validate_onion_address in Ev.
  destruct (crypto_onion_pubkey _) as [e pub] eqn:Ek. cbn [fst] in Ev.
  apply err_ok_true in Ev as ->. apply address_of_pubkey in Ek as [Hp Ea]. split.
  - unfold len in *. rewrite length_app, length_take. change (length ONION_SUFFIX) with 6%nat. lia.
  - by exists pub.
Qed.

End NetworkProofs.

(** ** Witnesses *)

Section Witnesses.
#[local] Existing Instance toy_crypto.

Lemma frame_header_roundtrip_witness :
  header_wf (FrameHeader NOX_FRAME_MAGIC 1 7 40) /\
  frame_header_decode (frame_header_encode (FrameHeader NOX_FRAME_MAGIC 1 7 40)) =
    (NOX_OK, FrameHeader NOX_FRAME_MAGIC 1 7 40).
Proof.
  assert (header_wf (FrameHeader NOX_FRAME_MAGIC 1 7 40)) as H.
  { unfold header_wf, FRAME_MAX_PAYLOAD, NOX_MSG_TEXT, NOX_MSG_CTRL, NOX_MAC_LEN. cbn. lia. }
  split; [exact H|].
  exact (proj1 (proj2 (frame_header_roundtrip (FrameHeader NOX_FRAME_MAGIC 1 7 40) [])) H).
Defined.

Lemma safe_parse_pid_correct_witness :
  decimal 4 4242 = lit "4242" /\ safe_parse_pid (lit "4242") = 4242.
Proof.
  split; [reflexivity|].
  apply (proj1 (safe_parse_pid_correct (lit "4242")) 4%nat 4242);
    [unfold INT_MAX; lia|cbn; lia|reflexivity].
Defined.

(** An answer carrying the address of the toy key of bytes 0x42. *)
Definition demo_answer : bytes :=
  lit "250-ServiceID=" ++ onion_address (replicate 32 Byte.x42) ++ [Byte.x0d; Byte.x0a].

Lemma service_id_valid_witness :
  parse_service_id demo_answer 63 = (NOX_OK, onion_address (replicate 32 Byte.x42)) /\
  exists pub, length pub = 32%nat /\ onion_address (replicate 32 Byte.x42) = onion_address pub.
Proof.
  assert (parse_service_id demo_answer 63 = (NOX_OK, onion_address (replicate 32 Byte.x42))) as E
    by (vm_compute; reflexivity).
  split; [exact E|]. exact (proj2 (service_id_valid demo_answer 63 _ E)).
Defined.

End Witnesses.
