(* ===== verification/Database.v ===== *)
(** * The encrypted contact book and message queue: src/database.c

    The tables hold only keyed hashes of onion addresses and secretbox
    ciphertexts, as the code stores them.  SQLite itself is not under src/:
    whether a prepare, bind or step works is the environment's answer, and a
    statement that is carried out does to the rows what its SQL text says. *)

From S2P Require Import Prelude Primitives Types World.

Definition NOX_NONCE_LEN : nat := 24.
Definition SECRETBOX_MACBYTES : Z := 16.
Definition DB_MAX_MSG_LEN : Z := 4095.
Definition QUEUE_BATCH_LIMIT : nat := 256.

(** [struct contact_payload]: 63 + 65 + 32 bytes, no padding. *)
Definition contact_payload (onion name key : bytes) : bytes :=
  pad_to 63 (take 62 onion) ++ pad_to 65 (take 64 name) ++ take 32 key.
Definition CONTACT_PAYLOAD_SIZE : Z := 160.

Section Database.
Context `{OS} `{Crypto}.

Definition sql_ok (c : syscall) : St world bool :=
  r ← call c; mret (sr_ret r =? 0).

(** [sqlite3_bind_*] of the columns 1..n, stopping at the first failure. *)
Fixpoint bind_all (i : Z) (n : nat) : St world bool :=
  match n with
  | O => mret true
  | S n => ok ← sql_ok (SqlBind i); if ok : bool then bind_all (i + 1) n else mret false
  end.

Definition the_key (d : db_state) : bytes := default (zeros 32) (db_key d).

Definition hash_onion (d : db_state) (onion : bytes) : nox_err * bytes :=
  match db_key d with
  | None => (NOX_ERR_CRYPTO, zeros 32)
  | Some key =>
      if negb (len onion =? NOX_ONION_LEN) then (NOX_ERR_CRYPTO, zeros 32)
      else (NOX_OK, blake2b_keyed 32 key onion)
  end.

(** The error, the nonce and the ciphertext. *)
Definition encrypt_payload (plain : bytes) (cipher_len : Z)
    : St world (nox_err * bytes * bytes) :=
  r ← call (RandomBytes (Z.of_nat NOX_NONCE_LEN));
  let nonce := sr_data r in
  if cipher_len <? len plain + SECRETBOX_MACBYTES then mret (NOX_ERR_OVERFLOW, nonce, [])
  else
    key ← gets (fun w => the_key (w_db w));
    match secretbox key nonce plain with
    | None => mret (NOX_ERR_CRYPTO, nonce, [])
    | Some c => mret (NOX_OK, nonce, c)
    end.

Definition decrypt_payload (d : db_state) (cipher nonce : bytes) (plain_len : Z)
    : nox_err * bytes :=
  if len cipher <? SECRETBOX_MACBYTES then (NOX_ERR_AUTH, [])
  else if plain_len <? len cipher - SECRETBOX_MACBYTES then (NOX_ERR_OVERFLOW, [])
  else
    match secretbox_open (the_key d) nonce cipher with
    | None => (NOX_ERR_AUTH, [])
    | Some p => (NOX_OK, p)
    end.

Definition db_decrypt_row (d : db_state) (nonce cipher : bytes) (plain_size : Z)
    : nox_err * bytes :=
  if negb (len nonce =? Z.of_nat NOX_NONCE_LEN) || (len cipher <=? 0) then (NOX_ERR_AUTH, [])
  else decrypt_payload d cipher nonce plain_size.

(** DELETE FROM queue WHERE id = ? *)
Definition db_queue_delete (id : Z) : St world unit :=
  d ← gets w_db;
  if negb (db_ready d) then mret tt
  else
    ok ← sql_ok (SqlPrepare "DELETE FROM queue WHERE id");
    if negb ok then mret tt
    else
      ok ← sql_ok (SqlBind 1);
      if negb ok then mret tt
      else
        ok ← sql_ok SqlStep;
        if negb ok then mret tt
        else upd_db (fun d => d <| db_queue := filter (fun r => qr_id r <> id) (db_queue d) |>).

Definition db_close : St world unit :=
  upd_db (fun d => d <| db_key := None |> <| db_ready := false |>).

(** INSERT OR REPLACE INTO contacts *)
Definition contacts_replace (row : contact_row) (l : list contact_row) : list contact_row :=
  filter (fun r => cr_onion_hash r <> cr_onion_hash row) l ++ [row].

(** The bind failures leave [err] as hash_onion set it. *)
Definition db_add_contact (onion name noise_key : bytes) : St world nox_err :=
  d ← gets w_db;
  if negb (db_ready d) then mret NOX_ERR_STATE
  else if negb (len onion =? NOX_ONION_LEN) || (NOX_CONTACT_NAME_LEN <? len name)
  then mret NOX_ERR_DB
  else
    let cp := contact_payload onion name noise_key in
    '(err, nonce, cipher) ← encrypt_payload cp (CONTACT_PAYLOAD_SIZE + SECRETBOX_MACBYTES);
    if negb (err_ok err) then mret err
    else
      let '(err, hash) := hash_onion d onion in
      if negb (err_ok err) then mret err
      else
        ok ← sql_ok (SqlPrepare "INSERT OR REPLACE INTO contacts");
        if negb ok then mret NOX_ERR_DB
        else
          ok ← bind_all 1 3;
          if negb ok then mret err
          else
            ok ← sql_ok SqlStep;
            if negb ok then mret NOX_ERR_DB
            else
              _ ← upd_db (fun d => d <| db_contacts :=
                     contacts_replace (ContactRow hash nonce cipher) (db_contacts d) |>);
              mret NOX_OK.

(** SELECT ... FROM contacts WHERE onion_hash = ? (a primary key) *)
Definition contacts_find (hash : bytes) (l : list contact_row) : option contact_row :=
  snd <$> list_find (fun r => cr_onion_hash r = hash) l.

(** The error, the name (at most [name_len - 1] characters) and the key. *)
Definition db_get_contact (onion : bytes) (name_len : Z) : St world (nox_err * bytes * bytes) :=
  let fail e := (e, [], zeros 32) in
  d ← gets w_db;
  if negb (db_ready d) then mret (fail NOX_ERR_STATE)
  else if name_len =? 0 then mret (fail NOX_ERR_DB)
  else
    let '(err, hash) := hash_onion d onion in
    if negb (err_ok err) then mret (fail err)
    else
      ok ← sql_ok (SqlPrepare "SELECT nonce, encrypted_payload FROM contacts");
      if negb ok then mret (fail NOX_ERR_DB)
      else
        ok ← sql_ok (SqlBind 1);
        if negb ok then mret (fail NOX_ERR_DB)
        else
          ok ← sql_ok SqlStep;
          match (if ok : bool then contacts_find hash (db_contacts d) else None) with
          | None => mret (fail NOX_ERR_DB)
          | Some row =>
              let '(err, cp) :=
                db_decrypt_row d (cr_nonce row) (cr_payload row) CONTACT_PAYLOAD_SIZE in
              if negb (err_ok err) then mret (fail err)
              else if negb (len cp =? CONTACT_PAYLOAD_SIZE) then mret (fail NOX_ERR_DB)
              else
                mret (NOX_OK,
                      take (Z.to_nat (name_len - 1)) (cstr (take 65 (drop 63 cp))),
                      drop 128 cp)
          end.

(** SELECT ... FROM contacts: the visitor is called for every row that decrypts;
    [cp] is zeroed first, so a short plaintext is padded. *)
Fixpoint visit_contacts (rows : list contact_row)
    (visitor : bytes -> bytes -> bytes -> St world unit) : St world unit :=
  match rows with
  | [] => skip
  | row :: rows =>
      ok ← sql_ok SqlStep;
      if negb ok then skip
      else
        d ← gets w_db;
        let '(err, cp) := db_decrypt_row d (cr_nonce row) (cr_payload row) CONTACT_PAYLOAD_SIZE in
        let cp := pad_to (Z.to_nat CONTACT_PAYLOAD_SIZE) cp in
        _ ← (if err_ok err
             then visitor (cstr (take 63 cp)) (cstr (take 65 (drop 63 cp))) (drop 128 cp)
             else skip);
        visit_contacts rows visitor
  end.

Definition db_list_contacts (visitor : bytes -> bytes -> bytes -> St world unit)
    : St world nox_err :=
  d ← gets w_db;
  if negb (db_ready d) then mret NOX_ERR_STATE
  else
    ok ← sql_ok (SqlPrepare "SELECT nonce, encrypted_payload FROM contacts;");
    if negb ok then mret NOX_ERR_DB
    else
      _ ← visit_contacts (db_contacts d) visitor;
      mret NOX_OK.

Definition db_queue_message (recipient_onion text : bytes) : St world nox_err :=
  d ← gets w_db;
  if negb (db_ready d) then mret NOX_ERR_STATE
  else if DB_MAX_MSG_LEN <? len text then mret NOX_ERR_DB
  else
    let payload := text ++ [NUL] in
    let cipher_len := len payload + SECRETBOX_MACBYTES in
    ok ← alloc cipher_len;
    if negb ok then mret NOX_ERR_ALLOC
    else
      '(err, nonce, cipher) ← encrypt_payload payload cipher_len;
      if negb (err_ok err) then mret err
      else
        let '(err, hash) := hash_onion d recipient_onion in
        if negb (err_ok err) then mret err
        else
          ok ← sql_ok (SqlPrepare "INSERT INTO queue");
          if negb ok then mret NOX_ERR_DB
          else
            ok ← bind_all 1 3;
            if negb ok then mret NOX_ERR_DB
            else
              ok ← sql_ok SqlStep;
              if negb ok then mret NOX_ERR_DB
              else
                _ ← upd_db (fun d =>
                      d <| db_queue := db_queue d ++
                             [QueueRow (db_queue_next d) hash nonce cipher] |>
                        <| db_queue_next := db_queue_next d + 1 |>);
                mret NOX_OK.

(** SELECT id FROM queue WHERE recipient_hash = ? ORDER BY id DESC LIMIT ? *)
Definition last_ids (hash : bytes) (count : Z) (q : list queue_row) : list Z :=
  take (Z.to_nat count) (reverse (qr_id <$> filter (fun r => qr_recipient_hash r = hash) q)).

Definition db_queue_rollback_last (recipient_onion : bytes) (count : Z) : St world nox_err :=
  if count <=? 0 then mret NOX_ERR_DB
  else
    d ← gets w_db;
    if negb (db_ready d) then mret NOX_ERR_STATE
    else
      let '(err, hash) := hash_onion d recipient_onion in
      if negb (err_ok err) then mret err
      else
        ok ← sql_ok (SqlPrepare "DELETE FROM queue WHERE id IN");
        if negb ok then mret NOX_ERR_DB
        else
          ok ← bind_all 1 2;
          if negb ok then mret NOX_ERR_DB
          else
            ok ← sql_ok SqlStep;
            if negb ok then mret NOX_ERR_DB
            else
              _ ← upd_db (fun d => d <| db_queue :=
                    filter (fun r => qr_id r ∉ last_ids hash count (db_queue d)) (db_queue d) |>);
              mret NOX_OK.

(** The first loop of db_process_queue: copy the rows to send.  None is an
    allocation failure. *)
Fixpoint queue_batch (rows : list queue_row) (room : nat) : St world (option (list queue_row)) :=
  match rows with
  | [] => mret (Some [])
  | r :: rows =>
      ok ← sql_ok SqlStep;
      if negb ok then mret (Some [])
      else
        match room with
        | O => mret (Some [])
        | S room' =>
            if negb (len (qr_nonce r) =? Z.of_nat NOX_NONCE_LEN) then queue_batch rows room
            else if (len (qr_payload r) <=? SECRETBOX_MACBYTES)
                    || (4096 + SECRETBOX_MACBYTES <? len (qr_payload r))
            then queue_batch rows room
            else
              ok ← alloc (len (qr_payload r));
              if negb ok then mret None
              else
                rest ← queue_batch rows room';
                mret (cons r <$> rest)
        end
  end.

(** The second loop: decrypt, send, delete; stop at the first failed send. *)
Fixpoint queue_send (batch : list queue_row) (send_fn : bytes -> St world nox_err)
    : St world nox_err :=
  match batch with
  | [] => mret NOX_OK
  | r :: batch =>
      let expected_plain := len (qr_payload r) - SECRETBOX_MACBYTES in
      ok ← alloc (expected_plain + 1);
      if negb ok then mret NOX_ERR_ALLOC
      else
        d ← gets w_db;
        let '(err, plain) := decrypt_payload d (qr_payload r) (qr_nonce r) expected_plain in
        if negb (err_ok err) || negb (bool_decide (last plain = Some NUL)) then
          _ ← db_queue_delete (qr_id r);
          queue_send batch send_fn
        else
          err ← send_fn (cstr plain);
          if err_ok err then
            _ ← db_queue_delete (qr_id r);
            queue_send batch send_fn
          else mret err
  end.

Definition db_process_queue (recipient_onion : bytes) (send_fn : bytes -> St world nox_err)
    : St world nox_err :=
  d ← gets w_db;
  if negb (db_ready d) then mret NOX_ERR_STATE
  else
    let '(err, hash) := hash_onion d recipient_onion in
    if negb (err_ok err) then mret err
    else
      ok ← sql_ok (SqlPrepare "SELECT id, nonce, encrypted_payload FROM queue");
      if negb ok then mret NOX_ERR_DB
      else
        ok ← sql_ok (SqlBind 1);
        if negb ok then mret NOX_ERR_DB
        else
          batch ← queue_batch (filter (fun r => qr_recipient_hash r = hash) (db_queue d))
                    QUEUE_BATCH_LIMIT;
          match batch with
          | None => mret NOX_ERR_ALLOC
          | Some batch => queue_send batch send_fn
          end.

End Database.
