(* ===== verification/DatabaseProofs.v ===== *)
(** * Theorems about the database

    Contact round trip, independence of contacts, queue delivery order and
    what a failed send leaves behind, rollback of a partly queued message. *)

From S2P Require Import Prelude Primitives Types World Database.

(** ** Calls *)

Lemma call_eq `{OS} c w :
  call c w = (os_answer (w_tr w) c, w <| w_tr := c :: w_tr w |>).
Proof. done. Qed.

(** Calls change neither the application state nor the database. *)
Definition same_state (w w' : world) : Prop := w_app w' = w_app w /\ w_db w' = w_db w.

#[global] Instance same_state_refl : Reflexive same_state.
Proof. done. Qed.
#[global] Instance same_state_trans : Transitive same_state.
Proof. intros ??? [??] [??]. split; congruence. Qed.

Section DatabaseProofs.
Context `{HOS : OS} `{HC : Crypto} {HL : CryptoLaws HC}.

(** An environment in which randomness and SQLite work, and one in which
    memory does too. *)
Record sql_env : Prop := {
  env_rand : forall tr n, len (sr_data (os_answer tr (RandomBytes n))) = Z.max 0 n;
  env_prepare : forall tr s, sr_ret (os_answer tr (SqlPrepare s)) = 0;
  env_bind : forall tr i, sr_ret (os_answer tr (SqlBind i)) = 0;
  env_step : forall tr, sr_ret (os_answer tr SqlStep) = 0 }.

Record env_ok : Prop := {
  env_mem : forall tr n, sr_ret (os_answer tr (Malloc n)) <> 0;
  env_sql :> sql_env }.

(** [w'] is [w] with calls made that deliver nothing. *)
Definition is_send (c : syscall) : option bytes :=
  match c with UiIncoming t => Some t | _ => None end.
Definition sent (w : world) : list bytes := omap is_send (reverse (w_tr w)).

Definition quiet (w w' : world) : Prop := same_state w w' /\ sent w' = sent w.

#[global] Instance quiet_refl : Reflexive quiet.
Proof. done. Qed.
#[global] Instance quiet_trans : Transitive quiet.
Proof. intros ??? [H1 H2] [H3 H4]. split; [by etrans|congruence]. Qed.

Lemma quiet_call c w : is_send c = None -> quiet w (w <| w_tr := c :: w_tr w |>).
Proof.
  intros Hc. split; [done|]. unfold sent. cbn -[reverse].
  rewrite reverse_cons, omap_app. cbn. rewrite Hc. apply app_nil_r.
Qed.

Lemma sql_ok_true c w :
  sr_ret (os_answer (w_tr w) c) = 0 -> is_send c = None ->
  exists w', sql_ok c w = (true, w') /\ quiet w w'.
Proof.
  intros Hr Hc. unfold sql_ok. run_st. rewrite call_eq, Hr.
  eexists. split; [done|]. by apply quiet_call.
Qed.

Lemma alloc_true n w :
  env_ok -> exists w', alloc n w = (true, w') /\ quiet w w'.
Proof.
  intros He. unfold alloc, lift_tr, malloc_ok, sys. run_st.
  rewrite (proj2 (Z.eqb_neq _ _)) by apply He. eexists. split; [done|]. by apply quiet_call.
Qed.

Lemma bind_all_true n i w :
  sql_env -> exists w', bind_all i n w = (true, w') /\ quiet w w'.
Proof.
  intros He. revert i w. induction n as [|n IH]; intros i w; [by eexists|].
  cbn [bind_all]. run_st.
  destruct (sql_ok_true (SqlBind i) w) as (w1 & -> & Q1); [apply He|done|].
  destruct (IH (i + 1) w1) as (w2 & -> & Q2). eexists. split; [done|]. by etrans.
Qed.

Lemma encrypt_payload_ok plain cap w k :
  sql_env -> db_key (w_db w) = Some k -> len plain <= 8192 -> len plain + 16 <= cap ->
  exists nonce c w',
    encrypt_payload plain cap w = ((NOX_OK, nonce, c), w') /\ quiet w w' /\
    len nonce = 24 /\ len c = len plain + 16 /\ secretbox k nonce plain = Some c.
Proof.
  intros He Hk Hl Hc. unfold encrypt_payload. run_st. rewrite call_eq.
  set (nonce := sr_data _). unfold SECRETBOX_MACBYTES.
  rewrite (proj2 (Z.ltb_ge _ _)) by lia. run_st.
  cbn [w_db set_field]. unfold the_key. rewrite Hk. cbn [default from_option id].
  destruct (secretbox_total k nonce plain Hl) as [c Ec]. fold nonce. rewrite Ec.
  eexists _, _, _. split; [done|]. split_and!; [by apply quiet_call| | |done].
  - unfold nonce. by rewrite (env_rand He).
  - apply secretbox_length in Ec. unfold len. lia.
Qed.

Lemma decrypt_encrypt_payload d k nonce plain c cap :
  db_key d = Some k -> secretbox k nonce plain = Some c -> len plain <= cap ->
  decrypt_payload d c nonce cap = (NOX_OK, plain).
Proof.
  intros Hk Hc Hcap. pose proof (secretbox_length _ _ _ _ Hc).
  unfold decrypt_payload, SECRETBOX_MACBYTES, len in *.
  rewrite (proj2 (Z.ltb_ge _ _)), (proj2 (Z.ltb_ge _ _)) by lia.
  unfold the_key. rewrite Hk. cbn [default from_option id].
  by rewrite (secretbox_open_secretbox _ _ _ _ Hc).
Qed.

(** ** Contacts *)

Lemma cstr_pad_to n s : NUL ∉ s -> (length s < n)%nat -> cstr (pad_to n s) = s.
Proof.
  intros Hs Hn. unfold pad_to. rewrite take_ge by lia.
  destruct (n - length s)%nat eqn:E; [lia|]. cbn [zeros replicate]. by apply cstr_app_nul.
Qed.

Lemma length_contact_payload onion name key :
  len onion = NOX_ONION_LEN -> len name <= NOX_CONTACT_NAME_LEN -> length key = 32%nat ->
  len (contact_payload onion name key) = CONTACT_PAYLOAD_SIZE.
Proof.
  unfold len, NOX_ONION_LEN, NOX_CONTACT_NAME_LEN, CONTACT_PAYLOAD_SIZE, contact_payload.
  intros Ho Hn Hk.
  rewrite !length_app, !length_pad_to, length_take. lia.
Qed.

Lemma contact_payload_name onion name key :
  len onion = NOX_ONION_LEN -> len name <= NOX_CONTACT_NAME_LEN -> NUL ∉ name ->
  take (Z.to_nat (NOX_CONTACT_NAME_LEN + 1 - 1))
    (cstr (take 65 (drop 63 (contact_payload onion name key)))) = name.
Proof.
  unfold len, NOX_ONION_LEN, NOX_CONTACT_NAME_LEN, contact_payload. intros Ho Hn Hnul.
  rewrite (drop_app_length' _ _ 63), (take_app_length' _ _ 65)
    by (by rewrite length_pad_to).
  rewrite cstr_pad_to by (rewrite take_ge by lia; done || lia).
  rewrite !take_ge; [done|cbn; lia|rewrite take_ge by lia; cbn; lia].
Qed.

Lemma contact_payload_key onion name key :
  len onion = NOX_ONION_LEN -> len name <= NOX_CONTACT_NAME_LEN -> length key = 32%nat ->
  drop 128 (contact_payload onion name key) = key.
Proof.
  unfold len, NOX_ONION_LEN, NOX_CONTACT_NAME_LEN, contact_payload. intros Ho Hn Hk.
  rewrite app_assoc, drop_app_length'; [by rewrite take_ge by lia|].
  rewrite length_app, !length_pad_to. done.
Qed.

Lemma db_decrypt_row_ok d k nonce plain c cap :
  db_key d = Some k -> secretbox k nonce plain = Some c -> len nonce = 24 ->
  len plain <= cap ->
  db_decrypt_row d nonce c cap = (NOX_OK, plain).
Proof.
  intros Hk Hc Hn Hcap. pose proof (secretbox_length _ _ _ _ Hc).
  unfold db_decrypt_row. rewrite Hn, (proj2 (Z.leb_gt _ _)) by (unfold len; lia).
  change (24 =? Z.of_nat NOX_NONCE_LEN) with true. cbn [negb orb].
  by eapply decrypt_encrypt_payload.
Qed.

Lemma hash_onion_ok d k onion :
  db_key d = Some k -> len onion = NOX_ONION_LEN ->
  hash_onion d onion = (NOX_OK, blake2b_keyed 32 k onion).
Proof. intros Hk Hl. unfold hash_onion. by rewrite Hk, Hl. Qed.

Lemma db_add_contact_ok onion name key w k :
  env_ok -> db_ready (w_db w) = true -> db_key (w_db w) = Some k ->
  len onion = NOX_ONION_LEN -> len name <= NOX_CONTACT_NAME_LEN -> length key = 32%nat ->
  exists nonce c w',
    db_add_contact onion name key w = (NOX_OK, w') /\ w_app w' = w_app w /\
    w_db w' = w_db w <| db_contacts :=
      contacts_replace (ContactRow (blake2b_keyed 32 k onion) nonce c) (db_contacts (w_db w)) |> /\
    len nonce = 24 /\ len c = 176 /\
    secretbox k nonce (contact_payload onion name key) = Some c.
Proof.
  intros He Hr Hk Ho Hn Hkey. unfold db_add_contact. run_st. rewrite Hr, Ho, Z.eqb_refl.
  rewrite (proj2 (Z.ltb_ge _ _)) by done. cbn [negb orb].
  pose proof (length_contact_payload onion name key Ho Hn Hkey) as Hcp.
  destruct (encrypt_payload_ok (contact_payload onion name key)
    (CONTACT_PAYLOAD_SIZE + SECRETBOX_MACBYTES) w k) as (nonce & c & w1 & -> & Q1 & Hnc & Hc & Ec);
    [apply He|done|rewrite Hcp; done|rewrite Hcp; done|].
  run_ok. rewrite (hash_onion_ok _ k) by done. run_ok.
  edestruct (sql_ok_true (SqlPrepare "INSERT OR REPLACE INTO contacts") w1) as (w2 & -> & Q2);
    [apply He|done|]. run_ok.
  destruct (bind_all_true 3 1 w2 He) as (w3 & -> & Q3). run_ok.
  destruct (sql_ok_true SqlStep w3) as (w4 & -> & Q4); [apply He|done|]. run_ok.
  destruct (transitivity Q1 (transitivity Q2 (transitivity Q3 Q4))) as [[Ha Hd] _].
  exists nonce, c. eexists. split; [done|]. cbn. rewrite Ha, Hd. split_and!; try done.
  rewrite Hc, Hcp. done.
Qed.

(** What db_get_contact returns when SQLite works, as a function of the rows. *)
Definition stored_contact (d : db_state) (k onion : bytes) (name_len : Z)
    : nox_err * bytes * bytes :=
  match contacts_find (blake2b_keyed 32 k onion) (db_contacts d) with
  | None => (NOX_ERR_DB, [], zeros 32)
  | Some row =>
      let '(err, cp) := db_decrypt_row d (cr_nonce row) (cr_payload row) CONTACT_PAYLOAD_SIZE in
      if negb (err_ok err) then (err, [], zeros 32)
      else if negb (len cp =? CONTACT_PAYLOAD_SIZE) then (NOX_ERR_DB, [], zeros 32)
      else (NOX_OK, take (Z.to_nat (name_len - 1)) (cstr (take 65 (drop 63 cp))), drop 128 cp)
  end.

Lemma db_get_contact_ok onion name_len w k :
  env_ok -> db_ready (w_db w) = true -> db_key (w_db w) = Some k ->
  len onion = NOX_ONION_LEN -> name_len <> 0 ->
  (db_get_contact onion name_len w).1 = stored_contact (w_db w) k onion name_len.
Proof.
  intros He Hr Hk Ho Hn. unfold db_get_contact. run_st.
  rewrite Hr, (proj2 (Z.eqb_neq _ _)) by done. cbn [negb].
  rewrite (hash_onion_ok _ k) by done. run_ok.
  edestruct (sql_ok_true (SqlPrepare "SELECT nonce, encrypted_payload FROM contacts") w)
    as (w2 & -> & _); [apply He|done|]. run_ok.
  destruct (sql_ok_true (SqlBind 1) w2) as (w3 & -> & _); [apply He|done|]. run_ok.
  destruct (sql_ok_true SqlStep w3) as (w4 & -> & _); [apply He|done|]. run_ok.
  unfold stored_contact. destruct (contacts_find _ _) as [row|]; [|done].
  destruct (db_decrypt_row _ _ _ _) as [err cp]. run_st.
  destruct (err_ok err); cbn [negb]; [|by cbv zeta]. by destruct (len cp =? _).
Qed.

Lemma contacts_find_replace row l :
  contacts_find (cr_onion_hash row) (contacts_replace row l) = Some row.
Proof.
  unfold contacts_find, contacts_replace.
  rewrite list_find_app_r.
  - cbn. by rewrite decide_True.
  - apply list_find_None, Forall_forall. intros x [? ?]%list_elem_of_filter. done.
Qed.

Lemma contacts_find_other h row l :
  h <> cr_onion_hash row -> contacts_find h (contacts_replace row l) = contacts_find h l.
Proof.
  intros Hne. unfold contacts_find, contacts_replace.
  induction l as [|r l IH]; [cbn; by rewrite decide_False by done|].
  rewrite filter_cons. case_decide as Hd; cbn -[filter].
  - case_decide; [done|]. destruct (list_find _ (filter _ l ++ _)) as [[? ?]|] eqn:E1;
      destruct (list_find _ l) as [[? ?]|] eqn:E2; cbn in *; congruence.
  - rewrite decide_False by congruence. rewrite IH.
    by destruct (list_find _ l) as [[? ?]|].
Qed.

(** A saved contact is read back exactly: after db_add_contact succeeds,
    db_get_contact for the same address returns the stored name and key. *)
Theorem contact_roundtrip onion name key w k :
  env_ok -> db_ready (w_db w) = true -> db_key (w_db w) = Some k ->
  len onion = NOX_ONION_LEN -> len name <= NOX_CONTACT_NAME_LEN -> NUL ∉ name ->
  length key = 32%nat ->
  exists w1, db_add_contact onion name key w = (NOX_OK, w1) /\
    (db_get_contact onion (NOX_CONTACT_NAME_LEN + 1) w1).1 = (NOX_OK, name, key).
Proof.
  intros He Hr Hk Ho Hn Hnul Hkey.
  destruct (db_add_contact_ok onion name key w k) as (nonce & c & w1 & E & _ & Hd & Hno & Hc & Ec);
    [done..|].
  exists w1. split; [done|].
  rewrite (db_get_contact_ok onion _ w1 k); [|done|by rewrite Hd|by rewrite Hd|done|done].
  unfold stored_contact. rewrite Hd. cbn [db_contacts set_field db_key].
  change (blake2b_keyed 32 k onion)
    with (cr_onion_hash (ContactRow (blake2b_keyed 32 k onion) nonce c)) at 1.
  rewrite contacts_find_replace. cbn [cr_nonce cr_payload].
  pose proof (length_contact_payload onion name key Ho Hn Hkey) as Hcp.
  rewrite (db_decrypt_row_ok _ k _ (contact_payload onion name key)); [|done|done|done|by rewrite Hcp].
  cbn [err_ok negb]. rewrite Hcp. cbn [Z.eqb Pos.eqb negb CONTACT_PAYLOAD_SIZE].
  by rewrite contact_payload_name, contact_payload_key.
Qed.

(** Saving one contact leaves every other contact as it was, as long as the
    keyed hashes of the two addresses differ. *)
Theorem contact_frame onion name key other name_len w k w1 e :
  env_ok -> db_ready (w_db w) = true -> db_key (w_db w) = Some k ->
  len onion = NOX_ONION_LEN -> len name <= NOX_CONTACT_NAME_LEN -> length key = 32%nat ->
  len other = NOX_ONION_LEN -> name_len <> 0 ->
  blake2b_keyed 32 k other <> blake2b_keyed 32 k onion ->
  db_add_contact onion name key w = (e, w1) ->
  (db_get_contact other name_len w1).1 = (db_get_contact other name_len w).1.
Proof.
  intros He Hr Hk Ho Hn Hkey Ho2 Hnl Hne E.
  destruct (db_add_contact_ok onion name key w k) as (nonce & c & w' & E' & _ & Hd & _);
    [done..|]. rewrite E in E'. simplify_eq.
  rewrite !(db_get_contact_ok other name_len _ k) by (done || by rewrite Hd).
  unfold stored_contact. rewrite Hd. cbn [db_contacts set_field].
  by rewrite contacts_find_other.
Qed.

(** ** The message queue *)

(** A row that holds the text [t] under the key [k]. *)
Definition holds (k : bytes) (r : queue_row) (t : bytes) : Prop :=
  SECRETBOX_MACBYTES <= len (qr_payload r) /\ NUL ∉ t /\
  secretbox_open k (qr_nonce r) (qr_payload r) = Some (t ++ [NUL]).

(** A send function that hands the text to the environment, which decides
    whether it was sent. *)
Definition send_log (t : bytes) : St world nox_err :=
  r ← call (UiIncoming t); mret (if sr_ret r =? 0 then NOX_OK else NOX_ERR_NET).

(** The queue without the rows whose ids are listed. *)
Definition drop_ids (ids : list Z) (q : list queue_row) : list queue_row :=
  filter (fun r => qr_id r ∉ ids) q.

Lemma drop_ids_nil q : drop_ids [] q = q.
Proof.
  unfold drop_ids. induction q as [|r q IH]; [done|]. rewrite filter_cons, IH.
  by rewrite decide_True by set_solver.
Qed.

Lemma drop_ids_cons i ids q :
  drop_ids ids (filter (fun r => qr_id r <> i) q) = drop_ids (i :: ids) q.
Proof.
  unfold drop_ids. rewrite list_filter_filter. apply list_filter_iff.
  intros r. rewrite not_elem_of_cons. tauto.
Qed.

Lemma db_queue_delete_ok id w :
  env_ok -> db_ready (w_db w) = true ->
  exists w', db_queue_delete id w = (tt, w') /\ w_app w' = w_app w /\ sent w' = sent w /\
    w_db w' = w_db w <| db_queue := filter (fun r => qr_id r <> id) (db_queue (w_db w)) |>.
Proof.
  intros He Hr. unfold db_queue_delete. run_st. rewrite Hr. cbn [negb].
  edestruct (sql_ok_true (SqlPrepare "DELETE FROM queue WHERE id") w) as (w1 & -> & Q1);
    [apply He|done|]. run_ok.
  destruct (sql_ok_true (SqlBind 1) w1) as (w2 & -> & Q2); [apply He|done|]. run_ok.
  destruct (sql_ok_true SqlStep w2) as (w3 & -> & Q3); [apply He|done|]. run_ok.
  destruct (transitivity Q1 (transitivity Q2 Q3)) as [[Ha Hd] Hs].
  unfold upd_db. run_st. eexists. split; [done|]. cbn. by rewrite Ha, Hd.
Qed.

Lemma send_log_eq t w :
  exists w', send_log t w =
    (if sr_ret (os_answer (w_tr w) (UiIncoming t)) =? 0 then NOX_OK else NOX_ERR_NET, w') /\
    same_state w w' /\ sent w' = sent w ++ [t].
Proof.
  unfold send_log. run_st. rewrite call_eq. eexists. split; [done|]. split; [done|].
  unfold sent. cbn -[reverse]. by rewrite reverse_cons, omap_app.
Qed.

Lemma queue_send_spec batch texts w k :
  env_ok -> db_ready (w_db w) = true -> db_key (w_db w) = Some k ->
  Forall2 (holds k) batch texts ->
  exists n err w',
    queue_send batch send_log w = (err, w') /\ w_app w' = w_app w /\
    w_db w' = w_db w <| db_queue := drop_ids (qr_id <$> take n batch) (db_queue (w_db w)) |> /\
    ((err = NOX_OK /\ n = length batch /\ sent w' = sent w ++ texts) \/
     (err = NOX_ERR_NET /\ (n < length batch)%nat /\ sent w' = sent w ++ take (S n) texts)).
Proof.
  intros He Hr Hk HF. revert w Hr Hk. induction HF as [|r t batch texts Ht HF IH]; intros w Hr Hk.
  - exists 0%nat, NOX_OK, w. cbn. rewrite drop_ids_nil, app_nil_r. split_and!; try done.
    + by destruct w as [? [] ?].
    + by left.
  - destruct Ht as (Hlen & Hnul & Hopen). cbn [queue_send]. run_st.
    destruct (alloc_true (len (qr_payload r) - SECRETBOX_MACBYTES + 1) w He)
      as (w1 & -> & [Ha1 Hd1] & Hs1). run_ok.
    unfold decrypt_payload. rewrite (proj2 (Z.ltb_ge _ _)) by done. rewrite Z.ltb_irrefl.
    unfold the_key. rewrite Hd1, Hk. cbn [default from_option id]. rewrite Hopen. run_ok.
    rewrite last_snoc, bool_decide_true by done. run_ok. cbn [orb].
    rewrite cstr_app_nul by done.
    destruct (send_log_eq t w1) as (w2 & -> & [Ha2 Hd2] & Hs2).
    destruct (sr_ret _ =? 0); cbn [err_ok].
    + destruct (db_queue_delete_ok (qr_id r) w2) as (w3 & -> & Ha3 & Hs3 & Hd3);
        [done|congruence|].
      destruct (IH w3) as (n & err & w' & E & Ha & Hd & Hcase);
        [rewrite Hd3; cbn; congruence|rewrite Hd3; cbn; congruence|].
      exists (S n), err, w'. rewrite E. split; [done|]. split; [congruence|]. split.
      * rewrite Hd, Hd3, Hd2, Hd1. cbn [take fmap list_fmap db_queue set_field].
        by rewrite drop_ids_cons.
      * rewrite Hs3, Hs2, Hs1 in Hcase. cbn [length take].
        destruct Hcase as [(-> & -> & ->)|(-> & ? & ->)]; [left|right];
          rewrite <-app_assoc; split_and!; done || lia.
    + exists 0%nat, NOX_ERR_NET, w2. split; [done|]. split; [congruence|]. split.
      * cbn. rewrite drop_ids_nil, Hd2, Hd1. by destruct (w_db w).
      * right. rewrite Hs2, Hs1. cbn. split_and!; done || lia.
Qed.

Lemma queue_batch_all rows room w :
  env_ok -> (length rows <= room)%nat ->
  Forall (fun r => len (qr_nonce r) = 24 /\ 16 < len (qr_payload r) <= 4112) rows ->
  exists w', queue_batch rows room w = (Some rows, w') /\ quiet w w'.
Proof.
  intros He. revert room w. induction rows as [|r rows IH]; intros room w Hroom HF; [by eexists|].
  apply Forall_cons in HF as [[Hn Hp] HF]. cbn [queue_batch]. run_st.
  destruct (sql_ok_true SqlStep w) as (w1 & -> & Q1); [apply He|done|]. run_ok.
  destruct room as [|room]; [cbn in Hroom; lia|]. rewrite Hn.
  change (24 =? Z.of_nat NOX_NONCE_LEN) with true. unfold SECRETBOX_MACBYTES.
  rewrite (proj2 (Z.leb_gt _ _)), (proj2 (Z.ltb_ge _ _)) by lia. cbn [negb orb].
  destruct (alloc_true (len (qr_payload r)) w1 He) as (w2 & -> & Q2). run_ok.
  destruct (IH room w2) as (w3 & -> & Q3); [cbn in Hroom; lia|done|].
  eexists. split; [done|]. by etrans; [|etrans].
Qed.

(** ** Queueing *)

(** Ids are handed out in order. *)
Definition queue_wf (d : db_state) : Prop :=
  Forall (fun r => qr_id r < db_queue_next d) (db_queue d).

(** With SQLite working, db_queue_message stores the row or, when memory is
    short, changes nothing. *)
Lemma db_queue_message_spec onion text w k :
  sql_env -> db_ready (w_db w) = true -> db_key (w_db w) = Some k ->
  len onion = NOX_ONION_LEN -> len text <= DB_MAX_MSG_LEN -> NUL ∉ text ->
  exists err w', db_queue_message onion text w = (err, w') /\ w_app w' = w_app w /\
    ((err = NOX_ERR_ALLOC /\ w_db w' = w_db w) \/
     (err = NOX_OK /\ exists row,
        w_db w' = w_db w <| db_queue := db_queue (w_db w) ++ [row] |>
                         <| db_queue_next := db_queue_next (w_db w) + 1 |> /\
        qr_id row = db_queue_next (w_db w) /\
        qr_recipient_hash row = blake2b_keyed 32 k onion /\ holds k row text)).
Proof.
  intros He Hr Hk Ho Ht Hnul. unfold db_queue_message, DB_MAX_MSG_LEN in *.
  rewrite bind_eq. cbn [gets fst snd]. rewrite Hr, (proj2 (Z.ltb_ge _ _)) by done. cbn [negb].
  rewrite bind_eq. pose proof (keeps_alloc w_app (len (text ++ [NUL]) + SECRETBOX_MACBYTES) w) as A1.
  pose proof (keeps_alloc w_db (len (text ++ [NUL]) + SECRETBOX_MACBYTES) w) as D1.
  destruct (alloc _ w) as [ok w1]. cbn [fst snd] in *. destruct ok; cbn [negb].
  2: { eexists _, _. split; [done|]. split; [done|]. by left. }
  run_st. assert (len (text ++ [NUL]) = len text + 1) as Hp by (unfold len; rewrite length_app; cbn; lia).
  destruct (encrypt_payload_ok (text ++ [NUL]) (len (text ++ [NUL]) + SECRETBOX_MACBYTES) w1 k)
    as (nonce & c & w2 & -> & Q2 & Hnc & Hc & Ec); [done|by rewrite D1|lia|unfold SECRETBOX_MACBYTES; lia|].
  run_ok. rewrite (hash_onion_ok _ k) by done. run_ok.
  edestruct (sql_ok_true (SqlPrepare "INSERT INTO queue") w2) as (w3 & -> & Q3); [apply He|done|]. run_ok.
  destruct (bind_all_true 3 1 w3 He) as (w4 & -> & Q4). run_ok.
  destruct (sql_ok_true SqlStep w4) as (w5 & -> & Q5); [apply He|done|]. run_ok.
  destruct (transitivity Q2 (transitivity Q3 (transitivity Q4 Q5))) as [[Ha Hd] _].
  eexists _, _. split; [done|]. cbn. rewrite Ha, Hd, A1, D1. split; [done|]. right. split; [done|].
  eexists. split; [done|]. split_and!; try done. unfold holds. cbn.
  rewrite (secretbox_open_secretbox _ _ _ _ Ec). split_and!; try done.
  pose proof (len_nonneg text). unfold SECRETBOX_MACBYTES. lia.
Qed.

(** The rows of one recipient that were just appended are the last ones. *)
Lemma rollback_appended hash q rows next :
  Forall (fun r => qr_id r < next) q ->
  Forall (fun r => next <= qr_id r /\ qr_recipient_hash r = hash) rows ->
  filter (fun r => qr_id r ∉ last_ids hash (len rows) (q ++ rows)) (q ++ rows) = q.
Proof.
  intros Hq Hrows. assert (last_ids hash (len rows) (q ++ rows) = reverse (qr_id <$> rows)) as ->.
  { unfold last_ids. rewrite filter_app, fmap_app, reverse_app.
    assert (filter (fun r => qr_recipient_hash r = hash) rows = rows) as ->.
    { clear -Hrows. induction Hrows as [|r rows [_ Hr] _ IH]; [done|].
      rewrite filter_cons, decide_True by done. by rewrite IH. }
    unfold len. rewrite Nat2Z.id, take_app_length'; [done|].
    by rewrite length_reverse, length_fmap. }
  rewrite filter_app.
  assert (filter (fun r => qr_id r ∉ reverse (qr_id <$> rows)) rows = []) as ->.
  { destruct (filter _ rows) as [|r l] eqn:E; [done|].
    assert (r ∈ r :: l) as Hin by set_solver. rewrite <-E in Hin.
    apply list_elem_of_filter in Hin as [Hn Hr]. destruct Hn.
    apply elem_of_reverse, list_elem_of_fmap. by exists r. }
  rewrite app_nil_r. clear -Hq Hrows. induction Hq as [|r q Hr _ IH]; [done|].
  rewrite filter_cons, decide_True, IH; [done|]. rewrite elem_of_reverse, list_elem_of_fmap.
  intros (r' & E & [Hr' _]%(proj1 (Forall_forall _ _) Hrows)). lia.
Qed.

Lemma db_queue_rollback_ok onion count w k :
  sql_env -> db_ready (w_db w) = true -> db_key (w_db w) = Some k ->
  len onion = NOX_ONION_LEN -> 0 < count ->
  exists w', db_queue_rollback_last onion count w = (NOX_OK, w') /\ w_app w' = w_app w /\
    w_db w' = w_db w <| db_queue :=
      filter (fun r => qr_id r ∉ last_ids (blake2b_keyed 32 k onion) count (db_queue (w_db w)))
        (db_queue (w_db w)) |>.
Proof.
  intros He Hr Hk Ho Hc. unfold db_queue_rollback_last. rewrite (proj2 (Z.leb_gt _ _)) by done.
  run_st. rewrite Hr. cbn [negb]. rewrite (hash_onion_ok _ k) by done. run_ok.
  edestruct (sql_ok_true (SqlPrepare "DELETE FROM queue WHERE id IN") w) as (w1 & -> & Q1);
    [apply He|done|]. run_ok.
  destruct (bind_all_true 2 1 w1 He) as (w2 & -> & Q2). run_ok.
  destruct (sql_ok_true SqlStep w2) as (w3 & -> & Q3); [apply He|done|]. run_ok.
  destruct (transitivity Q1 (transitivity Q2 Q3)) as [[Ha Hd] _].
  eexists. split; [done|]. cbn. by rewrite Ha, Hd.
Qed.

(** C27 Flushing the queue delivers the recipient's messages in the order they
    were queued, each removed only after it was sent; the first send the
    environment refuses stops the flush, and that message and the ones after
    it stay queued, as do all messages to other recipients. *)
Theorem queue_flush_in_order onion w k texts :
  env_ok -> db_ready (w_db w) = true -> db_key (w_db w) = Some k ->
  len onion = NOX_ONION_LEN ->
  let rows := filter (fun r => qr_recipient_hash r = blake2b_keyed 32 k onion) (db_queue (w_db w)) in
  (length rows <= QUEUE_BATCH_LIMIT)%nat ->
  Forall (fun r => len (qr_nonce r) = 24 /\ 16 < len (qr_payload r) <= 4112) rows ->
  Forall2 (holds k) rows texts ->
  exists n err w',
    db_process_queue onion send_log w = (err, w') /\ w_app w' = w_app w /\
    db_queue (w_db w') = drop_ids (qr_id <$> take n rows) (db_queue (w_db w)) /\
    ((err = NOX_OK /\ n = length rows /\ sent w' = sent w ++ texts) \/
     (err = NOX_ERR_NET /\ (n < length rows)%nat /\ sent w' = sent w ++ take (S n) texts)).
Proof.
  intros He Hr Hk Ho rows Hlim HF HT. unfold db_process_queue. run_st. rewrite Hr. cbn [negb].
  rewrite (hash_onion_ok _ k) by done. run_ok.
  edestruct (sql_ok_true (SqlPrepare "SELECT id, nonce, encrypted_payload FROM queue") w)
    as (w1 & -> & Q1); [apply He|done|]. run_ok.
  destruct (sql_ok_true (SqlBind 1) w1) as (w2 & -> & Q2); [apply He|done|]. run_ok.
  destruct (queue_batch_all rows QUEUE_BATCH_LIMIT w2) as (w3 & E & Q3); [done..|].
  fold rows. rewrite E. run_st.
  destruct (transitivity Q1 (transitivity Q2 Q3)) as [[Ha Hd] Hs].
  destruct (queue_send_spec rows texts w3 k) as (n & err & w' & -> & Ha' & Hd' & Hcase);
    [done|congruence|congruence|done|].
  exists n, err, w'. rewrite Hd', <-Hs, Ha', Ha, Hd. done.
Qed.

(** A failing bind in db_add_contact is reported as success although
    nothing was stored: the error variable still holds hash_onion's NOX_OK. *)
Theorem add_contact_bind_failure_reported_ok onion name key w k :
  db_ready (w_db w) = true -> db_key (w_db w) = Some k ->
  len onion = NOX_ONION_LEN -> len name <= NOX_CONTACT_NAME_LEN -> length key = 32%nat ->
  (forall tr s, sr_ret (os_answer tr (SqlPrepare s)) = 0) ->
  (forall tr, sr_ret (os_answer tr (SqlBind 1)) <> 0) ->
  exists w', db_add_contact onion name key w = (NOX_OK, w') /\ w_db w' = w_db w.
Proof.
  intros Hr Hk Ho Hn Hkey Hprep Hbind. unfold db_add_contact. run_st. rewrite Hr, Ho, Z.eqb_refl.
  rewrite (proj2 (Z.ltb_ge _ _)) by done. cbn [negb orb].
  pose proof (length_contact_payload onion name key Ho Hn Hkey) as Hcp.
  unfold encrypt_payload. run_st. rewrite call_eq. run_st. rewrite Hcp.
  rewrite Z.ltb_irrefl. run_st. cbn [w_db set_field]. unfold the_key. rewrite Hk.
  edestruct (secretbox_total (default (zeros 32) (Some k))) as [c ->]; [rewrite Hcp; done|].
  run_ok. rewrite (hash_onion_ok _ k) by done. run_ok.
  unfold sql_ok. run_st. rewrite call_eq, Hprep. run_ok. cbn [bind_all Z.eqb negb]. run_st.
  unfold sql_ok. run_st. rewrite call_eq. rewrite (proj2 (Z.eqb_neq _ _)) by apply Hbind.
  run_ok. eexists. done.
Qed.

End DatabaseProofs.

(** ** Witnesses *)

Section Witnesses.
#[local] Existing Instance kind_os.
#[local] Existing Instance toy_crypto.

Lemma kind_env_ok : env_ok.
Proof.
  split; [discriminate|]. split; intros; try reflexivity. cbn. unfold len.
  rewrite length_replicate. lia.
Qed.

Definition alice_onion : bytes := replicate 56 Byte.x61 ++ lit ".onion".
Definition bob_onion : bytes := replicate 56 Byte.x62 ++ lit ".onion".
Definition demo_key : bytes := replicate 32 Byte.x42.

Lemma contact_roundtrip_witness :
  exists w1, db_add_contact alice_onion (lit "alice") demo_key boot = (NOX_OK, w1) /\
    (db_get_contact alice_onion (NOX_CONTACT_NAME_LEN + 1) w1).1 = (NOX_OK, lit "alice", demo_key).
Proof.
  apply (contact_roundtrip alice_onion (lit "alice") demo_key boot (replicate 32 Byte.x14));
    [exact kind_env_ok|reflexivity|reflexivity|reflexivity|discriminate| |reflexivity].
  apply (bool_decide_unpack _). exact I.
Defined.

Lemma contact_frame_witness :
  blake2b_keyed 32 (replicate 32 Byte.x14) bob_onion <>
    blake2b_keyed 32 (replicate 32 Byte.x14) alice_onion /\
  (db_get_contact bob_onion 65 (db_add_contact alice_onion (lit "alice") demo_key boot).2).1 =
  (db_get_contact bob_onion 65 boot).1.
Proof.
  assert (blake2b_keyed 32 (replicate 32 Byte.x14) bob_onion <>
    blake2b_keyed 32 (replicate 32 Byte.x14) alice_onion) as Hne
    by (vm_compute; congruence).
  split; [exact Hne|].
  destruct (db_add_contact alice_onion (lit "alice") demo_key boot) as [e w1] eqn:E.
  apply (contact_frame alice_onion (lit "alice") demo_key bob_onion 65 boot
    (replicate 32 Byte.x14) w1 e kind_env_ok eq_refl eq_refl eq_refl);
    first [exact Hne | exact E | reflexivity | discriminate].
Defined.

(** One message to alice in the queue. *)
Definition queued_row : queue_row :=
  QueueRow 1 (blake2b_keyed 32 (replicate 32 Byte.x14) alice_onion) (replicate 24 Byte.x07)
    (default [] (secretbox (replicate 32 Byte.x14) (replicate 24 Byte.x07) (lit "hi" ++ [NUL]))).

Definition queued_world : world := boot <| w_db := boot_db <| db_queue := [queued_row] |> |>.

Lemma queue_flush_in_order_witness :
  exists n err w', db_process_queue alice_onion send_log queued_world = (err, w') /\
    db_queue (w_db w') = drop_ids (qr_id <$> take n [queued_row]) [queued_row].
Proof.
  destruct (queue_flush_in_order alice_onion queued_world (replicate 32 Byte.x14) [lit "hi"])
    as (n & err & w' & E & _ & Hq & _).
  - exact kind_env_ok.
  - reflexivity.
  - reflexivity.
  - reflexivity.
  - vm_compute. lia.
  - apply (bool_decide_unpack _). vm_compute. exact I.
  - constructor; [|constructor]. split_and!; [vm_compute; discriminate| |reflexivity].
    apply (bool_decide_unpack _). exact I.
  - exists n, err, w'. split; [exact E|]. exact Hq.
Defined.

(** SQLite refuses the first bind. *)
Definition nobind_os : OS := fun tr c =>
  match c with SqlBind _ => SysRet 7 0 [] | _ => kind_os tr c end.

Lemma add_contact_bind_failure_reported_ok_witness :
  exists w', @db_add_contact nobind_os toy_crypto alice_onion (lit "alice") demo_key boot =
    (NOX_OK, w') /\ w_db w' = w_db boot.
Proof.
  apply (@add_contact_bind_failure_reported_ok nobind_os toy_crypto _ alice_onion (lit "alice")
    demo_key boot (replicate 32 Byte.x14)); intros; first [reflexivity | discriminate].
Defined.

End Witnesses.
