(* ===== verification/StateMachine.v ===== *)
(** * The peer state machine: src/state_machine.c

    The transition table, the dispatcher and the actions.  The dispatcher
    calls itself through [action_tofu_accept], to disconnect; [fuel] bounds
    that depth, and [sm_dispatch] gives it the two levels the table can
    reach. *)

From S2P Require Import Prelude Primitives Types World Noise Database.

(** ** The transition table *)

Inductive action :=
| action_cleanup_fn | action_connect_fn | action_accept_fn | action_hs_process_fn
| action_tofu_prompt_fn | action_tofu_accept_fn | action_session_up_fn
| action_file_begin_fn | action_file_end_fn | action_file_begin_rx_fn.

Record state_transition_t := Transition {
  t_from : peer_state_t;
  t_event : peer_event_t;
  t_to : peer_state_t;
  t_action : action }.

Definition transitions : list state_transition_t := [
  Transition ST_IDLE EV_CONNECT_CMD ST_HANDSHAKE_INIT action_connect_fn;
  Transition ST_IDLE EV_PEER_ACCEPTED ST_HANDSHAKE_RESP action_accept_fn;
  Transition ST_HANDSHAKE_INIT EV_HANDSHAKE_MSG ST_HANDSHAKE_INIT action_hs_process_fn;
  Transition ST_HANDSHAKE_RESP EV_HANDSHAKE_MSG ST_HANDSHAKE_RESP action_hs_process_fn;
  Transition ST_HANDSHAKE_INIT EV_SESSION_READY ST_ACTIVE action_session_up_fn;
  Transition ST_HANDSHAKE_RESP EV_SESSION_READY ST_ACTIVE action_session_up_fn;
  Transition ST_HANDSHAKE_INIT EV_HANDSHAKE_DONE ST_TOFU_PENDING action_tofu_prompt_fn;
  Transition ST_HANDSHAKE_RESP EV_HANDSHAKE_DONE ST_TOFU_PENDING action_tofu_prompt_fn;
  Transition ST_TOFU_PENDING EV_TOFU_ACCEPTED ST_ACTIVE action_tofu_accept_fn;
  Transition ST_TOFU_PENDING EV_TOFU_REJECTED ST_IDLE action_cleanup_fn;
  Transition ST_ACTIVE EV_FILE_START ST_FILE_TX action_file_begin_fn;
  Transition ST_ACTIVE EV_FILE_RX_START ST_FILE_RX action_file_begin_rx_fn;
  Transition ST_FILE_TX EV_FILE_DONE ST_ACTIVE action_file_end_fn;
  Transition ST_FILE_RX EV_FILE_DONE ST_ACTIVE action_file_end_fn;
  Transition ST_CONNECTING EV_PEER_DISCONNECTED ST_IDLE action_cleanup_fn;
  Transition ST_HANDSHAKE_INIT EV_PEER_DISCONNECTED ST_IDLE action_cleanup_fn;
  Transition ST_HANDSHAKE_RESP EV_PEER_DISCONNECTED ST_IDLE action_cleanup_fn;
  Transition ST_TOFU_PENDING EV_PEER_DISCONNECTED ST_IDLE action_cleanup_fn;
  Transition ST_ACTIVE EV_PEER_DISCONNECTED ST_IDLE action_cleanup_fn;
  Transition ST_FILE_TX EV_PEER_DISCONNECTED ST_IDLE action_cleanup_fn;
  Transition ST_FILE_RX EV_PEER_DISCONNECTED ST_IDLE action_cleanup_fn;
  Transition ST_HANDSHAKE_INIT EV_HANDSHAKE_TIMEOUT ST_IDLE action_cleanup_fn;
  Transition ST_HANDSHAKE_RESP EV_HANDSHAKE_TIMEOUT ST_IDLE action_cleanup_fn;
  Transition ST_HANDSHAKE_INIT EV_HANDSHAKE_ERROR ST_IDLE action_cleanup_fn;
  Transition ST_HANDSHAKE_RESP EV_HANDSHAKE_ERROR ST_IDLE action_cleanup_fn;
  Transition ST_ACTIVE EV_SEQ_MISMATCH ST_IDLE action_cleanup_fn;
  Transition ST_FILE_TX EV_SEQ_MISMATCH ST_IDLE action_cleanup_fn;
  Transition ST_FILE_RX EV_SEQ_MISMATCH ST_IDLE action_cleanup_fn;
  Transition ST_HANDSHAKE_INIT EV_ARENA_FAIL ST_IDLE action_cleanup_fn;
  Transition ST_HANDSHAKE_RESP EV_ARENA_FAIL ST_IDLE action_cleanup_fn;
  Transition ST_IDLE EV_TOR_DIED ST_IDLE action_cleanup_fn;
  Transition ST_CONNECTING EV_TOR_DIED ST_IDLE action_cleanup_fn;
  Transition ST_HANDSHAKE_INIT EV_TOR_DIED ST_IDLE action_cleanup_fn;
  Transition ST_HANDSHAKE_RESP EV_TOR_DIED ST_IDLE action_cleanup_fn;
  Transition ST_TOFU_PENDING EV_TOR_DIED ST_IDLE action_cleanup_fn;
  Transition ST_ACTIVE EV_TOR_DIED ST_IDLE action_cleanup_fn;
  Transition ST_FILE_TX EV_TOR_DIED ST_IDLE action_cleanup_fn;
  Transition ST_FILE_RX EV_TOR_DIED ST_IDLE action_cleanup_fn;
  Transition ST_HANDSHAKE_INIT EV_RATE_LIMIT ST_IDLE action_cleanup_fn;
  Transition ST_HANDSHAKE_RESP EV_RATE_LIMIT ST_IDLE action_cleanup_fn ].

(** The linear search of sm_dispatch: the first entry that matches. *)
Definition find_transition (s : peer_state_t) (ev : peer_event_t) : option state_transition_t :=
  snd <$> list_find (fun t => t_from t = s /\ t_event t = ev) transitions.

(** [ACTIVE_PEER(state)] of include/types.h: NULL outside 0..15. *)
Definition ACTIVE_PEER (a : app_state) : option nat :=
  if (0 <=? as_active_peer_idx a) && (as_active_peer_idx a <? Z.of_nat NOX_MAX_PEERS)
  then Some (Z.to_nat (as_active_peer_idx a)) else None.

(** ** Actions *)

Section StateMachine.
Context `{OS} `{Crypto}.

(** Step 1: the socket. *)
Definition cleanup_socket (i : nat) : St world unit :=
  ps ← peer i;
  if 0 <=? ps_fd ps then
    epfd ← app as_epoll_fd;
    _ ← call_ (EpollDel epfd (ps_fd ps));
    _ ← call_ (Close (ps_fd ps));
    upd_peer i (fun p => p <| ps_fd := -1 |>)
  else skip.

(** Steps 2 to 4 and the first line of 5: keys, identity, TOFU state. *)
Definition cleanup_keys (i : nat) : St world unit :=
  ps ← peer i;
  _ ← (if ps_hs ps then call_ (Wipe "noise_handshake") else skip);
  _ ← (if ps_session ps then call_ (Wipe "noise_session") else skip);
  upd_peer i (fun p =>
    p <| ps_hs := None |> <| ps_session := None |>
      <| ps_tx_seq := 0 |> <| ps_rx_seq := 0 |>
      <| ps_peer_onion := [] |> <| ps_connect_target := [] |>
      <| ps_tofu_pending := false |> <| ps_tofu_peer_fd := -1 |>
      <| ps_tofu_was_zero_key := false |> <| ps_peer_verified := false |>
      <| ps_last_active := 0 |> <| ps_tofu_onion := [] |>
      <| ps_tofu_name := [] |> <| ps_tofu_new_key := zeros 32 |>
      <| ps_queue_flushed := false |>).

(** Step 5: a file being received, with the partial file removed. *)
Definition cleanup_rx (i : nat) : St world unit :=
  ps ← peer i;
  if rx_active (ps_rx_file ps) then
    dl ← app as_downloads_dir_fd;
    _ ← (if 0 <=? rx_fd (ps_rx_file ps) then call_ (Close (rx_fd (ps_rx_file ps))) else skip);
    _ ← (if (0 <=? dl) && negb (bool_decide (rx_local_name (ps_rx_file ps) = []))
         then call_ (Unlinkat dl (rx_local_name (ps_rx_file ps))) else skip);
    upd_peer i (fun p => p <| ps_rx_file := rx_zero <| rx_fd := -1 |> |>)
  else skip.

(** Step 5: a file being sent. *)
Definition cleanup_tx (i : nat) : St world unit :=
  ps ← peer i;
  if tx_active (ps_tx_file ps) then
    _ ← (if 0 <=? tx_fd (ps_tx_file ps) then call_ (Close (tx_fd (ps_tx_file ps))) else skip);
    _ ← (if tx_plain_buf (ps_tx_file ps) then call_ (Wipe "plain_buf") else skip);
    upd_peer i (fun p => p <| ps_tx_file := tx_zero <| tx_fd := -1 |> |>)
  else skip.

(** Steps 6 and 7: receive buffer, name, unread count. *)
Definition cleanup_buffers (i : nat) : St world unit :=
  upd_peer i (fun p =>
    p <| ps_recv_buf := zeros (Z.to_nat RECV_BUF_CAPACITY) |> <| ps_recv_pos := 0 |>
      <| ps_name := [] |> <| ps_unread_count := 0 |>).

(** Step 8: the slot is no longer the active one. *)
Definition deactivate (i : nat) (a : app_state) : app_state :=
  if bool_decide (ACTIVE_PEER a = Some i)
  then a <| as_active_peer_idx := -1 |> <| as_active_peer_onion := [] |>
  else a.

Definition action_cleanup (i : nat) : St world nox_err :=
  _ ← cleanup_socket i;
  _ ← cleanup_keys i;
  _ ← cleanup_rx i;
  _ ← cleanup_tx i;
  _ ← cleanup_buffers i;
  _ ← upd_app (deactivate i);
  mret NOX_OK.

Definition action_tofu_prompt (i : nat) : St world nox_err :=
  _ ← upd_app (fun a => a <| as_tofu_epoch := u64 (as_tofu_epoch a + 1) |>);
  epoch ← app as_tofu_epoch;
  _ ← upd_peer i (fun p => p <| ps_tofu_epoch := epoch |>);
  ps ← peer i;
  _ ← upd_app (fun a =>
        if as_tofu_prompt_epoch a =? 0
        then a <| as_tofu_prompt_epoch := ps_tofu_epoch ps |>
               <| as_tofu_prompt_fp := ps_tofu_new_key ps |>
        else a);
  mret NOX_OK.

(** [disconnect] is sm_dispatch(ps, state, EV_PEER_DISCONNECTED). *)
Definition action_tofu_accept (disconnect : St world nox_err) (i : nat) : St world nox_err :=
  ps ← peer i;
  a ← app id;
  if negb (ps_tofu_epoch ps =? as_tofu_prompt_epoch a)
     || negb (bytes_eqb (ps_tofu_new_key ps) (as_tofu_prompt_fp a))
  then _ ← ui UiError "TOFU token mismatch"; mret NOX_ERR_PROTO
  else
    match ps_hs ps with
    | None => _ ← ui UiError "handshake state invalid"; mret NOX_ERR_PROTO
    | Some hs =>
        _ ← (if negb (as_ghost_mode a) then
               db_err ← db_add_contact (ps_tofu_onion ps) (ps_tofu_name ps) (ps_tofu_new_key ps);
               if err_ok db_err then skip else ui UiError "contact not saved"
             else skip);
        ok ← alloc SIZEOF_noise_session;
        if negb ok then
          _ ← upd_peer i (fun p => p <| ps_session := None |>);
          _ ← ui UiError "memory"; _ ← disconnect; mret NOX_ERR_ALLOC
        else
          '(err, hs, ssn) ← lift_tr (handshake_split hs);
          _ ← upd_peer i (fun p => p <| ps_hs := Some hs |>);
          match ssn with
          | None =>
              _ ← ui UiError "session split failed";
              _ ← upd_peer i (fun p => p <| ps_session := None |>);
              _ ← disconnect; mret NOX_ERR_PROTO
          | Some ssn =>
              _ ← upd_peer i (fun p =>
                    p <| ps_session := Some ssn |> <| ps_hs := None |>
                      <| ps_tx_seq := 0 |> <| ps_rx_seq := 0 |>
                      <| ps_queue_flushed := false |> <| ps_peer_verified := false |>);
              now ← now_monotonic;
              _ ← upd_peer i (fun p =>
                    p <| ps_last_active := now |> <| ps_tofu_pending := false |>
                      <| ps_peer_onion := take 62 (ps_tofu_onion p) |>
                      <| ps_name := take 64 (ps_tofu_name p) |>);
              ps ← peer i;
              _ ← upd_app (fun a => a <| as_active_peer_onion := take 62 (ps_peer_onion ps) |>);
              _ ← ui UiSystem "secure channel established";
              mret NOX_OK
          end
    end.

(** The stub actions confirm the transition and do nothing else. *)
Definition run_action (disconnect : St world nox_err) (i : nat) (f : action) : St world nox_err :=
  match f with
  | action_cleanup_fn => action_cleanup i
  | action_tofu_prompt_fn => action_tofu_prompt i
  | action_tofu_accept_fn => action_tofu_accept disconnect i
  | action_connect_fn | action_accept_fn | action_hs_process_fn | action_session_up_fn
  | action_file_begin_fn | action_file_end_fn | action_file_begin_rx_fn => mret NOX_OK
  end.

(** ** Dispatch *)

Fixpoint dispatch (fuel : nat) (i : nat) (ev : peer_event_t) : St world nox_err :=
  match fuel with
  | O => mret NOX_ERR_STATE
  | S fuel =>
      ps ← peer i;
      match find_transition (ps_state ps) ev with
      | None => mret NOX_ERR_STATE
      | Some t =>
          err ← run_action (dispatch fuel i EV_PEER_DISCONNECTED) i (t_action t);
          _ ← (if err_ok err then upd_peer i (fun p => p <| ps_state := t_to t |>) else skip);
          mret err
      end
  end.

Definition sm_dispatch : nat -> peer_event_t -> St world nox_err := dispatch 2.

Definition sm_dispatch_active (ev : peer_event_t) : St world nox_err :=
  a ← app id;
  match ACTIVE_PEER a with
  | None => mret NOX_ERR_NOT_FOUND
  | Some i => sm_dispatch i ev
  end.

End StateMachine.
