(* ===== verification/StateMachineProofs.v ===== *)
(** * Theorems about the peer state machine

    The table is a function; a cleanup wipes the slot and touches no other;
    the dispatcher's recursion is bounded; every event has exactly the effect
    the table gives it; the TOFU token binds an approval to the prompt the
    user saw. *)

From S2P Require Import Prelude Primitives Types World Noise Database StateMachine.

(** ** The table *)

#[global] Instance transition_key_dec : EqDecision (peer_state_t * peer_event_t).
Proof. solve_decision. Defined.

Definition keys : list (peer_state_t * peer_event_t) :=
  (fun t => (t_from t, t_event t)) <$> transitions.

Lemma keys_nodup : NoDup keys.
Proof. apply (bool_decide_unpack _). vm_compute. exact I. Qed.

Lemma find_transition_Some s ev t :
  find_transition s ev = Some t <-> t ∈ transitions /\ t_from t = s /\ t_event t = ev.
Proof.
  unfold find_transition. rewrite fmap_Some. split.
  - intros ([j t'] & E & ->). apply list_find_Some in E as (Hl & [H1 H2] & _).
    split; [by eapply list_elem_of_lookup_2|done].
  - intros (Hin & <- & <-). destruct (list_elem_of_lookup_1 _ _ Hin) as [j Hj].
    exists (j, t). split; [|done]. apply list_find_Some. split; [done|]. split; [done|].
    intros j' t' Hj' Hlt [H1 H2]. enough (j = j') by lia.
    eapply (NoDup_lookup keys); [exact keys_nodup| |]; unfold keys; rewrite list_lookup_fmap.
    + by rewrite Hj.
    + rewrite Hj'. cbn. by rewrite H1, H2.
Qed.

Section StateMachineProofs.
Context `{HOS : OS} `{HC : Crypto}.

(** ** Code that works on one slot *)

Lemma set_peer_at_same i a :
  (i < length (as_peers a))%nat -> set_peer_at i (peer_at i a) a = a.
Proof.
  intros Hi. unfold set_peer_at, peer_at. destruct a. cbv [set_field]. cbn in *. f_equal.
  apply list_insert_id. destruct (lookup_lt_is_Some_2 _ _ Hi) as [p ->]. done.
Qed.

(** [m] replaces slot [i] by its image under [f], makes the calls [g] (the
    latest first; they may depend on the epoll and downloads descriptors and
    the slot) and leaves the rest of the world alone. *)
Definition slot_acts (i : nat) (m : St world unit) (f : peer_session -> peer_session)
    (g : Z -> Z -> peer_session -> trace) : Prop :=
  forall w, has_peer i w ->
    let a := w_app w in let p := peer_at i a in
    m w = (tt, World (set_peer_at i (f p) a) (w_db w)
                 (g (as_epoll_fd a) (as_downloads_dir_fd a) p ++ w_tr w)).

Lemma slot_acts_bind i m (k : unit -> St world unit) f g f' g' :
  slot_acts i m f g -> slot_acts i (k tt) f' g' ->
  slot_acts i (x ← m; k x) (fun p => f' (f p)) (fun e d p => g' e d (f p) ++ g e d p).
Proof.
  intros Hm Hk w Hi. rewrite bind_eq, (Hm w Hi). cbn [fst snd].
  rewrite Hk by (unfold has_peer; cbn [w_app]; by rewrite length_set_peer).
  cbn [w_app w_db w_tr]. by rewrite set_peer_at_twice, peer_at_set_eq, app_assoc.
Qed.

(** ** Cleanup *)

Definition cleaned_keys (p : peer_session) : peer_session :=
  p <| ps_hs := None |> <| ps_session := None |>
    <| ps_tx_seq := 0 |> <| ps_rx_seq := 0 |>
    <| ps_peer_onion := [] |> <| ps_connect_target := [] |>
    <| ps_tofu_pending := false |> <| ps_tofu_peer_fd := -1 |>
    <| ps_tofu_was_zero_key := false |> <| ps_peer_verified := false |>
    <| ps_last_active := 0 |> <| ps_tofu_onion := [] |>
    <| ps_tofu_name := [] |> <| ps_tofu_new_key := zeros 32 |>
    <| ps_queue_flushed := false |>.

Definition cleaned_buffers (p : peer_session) : peer_session :=
  p <| ps_recv_buf := zeros (Z.to_nat RECV_BUF_CAPACITY) |> <| ps_recv_pos := 0 |>
    <| ps_name := [] |> <| ps_unread_count := 0 |>.

(** A slot after [action_cleanup]. *)
Definition cleaned (p : peer_session) : peer_session :=
  cleaned_buffers (cleaned_keys (p <| ps_fd := if 0 <=? ps_fd p then -1 else ps_fd p |>)
    <| ps_rx_file := if rx_active (ps_rx_file p) then rx_zero <| rx_fd := -1 |> else ps_rx_file p |>
    <| ps_tx_file := if tx_active (ps_tx_file p) then tx_zero <| tx_fd := -1 |> else ps_tx_file p |>).

(** The calls [action_cleanup] makes, the latest first. *)
Definition socket_calls (epfd : Z) (p : peer_session) : trace :=
  if 0 <=? ps_fd p then [Close (ps_fd p); EpollDel epfd (ps_fd p)] else [].
Definition key_calls (p : peer_session) : trace :=
  (if ps_session p then [Wipe "noise_session"] else []) ++
  (if ps_hs p then [Wipe "noise_handshake"] else []).
Definition rx_calls (dl : Z) (r : file_rx_state) : trace :=
  if rx_active r then
    (if (0 <=? dl) && negb (bool_decide (rx_local_name r = []))
     then [Unlinkat dl (rx_local_name r)] else []) ++
    (if 0 <=? rx_fd r then [Close (rx_fd r)] else [])
  else [].
Definition tx_calls (t : file_tx_state) : trace :=
  if tx_active t then
    (if tx_plain_buf t then [Wipe "plain_buf"] else []) ++
    (if 0 <=? tx_fd t then [Close (tx_fd t)] else [])
  else [].
Definition cleanup_calls (epfd dl : Z) (p : peer_session) : trace :=
  tx_calls (ps_tx_file p) ++ rx_calls dl (ps_rx_file p) ++ key_calls p ++ socket_calls epfd p.

(** The slot is as it was when the step had nothing to do. *)
Lemma slot_unchanged i f w :
  has_peer i w -> f (peer_at i (w_app w)) = peer_at i (w_app w) ->
  w = World (set_peer_at i (f (peer_at i (w_app w))) (w_app w)) (w_db w) (w_tr w).
Proof. intros Hi ->. rewrite set_peer_at_same by done. by destruct w. Qed.

Lemma cleanup_socket_acts i :
  slot_acts i (cleanup_socket i)
    (fun p => p <| ps_fd := if 0 <=? ps_fd p then -1 else ps_fd p |>)
    (fun e _ p => socket_calls e p).
Proof.
  intros w Hi a p. unfold cleanup_socket, socket_calls. rewrite bind_eq.
  cbn [peer app gets fst snd]. fold a p. destruct (0 <=? ps_fd p) eqn:E; [done|].
  unfold skip. f_equal. apply (slot_unchanged i (fun p => p <| ps_fd := ps_fd p |>)); [done|].
  by destruct (peer_at i (w_app w)).
Qed.

Lemma cleanup_keys_acts i :
  slot_acts i (cleanup_keys i) cleaned_keys (fun _ _ p => key_calls p).
Proof.
  intros w Hi a p. unfold cleanup_keys, key_calls. rewrite bind_eq.
  cbn [peer app gets fst snd]. fold a p. by destruct (ps_hs p), (ps_session p).
Qed.

Lemma cleanup_rx_acts i :
  slot_acts i (cleanup_rx i)
    (fun p => p <| ps_rx_file := if rx_active (ps_rx_file p)
                                 then rx_zero <| rx_fd := -1 |> else ps_rx_file p |>)
    (fun _ d p => rx_calls d (ps_rx_file p)).
Proof.
  intros w Hi a p. unfold cleanup_rx, rx_calls. rewrite bind_eq.
  cbn [peer app gets fst snd]. fold a p. destruct (rx_active (ps_rx_file p)) eqn:E.
  - rewrite bind_eq. cbn [peer app gets fst snd].
    by destruct (0 <=? rx_fd (ps_rx_file p)), (_ && _).
  - unfold skip. f_equal.
    apply (slot_unchanged i (fun p => p <| ps_rx_file := ps_rx_file p |>)); [done|].
    by destruct (peer_at i (w_app w)).
Qed.

Lemma cleanup_tx_acts i :
  slot_acts i (cleanup_tx i)
    (fun p => p <| ps_tx_file := if tx_active (ps_tx_file p)
                                 then tx_zero <| tx_fd := -1 |> else ps_tx_file p |>)
    (fun _ _ p => tx_calls (ps_tx_file p)).
Proof.
  intros w Hi a p. unfold cleanup_tx, tx_calls. rewrite bind_eq.
  cbn [peer app gets fst snd]. fold a p. destruct (tx_active (ps_tx_file p)) eqn:E.
  - by destruct (0 <=? tx_fd (ps_tx_file p)), (tx_plain_buf (ps_tx_file p)).
  - unfold skip. f_equal.
    apply (slot_unchanged i (fun p => p <| ps_tx_file := ps_tx_file p |>)); [done|].
    by destruct (peer_at i (w_app w)).
Qed.

Lemma cleanup_buffers_acts i :
  slot_acts i (cleanup_buffers i) cleaned_buffers (fun _ _ _ => []).
Proof. done. Qed.

(** The whole effect of a cleanup. *)
Lemma action_cleanup_eq i w :
  has_peer i w ->
  let a := w_app w in let p := peer_at i a in
  action_cleanup i w =
    (NOX_OK, World (deactivate i (set_peer_at i (cleaned p) a)) (w_db w)
               (cleanup_calls (as_epoll_fd a) (as_downloads_dir_fd a) p ++ w_tr w)).
Proof.
  intros Hi a p.
  assert (slot_acts i
    (_ ← cleanup_socket i; _ ← cleanup_keys i; _ ← cleanup_rx i; _ ← cleanup_tx i;
     cleanup_buffers i) cleaned cleanup_calls) as E.
  { intros w' Hi'. erewrite (slot_acts_bind i (cleanup_socket i)); last exact Hi'.
    2: apply cleanup_socket_acts.
    2: eapply slot_acts_bind; [apply cleanup_keys_acts|].
    2: eapply slot_acts_bind; [apply cleanup_rx_acts|].
    2: eapply slot_acts_bind; [apply cleanup_tx_acts|apply cleanup_buffers_acts].
    unfold cleanup_calls, key_calls. cbn. by rewrite <-!app_assoc. }
  transitivity (let '(_, w') := (_ ← cleanup_socket i; _ ← cleanup_keys i; _ ← cleanup_rx i;
      _ ← cleanup_tx i; cleanup_buffers i) w in
      (NOX_OK, w' <| w_app := deactivate i (w_app w') |>)).
  { unfold action_cleanup. by rewrite !bind_eq. }
  by rewrite (E w Hi).
Qed.

(** ** Dispatch *)

(** What a transition of the table does to the world, without [fuel]: the
    specification the dispatcher is compared with. *)
Definition fires_cleanup (s : peer_state_t) (ev : peer_event_t) : bool :=
  match find_transition s ev with
  | Some t => bool_decide (t_to t = ST_IDLE)
  | None => false
  end.

(** Every transition to idle runs the cleanup, and no other does. *)
Lemma cleanup_iff_idle t :
  t ∈ transitions -> (t_to t = ST_IDLE <-> t_action t = action_cleanup_fn).
Proof.
  assert (Forall (fun t => bool_decide (t_to t = ST_IDLE) =
    match t_action t with action_cleanup_fn => true | _ => false end) transitions) as HF.
  { unfold transitions. repeat constructor. }
  intros Ht. rewrite Forall_forall in HF. specialize (HF t Ht).
  destruct (bool_decide_reflect (t_to t = ST_IDLE)), (t_action t); naive_solver.
Qed.

(** One row accepts a key. *)
Lemma accept_row t :
  t ∈ transitions ->
  (t_action t = action_tofu_accept_fn ->
   t_from t = ST_TOFU_PENDING /\ t_event t = EV_TOFU_ACCEPTED) /\
  (t_action t = action_tofu_prompt_fn -> t_to t = ST_TOFU_PENDING /\ t_event t = EV_HANDSHAKE_DONE).
Proof.
  revert t. apply Forall_forall. unfold transitions.
  repeat (apply Forall_cons_2; [done|]). apply Forall_nil_2.
Qed.

Definition retire (i : nat) (w : world) : world :=
  let a := w_app w in let p := peer_at i a in
  World (set_peer_at i (cleaned p <| ps_state := ST_IDLE |>)
           (deactivate i (set_peer_at i (cleaned p) a)))
        (w_db w) (cleanup_calls (as_epoll_fd a) (as_downloads_dir_fd a) p ++ w_tr w).

Lemma peers_deactivate i a : as_peers (deactivate i a) = as_peers a.
Proof. unfold deactivate. by case_bool_decide. Qed.

Lemma peer_at_deactivate i j a : peer_at j (deactivate i a) = peer_at j a.
Proof. unfold peer_at. by rewrite peers_deactivate. Qed.

Lemma ACTIVE_PEER_set i p a : ACTIVE_PEER (set_peer_at i p a) = ACTIVE_PEER a.
Proof. done. Qed.

Lemma ACTIVE_PEER_deactivate i a : ACTIVE_PEER (deactivate i a) <> Some i.
Proof. unfold deactivate. by case_bool_decide. Qed.

(** The token shown to the user is the one of slot [p]. *)
Definition token_matches (a : app_state) (p : peer_session) : Prop :=
  ps_tofu_epoch p = as_tofu_prompt_epoch a /\ ps_tofu_new_key p = as_tofu_prompt_fp a.

#[global] Instance token_matches_dec a p : Decision (token_matches a p).
Proof. unfold token_matches. apply _. Defined.

Lemma dispatch_cleanup fuel i ev w :
  has_peer i w -> fires_cleanup (ps_state (peer_at i (w_app w))) ev = true ->
  dispatch (S fuel) i ev w = (NOX_OK, retire i w).
Proof.
  intros Hi. unfold fires_cleanup. destruct (find_transition _ ev) as [t|] eqn:Et; [|done].
  intros Hto%bool_decide_eq_true. apply find_transition_Some in Et as Hin.
  pose proof (proj1 (cleanup_iff_idle t (proj1 Hin)) Hto) as Ha.
  cbn [dispatch]. rewrite bind_eq. cbn [peer app gets fst snd]. rewrite Et, bind_eq, Ha.
  cbn [run_action]. rewrite action_cleanup_eq by done. rewrite Hto.
  cbn [fst snd err_ok]. unfold retire. rewrite bind_eq. cbn.
  rewrite peer_at_deactivate, peer_at_set_eq by done. done.
Qed.

(** Only the cleanup follows a disconnect, so one level of recursion is the
    deepest the table reaches. *)
Lemma disconnect_fuel n i w :
  dispatch (S n) i EV_PEER_DISCONNECTED w = dispatch 1 i EV_PEER_DISCONNECTED w.
Proof.
  cbn [dispatch]. rewrite !bind_eq. cbn [peer app gets fst snd].
  by destruct (ps_state (peer_at i (w_app w))).
Qed.

(** Equal behaviour of [disconnect] gives equal behaviour of the action. *)
Lemma tofu_accept_proper d1 d2 i w :
  (forall w, d1 w = d2 w) -> action_tofu_accept d1 i w = action_tofu_accept d2 i w.
Proof.
  intros Hd. unfold action_tofu_accept.
  rewrite !(bind_eq (peer i)). cbn [peer app gets fst snd].
  rewrite !(bind_eq (app id)). cbn [app gets fst snd].
  case_match; [reflexivity|]. case_match; [|reflexivity].
  rewrite !bind_eq. destruct (alloc _ _) as [[] w1]; cbn [negb fst snd].
  - rewrite !bind_eq. destruct (lift_tr _ _) as [[[e h] [ssn|]] w2]; cbn [fst snd].
    + reflexivity.
    + rewrite !bind_eq. cbn [fst snd]. rewrite Hd. reflexivity.
  - rewrite !bind_eq. cbn [fst snd]. rewrite Hd. reflexivity.
Qed.

Lemma dispatch_fuel n i ev w : dispatch (S (S n)) i ev w = sm_dispatch i ev w.
Proof.
  unfold sm_dispatch. cbn [dispatch]. rewrite !(bind_eq (peer i)). cbn [peer app gets fst snd].
  destruct (find_transition _ ev) as [t|]; [|done]. rewrite !bind_eq.
  assert (forall w, run_action (dispatch (S n) i EV_PEER_DISCONNECTED) i (t_action t) w =
                    run_action (dispatch 1 i EV_PEER_DISCONNECTED) i (t_action t) w) as E.
  { intros w'. destruct (t_action t); try reflexivity. apply tofu_accept_proper, disconnect_fuel. }
  change (dispatch 1 i EV_PEER_DISCONNECTED) with
    (fun w => dispatch 1 i EV_PEER_DISCONNECTED w) in E. cbn [dispatch] in E.
  by rewrite E.
Qed.

(** ** Trust on first use *)

Lemma db_add_contact_keeps onion name key : keeps w_app (db_add_contact onion name key).
Proof. unfold db_add_contact, encrypt_payload, sql_ok, bind_all. keep_code. Qed.

Lemma token_test a p :
  (negb (ps_tofu_epoch p =? as_tofu_prompt_epoch a)
    || negb (bytes_eqb (ps_tofu_new_key p) (as_tofu_prompt_fp a))) = false <->
  token_matches a p.
Proof.
  unfold token_matches. rewrite orb_false_iff, !negb_false_iff, Z.eqb_eq, bytes_eqb_eq. done.
Qed.

(** A slot that was approved. *)
Definition approved (p p' : peer_session) : Prop :=
  is_Some (ps_session p') /\ ps_hs p' = None /\ ps_tofu_pending p' = false /\
  ps_tx_seq p' = 0 /\ ps_rx_seq p' = 0 /\ ps_peer_verified p' = false /\
  ps_peer_onion p' = take 62 (ps_tofu_onion p) /\ ps_fd p' = ps_fd p.

(** Slots other than [i] are the same in [w] and [w']. *)
Definition others_same (i : nat) (w w' : world) : Prop :=
  length (as_peers (w_app w')) = length (as_peers (w_app w)) /\
  forall j, j <> i -> peer_at j (w_app w') = peer_at j (w_app w).

Lemma tofu_accept_ok disc i w w' :
  has_peer i w -> action_tofu_accept disc i w = (NOX_OK, w') ->
  let p := peer_at i (w_app w) in
  token_matches (w_app w) p /\ is_Some (ps_hs p) /\
  approved p (peer_at i (w_app w')) /\ others_same i w w'.
Proof.
  intros Hi. unfold action_tofu_accept.
  rewrite (bind_eq (peer i)), (bind_eq (app id)). cbn [peer app gets fst snd]. unfold id.
  set (p := peer_at i (w_app w)). destruct (negb _ || _) eqn:Et; [done|].
  destruct (ps_hs p) as [hs|] eqn:Eh; [|done]. rewrite bind_eq.
  set (m := if negb _ then _ else _).
  assert (keeps w_app m) as Hm by (subst m; keep_code; apply db_add_contact_keeps).
  specialize (Hm w). destruct (m w) as [u w1]. cbn [fst snd] in *. clear m.
  rewrite bind_eq. pose proof (keeps_alloc w_app SIZEOF_noise_session w1) as Ha.
  destruct (alloc _ w1) as [[] w2]; cbn [negb fst snd] in *; [|by rewrite !bind_eq].
  rewrite bind_eq. pose proof (keeps_lift w_app (handshake_split hs) w2) as Hs.
  destruct (lift_tr _ w2) as [[[e h] [ssn|]] w3]; cbn [fst snd] in *; [|by rewrite !bind_eq].
  assert (w_app w3 = w_app w) as E3 by congruence. clear Hm Ha Hs.
  rewrite !bind_eq. cbn -[take]. rewrite E3. intros [= <-]. cbn -[take].
  rewrite !set_peer_at_twice, !peer_at_set_eq by (rewrite ?length_set_peer; done).
  split_and!; [by apply token_test|done|..].
  - norm_peers. by unfold approved.
  - split; [by norm_peers|]. intros j Hj. by norm_peers.
Qed.

#[global] Instance others_same_refl i : Reflexive (others_same i).
Proof. done. Qed.
#[global] Instance others_same_trans i : Transitive (others_same i).
Proof.
  intros x y z [Hl1 H1] [Hl2 H2]. split; [congruence|]. intros j Hj. by rewrite H2, H1.
Qed.

Lemma others_same_retire i w : others_same i w (retire i w).
Proof.
  unfold retire. split; cbn [w_app].
  - by rewrite length_set_peer, peers_deactivate, length_set_peer.
  - intros j Hj. by rewrite peer_at_set_ne, peer_at_deactivate, peer_at_set_ne.
Qed.

Lemma peer_at_retire i w :
  has_peer i w ->
  peer_at i (w_app (retire i w)) = cleaned (peer_at i (w_app w)) <| ps_state := ST_IDLE |>.
Proof.
  intros Hi. unfold retire. cbn [w_app]. apply peer_at_set_eq.
  by rewrite peers_deactivate, length_set_peer.
Qed.

(** A failed approval either left the state machine's data alone or tore the
    slot down. *)
Lemma tofu_accept_err i w e w' :
  has_peer i w -> ps_state (peer_at i (w_app w)) = ST_TOFU_PENDING ->
  action_tofu_accept (dispatch 1 i EV_PEER_DISCONNECTED) i w = (e, w') -> e <> NOX_OK ->
  w_app w' = w_app w \/
  exists w1, others_same i w w1 /\ has_peer i w1 /\ w' = retire i w1.
Proof.
  intros Hi Hst. unfold action_tofu_accept.
  rewrite (bind_eq (peer i)), (bind_eq (app id)). cbn [peer app gets fst snd]. unfold id.
  set (p := peer_at i (w_app w)) in *.
  destruct (negb _ || _) eqn:Et. { intros [= <- <-]. by left. }
  destruct (ps_hs p) as [hs|] eqn:Eh. 2: { intros [= <- <-]. by left. }
  rewrite bind_eq. set (m := if negb _ then _ else _).
  assert (keeps w_app m) as Hm by (subst m; keep_code; apply db_add_contact_keeps).
  specialize (Hm w). destruct (m w) as [u w1]. cbn [fst snd] in *. clear m.
  rewrite bind_eq. pose proof (keeps_alloc w_app SIZEOF_noise_session w1) as Ha.
  destruct (alloc _ w1) as [[] w2]; cbn [negb fst snd] in *.
  - rewrite bind_eq. pose proof (keeps_lift w_app (handshake_split hs) w2) as Hs.
    destruct (lift_tr _ w2) as [[[e0 h] [ssn|]] w3]; cbn [fst snd] in *.
    + rewrite !bind_eq. by intros [= <-].
    + assert (w_app w3 = w_app w) as E3 by congruence.
      rewrite !bind_eq. cbn -[dispatch]. rewrite E3, dispatch_cleanup.
      2: { unfold has_peer. by norm_peers. } 2: { norm_peers. fold p. cbn. by rewrite Hst. }
      intros [= <- <-] _. right. eexists. split_and!; [..|done].
      * split; [by norm_peers|]. intros j Hj. by norm_peers.
      * unfold has_peer. by norm_peers.
  - assert (w_app w2 = w_app w) as E2 by congruence.
    rewrite !bind_eq. cbn -[dispatch]. rewrite E2, dispatch_cleanup.
    2: { unfold has_peer. by norm_peers. } 2: { norm_peers. fold p. cbn. by rewrite Hst. }
    intros [= <- <-] _. right. eexists. split_and!; [..|done].
    + split; [by norm_peers|]. intros j Hj. by norm_peers.
    + unfold has_peer. by norm_peers.
Qed.

(** ** The epochs of the prompts *)

(** What the TOFU token consists of. *)
Definition epochs (w : world) : Z * Z * bytes * list Z :=
  let a := w_app w in
  (as_tofu_epoch a, as_tofu_prompt_epoch a, as_tofu_prompt_fp a, ps_tofu_epoch <$> as_peers a).

#[global] Instance no_trace_epochs : NoTrace epochs.
Proof. done. Qed.

Lemma insert_peer_at {A} (f : peer_session -> A) i p a :
  f p = f (peer_at i a) -> f <$> <[i := p]> (as_peers a) = f <$> as_peers a.
Proof.
  intros E. rewrite list_fmap_insert, E. apply list_eq. intros j.
  destruct (decide (i = j)) as [<-|Hj]; [|by rewrite list_lookup_insert_ne].
  destruct (decide (i < length (as_peers a))%nat) as [Hi|Hi].
  - rewrite list_lookup_insert_eq, list_lookup_fmap by (by rewrite length_fmap).
    unfold peer_at. by destruct (lookup_lt_is_Some_2 _ _ Hi) as [q ->].
  - by rewrite list_insert_ge by (rewrite length_fmap; lia).
Qed.

Lemma keeps_epochs_upd_peer i f :
  (forall p, ps_tofu_epoch (f p) = ps_tofu_epoch p) -> keeps epochs (upd_peer i f).
Proof. intros Hf w. unfold epochs. cbn. f_equal. by apply insert_peer_at. Qed.

Ltac keep_epochs :=
  keep_code; try (apply keeps_epochs_upd_peer; done); try done.

Lemma action_cleanup_epochs i : keeps epochs (action_cleanup i).
Proof.
  unfold action_cleanup, cleanup_socket, cleanup_keys, cleanup_rx, cleanup_tx,
    cleanup_buffers, peer, app. keep_epochs.
  intros w. cbn. unfold deactivate. by case_bool_decide.
Qed.

Lemma disconnect_action s t :
  find_transition s EV_PEER_DISCONNECTED = Some t -> t_action t = action_cleanup_fn.
Proof.
  intros (Hin & _ & He)%find_transition_Some. apply cleanup_iff_idle; [done|].
  revert He. assert (Forall (fun t => t_event t = EV_PEER_DISCONNECTED -> t_to t = ST_IDLE)
    transitions) as HF.
  { unfold transitions. repeat (apply Forall_cons_2; [done|]). apply Forall_nil_2. }
  rewrite Forall_forall in HF. exact (HF t Hin).
Qed.

Lemma disconnect_epochs n i : keeps epochs (dispatch n i EV_PEER_DISCONNECTED).
Proof.
  destruct n; [done|]. cbn [dispatch]. unfold peer, app.
  apply keeps_bind; [done|]. intros p. destruct (find_transition _ _) as [t|] eqn:Et; [|done].
  rewrite (disconnect_action _ _ Et).
  apply keeps_bind; [apply action_cleanup_epochs|]. intros e. keep_epochs.
Qed.

Lemma tofu_accept_epochs disc i :
  keeps epochs disc -> keeps epochs (action_tofu_accept disc i).
Proof.
  intros Hd. unfold action_tofu_accept, peer, app. keep_epochs.
  all: try exact Hd.
Qed.

(** Only the prompt moves the epochs. *)
Lemma dispatch_epochs i ev w :
  (forall t, find_transition (ps_state (peer_at i (w_app w))) ev = Some t ->
     t_action t <> action_tofu_prompt_fn) ->
  epochs (sm_dispatch i ev w).2 = epochs w.
Proof.
  intros Hp. unfold sm_dispatch. change (dispatch 2) with (dispatch (S 1)). cbn [dispatch].
  rewrite (bind_eq (peer i)). cbn [peer app gets fst snd].
  destruct (find_transition _ ev) as [t|] eqn:Et; [|done]. specialize (Hp t eq_refl).
  apply keeps_bind.
  - destruct (t_action t); try done; [apply action_cleanup_epochs|].
    apply tofu_accept_epochs, (disconnect_epochs 1).
  - intros e. keep_epochs.
Qed.

Lemma dispatch_none i ev w :
  find_transition (ps_state (peer_at i (w_app w))) ev = None ->
  sm_dispatch i ev w = (NOX_ERR_STATE, w).
Proof.
  intros E. unfold sm_dispatch. cbn [dispatch].
  rewrite (bind_eq (peer i)). cbn [peer app gets fst snd]. by rewrite E.
Qed.

Lemma dispatch_some i ev w t :
  find_transition (ps_state (peer_at i (w_app w))) ev = Some t ->
  sm_dispatch i ev w =
  (err ← run_action (dispatch 1 i EV_PEER_DISCONNECTED) i (t_action t);
   _ ← (if err_ok err then upd_peer i (fun p => p <| ps_state := t_to t |>) else skip);
   mret err) w.
Proof.
  intros E. unfold sm_dispatch. change (dispatch 2) with (dispatch (S 1)). cbn [dispatch].
  rewrite (bind_eq (peer i)). cbn [peer app gets fst snd]. by rewrite E.
Qed.

(** The events of a file transfer only move the state. *)
Lemma dispatch_file_event i ev w :
  ev = EV_FILE_DONE \/ ev = EV_FILE_RX_START ->
  sm_dispatch i ev w =
  match find_transition (ps_state (peer_at i (w_app w))) ev with
  | Some t => (NOX_OK, (upd_peer i (fun p => p <| ps_state := t_to t |>) w).2)
  | None => (NOX_ERR_STATE, w)
  end.
Proof.
  intros Hev. destruct (find_transition _ ev) as [t|] eqn:Et; [|by apply dispatch_none].
  rewrite (dispatch_some i ev w t Et). apply find_transition_Some in Et as (Hin & _ & He).
  assert (t_action t ∈ [action_file_end_fn; action_file_begin_rx_fn]) as Ha.
  { revert t Hin He. apply (Forall_forall (fun t => t_event t = ev -> _)). unfold transitions.
    destruct Hev as [->| ->]; repeat (apply Forall_cons_2; [done || (intros _; cbn; set_solver)|]);
      apply Forall_nil_2. }
  rewrite !elem_of_cons in Ha. destruct Ha as [->|[->|[]%elem_of_nil]]; done.
Qed.

(** Whatever the action, the slot survives and the others are untouched. *)
Lemma run_action_others i f w e w' :
  has_peer i w ->
  (f = action_tofu_accept_fn -> ps_state (peer_at i (w_app w)) = ST_TOFU_PENDING) ->
  run_action (dispatch 1 i EV_PEER_DISCONNECTED) i f w = (e, w') ->
  others_same i w w' /\ (e = NOX_OK \/ f = action_tofu_accept_fn).
Proof.
  intros Hi Hf Hr. destruct f; cbn [run_action] in Hr.
  2,3,4,7,8,9,10: injection Hr as <- <-; (split; [done|by left]).
  - rewrite action_cleanup_eq in Hr by done. injection Hr as <- <-.
    split; [|by left]. split; cbn [w_app].
    + by rewrite peers_deactivate, length_set_peer.
    + intros j Hj. by rewrite peer_at_deactivate, peer_at_set_ne.
  - unfold action_tofu_prompt in Hr. rewrite !bind_eq in Hr. cbn in Hr. injection Hr as <- <-.
    split; [|by left]. split; cbn [w_app]; [|intros j Hj];
      (case_match; norm_peers; done).
  - split; [|by right]. destruct (decide (e = NOX_OK)) as [->|He].
    + by apply tofu_accept_ok in Hr as (_ & _ & _ & Ho); [|done].
    + destruct (tofu_accept_err i w e w') as [E|(w1 & Ho & Hi1 & ->)]; [by auto..| |].
      * unfold others_same. by rewrite E.
      * etrans; [exact Ho|apply others_same_retire].
Qed.

(** The dispatcher does what the transition table says.  An event the table
    does not list for the slot's state is refused with NOX_ERR_STATE and
    changes nothing at all; an accepted event puts the slot in the state of
    the table's row; only the approval of a new key can fail, and then the
    slot still waits for the decision or is idle.  No event of one slot
    changes another slot. *)
Theorem dispatch_follows_table i ev w :
  has_peer i w ->
  let s := ps_state (peer_at i (w_app w)) in
  let '(err, w') := sm_dispatch i ev w in
  let s' := ps_state (peer_at i (w_app w')) in
  others_same i w w' /\
  match find_transition s ev with
  | None => err = NOX_ERR_STATE /\ w' = w
  | Some t =>
      (err = NOX_OK /\ s' = t_to t) \/
      (err <> NOX_OK /\ ev = EV_TOFU_ACCEPTED /\ (s' = ST_TOFU_PENDING \/ s' = ST_IDLE))
  end.
Proof.
  intros Hi s. destruct (find_transition s ev) as [t|] eqn:Et.
  2: { rewrite dispatch_none by done. done. }
  rewrite (dispatch_some i ev w t Et), bind_eq.
  apply find_transition_Some in Et as (Hin & Hs & He).
  pose proof (accept_row t Hin) as Hrow.
  destruct (run_action _ i (t_action t) w) as [e w1] eqn:Er. cbn [fst snd].
  destruct (run_action_others i (t_action t) w e w1) as [Ho Hok]; [done| |done|].
  { intros Ha. rewrite <-(proj1 (proj1 Hrow Ha)). done. }
  assert (has_peer i w1) as Hi1 by (unfold has_peer; rewrite (proj1 Ho); done).
  destruct (decide (e = NOX_OK)) as [->|Hne].
  - rewrite bind_eq. cbn. split.
    + etrans; [exact Ho|]. split; [by norm_peers|]. intros j Hj. by norm_peers.
    + left. by norm_peers.
  - destruct Hok as [?|Ha]; [done|]. rewrite (err_ok_false e Hne).
    rewrite bind_eq. cbn [fst snd skip mret St_ret]. split; [done|right].
    destruct (proj1 Hrow Ha) as [Hf Hev]. split_and!; [done|congruence|].
    rewrite Ha in Er. cbn [run_action] in Er.
    destruct (tofu_accept_err i w e w1) as [->|(w2 & Ho2 & Hi2 & ->)];
      [done|fold s; congruence|done|done| |].
    + left. fold s. congruence.
    + right. by rewrite peer_at_retire.
Qed.

(** Nothing of the previous connection is left in the slot. *)
Definition slot_clean (p : peer_session) : Prop :=
  ps_state p = ST_IDLE /\ ps_fd p < 0 /\ ps_hs p = None /\ ps_session p = None /\
  ps_tx_seq p = 0 /\ ps_rx_seq p = 0 /\ ps_peer_onion p = [] /\ ps_name p = [] /\
  ps_tofu_pending p = false /\ ps_tofu_new_key p = zeros 32 /\ ps_peer_verified p = false /\
  ps_recv_pos p = 0 /\ is_zero (ps_recv_buf p) = true /\
  rx_active (ps_rx_file p) = false /\ tx_active (ps_tx_file p) = false.

Lemma cleaned_slot_clean p : slot_clean (cleaned p <| ps_state := ST_IDLE |>).
Proof.
  unfold slot_clean. cbn -[zeros is_zero].
  split_and!; try apply is_zero_zeros; try done; case_match; try done. lia.
Qed.

(** The descriptors a slot owns, and those a list of calls closes. *)
Definition owned_fds (p : peer_session) : list Z :=
  (if 0 <=? ps_fd p then [ps_fd p] else []) ++
  (if rx_active (ps_rx_file p) && (0 <=? rx_fd (ps_rx_file p)) then [rx_fd (ps_rx_file p)] else []) ++
  (if tx_active (ps_tx_file p) && (0 <=? tx_fd (ps_tx_file p)) then [tx_fd (ps_tx_file p)] else []).
Definition closed_fds (tr : trace) : list Z :=
  omap (fun c => match c with Close fd => Some fd | _ => None end) (reverse tr).

Lemma closed_cleanup_calls e d p : closed_fds (cleanup_calls e d p) = owned_fds p.
Proof.
  unfold closed_fds, cleanup_calls, owned_fds, tx_calls, rx_calls, key_calls, socket_calls.
  rewrite !reverse_app, !omap_app, <-!app_assoc.
  f_equal; [by destruct (0 <=? ps_fd p)|].
  destruct (ps_session p), (ps_hs p), (rx_active (ps_rx_file p)), (tx_active (ps_tx_file p)),
    (tx_plain_buf (ps_tx_file p)); cbn; repeat case_match; done.
Qed.


(** The dispatcher's recursion is bounded: giving it more fuel than the two
    levels of [sm_dispatch] never changes its result, so the model's bound
    cuts nothing off. *)
Theorem dispatch_terminates n i ev w : dispatch (2 + n) i ev w = sm_dispatch i ev w.
Proof. apply dispatch_fuel. Qed.

(** C6 An approval takes effect only for the connection whose prompt the user
    saw: it succeeds only if the slot's epoch and key are those of the prompt
    and its handshake is still there, and then the slot is active with a fresh
    session.  With any other token it is refused with NOX_ERR_PROTO and only
    an error line is printed. *)
Theorem tofu_approval_bound_to_prompt i w :
  has_peer i w -> ps_state (peer_at i (w_app w)) = ST_TOFU_PENDING ->
  let p := peer_at i (w_app w) in
  let '(err, w') := sm_dispatch i EV_TOFU_ACCEPTED w in
  let p' := peer_at i (w_app w') in
  (err = NOX_OK -> token_matches (w_app w) p /\ is_Some (ps_hs p) /\
                   ps_state p' = ST_ACTIVE /\ approved p p') /\
  (~ token_matches (w_app w) p ->
   err = NOX_ERR_PROTO /\ w' = w <| w_tr := Ui UiError "TOFU token mismatch" :: w_tr w |>).
Proof.
  intros Hi Hst p. rewrite (dispatch_some i _ w (Transition ST_TOFU_PENDING EV_TOFU_ACCEPTED
    ST_ACTIVE action_tofu_accept_fn)) by (by rewrite Hst). cbn [t_action t_to run_action].
  rewrite bind_eq. destruct (action_tofu_accept _ i w) as [e w1] eqn:Ea. cbn [fst snd].
  destruct (decide (token_matches (w_app w) p)) as [Ht|Ht].
  - destruct (decide (e = NOX_OK)) as [->|He]; [|by rewrite (err_ok_false e He), bind_eq].
    apply tofu_accept_ok in Ea as (_ & Hh & Hap & Hl & Ho); [|done].
    rewrite bind_eq. cbn. split; [|done]. intros _.
    norm_peers. rewrite peer_at_set_eq by (by rewrite Hl). done.
  - unfold action_tofu_accept in Ea.
    rewrite (bind_eq (peer i)), (bind_eq (app id)) in Ea. cbn [peer app gets fst snd] in Ea.
    unfold id in Ea. fold p in Ea. rewrite (not_false_is_true _) in Ea
      by (by rewrite token_test). injection Ea as <- <-. done.
Qed.

End StateMachineProofs.

(** ** Witnesses *)

Section Witnesses.
#[local] Existing Instance kind_os.
#[local] Existing Instance toy_crypto.

(** A connected peer whose key waits for the user's decision. *)
Definition pending_peer : peer_session :=
  idle_peer <| ps_fd := 9 |> <| ps_state := ST_TOFU_PENDING |> <| ps_tofu_epoch := 1 |>.

Lemma dispatch_follows_table_witness :
  has_peer 0 (boot_with idle_peer) /\
  others_same 0 (boot_with idle_peer) (sm_dispatch 0 EV_CONNECT_CMD (boot_with idle_peer)).2.
Proof.
  split; [apply boot_has_peer|].
  pose proof (dispatch_follows_table 0 EV_CONNECT_CMD (boot_with idle_peer)
    (boot_has_peer _)) as H. cbv zeta in H.
  destruct (sm_dispatch 0 EV_CONNECT_CMD (boot_with idle_peer)). exact (proj1 H).
Defined.


Lemma tofu_approval_bound_to_prompt_witness :
  ps_state (peer_at 0 (w_app (boot_with pending_peer))) = ST_TOFU_PENDING /\
  (sm_dispatch 0 EV_TOFU_ACCEPTED (boot_with pending_peer)).1 = NOX_ERR_PROTO.
Proof.
  split; [reflexivity|].
  pose proof (tofu_approval_bound_to_prompt 0 (boot_with pending_peer) (boot_has_peer _)
    eq_refl) as H. cbv zeta in H.
  destruct (sm_dispatch 0 EV_TOFU_ACCEPTED (boot_with pending_peer)).
  apply (proj2 H). intros [He _]. vm_compute in He. discriminate.
Defined.

End Witnesses.
