(* ===== verification/FileTransfer.v ===== *)
(** * File transfer: src/file_transfer.c

    Names, sending and receiving.  [hash_state] of a transfer is the byte
    string hashed so far; libsodium's streaming hash functions do not fail on
    a state they initialised, so the branches for that are not reachable and
    not modelled.  A loop that repeats a system call has fuel for one attempt
    per byte and [IO_RETRIES] interrupted ones; running out counts as an I/O
    error. *)

From S2P Require Import Prelude Primitives Types World Noise Network Database StateMachine.

Definition NOX_MAX_FILE_SIZE : Z := 100 * 1024 * 1024 * 1024.
Definition NOX_PATH_MAX : Z := 512.
Definition EINTR : Z := 4.
Definition EAGAIN : Z := 11.
Definition EEXIST : Z := 17.
Definition S_IFMT : Z := 0xF000.
Definition S_IFLNK : Z := 0xA000.
Definition S_IFREG : Z := 0x8000.
Definition S_IFDIR : Z := 0x4000.

(** ** File names *)

Definition DOT : byte := Byte.x2e.
Definition UNDERSCORE : byte := Byte.x5f.

(** What follows the last slash, when there is one. *)
Fixpoint after_last_slash (name : bytes) : option bytes :=
  match name with
  | [] => None
  | c :: name' =>
      match after_last_slash name' with
      | Some b => Some b
      | None => if Byte.eqb c SLASH then Some name' else None
      end
  end.

Definition allowed_char (c : byte) : bool :=
  let z := byte.unsigned c in
  ((97 <=? z) && (z <=? 122)) || ((65 <=? z) && (z <=? 90)) || ((48 <=? z) && (z <=? 57))
    || Byte.eqb c DOT || Byte.eqb c UNDERSCORE || Byte.eqb c Byte.x2d.

(** Step 3, one pass from the left: a pair of dots becomes two underscores. *)
Fixpoint kill_dots (name : bytes) : bytes :=
  match name with
  | [] => []
  | a :: tl =>
      match tl with
      | [] => [a]
      | b :: rest =>
          if Byte.eqb a DOT && Byte.eqb b DOT
          then UNDERSCORE :: UNDERSCORE :: kill_dots rest
          else a :: kill_dots tl
      end
  end.

(** Step 4. *)
Definition kill_leading_dot (name : bytes) : bytes :=
  match name with
  | c :: name' => (if Byte.eqb c DOT then UNDERSCORE else c) :: name'
  | [] => []
  end.

(** Steps 1 to 4, on a name with room for [max_len - 1] characters. *)
Definition sanitize_core (name : bytes) (max_len : Z) : bytes :=
  let base := default name (after_last_slash name) in
  let cut := take (Z.to_nat (max_len - 1)) base in
  kill_leading_dot (kill_dots ((fun c => if allowed_char c then c else UNDERSCORE) <$> cut)).

(** [%08x]. *)
Definition hex_digit (d : Z) : byte := byte.of_Z (if d <? 10 then 48 + d else 87 + d).
Definition hex32 (x : Z) : bytes :=
  (fun i => hex_digit (Z.land (Z.shiftr x (4 * i)) 15)) <$> [7; 6; 5; 4; 3; 2; 1; 0].

(** [randombytes_random()]: four random bytes as a uint32_t. *)
Definition le32 (b : bytes) : Z :=
  foldr (fun c acc => byte.unsigned c + 256 * acc) 0 (take 4 b).

(** A uint64_t, most significant byte first. *)
Definition put_be64 (x : Z) : bytes :=
  (fun k => byte.of_Z (u8 (Z.shiftr x k))) <$> [56; 48; 40; 32; 24; 16; 8; 0].
Definition get_be64 (b : bytes) (i : nat) : Z :=
  let at' j := byte.unsigned (nth (i + j) b NUL) in
  foldl (fun acc jk => Z.lor acc (Z.shiftl (at' jk.1) jk.2)) 0
    [(0%nat, 56); (1%nat, 48); (2%nat, 40); (3%nat, 32);
     (4%nat, 24); (5%nat, 16); (6%nat, 8); (7%nat, 0)].

Definition META_TAG : bytes := lit "METADATA" ++ [NUL].

(** [basename(path)] of a path without a trailing slash. *)
Definition basename (path : bytes) : bytes := default path (after_last_slash path).

Section FileTransfer.
Context `{OS} `{Crypto}.

Definition random32 : St world Z := r ← call (RandomBytes 4); mret (le32 (sr_data r)).

Definition sanitize_filename (name : bytes) (max_len : Z) : St world bytes :=
  if max_len =? 0 then mret name
  else
    let name := sanitize_core name max_len in
    if bool_decide (name = []) then
      rnd ← random32;
      mret (take (Z.to_nat (max_len - 1)) (lit "file_" ++ hex32 rnd))
    else mret name.

Definition is_mode (mode fmt : Z) : bool := Z.land mode S_IFMT =? fmt.

Definition verify_downloads_dir_fd (dir_fd : Z) : St world nox_err :=
  r ← call (Fstat dir_fd);
  if negb (sr_ret r =? 0) then mret NOX_ERR_IO
  else
    mode ← call (StatField dir_fd St_mode);
    if is_mode (sr_ret mode) S_IFLNK then mret NOX_ERR_CONFIG
    else if negb (is_mode (sr_ret mode) S_IFDIR) then mret NOX_ERR_CONFIG
    else
      owner ← call (StatField dir_fd St_uid);
      me ← call Getuid;
      if negb (sr_ret owner =? sr_ret me) then mret NOX_ERR_CONFIG
      else if negb (Z.land (sr_ret mode) 0x1FF =? 0x1C0) then mret NOX_ERR_CONFIG
      else mret NOX_OK.

(** ** Writing a received chunk *)

Fixpoint write_to_file (fuel : nat) (fd : Z) (data : bytes) : St world nox_err :=
  match data with
  | [] => mret NOX_OK
  | _ =>
      match fuel with
      | O => mret NOX_ERR_IO
      | S fuel =>
          r ← call (Write fd data);
          if sr_ret r <? 0 then
            if sr_errno r =? EINTR then write_to_file fuel fd data else mret NOX_ERR_IO
          else if sr_ret r =? 0 then mret NOX_ERR_IO
          else write_to_file fuel fd (drop (Z.to_nat (sr_ret r)) data)
      end
  end.

(** The descriptor of the new file; its name is recorded in the slot. *)
Definition open_recv_file (i : nat) (safe_name : bytes) : St world (nox_err * Z) :=
  if bool_decide (SLASH ∈ safe_name) || bool_decide (Byte.x5c ∈ safe_name)
  then mret (NOX_ERR_CONFIG, -1)
  else
    dl ← app as_downloads_dir_fd;
    if dl <? 0 then mret (NOX_ERR_CONFIG, -1)
    else
      verr ← verify_downloads_dir_fd dl;
      if negb (err_ok verr) then mret (NOX_ERR_CONFIG, -1)
      else
        let local_name := lit "received_" ++ safe_name in
        if 300 <=? len local_name then mret (NOX_ERR_CONFIG, -1)
        else
          r ← call (Openat dl local_name 0);
          if 0 <=? sr_ret r then
            _ ← upd_peer i (fun p => p <| ps_rx_file := ps_rx_file p <| rx_local_name := local_name |> |>);
            mret (NOX_OK, sr_ret r)
          else if negb (sr_errno r =? EEXIST) then mret (NOX_ERR_IO, -1)
          else
            rnd ← random32;
            let local_name := lit "received_" ++ safe_name ++ [DOT] ++ hex32 rnd in
            if 300 <=? len local_name then mret (NOX_ERR_CONFIG, -1)
            else
              r ← call (Openat dl local_name 0);
              if sr_ret r <? 0 then mret (NOX_ERR_IO, -1)
              else
                _ ← upd_peer i (fun p => p <| ps_rx_file := ps_rx_file p <| rx_local_name := local_name |> |>);
                mret (NOX_OK, sr_ret r).

(** ** Receiving *)

Definition rx_reset (i : nat) : St world unit :=
  upd_peer i (fun p => p <| ps_rx_file := rx_zero <| rx_fd := -1 |> |>).

Definition rx_abort (i : nat) : St world bool :=
  ps ← peer i;
  dl ← app as_downloads_dir_fd;
  let rx := ps_rx_file ps in
  _ ← (if 0 <=? rx_fd rx then
         _ ← call_ (Close (rx_fd rx));
         upd_peer i (fun p => p <| ps_rx_file := ps_rx_file p <| rx_fd := -1 |> |>)
       else skip);
  _ ← (if (0 <=? dl) && negb (bool_decide (rx_local_name rx = []))
       then call_ (Unlinkat dl (rx_local_name rx)) else skip);
  _ ← ui UiError "transfer aborted";
  _ ← rx_reset i;
  _ ← sm_dispatch i EV_FILE_DONE;
  mret true.

(** A METADATA payload outside a transfer. *)
Definition rx_metadata (i : nat) (pt : bytes) : St world bool :=
  safe_name ← sanitize_filename (cstr (take 255 (drop 9 pt))) 256;
  let net_size := get_be64 pt 265 in
  if (net_size =? 0) || (NOX_MAX_FILE_SIZE <? net_size) then
    _ ← ui UiError "incoming file refused: size"; mret true
  else
    dl ← app as_downloads_dir_fd;
    r ← call (Fstatvfs dl);
    if negb (sr_ret r =? 0) then _ ← ui UiError "disk space unknown"; mret true
    else
      bavail ← call (StatField dl F_bavail);
      frsize ← call (StatField dl F_frsize);
      let avail := u64 (sr_ret bavail * sr_ret frsize) in
      let required := u64 (net_size + net_size / 10) in
      if avail <? required then _ ← ui UiError "not enough disk space"; mret true
      else
        let file_hash := take 32 (drop 273 pt) in
        if is_zero file_hash then _ ← ui UiError "METADATA refused"; mret true
        else
          _ ← upd_peer i (fun p => p <| ps_rx_file := rx_zero |>);
          '(err, fd) ← open_recv_file i safe_name;
          if err_ok err && (0 <=? fd) then
            now ← now_monotonic;
            _ ← upd_peer i (fun p => p <| ps_rx_file := ps_rx_file p
                    <| rx_active := true |> <| rx_fd := fd |>
                    <| rx_expected_size := net_size |> <| rx_received_bytes := 0 |>
                    <| rx_last_chunk_ts := now |> <| rx_expected_hash := file_hash |>
                    <| rx_filename := take 255 safe_name |> |>);
            _ ← sm_dispatch i EV_FILE_RX_START;
            _ ← upd_peer i (fun p => p <| ps_rx_file := ps_rx_file p
                    <| rx_hash_state := put_be64 net_size |> |>);
            _ ← ui UiSystem "incoming file"; mret true
          else
            _ ← ui UiError "file not created"; mret true.

(** The last byte has arrived: verify and finish. *)
Definition rx_finish (i : nat) : St world bool :=
  ps ← peer i;
  dl ← app as_downloads_dir_fd;
  let rx := ps_rx_file ps in
  let final_hash := blake2b 32 (rx_hash_state rx) in
  _ ← (if 0 <=? rx_fd rx then
         _ ← call_ (Fsync (rx_fd rx));
         _ ← call_ (Close (rx_fd rx));
         upd_peer i (fun p => p <| ps_rx_file := ps_rx_file p <| rx_fd := -1 |> |>)
       else skip);
  _ ← (if bytes_eqb final_hash (rx_expected_hash rx) then
         _ ← (if 0 <=? dl then call_ (Fsync dl) else skip);
         ui UiSystem "file received"
       else
         _ ← call_ (Unlinkat dl (rx_local_name rx));
         ui UiError "hash mismatch");
  _ ← rx_reset i;
  _ ← sm_dispatch i EV_FILE_DONE;
  mret true.

(** A data payload inside a transfer. *)
Definition rx_chunk (i : nat) (pt : bytes) : St world bool :=
  ps ← peer i;
  let rx := ps_rx_file ps in
  if rx_expected_size rx <? rx_received_bytes rx then rx_abort i
  else
    let remaining := rx_expected_size rx - rx_received_bytes rx in
    if remaining =? 0 then rx_abort i
    else
      let write_len := if remaining <? len pt then remaining else len pt in
      let data := take (Z.to_nat write_len) pt in
      err ← write_to_file (length data + IO_RETRIES) (rx_fd rx) data;
      if negb (err_ok err) then rx_abort i
      else
        now ← now_monotonic;
        _ ← upd_peer i (fun p => p <| ps_rx_file := ps_rx_file p
                <| rx_hash_state := rx_hash_state (ps_rx_file p) ++ data |>
                <| rx_received_bytes := u64 (rx_received_bytes (ps_rx_file p) + write_len) |>
                <| rx_last_chunk_ts := now |> |>);
        ps ← peer i;
        let rx := ps_rx_file ps in
        if rx_expected_size rx <=? rx_received_bytes rx then
          if negb (rx_received_bytes rx =? rx_expected_size rx) then rx_abort i
          else rx_finish i
        else _ ← ui UiSystem "progress"; mret true.

Definition is_metadata (pt : bytes) : bool :=
  (len pt =? 305) && bytes_eqb (take 9 pt) META_TAG.

Definition file_transfer_handle_rx (i : nat) (payload : bytes) : St world bool :=
  if (len payload <? NOX_MAC_LEN) || (4096 + NOX_MAC_LEN <? len payload) then
    _ ← ui UiError "payload length"; mret false
  else
    ok ← alloc (len payload);
    if negb ok then _ ← ui UiError "memory"; mret false
    else
      ps ← peer i;
      let '(pt, ssn) := match ps_session ps with
                        | Some s => let '(pt, s) := noise_decrypt s payload in (pt, Some s)
                        | None => (None, None)
                        end in
      _ ← upd_peer i (fun p => p <| ps_session := ssn |>);
      match (if bool_decide (pt = Some []) then None else pt) with
      | None =>
          _ ← ui UiError "sequence";
          if rx_active (ps_rx_file ps) then rx_abort i else mret true
      | Some pt =>
          if is_metadata pt then
            if rx_active (ps_rx_file ps) then rx_abort i else rx_metadata i pt
          else if rx_active (ps_rx_file ps) then rx_chunk i pt
          else mret true
      end.

(** ** Sending *)

(** The end of a transfer, in every branch of the code that gives one up or
    completes it. *)
Definition tx_stop (i : nat) : St world unit :=
  ps ← peer i;
  epfd ← app as_epoll_fd;
  _ ← call_ (Close (tx_fd (ps_tx_file ps)));
  _ ← upd_peer i (fun p => p <| ps_tx_file := tx_zero <| tx_fd := -1 |> |>);
  _ ← epoll_modify_fd epfd (ps_fd ps) EPOLLIN;
  mret tt.

(** Part of a frame is still in the buffer: write on. *)
Definition tx_flush (i : nat) : St world unit :=
  ps ← peer i;
  let tx := ps_tx_file ps in
  r ← call (Write (ps_fd ps)
       (take (Z.to_nat (tx_len tx - tx_offset tx)) (drop (Z.to_nat (tx_offset tx)) (tx_buf tx))));
  if 0 <? sr_ret r then
    now ← now_monotonic;
    _ ← upd_peer i (fun p => p <| ps_last_active := now |>
          <| ps_tx_file := ps_tx_file p <| tx_offset := tx_offset tx + sr_ret r |> |>);
    if tx_offset tx + sr_ret r =? tx_len tx then
      let sent := u64 (tx_sent_bytes tx + tx_current_chunk_size tx) in
      _ ← upd_peer i (fun p => p <| ps_tx_seq := u32 (ps_tx_seq p + 1) |>
            <| ps_tx_file := ps_tx_file p <| tx_len := 0 |> <| tx_offset := 0 |>
                 <| tx_sent_bytes := sent |> <| tx_current_chunk_size := 0 |> |>);
      if tx_total_size tx <=? sent then
        _ ← ui UiSystem "file sent"; tx_stop i
      else ui UiSystem "progress"
    else skip
  else if (sr_ret r =? 0)
          || (negb (sr_errno r =? EAGAIN) && negb (sr_errno r =? EINTR)) then
    _ ← ui UiError "file sending broke"; tx_stop i
  else skip.

(** The buffer is empty: read, encrypt and frame the next chunk. *)
Definition tx_fill (i : nat) : St world unit :=
  ps ← peer i;
  let tx := ps_tx_file ps in
  let remaining := if tx_sent_bytes tx <? tx_total_size tx
                   then tx_total_size tx - tx_sent_bytes tx else 0 in
  if remaining =? 0 then tx_stop i
  else
    let to_read := if remaining <? 4096 then remaining else 4096 in
    r ← call (Read (tx_fd tx) to_read);
    if 0 <? sr_ret r then
      _ ← upd_peer i (fun p => p <| ps_tx_file := ps_tx_file p <| tx_current_chunk_size := sr_ret r |> |>);
      if TX_BUF_CAPACITY <? FRAME_HEADER_WIRE_SIZE + (sr_ret r + NOX_MAC_LEN) then
        _ ← ui UiError "chunk too large"; tx_stop i
      else
        let chunk := take (Z.to_nat (sr_ret r)) (sr_data r) in
        let '(ct, ssn) := match ps_session ps with
                          | Some s => let '(ct, s) := noise_encrypt s chunk in (ct, Some s)
                          | None => (None, None)
                          end in
        _ ← upd_peer i (fun p => p <| ps_session := ssn |>);
        match ct with
        | Some ct =>
            let fh := FrameHeader NOX_FRAME_MAGIC NOX_MSG_FILE (ps_tx_seq ps) (u32 (len ct)) in
            let frame := frame_header_encode fh ++ ct in
            upd_peer i (fun p => p <| ps_tx_file := ps_tx_file p
              <| tx_buf := frame ++ drop (length frame) (tx_buf (ps_tx_file p)) |>
              <| tx_len := FRAME_HEADER_WIRE_SIZE + len ct |> <| tx_offset := 0 |> |>)
        | None => _ ← ui UiError "chunk encryption"; tx_stop i
        end
    else if sr_ret r =? 0 then
      _ ← ui UiError "file shrank"; tx_stop i
    else if negb (sr_errno r =? EINTR) then
      _ ← ui UiError "read failed"; tx_stop i
    else skip.

Definition file_transfer_handle_tx (i : nat) : St world unit :=
  ps ← peer i;
  if (ps_fd ps <? 0) || negb (tx_active (ps_tx_file ps)) then skip
  else if 0 <? tx_len (ps_tx_file ps) then tx_flush i
  else tx_fill i.

(** The hashing loop of file_transfer_start: the bytes read to the end. *)
Fixpoint hash_file (fuel : nat) (fd : Z) (acc : bytes) : St world (option bytes) :=
  match fuel with
  | O => mret None
  | S fuel =>
      r ← call (Read fd 4096);
      if sr_ret r <? 0 then
        if sr_errno r =? EINTR then hash_file fuel fd acc else mret None
      else if sr_ret r =? 0 then mret (Some acc)
      else hash_file fuel fd (acc ++ take (Z.to_nat (sr_ret r)) (sr_data r))
  end.

(** "METADATA", the name in 256 bytes, the size and the hash. *)
Definition meta_payload (name : bytes) (size : Z) (hash : bytes) : bytes :=
  META_TAG ++ name ++ zeros (256 - length name) ++ put_be64 size ++ hash.

(** The metadata frame of a transfer that was set up; None when it was not
    sent. *)
Definition send_metadata (i : nat) : St world bool :=
  ps ← peer i;
  let tx := ps_tx_file ps in
  let meta := meta_payload (tx_filename tx) (tx_total_size tx) (tx_hash tx) in
  let '(ct, ssn) := match ps_session ps with
                    | Some s => let '(ct, s) := noise_encrypt s meta in (ct, Some s)
                    | None => (None, None)
                    end in
  _ ← upd_peer i (fun p => p <| ps_session := ssn |>);
  match ct with
  | None => _ ← ui UiError "metadata encryption"; mret false
  | Some ct =>
      let fh := FrameHeader NOX_FRAME_MAGIC NOX_MSG_FILE (ps_tx_seq ps) (u32 (len ct)) in
      r ← call (Writev (ps_fd ps) (frame_header_encode fh ++ ct));
      if sr_ret r =? FRAME_HEADER_WIRE_SIZE + len ct then
        _ ← upd_peer i (fun p => p <| ps_tx_seq := u32 (ps_tx_seq p + 1) |>);
        mret true
      else _ ← ui UiError "metadata sending"; mret false
  end.

(** The file is open and regular: hash it, set the slot up, announce it. *)
Definition tx_begin (i : nat) (file_fd size : Z) (safe_name : bytes) : St world unit :=
  content ← hash_file (Z.to_nat size + 1 + IO_RETRIES) file_fd (put_be64 size);
  match content with
  | None => _ ← ui UiError "read error"; call_ (Close file_fd)
  | Some content =>
      r ← call (Lseek file_fd 0);
      if sr_ret r =? -1 then _ ← ui UiError "lseek"; call_ (Close file_fd)
      else
        _ ← upd_peer i (fun p => p <| ps_tx_file := tx_zero <| tx_active := true |>
              <| tx_fd := file_fd |> <| tx_total_size := size |> <| tx_sent_bytes := 0 |>
              <| tx_hash := blake2b 32 content |> <| tx_filename := safe_name |> |>);
        ok ← alloc 4096;
        let abandon :=
          _ ← call_ (Close file_fd);
          upd_peer i (fun p => p <| ps_tx_file := tx_zero <| tx_fd := -1 |> |>) in
        if negb ok then _ ← ui UiError "memory"; abandon
        else
          _ ← upd_peer i (fun p => p <| ps_tx_file := ps_tx_file p <| tx_plain_buf := Some (zeros 4096) |> |>);
          sent ← send_metadata i;
          if negb sent then abandon
          else
            ps ← peer i;
            epfd ← app as_epoll_fd;
            _ ← epoll_modify_fd epfd (ps_fd ps) (Z.lor EPOLLIN EPOLLOUT);
            ui UiSystem "file transfer started"
  end.

Definition file_transfer_start (filepath : bytes) : St world unit :=
  a ← app id;
  match ACTIVE_PEER a with
  | None => ui UiError "no active connection"
  | Some i =>
      ps ← peer i;
      if (ps_fd ps <? 0) || bool_decide (ps_session ps = None) then ui UiError "offline"
      else if tx_active (ps_tx_file ps) then ui UiError "already sending"
      else if (len filepath =? 0) || (NOX_PATH_MAX <=? len filepath) then ui UiError "bad path"
      else
        r ← call (Open filepath);
        let file_fd := sr_ret r in
        if file_fd <? 0 then ui UiError "open failed"
        else
          let fail m := _ ← ui UiError m; call_ (Close file_fd) in
          r ← call (Fstat file_fd);
          if negb (sr_ret r =? 0) then fail "fstat"%string
          else
            mode ← call (StatField file_fd St_mode);
            if negb (is_mode (sr_ret mode) S_IFREG) then fail "not a regular file"%string
            else
              r ← call (Flock file_fd);
              if negb (sr_ret r =? 0) then fail "lock"%string
              else
                size ← call (StatField file_fd St_size);
                if sr_ret size <=? 0 then fail "size"%string
                else if NOX_MAX_FILE_SIZE <? u64 (sr_ret size) then fail "too large"%string
                else tx_begin i file_fd (sr_ret size) (take 255 (basename filepath))
  end.

(** ** Timeout and cleanup *)

Definition file_transfer_chunk_expired (last now timeout_sec : Z) : bool :=
  timeout_sec <? now - last.

(** One slot of file_transfer_cleanup. *)
Definition transfer_cleanup_slot (i : nat) : St world unit :=
  ps ← peer i;
  _ ← (if tx_active (ps_tx_file ps) then
         _ ← (if 0 <=? tx_fd (ps_tx_file ps) then call_ (Close (tx_fd (ps_tx_file ps))) else skip);
         _ ← (if tx_plain_buf (ps_tx_file ps) then call_ (Wipe "plain_buf") else skip);
         _ ← upd_peer i (fun p => p <| ps_tx_file := tx_zero <| tx_fd := -1 |> |>);
         ui UiError "sending cancelled"
       else skip);
  ps ← peer i;
  dl ← app as_downloads_dir_fd;
  if rx_active (ps_rx_file ps) then
    _ ← (if 0 <=? rx_fd (ps_rx_file ps) then call_ (Close (rx_fd (ps_rx_file ps))) else skip);
    _ ← (if (0 <=? dl) && negb (bool_decide (rx_local_name (ps_rx_file ps) = []))
         then call_ (Unlinkat dl (rx_local_name (ps_rx_file ps))) else skip);
    _ ← rx_reset i;
    ui UiError "receiving cancelled"
  else skip.

Fixpoint transfer_cleanup_from (i n : nat) : St world unit :=
  match n with
  | O => skip
  | S n => _ ← transfer_cleanup_slot i; transfer_cleanup_from (S i) n
  end.

Definition file_transfer_cleanup : St world unit := transfer_cleanup_from 0 NOX_MAX_PEERS.

End FileTransfer.
