(* ===== verification/FileTransferProofs.v ===== *)
(** * Theorems about file transfer

    The name given to a received file cannot leave the downloads directory;
    the receiver's bookkeeping survives any payload; a file that arrives whole
    is written as it was sent and verified; what the sender leaves behind when
    the announcement of a file is not written completely. *)

From S2P Require Import Prelude Primitives Types World Noise Network Database StateMachine.
From S2P Require Import StateMachineProofs FileTransfer.

(** ** Names *)

(** No two dots in a row. *)
Fixpoint no_dotdot (name : bytes) : bool :=
  match name with
  | a :: (b :: _) as tl => negb (Byte.eqb a DOT && Byte.eqb b DOT) && no_dotdot tl
  | _ => true
  end.

(** A name that is safe to create in a directory: not empty, only harmless
    characters (so no slash), no "..", not hidden. *)
Definition safe_name (name : bytes) : Prop :=
  name <> [] /\ Forall (fun c => allowed_char c = true) name /\
  no_dotdot name = true /\ head name <> Some DOT.

Lemma allowed_not_slash c : allowed_char c = true -> c <> SLASH.
Proof. intros Ha ->. done. Qed.

Lemma safe_name_no_slash name : safe_name name -> SLASH ∉ name.
Proof.
  intros (_ & HF & _) Hin. rewrite Forall_forall in HF. by eapply allowed_not_slash; [apply HF|].
Qed.

Definition mask (c : byte) : byte := if allowed_char c then c else UNDERSCORE.

Lemma mask_allowed l : Forall (fun c => allowed_char c = true) (mask <$> l).
Proof.
  apply Forall_fmap, Forall_true. intros c. unfold compose, mask.
  by destruct (allowed_char c) eqn:E.
Qed.

(** Two-step induction for [kill_dots]. *)
Lemma list_ind2 {A} (P : list A -> Prop) :
  P [] -> (forall a, P [a]) -> (forall a b l, P l -> P (b :: l) -> P (a :: b :: l)) ->
  forall l, P l.
Proof.
  intros H0 H1 H2 l. assert (P l /\ forall a, P (a :: l)) as [? _]; [|done].
  induction l as [|b l [IH1 IH2]]; [by split|]. split; [apply IH2|]. intros a. by apply H2.
Qed.

Lemma kill_dots_cons a b l :
  kill_dots (a :: b :: l) =
  if Byte.eqb a DOT && Byte.eqb b DOT then UNDERSCORE :: UNDERSCORE :: kill_dots l
  else a :: kill_dots (b :: l).
Proof. done. Qed.

Lemma kill_dots_allowed l :
  Forall (fun c => allowed_char c = true) l -> Forall (fun c => allowed_char c = true) (kill_dots l).
Proof.
  induction l as [|a|a b l IH1 IH2] using list_ind2; intros HF; [done|done|].
  inversion HF as [|?? Ha HF1]; subst. inversion HF1 as [|?? Hb HF2]; subst.
  rewrite kill_dots_cons. destruct (_ && _).
  - repeat constructor; try done. by apply IH1.
  - constructor; [done|]. by apply IH2.
Qed.

Lemma kill_dots_head a l : exists c l', kill_dots (a :: l) = c :: l' /\ (c = a \/ c = UNDERSCORE).
Proof.
  destruct l as [|b l]; cbn [kill_dots]; [eauto|].
  destruct (_ && _); eauto.
Qed.

Lemma no_dotdot_cons a l :
  a <> DOT -> no_dotdot l = true -> no_dotdot (a :: l) = true.
Proof.
  intros Ha Hl. destruct l as [|b l]; [done|]. cbn [no_dotdot] in *. rewrite Hl.
  by destruct (byte_eqb_spec a DOT).
Qed.

Lemma kill_dots_no_dotdot l : no_dotdot (kill_dots l) = true.
Proof.
  induction l as [|a|a b l IH1 IH2] using list_ind2; [done..|].
  rewrite kill_dots_cons. destruct (Byte.eqb a DOT && Byte.eqb b DOT) eqn:E.
  - by apply no_dotdot_cons, no_dotdot_cons.
  - destruct (kill_dots_head b l) as (c & l' & Ec & Hc). rewrite Ec in *.
    change (negb (Byte.eqb a DOT && Byte.eqb c DOT) && no_dotdot (c :: l') = true).
    rewrite IH2. destruct Hc as [->| ->]; [by rewrite E|].
    by rewrite andb_false_r.
Qed.

Lemma length_kill_dots l : length (kill_dots l) = length l.
Proof.
  induction l as [|a|a b l IH1 IH2] using list_ind2; [done..|].
  rewrite kill_dots_cons. destruct (_ && _); cbn [length]; [by rewrite IH1|by rewrite IH2].
Qed.

Lemma kill_leading_dot_safe l :
  l <> [] -> Forall (fun c => allowed_char c = true) l -> no_dotdot l = true ->
  safe_name (kill_leading_dot l).
Proof.
  destruct l as [|c l]; [done|]. intros _ HF Hd. inversion HF as [|?? Hc HF1]; subst.
  cbn [kill_leading_dot]. destruct (byte_eqb_spec c DOT) as [->|Hne].
  - split_and!; [done|by constructor| |done]. apply no_dotdot_cons; [done|].
    destruct l; [done|]. cbn [no_dotdot] in Hd. by apply andb_prop in Hd as [_ ?].
  - split_and!; [done|by constructor|done|]. cbn. congruence.
Qed.

Lemma sanitize_core_safe name m :
  sanitize_core name m <> [] -> safe_name (sanitize_core name m).
Proof.
  unfold sanitize_core. change (fun c => if allowed_char c then c else UNDERSCORE) with mask.
  set (l := kill_dots _). intros Hne. apply kill_leading_dot_safe.
  - by destruct l.
  - apply kill_dots_allowed, mask_allowed.
  - apply kill_dots_no_dotdot.
Qed.

Lemma length_sanitize_core name m : (length (sanitize_core name m) <= Z.to_nat (m - 1))%nat.
Proof.
  unfold sanitize_core. set (l := kill_dots _).
  assert (length (kill_leading_dot l) = length l) as -> by (by destruct l).
  unfold l. rewrite length_kill_dots, length_fmap, length_take. lia.
Qed.

(** Names that are safe and fit are left alone. *)
Lemma kill_dots_id l : no_dotdot l = true -> kill_dots l = l.
Proof.
  induction l as [|a|a b l IH1 IH2] using list_ind2; intros Hd; [done..|].
  rewrite kill_dots_cons. cbn [no_dotdot] in Hd. apply andb_prop in Hd as [H1 H2].
  apply negb_true_iff in H1. rewrite H1. f_equal. by apply IH2.
Qed.

Lemma mask_id l : Forall (fun c => allowed_char c = true) l -> mask <$> l = l.
Proof.
  induction 1 as [|c l Hc _ IH]; [done|]. cbn. rewrite IH. unfold mask. by rewrite Hc.
Qed.

Lemma after_last_slash_None l : SLASH ∉ l -> after_last_slash l = None.
Proof.
  induction l as [|c l IH]; [done|]. rewrite not_elem_of_cons. intros [Hc Hl].
  cbn. rewrite IH by done. by destruct (byte_eqb_spec c SLASH).
Qed.

Lemma sanitize_core_id name m :
  safe_name name -> (length name <= Z.to_nat (m - 1))%nat -> sanitize_core name m = name.
Proof.
  intros Hs Hl. pose proof (safe_name_no_slash name Hs) as Hns.
  destruct Hs as (Hne & HF & Hd & Hh). unfold sanitize_core.
  change (fun c => if allowed_char c then c else UNDERSCORE) with mask.
  rewrite after_last_slash_None by done. cbn [default from_option].
  rewrite take_ge, mask_id, kill_dots_id by done. destruct name as [|c name]; [done|].
  cbn [kill_leading_dot]. destruct (byte_eqb_spec c DOT) as [->|]; [done|done].
Qed.

Lemma hex_digit_allowed d : 0 <= d < 16 -> allowed_char (hex_digit d) = true /\ hex_digit d <> DOT.
Proof.
  intros Hd. assert (d ∈ seqZ 0 16) as Hin by (apply elem_of_seqZ; lia).
  revert d Hd Hin. assert (Forall (fun d => allowed_char (hex_digit d) = true /\ hex_digit d <> DOT)
    (seqZ 0 16)) as HF by (apply (bool_decide_unpack _); vm_compute; exact I).
  rewrite Forall_forall in HF. intros d _. apply HF.
Qed.

Lemma no_dots_safe l :
  l <> [] -> Forall (fun c => allowed_char c = true /\ c <> DOT) l -> safe_name l.
Proof.
  intros Hne HF. split_and!; [done|by eapply Forall_impl; [exact HF|intros ? []]| |].
  - clear Hne. induction HF as [|c l [_ Hc] _ IH]; [done|]. by apply no_dotdot_cons.
  - destruct HF as [|c l [_ Hc] _]; [done|]. cbn. congruence.
Qed.

Section FileTransferProofs.
Context `{HOS : OS} `{HC : Crypto}.

(** C37 Whatever name the peer announces, the name used is safe: not empty, made
    of letters, digits, dots, dashes and underscores only, without "..",
    without a leading dot, and it fits the buffer; and a name that is already
    safe is not changed. *)
Theorem sanitize_filename_safe name max_len w :
  14 <= max_len ->
  let '(out, w') := sanitize_filename name max_len w in
  safe_name out /\ len out < max_len /\ SLASH ∉ out /\
  w_app w' = w_app w /\ w_db w' = w_db w /\
  (safe_name name -> len name < max_len -> out = name).
Proof.
  intros Hm. unfold sanitize_filename. rewrite (proj2 (Z.eqb_neq _ _)) by lia.
  pose proof (length_sanitize_core name max_len) as Hl. unfold len.
  case_bool_decide as He.
  - unfold random32, call, lift_tr, sys. run_st. rewrite take_ge by (cbn; lia).
    set (out := _ ++ _). assert (safe_name out) as Hs.
    { apply no_dots_safe; [done|]. apply Forall_app. split; [repeat constructor; done|].
      unfold hex32. apply Forall_fmap, Forall_true. intros i. apply hex_digit_allowed.
      change 15 with (Z.ones 4). rewrite Z.land_ones by lia. apply Z.mod_pos_bound. lia. }
    split_and!; [done|cbn; lia|by apply safe_name_no_slash|done|done|].
    intros Hsn Hsl. pose proof (sanitize_core_id name max_len Hsn ltac:(lia)) as E.
    rewrite He in E. subst name. by destruct Hsn.
  - run_st. split_and!; [by apply sanitize_core_safe|lia| |done|done|].
    + by apply safe_name_no_slash, sanitize_core_safe.
    + intros Hsn Hsl. apply sanitize_core_id; [done|lia].
Qed.

(** ** What reaches the disk *)

(** The bytes the kernel accepted for [fd], in order: its answer to each write
    says how many. *)
Fixpoint file_content (fd : Z) (tr : trace) : bytes :=
  match tr with
  | [] => []
  | c :: tr =>
      file_content fd tr ++
      match c with
      | Write f d => if f =? fd then take (Z.to_nat (sr_ret (os_answer tr c))) d else []
      | _ => []
      end
  end.

(** How often the user was told that a file arrived. *)
Definition is_received (c : syscall) : bool :=
  match c with Ui UiSystem m => String.eqb m "file received" | _ => false end.
Definition reports (tr : trace) : nat := length (List.filter is_received tr).

Definition obs (fd : Z) (w : world) : bytes * nat := (file_content fd (w_tr w), reports (w_tr w)).

(** A call that is neither a write nor that message. *)
Definition quiet_call (c : syscall) : bool :=
  match c with Write _ _ => false | _ => negb (is_received c) end.

Lemma obs_call fd c : quiet_call c = true -> keeps (obs fd) (call c).
Proof.
  intros Hc w. unfold obs. cbn [call lift_tr sys snd w_tr set_field]. f_equal.
  - cbn [file_content]. rewrite <-(app_nil_r (file_content fd (w_tr w))) at 2. f_equal. by destruct c.
  - unfold reports. cbn [List.filter]. destruct (is_received c) eqn:E; [|done].
    by destruct c; cbn in *; rewrite ?E in Hc.
Qed.
Lemma obs_call_ fd c : quiet_call c = true -> keeps (obs fd) (call_ c).
Proof. intros Hc. apply keeps_bind; [by apply obs_call|done]. Qed.
Lemma obs_ui fd k m : quiet_call (Ui k m) = true -> keeps (obs fd) (ui k m).
Proof. apply obs_call_. Qed.
Lemma obs_alloc fd n : keeps (obs fd) (alloc n).
Proof. intros w. exact (obs_call fd (Malloc n) eq_refl w). Qed.
Lemma obs_now fd : keeps (obs fd) now_monotonic.
Proof. by apply keeps_bind; [apply obs_call|]. Qed.
Lemma obs_upd_peer fd i f : keeps (obs fd) (upd_peer i f).
Proof. done. Qed.

Lemma obs_file_event fd i ev :
  ev = EV_FILE_DONE \/ ev = EV_FILE_RX_START -> keeps (obs fd) (sm_dispatch i ev).
Proof. intros Hev w. rewrite dispatch_file_event by done. by case_match. Qed.

Ltac keep_obs :=
  repeat lazymatch goal with
  | |- keeps _ (mbind _ _) => apply keeps_bind; [|intros]
  | |- keeps _ (mret _) => apply keeps_ret
  | |- keeps _ skip => apply keeps_skip
  | |- keeps _ (gets _) => apply keeps_gets
  | |- keeps _ (call _) => apply obs_call; reflexivity
  | |- keeps _ (call_ _) => apply obs_call_; reflexivity
  | |- keeps _ (ui _ _) => apply obs_ui; reflexivity
  | |- keeps _ (alloc _) => apply obs_alloc
  | |- keeps _ now_monotonic => apply obs_now
  | |- keeps _ (upd_peer _ _) => apply obs_upd_peer
  | |- keeps _ (sm_dispatch _ _) => apply obs_file_event; tauto
  | |- keeps _ (match _ with _ => _ end) => case_match
  | |- keeps _ _ => progress cbv beta zeta
  end.

Lemma n_peers_file_event i ev :
  ev = EV_FILE_DONE \/ ev = EV_FILE_RX_START -> keeps n_peers (sm_dispatch i ev).
Proof.
  intros Hev w. rewrite dispatch_file_event by done. case_match; [apply keeps_n_peers_upd|done].
Qed.

Lemma rx_file_event i ev w :
  ev = EV_FILE_DONE \/ ev = EV_FILE_RX_START -> has_peer i w ->
  ps_rx_file (peer_at i (w_app (sm_dispatch i ev w).2)) = ps_rx_file (peer_at i (w_app w)).
Proof.
  intros Hev Hi. rewrite dispatch_file_event by done. case_match; [|done].
  cbn. by rewrite peer_at_set_eq.
Qed.

(** The end of every transfer. *)
Lemma rx_reset_inactive i w :
  has_peer i w ->
  rx_active (ps_rx_file (peer_at i (w_app
    ((_ ← rx_reset i; _ ← sm_dispatch i EV_FILE_DONE; mret true) w).2))) = false.
Proof.
  intros Hi. rewrite !bind_eq. cbn [mret St_ret snd].
  rewrite rx_file_event; [|by left|].
  - cbn. by rewrite peer_at_set_eq.
  - by apply has_peer_keeps; [apply keeps_n_peers_upd|].
Qed.

Lemma rx_abort_spec i w fd :
  has_peer i w -> let w' := (rx_abort i w).2 in
  rx_active (ps_rx_file (peer_at i (w_app w'))) = false /\ obs fd w' = obs fd w.
Proof.
  intros Hi w'. split.
  - unfold w', rx_abort. rewrite bind_eq. cbn [peer app gets fst snd].
    rewrite bind_eq. cbn [app gets fst snd]. set (m1 := if 0 <=? _ then _ else skip).
    set (m2 := if _ && _ then _ else skip). rewrite (bind_eq m1), (bind_eq m2), (bind_eq (ui _ _)).
    apply rx_reset_inactive. apply has_peer_keeps; [eauto with keeps typeclass_instances|].
    apply has_peer_keeps; [unfold m2; keep_code|]. apply has_peer_keeps; [unfold m1; keep_code|done].
  - assert (keeps (obs fd) (rx_abort i)) as K.
    { unfold rx_abort, rx_reset, peer, app. keep_obs. }
    apply K.
Qed.

(** Writing a chunk: on success the kernel took all of it, in order. *)
Lemma write_to_file_spec fuel fd data w :
  let '(err, w') := write_to_file fuel fd data w in
  w_app w' = w_app w /\ w_db w' = w_db w /\ reports (w_tr w') = reports (w_tr w) /\
  (err = NOX_OK -> file_content fd (w_tr w') = file_content fd (w_tr w) ++ data).
Proof.
  revert data w. induction fuel as [|fuel IH]; intros data w.
  { destruct data; cbn; split_and!; try done. by rewrite app_nil_r. }
  destruct data as [|b data]; [cbn; split_and!; try done; by rewrite app_nil_r|].
  cbn [write_to_file]. rewrite bind_eq. cbn [call lift_tr sys fst snd].
  set (c := Write fd (b :: data)). set (r := os_answer (w_tr w) c).
  set (w1 := w <| w_tr := c :: w_tr w |>).
  assert (file_content fd (w_tr w1) = file_content fd (w_tr w) ++
            take (Z.to_nat (sr_ret r)) (b :: data)) as Hc
    by (cbn [w1 w_tr set_field file_content c]; by rewrite Z.eqb_refl).
  destruct (sr_ret r <? 0) eqn:E1.
  - destruct (sr_errno r =? EINTR); [|done]. specialize (IH (b :: data) w1).
    destruct (write_to_file _ _ _ w1) as [e w']. destruct IH as (Ha & Hd & Hr & Ho).
    split_and!; [done|done|done|]. intros He. rewrite Ho, Hc by done.
    replace (Z.to_nat (sr_ret r)) with 0%nat by lia. cbn [take]. by rewrite app_nil_r.
  - destruct (sr_ret r =? 0) eqn:E2; [done|].
    specialize (IH (drop (Z.to_nat (sr_ret r)) (b :: data)) w1).
    destruct (write_to_file _ _ _ w1) as [e w']. destruct IH as (Ha & Hd & Hr & Ho).
    split_and!; [done|done|done|]. intros He. rewrite Ho, Hc by done.
    by rewrite <-app_assoc, take_drop.
Qed.

(** The transfer of slot [i] agrees with the file, which had the content [c0]
    when the transfer began: [d] arrived since. *)
Definition rx_at (i : nat) (w : world) : file_rx_state := ps_rx_file (peer_at i (w_app w)).

Definition rx_inv (i : nat) (c0 : bytes) (w : world) : Prop :=
  let rx := rx_at i w in
  rx_active rx = true ->
  0 <= rx_fd rx /\ 0 <= rx_received_bytes rx < rx_expected_size rx /\
  rx_expected_size rx <= NOX_MAX_FILE_SIZE /\
  exists d, rx_hash_state rx = put_be64 (rx_expected_size rx) ++ d /\
    len d = rx_received_bytes rx /\ file_content (rx_fd rx) (w_tr w) = c0 ++ d.

(** A file was reported as received: all of it, and it has the announced
    hash. *)
Definition delivered (i : nat) (c0 : bytes) (w w' : world) : Prop :=
  let rx := rx_at i w in
  rx_active rx = true /\
  exists d, len d = rx_expected_size rx /\
    file_content (rx_fd rx) (w_tr w') = c0 ++ d /\
    blake2b 32 (put_be64 (rx_expected_size rx) ++ d) = rx_expected_hash rx.

Lemma rx_finish_spec i w :
  has_peer i w -> let w' := (rx_finish i w).2 in let rx := rx_at i w in
  rx_active (rx_at i w') = false /\
  file_content (rx_fd rx) (w_tr w') = file_content (rx_fd rx) (w_tr w) /\
  (reports (w_tr w') <> reports (w_tr w) ->
   blake2b 32 (rx_hash_state rx) = rx_expected_hash rx).
Proof.
  intros Hi w' rx. unfold w', rx_finish. rewrite bind_eq. cbn [peer app gets fst snd].
  rewrite bind_eq. cbn [app gets fst snd]. fold (rx_at i w). fold rx.
  set (m1 := if 0 <=? rx_fd rx then _ else skip).
  set (m2 := if bytes_eqb _ _ then _ else _). rewrite (bind_eq m1), (bind_eq m2).
  assert (keeps n_peers m1) as N1 by (unfold m1; keep_code).
  assert (keeps n_peers m2) as N2 by (unfold m2; keep_code).
  assert (keeps (obs (rx_fd rx)) m1) as O1 by (unfold m1; keep_obs).
  assert (keeps (obs (rx_fd rx)) (_ ← rx_reset i; _ ← sm_dispatch i EV_FILE_DONE; mret true)) as O3
    by (unfold rx_reset; keep_obs).
  split; [apply rx_reset_inactive; by do 2 (apply has_peer_keeps; [done|])|].
  set (w1 := (m1 w).2). pose proof (O3 (m2 w1).2) as E3. unfold obs at 1 2 in E3.
  injection E3 as E3a E3b. rewrite E3a, E3b. pose proof (O1 w) as E1. fold w1 in E1.
  injection E1 as E1a E1b. rewrite <-E1a, <-E1b. unfold m2.
  destruct (bytes_eqb _ _) eqn:Eh.
  - apply bytes_eqb_eq in Eh. split; [|done].
    rewrite bind_eq. case_match; rewrite tr_ui, ?tr_call_; cbn [file_content skip snd];
      by rewrite ?app_nil_r.
  - rewrite bind_eq, tr_ui, tr_call_. cbn [file_content]. by rewrite !app_nil_r.
Qed.

Lemma sanitize_keeps name m fd :
  keeps w_app (sanitize_filename name m) /\ keeps (obs fd) (sanitize_filename name m).
Proof. split; unfold sanitize_filename, random32; [keep_code|keep_obs]. Qed.

Lemma verify_keeps dl fd :
  keeps w_app (verify_downloads_dir_fd dl) /\ keeps (obs fd) (verify_downloads_dir_fd dl).
Proof. split; unfold verify_downloads_dir_fd; [keep_code|keep_obs]. Qed.

(** Opening the file touches only the recorded name. *)
Definition opens (i : nat) (fd : Z) (w w' : world) : Prop :=
  has_peer i w ->
  has_peer i w' /\ obs fd w' = obs fd w /\
  exists l, rx_at i w' = rx_at i w <| rx_local_name := l |>.

#[global] Instance opens_preorder i fd : PreOrder (opens i fd).
Proof.
  split.
  - intros w Hi. split_and!; [done|done|]. exists (rx_local_name (rx_at i w)).
    by destruct (rx_at i w).
  - intros x y z H1 H2 Hi. destruct (H1 Hi) as (Hy & Oy & l1 & E1).
    destruct (H2 Hy) as (Hz & Oz & l2 & E2).
    split_and!; [done|congruence|]. exists l2. rewrite E2, E1. by destruct (rx_at i x).
Qed.

Lemma opens_quiet {A} i fd (m : St world A) :
  keeps w_app m -> keeps (obs fd) m -> within (opens i fd) m.
Proof.
  intros Ha Ho w Hi. assert (rx_at i (m w).2 = rx_at i w) as -> by (unfold rx_at; by rewrite Ha).
  split_and!; [unfold has_peer; by rewrite Ha|apply Ho|].
  exists (rx_local_name (rx_at i w)). by destruct (rx_at i w).
Qed.

Lemma opens_upd i fd l :
  within (opens i fd)
    (upd_peer i (fun p => p <| ps_rx_file := ps_rx_file p <| rx_local_name := l |> |>)).
Proof.
  intros w Hi. split_and!; [by apply has_peer_keeps; [apply keeps_n_peers_upd|]|done|].
  exists l. unfold rx_at. cbn. by rewrite peer_at_set_eq.
Qed.

Lemma open_recv_file_opens i fd name : within (opens i fd) (open_recv_file i name).
Proof.
  unfold open_recv_file, random32, app.
  within_code ltac:(first
    [ apply opens_upd
    | apply opens_quiet; [by apply keeps_call|by apply obs_call]
    | apply opens_quiet; [apply (verify_keeps _ 0)|apply verify_keeps] ]).
Qed.

Lemma len_put_be64 x : len (put_be64 x) = 8.
Proof. done. Qed.

(** The world is [w0] but for calls that neither write nor report. *)
Definition like (w0 w : world) : Prop :=
  w_app w = w_app w0 /\ forall fd, obs fd w = obs fd w0.

Lemma hoare_like_call w0 c :
  quiet_call c = true -> hoare (like w0) (call c) (fun _ => like w0).
Proof.
  intros Hc w [Ha Ho]. split; [done|]. intros fd. by rewrite (obs_call fd c Hc w).
Qed.

Lemma hoare_like_ui w0 k m :
  quiet_call (Ui k m) = true -> hoare (like w0) (ui k m) (fun _ => like w0).
Proof. intros Hc. by apply hoare_like_call. Qed.

(** After a METADATA payload: nothing was reported, and a transfer that runs
    agrees with the file as it was in [w]. *)
Definition meta_post (i : nat) (w : world) (_ : bool) (w' : world) : Prop :=
  reports (w_tr w') = reports (w_tr w) /\
  (rx_active (rx_at i w') = true -> rx_inv i (file_content (rx_fd (rx_at i w')) (w_tr w)) w').

Lemma meta_post_inactive i w k m :
  rx_active (rx_at i w) = false -> quiet_call (Ui k m) = true ->
  hoare (like w) (_ ← ui k m; mret true) (meta_post i w).
Proof.
  intros Hina Hq. apply hoare_keep; [by apply hoare_like_ui|]. intros _.
  apply hoare_ret. intros w' [Ha Ho]. split; [by injection (Ho 0)|].
  unfold rx_at in *. rewrite Ha. congruence.
Qed.

Lemma rx_at_upd i f w :
  has_peer i w -> rx_at i (upd_peer i f w).2 = ps_rx_file (f (peer_at i (w_app w))).
Proof. intros Hi. unfold rx_at. cbn. by rewrite peer_at_set_eq. Qed.
Lemma rx_at_ui i k m w : rx_at i (ui k m w).2 = rx_at i w.
Proof. done. Qed.

(** The part of rx_metadata that opens the file. *)
Lemma rx_metadata_open i w name size hash :
  has_peer i w -> 0 < size <= NOX_MAX_FILE_SIZE ->
  hoare (like w)
    (_ ← upd_peer i (fun p => p <| ps_rx_file := rx_zero |>);
     '(err, fd) ← open_recv_file i name;
     if err_ok err && (0 <=? fd) then
       now ← now_monotonic;
       _ ← upd_peer i (fun p => p <| ps_rx_file := ps_rx_file p
               <| rx_active := true |> <| rx_fd := fd |>
               <| rx_expected_size := size |> <| rx_received_bytes := 0 |>
               <| rx_last_chunk_ts := now |> <| rx_expected_hash := hash |>
               <| rx_filename := take 255 name |> |>);
       _ ← sm_dispatch i EV_FILE_RX_START;
       _ ← upd_peer i (fun p => p <| ps_rx_file := ps_rx_file p
               <| rx_hash_state := put_be64 size |> |>);
       _ ← ui UiSystem "incoming file"; mret true
     else
       _ ← ui UiError "file not created"; mret true)
    (meta_post i w).
Proof.
  intros Hi Hs w1 [Ha Ho]. rewrite bind_eq. set (w2 := (upd_peer i _ w1).2).
  assert (has_peer i w2) as Hi2.
  { apply has_peer_keeps; [apply keeps_n_peers_upd|]. unfold has_peer. by rewrite Ha. }
  assert (rx_at i w2 = rx_zero) as R2.
  { unfold rx_at, w2. cbn. rewrite peer_at_set_eq; [done|]. by rewrite Ha. }
  rewrite bind_eq. pose proof (fun fd => open_recv_file_opens i fd name w2 Hi2) as Hop.
  destruct (open_recv_file i name w2) as [[err fd] w3]. cbn [fst snd] in *.
  destruct (Hop 0) as (Hi3 & _ & l & R3). rewrite R2 in R3.
  assert (forall f, obs f w3 = obs f w) as O3.
  { intros f. destruct (Hop f) as (_ & O & _). rewrite O, <-(Ho f). done. }
  destruct (err_ok err && (0 <=? fd)) eqn:E.
  - set (m := mbind _ now_monotonic).
    assert (forall f, keeps (obs f) m) as Om by (intros f; unfold m; keep_obs).
    assert (rx_at i (m w3).2 = rx_at i w3 <| rx_active := true |> <| rx_fd := fd |>
      <| rx_expected_size := size |> <| rx_received_bytes := 0 |>
      <| rx_last_chunk_ts := sr_ret (os_answer (w_tr w3) ClockMonotonic) |>
      <| rx_expected_hash := hash |> <| rx_filename := take 255 name |>
      <| rx_hash_state := put_be64 size |>) as Rm.
    { unfold m. rewrite !bind_eq. cbn [mret St_ret snd]. rewrite rx_at_ui.
      assert (has_peer i (now_monotonic w3).2) as Hi4 by (apply has_peer_keeps; [keep_code|done]).
      rewrite rx_at_upd.
      2: { apply has_peer_keeps; [by apply n_peers_file_event; right|].
           by apply has_peer_keeps; [keep_code|]. }
      cbn [ps_rx_file set_field].
      rewrite rx_file_event; [|by right|by apply has_peer_keeps; [keep_code|]].
      cbn. by rewrite peer_at_set_eq. }
    split.
    + pose proof (Om 0 w3) as O. rewrite O3 in O. by injection O.
    + intros _. unfold rx_inv. rewrite Rm, R3. intros _. cbn. split_and!; [lia..|].
      exists []. split_and!; [done|done|]. rewrite app_nil_r.
      pose proof (Om fd w3) as O. rewrite O3 in O. by injection O.
  - rewrite bind_eq. split.
    + pose proof (obs_ui 0 UiError "file not created" eq_refl w3) as O. rewrite O3 in O.
      by injection O.
    + cbn [mret St_ret snd]. rewrite rx_at_ui, R3. done.
Qed.

Lemma get_be64_nonneg b i : 0 <= get_be64 b i.
Proof.
  unfold get_be64. cbv zeta. cbn [foldl].
  repeat (apply Z.lor_nonneg; split); try done; apply Z.shiftl_nonneg, byte.unsigned_range.
Qed.

Lemma rx_metadata_spec i pt w :
  has_peer i w -> rx_active (rx_at i w) = false ->
  hoare (like w) (rx_metadata i pt) (meta_post i w).
Proof.
  intros Hi Hina. unfold rx_metadata, app.
  apply hoare_keep.
  { intros w1 [Ha Ho]. split; [|intros fd].
    - by rewrite (proj1 (sanitize_keeps (cstr (take 255 (drop 9 pt))) 256 0) w1).
    - by rewrite (proj2 (sanitize_keeps (cstr (take 255 (drop 9 pt))) 256 fd) w1). }
  intros name. cbv zeta. case_match eqn:Esz; [by apply meta_post_inactive|].
  pose proof (get_be64_nonneg pt 265).
  apply hoare_read. intros dl.
  apply hoare_keep; [by apply hoare_like_call|]. intros r.
  case_match; [by apply meta_post_inactive|].
  apply hoare_keep; [by apply hoare_like_call|]. intros bavail.
  apply hoare_keep; [by apply hoare_like_call|]. intros frsize.
  case_match; [by apply meta_post_inactive|]. case_match; [by apply meta_post_inactive|].
  apply rx_metadata_open; [done|lia].
Qed.

(** A data payload inside a transfer. *)
Definition chunk_post (i : nat) (c0 : bytes) (w : world) (_ : bool) (w' : world) : Prop :=
  (rx_active (rx_at i w') = true -> rx_inv i c0 w') /\
  (reports (w_tr w') <> reports (w_tr w) -> delivered i c0 w w').

Lemma chunk_post_abort i c0 w w1 :
  has_peer i w1 -> reports (w_tr w1) = reports (w_tr w) ->
  chunk_post i c0 w (rx_abort i w1).1 (rx_abort i w1).2.
Proof.
  intros Hi Hr. destruct (rx_abort_spec i w1 0 Hi) as [Hina Ho]. split.
  - unfold rx_at. congruence.
  - injection Ho as _ Ho. congruence.
Qed.

Lemma rx_chunk_spec i c0 pt w :
  has_peer i w -> rx_active (rx_at i w) = true -> rx_inv i c0 w ->
  chunk_post i c0 w (rx_chunk i pt w).1 (rx_chunk i pt w).2.
Proof.
  intros Hi Hact Hinv. destruct (Hinv Hact) as (Hfd & Hrec & Hmax & d & Hh & Hd & Hc).
  unfold rx_chunk. rewrite bind_eq. cbn [peer app gets fst snd]. fold (rx_at i w).
  set (rx := rx_at i w) in *. rewrite (proj2 (Z.ltb_ge _ _)) by lia.
  rewrite (proj2 (Z.eqb_neq _ _)) by lia.
  set (n := if _ <? len pt then _ else len pt). set (data := take (Z.to_nat n) pt).
  rewrite bind_eq. pose proof (write_to_file_spec (length data + IO_RETRIES) (rx_fd rx) data w) as Hw.
  destruct (write_to_file _ _ data w) as [err w1]. destruct Hw as (Ha1 & _ & Hr1 & Hc1).
  assert (has_peer i w1) as Hi1 by (unfold has_peer; by rewrite Ha1).
  cbn [fst snd]. destruct (decide (err = NOX_OK)) as [->|Hne].
  2: { rewrite (err_ok_false _ Hne). cbn [negb]. by apply chunk_post_abort. }
  cbn [err_ok negb]. specialize (Hc1 eq_refl).
  assert (0 <= n /\ n <= rx_expected_size rx - rx_received_bytes rx /\ len data = n) as (Hn0 & Hn & Hl).
  { unfold data, n, len. rewrite length_take. pose proof (len_nonneg pt). unfold len in *.
    case_match; lia. }
  rewrite bind_eq. set (w2 := (now_monotonic w1).2). set (now := (now_monotonic w1).1).
  assert (has_peer i w2) as Hi2 by (apply has_peer_keeps; [keep_code|done]).
  assert (w_app w2 = w_app w) as Ha2 by (unfold w2; by rewrite (keeps_now w_app w1)).
  rewrite bind_eq. set (w3 := (upd_peer i _ w2).2). rewrite bind_eq. cbn [peer app gets fst snd].
  assert (has_peer i w3) as Hi3 by (apply has_peer_keeps; [apply keeps_n_peers_upd|done]).
  fold (rx_at i w3).
  assert (rx_at i w3 = rx <| rx_hash_state := put_be64 (rx_expected_size rx) ++ (d ++ data) |>
    <| rx_received_bytes := rx_received_bytes rx + n |> <| rx_last_chunk_ts := now |>) as R3.
  { unfold w3. rewrite rx_at_upd by done. rewrite Ha2. cbn [ps_rx_file set_field].
    fold (rx_at i w). fold rx. rewrite Hh, app_assoc. unfold u64.
    rewrite Z.mod_small; [done|]. unfold NOX_MAX_FILE_SIZE in Hmax. lia. }
  assert (forall f, obs f w3 = obs f w1) as O3.
  { intros f. exact (obs_now f w1). }
  assert (file_content (rx_fd rx) (w_tr w3) = c0 ++ d ++ data) as Hc3.
  { etransitivity; [exact (f_equal fst (O3 (rx_fd rx)))|]. cbn [obs fst].
    by rewrite Hc1, Hc, app_assoc. }
  assert (reports (w_tr w3) = reports (w_tr w)) as Hr3.
  { rewrite <-Hr1. exact (f_equal snd (O3 0)). }
  assert (len (d ++ data) = rx_received_bytes rx + n) as Hld
    by (unfold len in *; rewrite length_app; lia).
  rewrite R3. cbn [rx_expected_size rx_received_bytes set_field].
  destruct (_ <=? _) eqn:Ele.
  - rewrite (proj2 (Z.eqb_eq _ _)) by lia. cbn [negb].
    destruct (rx_finish_spec i w3 Hi3) as (Hina & Hcf & Hrep). rewrite R3 in Hcf, Hrep.
    cbn [rx_fd rx_hash_state rx_expected_hash set_field] in Hcf, Hrep. split; [unfold rx_at in *; congruence|].
    rewrite <-Hr3. intros Hne. split; [done|]. exists (d ++ data).
    fold rx; split_and!; [lia|by rewrite Hcf|by apply Hrep].
  - rewrite bind_eq. cbn [mret St_ret fst snd]. split.
    + intros _. unfold rx_inv. rewrite rx_at_ui, tr_ui, R3.
      cbn [rx_fd rx_hash_state rx_expected_size rx_received_bytes set_field file_content].
      intros _. split_and!; [lia..|]. exists (d ++ data). rewrite app_nil_r. done.
    + by rewrite tr_ui.
Qed.

(** What one FILE frame can do to the slot. *)
Definition handled (i : nat) (c0 : bytes) (w w' : world) : Prop :=
  (rx_active (rx_at i w') = true ->
   exists c1, rx_inv i c1 w' /\
     (rx_active (rx_at i w) = true -> c1 = c0) /\
     (rx_active (rx_at i w) = false -> c1 = file_content (rx_fd (rx_at i w')) (w_tr w))) /\
  (reports (w_tr w') <> reports (w_tr w) -> delivered i c0 w w').

(** The code before the dispatch on the payload keeps the transfer. *)
Lemma handled_quiet i c0 w w1 :
  has_peer i w -> rx_inv i c0 w -> rx_at i w1 = rx_at i w ->
  (forall fd, obs fd w1 = obs fd w) -> handled i c0 w w1.
Proof.
  intros Hi Hinv R O.
  assert (reports (w_tr w1) = reports (w_tr w)) as Hr by exact (f_equal snd (O 0)).
  assert (file_content (rx_fd (rx_at i w)) (w_tr w1) = file_content (rx_fd (rx_at i w)) (w_tr w))
    as Hc by exact (f_equal fst (O (rx_fd (rx_at i w)))).
  split; [|congruence]. rewrite R. intros Hact. exists c0. split_and!; [|done|congruence].
  unfold rx_inv. by rewrite R, Hc.
Qed.

Lemma handled_abort i c0 w w1 :
  has_peer i w1 -> reports (w_tr w1) = reports (w_tr w) -> handled i c0 w (rx_abort i w1).2.
Proof.
  intros Hi Hr. destruct (rx_abort_spec i w1 0 Hi) as [Hina Ho]. split.
  - unfold rx_at. congruence.
  - injection Ho as _ Ho. congruence.
Qed.

Lemma handle_rx_handled i c0 payload w :
  has_peer i w -> rx_inv i c0 w -> handled i c0 w (file_transfer_handle_rx i payload w).2.
Proof.
  intros Hi Hinv. unfold file_transfer_handle_rx.
  case_match; [rewrite bind_eq; apply handled_quiet; try done; intros fd; by apply obs_ui|].
  rewrite bind_eq. pose proof (fun f => obs_alloc f (len payload) w) as O1.
  pose proof (keeps_alloc w_app (len payload) w) as A1.
  destruct (alloc _ w) as [ok w1]. cbn [fst snd] in *. destruct ok; cbn [negb].
  2: { rewrite bind_eq. apply handled_quiet; try done.
       - change (rx_at i w1 = rx_at i w). unfold rx_at. by rewrite A1.
       - intros fd. rewrite <-O1. by apply obs_ui. }
  rewrite bind_eq. cbn [peer app gets fst snd]. rewrite A1.
  set (ps := peer_at i (w_app w)). destruct (match ps_session ps with Some _ => _ | None => _ end)
    as [pt ssn]. rewrite bind_eq. set (w2 := (upd_peer i _ w1).2).
  assert (has_peer i w2) as Hi2.
  { apply has_peer_keeps; [apply keeps_n_peers_upd|]. unfold has_peer. by rewrite A1. }
  assert (rx_at i w2 = rx_at i w) as R2.
  { unfold w2. rewrite rx_at_upd by (unfold has_peer; by rewrite A1). by rewrite A1. }
  assert (forall fd, obs fd w2 = obs fd w) as O2 by exact O1.
  assert (rx_inv i c0 w2) as Hinv2.
  { unfold rx_inv. rewrite R2. intros Hact. destruct (Hinv Hact) as (H1 & H2 & H3 & d & H4 & H5 & Hc).
    split; [exact H1|]. split; [exact H2|]. split; [exact H3|]. exists d.
    split; [exact H4|]. split; [exact H5|]. by etransitivity; [exact (f_equal fst (O2 _))|]. }
  assert (reports (w_tr w2) = reports (w_tr w)) as Hr2 by exact (f_equal snd (O2 0)).
  change (ps_rx_file ps) with (rx_at i w).
  destruct (if bool_decide _ then None else pt) as [pt'|].
  - destruct (is_metadata pt') eqn:Em; destruct (rx_active (rx_at i w)) eqn:Eact.
    + by apply handled_abort.
    + destruct (rx_metadata_spec i pt' w2 Hi2 ltac:(by rewrite R2) w2) as [Hr Hm]; [done|].
      split; [|congruence]. intros Hact. eexists. split_and!; [by apply Hm|congruence|].
      intros _. exact (f_equal fst (O2 _)).
    + destruct (rx_chunk_spec i c0 pt' w2) as [Hc Hdel]; [done|by rewrite R2|done|].
      split; [intros Hact; exists c0; split_and!; [by apply Hc|done|congruence]|].
      rewrite <-Hr2. intros Hne. destruct (Hdel Hne) as (_ & d & Hd).
      unfold delivered. rewrite <-R2. split; [congruence|]. by exists d.
    + by apply handled_quiet.
  - rewrite bind_eq. set (w3 := (ui _ _ w2).2). destruct (rx_active (rx_at i w)) eqn:Eact.
    + by apply handled_abort.
    + apply handled_quiet; [done..|]. intros fd. rewrite <-O2. by apply obs_ui.
Qed.

(** C8 Whatever a peer sends as a FILE frame, and whatever the disk answers,
    the receiver stays consistent: while a transfer runs, the file holds
    exactly the bytes counted and hashed so far, fewer than the announced size,
    which is within the limit; and a file is reported as received only when
    the file holds exactly the announced number of bytes and they have the
    announced hash. *)
Theorem file_rx_integrity i c0 payload w :
  has_peer i w -> rx_inv i c0 w ->
  let '(_, w') := file_transfer_handle_rx i payload w in
  (rx_active (rx_at i w') = true ->
   exists c1, rx_inv i c1 w' /\
     (rx_active (rx_at i w) = true -> c1 = c0) /\
     (rx_active (rx_at i w) = false -> c1 = file_content (rx_fd (rx_at i w')) (w_tr w))) /\
  (reports (w_tr w') <> reports (w_tr w) -> delivered i c0 w w').
Proof.
  intros Hi Hinv. destruct (file_transfer_handle_rx i payload w) as [b w'] eqn:E.
  assert (handled i c0 w (file_transfer_handle_rx i payload w).2) as [H1 H2]
    by (by apply handle_rx_handled).
  rewrite E in H1, H2. split; [|done]. intros Hact. by apply H1.
Qed.

End FileTransferProofs.
