(* ===== verification/History.v ===== *)
(** * Opening the database and the message history: src/database.c

    db_init, db_save_message, db_get_history, db_list_contacts_with_summary and
    db_delete_conversation, on the rows of [World].  SQLite's answers are the
    environment's; a statement that is carried out does what its text says. *)

From S2P Require Import Prelude Primitives Types World Network Database FileTransfer.

Definition CONTACTS_DB : bytes := lit "contacts.db".
Definition HISTORY_DEFAULT_LIMIT : Z := 1000.

(** O_RDWR|O_CLOEXEC|O_NOFOLLOW, and with O_CREAT|O_EXCL *)
Definition DB_CHECK_FLAGS : Z := Z.lor 0x2 (Z.lor 0x80000 0x20000).
Definition DB_CREATE_FLAGS : Z := Z.lor DB_CHECK_FLAGS (Z.lor 0x40 0x80).

(** Callbacks of the two readers. *)
Abbreviation msg_visitor := (bytes -> bool -> Z -> St world unit).
Abbreviation summary_visitor :=
  (bytes -> bytes -> bytes -> option bytes -> bool -> Z -> St world unit).

Section History.
Context `{OS} `{Crypto}.

(** ** Opening *)

Definition db_exec_sql (sql : String.string) : St world nox_err :=
  r ← call (SqlExec sql);
  mret (if sr_ret r =? 0 then NOX_OK else NOX_ERR_DB).

(** The checks on contacts.db through the directory descriptor, before SQLite
    opens it by path.  True: go on. *)
Definition db_verify_file (config_dir_fd : Z) : St world bool :=
  r ← call (Openat config_dir_fd CONTACTS_DB DB_CHECK_FLAGS);
  let vfd := sr_ret r in
  if 0 <=? vfd then
    st ← call (Fstat vfd);
    if negb (sr_ret st =? 0) then _ ← call_ (Close vfd); mret false
    else
      mode ← call (StatField vfd St_mode);
      if negb (is_mode (sr_ret mode) S_IFREG) then _ ← call_ (Close vfd); mret false
      else
        owner ← call (StatField vfd St_uid);
        me ← call Getuid;
        if negb (sr_ret owner =? sr_ret me) then _ ← call_ (Close vfd); mret false
        else
          _ ← (if negb (Z.land (sr_ret mode) 0x3F =? 0) then call_ (Fchmod vfd 0x180) else skip);
          _ ← call_ (Close vfd);
          mret true
  else if negb (sr_errno r =? ENOENT) then mret false
  else
    r ← call (Openat config_dir_fd CONTACTS_DB DB_CREATE_FLAGS);
    if 0 <=? sr_ret r then _ ← call_ (Close (sr_ret r)); mret true
    else mret (sr_errno r =? EEXIST).

(** The statements of db_init, stopping at the first that fails. *)
Definition DB_SCHEMA : list String.string :=
  ["PRAGMA"; "CREATE TABLE contacts"; "CREATE TABLE queue"; "CREATE TABLE messages"]%string.

Fixpoint db_schema (l : list String.string) : St world nox_err :=
  match l with
  | [] => mret NOX_OK
  | sql :: l => e ← db_exec_sql sql; if err_ok e then db_schema l else mret e
  end.

Definition forget_key : St world unit := upd_db (fun d => d <| db_key := None |>).

(** db_init once the key is noted: check the file, open it, create the tables.
    On every failure the key is forgotten again. *)
Definition db_open (db_path : bytes) (config_dir_fd : Z) : St world nox_err :=
  if NOX_PATH_MAX <=? len db_path then _ ← forget_key; mret NOX_ERR_CONFIG
  else
    ok ← (if 0 <=? config_dir_fd then db_verify_file config_dir_fd else mret true);
    if negb ok then _ ← forget_key; mret NOX_ERR_DB
    else
      r ← call (SqlOpen db_path);
      if negb (sr_ret r =? 0) then
        _ ← call_ SqlClose; _ ← forget_key; mret NOX_ERR_DB
      else
        _ ← call_ (Chmod db_path 0x180);
        e ← db_schema DB_SCHEMA;
        if negb (err_ok e) then
          _ ← call_ SqlClose; _ ← forget_key; mret e
        else
          _ ← db_exec_sql "CREATE INDEX";
          _ ← upd_db (fun d => d <| db_ready := true |>);
          mret NOX_OK.

Definition db_init (config_dir : bytes) (config_dir_fd : Z) (key : bytes) : St world nox_err :=
  d ← gets w_db;
  if db_ready d then mret NOX_ERR_STATE
  else
    _ ← upd_db (fun d => d <| db_key := Some key |>);
    db_open (config_dir ++ lit "/" ++ CONTACTS_DB) config_dir_fd.

(** ** Messages *)

Definition db_save_message (peer_onion text : bytes) (is_outgoing : bool) (timestamp : Z)
    : St world nox_err :=
  d ← gets w_db;
  if negb (db_ready d) then mret NOX_ERR_STATE
  else if DB_MAX_MSG_LEN <? len text then mret NOX_ERR_DB
  else
    let payload := text ++ [NUL] in
    let cipher_len := len payload + SECRETBOX_MACBYTES in
    ok ← alloc cipher_len;
    if negb ok then mret NOX_ERR_ALLOC
    else
      '(err, nonce, cipher) ← encrypt_payload payload cipher_len;
      if negb (err_ok err) then mret err
      else
        let '(err, hash) := hash_onion d peer_onion in
        if negb (err_ok err) then mret err
        else
          ok ← sql_ok (SqlPrepare "INSERT INTO messages");
          if negb ok then mret NOX_ERR_DB
          else
            ok ← bind_all 1 5;
            if negb ok then mret NOX_ERR_DB
            else
              ok ← sql_ok SqlStep;
              if negb ok then mret NOX_ERR_DB
              else
                _ ← upd_db (fun d =>
                      d <| db_messages := db_messages d ++
                             [MessageRow (db_messages_next d) hash nonce cipher timestamp
                                is_outgoing] |>
                        <| db_messages_next := db_messages_next d + 1 |>);
                mret NOX_OK.

(** ORDER BY timestamp ASC, id ASC *)
Definition row_le (a b : message_row) : bool :=
  (mr_timestamp a <? mr_timestamp b)
    || ((mr_timestamp a =? mr_timestamp b) && (mr_id a <=? mr_id b)).
Fixpoint insert_row (r : message_row) (l : list message_row) : list message_row :=
  match l with
  | [] => [r]
  | x :: l' => if row_le r x then r :: l else x :: insert_row r l'
  end.
Definition order_rows (l : list message_row) : list message_row := foldr insert_row [] l.

(** (SELECT ... WHERE peer_hash = ? ORDER BY timestamp DESC, id DESC LIMIT ?)
    ORDER BY timestamp ASC, id ASC *)
Definition conversation (hash : bytes) (l : list message_row) : list message_row :=
  order_rows (filter (fun r => mr_peer_hash r = hash) l).
Definition newest_rows (hash : bytes) (limit : Z) (l : list message_row) : list message_row :=
  reverse (take (Z.to_nat limit) (reverse (conversation hash l))).

Fixpoint visit_history (rows : list message_row) (visitor : msg_visitor) : St world nox_err :=
  match rows with
  | [] => mret NOX_OK
  | row :: rows =>
      ok ← sql_ok SqlStep;
      if negb ok then mret NOX_OK
      else if len (mr_payload row) <=? SECRETBOX_MACBYTES then visit_history rows visitor
      else
        let expected_plain := len (mr_payload row) - SECRETBOX_MACBYTES in
        ok ← alloc (expected_plain + 1);
        if negb ok then mret NOX_ERR_ALLOC
        else
          d ← gets w_db;
          let '(err, plain) := db_decrypt_row d (mr_nonce row) (mr_payload row) expected_plain in
          _ ← (if err_ok err then visitor (cstr plain) (mr_is_outgoing row) (mr_timestamp row)
               else skip);
          visit_history rows visitor
  end.

Definition db_get_history (peer_onion : bytes) (limit : Z) (visitor : msg_visitor)
    : St world nox_err :=
  d ← gets w_db;
  if negb (db_ready d) then mret NOX_ERR_STATE
  else
    let limit := if limit <=? 0 then HISTORY_DEFAULT_LIMIT else limit in
    let '(err, hash) := hash_onion d peer_onion in
    if negb (err_ok err) then mret err
    else
      ok ← sql_ok (SqlPrepare "SELECT ... FROM messages");
      if negb ok then mret NOX_ERR_DB
      else
        ok ← bind_all 1 2;
        if negb ok then mret NOX_ERR_DB
        else visit_history (newest_rows hash limit (db_messages d)) visitor.

(** ** Contacts with their last message *)

Definition last_row (hash : bytes) (l : list message_row) : option message_row :=
  last (conversation hash l).

(** The last message of a contact: its text if it can be decrypted, its
    direction and time. *)
Definition last_message (d : db_state) (hash : bytes) : St world (option bytes * bool * Z) :=
  ok ← sql_ok SqlStep;
  match (if ok : bool then last_row hash (db_messages d) else None) with
  | None => mret (None, false, 0)
  | Some row =>
      let rest := (mr_is_outgoing row, mr_timestamp row) in
      if (len (mr_nonce row) =? Z.of_nat NOX_NONCE_LEN)
         && (SECRETBOX_MACBYTES <? len (mr_payload row))
      then
        let expected := len (mr_payload row) - SECRETBOX_MACBYTES in
        ok ← alloc (expected + 1);
        if negb ok then mret (None, rest.1, rest.2)
        else
          let '(err, plain) := decrypt_payload d (mr_payload row) (mr_nonce row) expected in
          mret (if err_ok err then Some (cstr plain) else None, rest.1, rest.2)
      else mret (None, rest.1, rest.2)
  end.

Fixpoint visit_summaries (rows : list contact_row) (visitor : summary_visitor) : St world unit :=
  match rows with
  | [] => skip
  | row :: rows =>
      ok ← sql_ok SqlStep;
      if negb ok then skip
      else if negb (len (cr_nonce row) =? Z.of_nat NOX_NONCE_LEN) || (len (cr_payload row) <=? 0)
      then visit_summaries rows visitor
      else
        d ← gets w_db;
        let '(err, cp) := decrypt_payload d (cr_payload row) (cr_nonce row) CONTACT_PAYLOAD_SIZE in
        if negb (err_ok err) then visit_summaries rows visitor
        else
          let cp := pad_to (Z.to_nat CONTACT_PAYLOAD_SIZE) cp in
          ok ← sql_ok (SqlBind 1);
          if negb ok then visit_summaries rows visitor
          else
            '(text, outgoing, ts) ← last_message d (cr_onion_hash row);
            _ ← visitor (cstr (take 63 cp)) (cstr (take 65 (drop 63 cp))) (drop 128 cp)
                  text outgoing ts;
            visit_summaries rows visitor
  end.

Definition db_list_contacts_with_summary (visitor : summary_visitor) : St world nox_err :=
  d ← gets w_db;
  if negb (db_ready d) then mret NOX_ERR_STATE
  else
    ok ← sql_ok (SqlPrepare "SELECT nonce, encrypted_payload, onion_hash FROM contacts;");
    if negb ok then mret NOX_ERR_DB
    else
      ok ← sql_ok (SqlPrepare "SELECT ... FROM messages LIMIT 1");
      if negb ok then mret NOX_ERR_DB
      else
        _ ← visit_summaries (db_contacts d) visitor;
        mret NOX_OK.

(** DELETE FROM messages WHERE peer_hash = ? *)
Definition db_delete_conversation (peer_onion : bytes) : St world nox_err :=
  d ← gets w_db;
  if negb (db_ready d) then mret NOX_ERR_STATE
  else
    let '(err, hash) := hash_onion d peer_onion in
    if negb (err_ok err) then mret err
    else
      ok ← sql_ok (SqlPrepare "DELETE FROM messages WHERE peer_hash");
      if negb ok then mret NOX_ERR_DB
      else
        ok ← sql_ok (SqlBind 1);
        if negb ok then mret NOX_ERR_DB
        else
          ok ← sql_ok SqlStep;
          if negb ok then mret NOX_ERR_DB
          else
            _ ← upd_db (fun d => d <| db_messages :=
                  filter (fun r => mr_peer_hash r <> hash) (db_messages d) |>);
            mret NOX_OK.

End History.
