(* ===== verification/HistoryProofs.v ===== *)
(** * Theorems about the message history and the state of the database

    Well-formedness of the tables under every operation; what is saved is read
    back in order; deleting one conversation leaves the others alone. *)

From S2P Require Import Prelude Primitives Types World Network Database DatabaseProofs.
From S2P Require Import FileTransfer History.
From Stdlib Require Import Sorted.

(** ** Well-formed tables *)

(** Ids ascend and are below the next one AUTOINCREMENT gives out. *)
Definition ids_ok (ids : list Z) (next : Z) : Prop :=
  StronglySorted Z.lt ids /\ Forall (fun i => i < next) ids.

Record db_wf (d : db_state) : Prop := DbWf {
  wf_key : db_ready d = true -> is_Some (db_key d);
  wf_contacts : NoDup (cr_onion_hash <$> db_contacts d);
  wf_queue : ids_ok (qr_id <$> db_queue d) (db_queue_next d);
  wf_messages : ids_ok (mr_id <$> db_messages d) (db_messages_next d) }.

Definition wf_rel (w w' : world) : Prop := db_wf (w_db w) -> db_wf (w_db w').

#[global] Instance wf_rel_preorder : PreOrder wf_rel.
Proof. split; [by intros w Hw|]. intros x y z H1 H2 Hx. by apply H2, H1. Qed.

Lemma ids_ok_snoc ids next : ids_ok ids next -> ids_ok (ids ++ [next]) (next + 1).
Proof.
  intros [Hs Hf]. split.
  - induction ids as [|x ids IH]; cbn; [repeat constructor|].
    apply StronglySorted_inv in Hs as [Hs Hx]. apply Forall_cons in Hf as [Hxn Hf].
    constructor; [auto|]. apply Forall_app. split; [done|]. by repeat constructor.
  - apply Forall_app. split; [|repeat constructor; lia].
    eapply Forall_impl; [exact Hf|]. cbn. lia.
Qed.

Lemma sorted_filter {A} (P : A -> Prop) `{!forall x, Decision (P x)} (f : A -> Z) (l : list A) :
  StronglySorted Z.lt (f <$> l) -> StronglySorted Z.lt (f <$> filter P l).
Proof.
  induction l as [|x l IH]; [done|]. intros Hs. cbn [fmap list_fmap] in Hs.
  apply StronglySorted_inv in Hs as [Hs Hf]. rewrite filter_cons.
  destruct (decide (P x)); [|by apply IH].
  cbn [fmap list_fmap]. constructor; [by apply IH|]. apply Forall_fmap.
  rewrite Forall_fmap in Hf. apply Forall_forall. intros y Hy%list_elem_of_filter.
  rewrite Forall_forall in Hf. apply Hf, Hy.
Qed.

Lemma ids_ok_filter {A} (P : A -> Prop) `{!forall x, Decision (P x)} (f : A -> Z) (l : list A) next :
  ids_ok (f <$> l) next -> ids_ok (f <$> filter P l) next.
Proof.
  intros [Hs Hf]. split; [by apply sorted_filter|]. apply Forall_fmap.
  rewrite Forall_fmap in Hf. rewrite Forall_forall in *. intros y Hy%list_elem_of_filter.
  apply Hf, Hy.
Qed.

Lemma contacts_replace_nodup row l :
  NoDup (cr_onion_hash <$> l) -> NoDup (cr_onion_hash <$> contacts_replace row l).
Proof.
  intros Hl. unfold contacts_replace. rewrite fmap_app. apply NoDup_app. split_and!.
  - induction l as [|x l IH]; [done|]. rewrite filter_cons. cbn in Hl.
    apply NoDup_cons in Hl as [Hx Hl]. destruct (decide _); [|by apply IH].
    cbn. apply NoDup_cons. split; [|by apply IH]. intros Hin. apply Hx.
    apply list_elem_of_fmap in Hin as (y & -> & Hy%list_elem_of_filter).
    apply list_elem_of_fmap. exists y. by destruct Hy.
  - intros h Hh Hrow. apply list_elem_of_fmap in Hh as (y & -> & Hy%list_elem_of_filter).
    cbn in Hrow. apply list_elem_of_singleton in Hrow. by destruct Hy as [Hy _].
  - cbn. apply NoDup_singleton.
Qed.

Section HistoryProofs.
Context `{HOS : OS} `{HC : Crypto}.

Lemma wf_keeps {A} (m : St world A) : keeps w_db m -> within wf_rel m.
Proof. intros Hm w Hw. by rewrite Hm. Qed.

Lemma wf_upd f : (forall d, db_wf d -> db_wf (f d)) -> within wf_rel (upd_db f).
Proof. intros Hf w Hw. by apply Hf. Qed.

Lemma keeps_db_sql_ok c : keeps w_db (sql_ok c).
Proof. unfold sql_ok. keep_code. Qed.
#[local] Hint Resolve keeps_db_sql_ok : keeps.

Lemma keeps_db_bind_all n i : keeps w_db (bind_all i n).
Proof. revert i. induction n as [|n IH]; intros i; cbn [bind_all]; keep_code. Qed.
#[local] Hint Resolve keeps_db_bind_all : keeps.

Lemma keeps_db_encrypt p c : keeps w_db (encrypt_payload p c).
Proof. unfold encrypt_payload. keep_code. Qed.
#[local] Hint Resolve keeps_db_encrypt : keeps.

Lemma keeps_db_exec sql : keeps w_db (db_exec_sql sql).
Proof. unfold db_exec_sql. keep_code. Qed.
#[local] Hint Resolve keeps_db_exec : keeps.

Lemma keeps_db_schema l : keeps w_db (db_schema l).
Proof. induction l; cbn [db_schema]; keep_code. Qed.
#[local] Hint Resolve keeps_db_schema : keeps.

Lemma keeps_db_verify fd : keeps w_db (db_verify_file fd).
Proof. unfold db_verify_file. keep_code. Qed.
#[local] Hint Resolve keeps_db_verify : keeps.

(** Follow the code; updates are left. *)
Ltac wf_code := within_code ltac:(apply wf_keeps; eauto with keeps typeclass_instances).

Lemma wf_queue_delete id : within wf_rel (db_queue_delete id).
Proof.
  unfold db_queue_delete. wf_code. apply wf_upd. intros d []. split; cbn; try done.
  by apply ids_ok_filter.
Qed.

Lemma wf_add_contact onion name key : within wf_rel (db_add_contact onion name key).
Proof.
  unfold db_add_contact. wf_code. apply wf_upd. intros d' []. split; cbn; try done.
  by apply contacts_replace_nodup.
Qed.

Lemma wf_queue_message onion text : within wf_rel (db_queue_message onion text).
Proof.
  unfold db_queue_message. wf_code. apply wf_upd. intros d' []. split; cbn; try done.
  rewrite fmap_app. by apply ids_ok_snoc.
Qed.

Lemma wf_rollback onion n : within wf_rel (db_queue_rollback_last onion n).
Proof.
  unfold db_queue_rollback_last. wf_code. apply wf_upd. intros d' []. split; cbn; try done.
  by apply ids_ok_filter.
Qed.

Lemma wf_save_message onion text out ts : within wf_rel (db_save_message onion text out ts).
Proof.
  unfold db_save_message. wf_code. apply wf_upd. intros d' []. split; cbn; try done.
  rewrite fmap_app. by apply ids_ok_snoc.
Qed.

Lemma wf_delete_conversation onion : within wf_rel (db_delete_conversation onion).
Proof.
  unfold db_delete_conversation. wf_code. apply wf_upd. intros d' []. split; cbn; try done.
  by apply ids_ok_filter.
Qed.

Lemma wf_close : within wf_rel db_close.
Proof. apply wf_upd. by intros d []. Qed.

Lemma keeps_db_queue_batch rows room : keeps w_db (queue_batch rows room).
Proof.
  revert room. induction rows as [|r rows IH]; intros room; cbn [queue_batch]; keep_code; apply IH.
Qed.

Lemma wf_process_queue onion send_fn :
  (forall t, within wf_rel (send_fn t)) -> within wf_rel (db_process_queue onion send_fn).
Proof.
  intros Hs. assert (forall b, within wf_rel (queue_send b send_fn)) as Hq.
  { induction b as [|r b IH]; cbn [queue_send]; wf_code; auto using wf_queue_delete. }
  unfold db_process_queue. wf_code; [apply wf_keeps, keeps_db_queue_batch|apply Hq].
Qed.

(** ** Opening *)

(** The three ways db_init can leave the database. *)
Definition opened (d : db_state) (key : bytes) (e : nox_err) (d' : db_state) : Prop :=
  (e = NOX_OK /\ db_ready d = false /\ d' = d <| db_key := Some key |> <| db_ready := true |>) \/
  (e = NOX_ERR_STATE /\ db_ready d = true /\ d' = d) \/
  (e <> NOX_OK /\ db_ready d = false /\ d' = d <| db_key := None |>).

Lemma hoare_keeps {A} (D : db_state) (m : St world A) :
  keeps w_db m -> hoare (fun w => w_db w = D) m (fun _ w => w_db w = D).
Proof. intros Hm w Hw. by rewrite Hm. Qed.

Ltac kept := apply hoare_keep; [apply hoare_keeps; keep_code|].

Lemma db_open_opened path fd d key :
  db_ready d = false ->
  hoare (fun w => w_db w = d <| db_key := Some key |>) (db_open path fd)
    (fun e w' => opened d key e (w_db w')).
Proof.
  intros Hr. unfold db_open. set (D1 := d <| db_key := Some key |>).
  assert (forall e, e <> NOX_OK -> hoare (fun w => w_db w = D1) (_ ← forget_key; mret e)
    (fun e w' => opened d key e (w_db w'))) as Hfail.
  { intros e He w0 Hw. right; right.
    split_and!; [done|done|]. cbn. unfold forget_key, upd_db. run_st. cbn. by rewrite Hw. }
  case_match; [by apply Hfail|].
  kept. intros []; cbn [negb]; [|by apply Hfail].
  kept. intros r. case_match; [kept; intros _; by apply Hfail|].
  kept. intros _. kept. intros e. destruct (err_ok e) eqn:Ee; cbn [negb].
  - kept. intros _. intros w0 Hw. left. split_and!; [done|done|].
    unfold upd_db. run_st. cbn. by rewrite Hw.
  - kept. intros _. apply Hfail. by intros ->.
Qed.

Lemma db_init_opened dir fd key w :
  opened (w_db w) key (db_init dir fd key w).1 (w_db (db_init dir fd key w).2).
Proof.
  unfold db_init. rewrite bind_eq. cbn [gets fst snd].
  destruct (db_ready (w_db w)) eqn:Er; [right; by left|].
  rewrite bind_eq. by apply db_open_opened.
Qed.

Lemma wf_init dir fd key : within wf_rel (db_init dir fd key).
Proof.
  intros w [Hk Hc Hq Hm].
  destruct (db_init_opened dir fd key w) as [(_ & _ & ->)|[(_ & _ & ->)|(_ & Hr & ->)]].
  - split; cbn; try done.
  - done.
  - split; cbn; try done. by rewrite Hr.
Qed.

(** ** Every sequence of operations *)

Inductive db_step (w : world) : world -> Prop :=
| step_init dir fd key : db_step w (db_init dir fd key w).2
| step_close : db_step w (db_close w).2
| step_add_contact onion name key : db_step w (db_add_contact onion name key w).2
| step_queue onion text : db_step w (db_queue_message onion text w).2
| step_rollback onion n : db_step w (db_queue_rollback_last onion n w).2
| step_process onion send_fn : (forall t, keeps w_db (send_fn t)) ->
    db_step w (db_process_queue onion send_fn w).2
| step_save onion text out ts : db_step w (db_save_message onion text out ts w).2
| step_delete onion : db_step w (db_delete_conversation onion w).2
| step_other w' : w_db w' = w_db w -> db_step w w'.


End HistoryProofs.

(** ** Saving, reading and deleting messages *)

Section Conversation.
Context `{HOS : OS} `{HC : Crypto} {HL : CryptoLaws HC}.

(** What a row says, if it can be read with the key of [d]. *)
Definition decode_row (d : db_state) (row : message_row) : option (bytes * bool * Z) :=
  if len (mr_payload row) <=? SECRETBOX_MACBYTES then None
  else
    let '(err, plain) :=
      db_decrypt_row d (mr_nonce row) (mr_payload row) (len (mr_payload row) - SECRETBOX_MACBYTES) in
    if err_ok err then Some (cstr plain, mr_is_outgoing row, mr_timestamp row) else None.

(** The conversation with an address, oldest first. *)
Definition history (d : db_state) (onion : bytes) : list (bytes * bool * Z) :=
  omap (decode_row d) (conversation (hash_onion d onion).2 (db_messages d)).

(** A row that belongs behind every row of [l]. *)
Definition newest (r : message_row) (l : list message_row) : Prop :=
  Forall (fun x => mr_timestamp x <= mr_timestamp r /\ mr_id x < mr_id r) l.

Lemma insert_row_snoc x r l :
  mr_timestamp x <= mr_timestamp r -> mr_id x < mr_id r ->
  insert_row x (l ++ [r]) = insert_row x l ++ [r].
Proof.
  intros Ht Hi. induction l as [|y l IH]; simpl.
  - assert (row_le x r = true) as E by (unfold row_le; lia). by rewrite E.
  - destruct (row_le x y); [done|]. by rewrite IH.
Qed.

Lemma order_rows_snoc l r : newest r l -> order_rows (l ++ [r]) = order_rows l ++ [r].
Proof.
  unfold order_rows. induction l as [|x l IH]; [done|]. intros [[Ht Hi] Hl]%Forall_cons.
  simpl. rewrite IH by done. by apply insert_row_snoc.
Qed.

Lemma conversation_snoc hash l r :
  mr_peer_hash r = hash -> newest r (filter (fun x => mr_peer_hash x = hash) l) ->
  conversation hash (l ++ [r]) = conversation hash l ++ [r].
Proof.
  intros Hr Hn. unfold conversation. rewrite filter_app, filter_cons, filter_nil.
  rewrite decide_True by done. by apply order_rows_snoc.
Qed.

Lemma conversation_other hash l r :
  mr_peer_hash r <> hash -> conversation hash (l ++ [r]) = conversation hash l.
Proof.
  intros Hr. unfold conversation. rewrite filter_app, filter_cons, filter_nil.
  rewrite decide_False by done. by rewrite app_nil_r.
Qed.

Lemma db_save_message_ok onion text out ts w k :
  env_ok -> db_ready (w_db w) = true -> db_key (w_db w) = Some k ->
  len onion = NOX_ONION_LEN -> len text <= DB_MAX_MSG_LEN ->
  exists w' row, db_save_message onion text out ts w = (NOX_OK, w') /\ w_app w' = w_app w /\
    w_db w' = w_db w <| db_messages := db_messages (w_db w) ++ [row] |>
                     <| db_messages_next := db_messages_next (w_db w) + 1 |> /\
    mr_id row = db_messages_next (w_db w) /\ mr_peer_hash row = blake2b_keyed 32 k onion /\
    mr_timestamp row = ts /\ mr_is_outgoing row = out /\ len (mr_nonce row) = 24 /\
    secretbox k (mr_nonce row) (text ++ [NUL]) = Some (mr_payload row).
Proof.
  intros He Hr Hk Ho Ht. unfold db_save_message, DB_MAX_MSG_LEN in *. run_st.
  rewrite Hr, (proj2 (Z.ltb_ge _ _)) by done. cbn [negb].
  destruct (alloc_true (len (text ++ [NUL]) + SECRETBOX_MACBYTES) w He) as (w1 & -> & Q1). run_ok.
  assert (len (text ++ [NUL]) = len text + 1) as Hp by (unfold len; rewrite length_app; cbn; lia).
  destruct (encrypt_payload_ok (text ++ [NUL]) (len (text ++ [NUL]) + SECRETBOX_MACBYTES) w1 k)
    as (nonce & c & w2 & -> & Q2 & Hnc & Hc & Ec);
    [apply He|by rewrite (proj2 (proj1 Q1))|lia|unfold SECRETBOX_MACBYTES; lia|].
  run_ok. rewrite (hash_onion_ok _ k) by done. run_ok.
  edestruct (sql_ok_true (SqlPrepare "INSERT INTO messages") w2) as (w3 & -> & Q3); [apply He|done|].
  run_ok. destruct (bind_all_true 5 1 w3 He) as (w4 & -> & Q4). run_ok.
  destruct (sql_ok_true SqlStep w4) as (w5 & -> & Q5); [apply He|done|]. run_ok.
  destruct (transitivity Q1 (transitivity Q2 (transitivity Q3 (transitivity Q4 Q5)))) as [[Ha Hd] _].
  eexists _, (MessageRow (db_messages_next (w_db w)) (blake2b_keyed 32 k onion) nonce c ts out).
  split; [done|]. cbn. by rewrite Ha, Hd.
Qed.

(** A saved message is the newest of its conversation and is read back with
    its text, direction and time; the conversations with other addresses, the
    contacts and the queue are untouched.  Time does not run backwards here:
    the new time stamp is not below those already stored for the address. *)
Theorem message_saved onion text out ts w k :
  env_ok -> db_wf (w_db w) -> db_ready (w_db w) = true -> db_key (w_db w) = Some k ->
  len onion = NOX_ONION_LEN -> len text <= DB_MAX_MSG_LEN -> NUL ∉ text ->
  Forall (fun r => mr_peer_hash r = (hash_onion (w_db w) onion).2 -> mr_timestamp r <= ts)
    (db_messages (w_db w)) ->
  exists w', db_save_message onion text out ts w = (NOX_OK, w') /\
    history (w_db w') onion = history (w_db w) onion ++ [(text, out, ts)] /\
    (forall other, (hash_onion (w_db w) other).2 <> (hash_onion (w_db w) onion).2 ->
       history (w_db w') other = history (w_db w) other) /\
    db_contacts (w_db w') = db_contacts (w_db w) /\ db_queue (w_db w') = db_queue (w_db w).
Proof.
  intros He Hwf Hr Hk Ho Ht Hnul Hts.
  destruct (db_save_message_ok onion text out ts w k) as
    (w' & row & E & _ & Ed & Hid & Hh & Htm & Hout & Hno & Hsb); [done..|].
  exists w'. split; [done|]. rewrite Ed. cbn [db_contacts db_queue db_messages set_field].
  rewrite (hash_onion_ok _ k) in Hts by done. cbn [snd] in Hts.
  assert (decode_row (w_db w) row = Some (text, out, ts)) as Hdec.
  { unfold decode_row. pose proof (secretbox_length _ _ _ _ Hsb) as Hl.
    rewrite length_app in Hl. cbn [length] in Hl. unfold SECRETBOX_MACBYTES.
    rewrite (proj2 (Z.leb_gt _ _)) by (unfold len; lia).
    rewrite (db_decrypt_row_ok _ k _ (text ++ [NUL])); [|done..|].
    - cbn [err_ok]. by rewrite cstr_app_nul, Htm, Hout.
    - unfold len. rewrite length_app. cbn [length]. lia. }
  split_and!; [| |done|done].
  - unfold history. cbn [db_messages set_field]. change (hash_onion (_ <| db_messages := _ |>
      <| db_messages_next := _ |>) onion) with (hash_onion (w_db w) onion).
    rewrite (hash_onion_ok _ k) by done. cbn [snd].
    rewrite conversation_snoc, omap_app; [|done|].
    + f_equal. cbn [omap list_omap]. change (decode_row _ row) with (decode_row (w_db w) row).
      by rewrite Hdec.
    + apply Forall_forall. intros x [Hx Hin]%list_elem_of_filter. rewrite Htm, Hid.
      rewrite Forall_forall in Hts. split; [by apply Hts|].
      destruct (wf_messages _ Hwf) as [_ Hids]. rewrite Forall_fmap, Forall_forall in Hids.
      by apply Hids.
  - intros other Hne. rewrite (hash_onion_ok _ k onion) in Hne by done. cbn [snd] in Hne.
    unfold history. cbn [db_messages set_field]. change (hash_onion (_ <| db_messages := _ |>
      <| db_messages_next := _ |>) other) with (hash_onion (w_db w) other).
    rewrite conversation_other by congruence. done.
Qed.

(** ** Reading *)

(** The calls the database itself makes while a visitor is served. *)
Definition is_db_call (c : syscall) : bool :=
  match c with SqlPrepare _ | SqlBind _ | SqlStep | Malloc _ => true | _ => false end.

Section Visit.
Variables (d : db_state) (visitor : msg_visitor) (P : list (bytes * bool * Z) -> world -> Prop).
Hypothesis P_quiet : forall seen w c,
  P seen w -> is_db_call c = true -> P seen (w <| w_tr := c :: w_tr w |>).
Hypothesis P_visit : forall seen text out ts w,
  P seen w -> w_db w = d -> P (seen ++ [(text, out, ts)]) (visitor text out ts w).2.
Hypothesis visitor_db : forall text out ts, keeps w_db (visitor text out ts).

Definition seen_so_far (seen : list (bytes * bool * Z)) (w : world) : Prop := P seen w /\ w_db w = d.

Lemma seen_sql_ok c seen w :
  env_ok -> is_db_call c = true -> sr_ret (os_answer (w_tr w) c) = 0 -> seen_so_far seen w ->
  exists w', sql_ok c w = (true, w') /\ seen_so_far seen w'.
Proof.
  intros He Hc Hr [Hp Hd]. unfold sql_ok. run_st. rewrite call_eq, Hr. eexists.
  split; [done|]. split; [by apply P_quiet|done].
Qed.

Lemma seen_alloc n seen w :
  env_ok -> seen_so_far seen w -> exists w', alloc n w = (true, w') /\ seen_so_far seen w'.
Proof.
  intros He [Hp Hd]. unfold alloc, lift_tr, malloc_ok, sys. run_st.
  rewrite (proj2 (Z.eqb_neq _ _)) by apply He. eexists. split; [done|].
  split; [by apply P_quiet|done].
Qed.

Lemma seen_bind_all n i seen w :
  env_ok -> seen_so_far seen w -> exists w', bind_all i n w = (true, w') /\ seen_so_far seen w'.
Proof.
  intros He. revert i w. induction n as [|n IH]; intros i w Hs; [by eexists|].
  cbn [bind_all]. run_st.
  destruct (seen_sql_ok (SqlBind i) seen w) as (w1 & -> & H1); [done|done|apply He|done|].
  by apply IH.
Qed.

Lemma visit_history_spec rows seen w :
  env_ok -> seen_so_far seen w ->
  exists w', visit_history rows visitor w = (NOX_OK, w') /\
    seen_so_far (seen ++ omap (decode_row d) rows) w'.
Proof.
  intros He. revert seen w. induction rows as [|row rows IH]; intros seen w Hs.
  { exists w. cbn. by rewrite app_nil_r. }
  cbn [visit_history]. run_st.
  destruct (seen_sql_ok SqlStep seen w) as (w1 & -> & H1); [done|done|apply He|done|]. cbn [negb].
  cbn [omap list_omap]. unfold decode_row at 1. destruct (_ <=? _); [by apply IH|].
  destruct (seen_alloc (len (mr_payload row) - SECRETBOX_MACBYTES + 1) seen w1 He H1)
    as (w2 & -> & [H2 Hd]). cbn [negb]. run_st. rewrite Hd.
  destruct (db_decrypt_row _ _ _ _) as [err plain]. destruct (err_ok err).
  - pose proof (P_visit seen (cstr plain) (mr_is_outgoing row) (mr_timestamp row) w2 H2 Hd) as H3.
    pose proof (visitor_db (cstr plain) (mr_is_outgoing row) (mr_timestamp row) w2) as E3.
    destruct (visitor _ _ _ w2) as [[] w3]. cbn [fst snd] in *.
    rewrite cons_middle, app_assoc. apply IH. split; [done|congruence].
  - by apply IH.
Qed.

(** db_get_history calls its visitor with the newest messages of the
    conversation, at most the limit (1000 if none is given), oldest first, each
    once and decrypted; rows that cannot be read with the key are skipped. *)
Theorem history_visited onion limit w k :
  env_ok -> db_ready d = true -> db_key d = Some k -> len onion = NOX_ONION_LEN ->
  w_db w = d -> P [] w ->
  exists w', db_get_history onion limit visitor w = (NOX_OK, w') /\
    let conv := conversation (blake2b_keyed 32 k onion) (db_messages d) in
    let n := Z.to_nat (if limit <=? 0 then 1000 else limit) in
    P (omap (decode_row d) (drop (length conv - n) conv)) w'.
Proof.
  intros He Hr Hk Ho Hd Hp. unfold db_get_history. run_st. rewrite Hd, Hr. cbn [negb].
  rewrite (hash_onion_ok _ k) by done. run_ok.
  edestruct (seen_sql_ok (SqlPrepare "SELECT ... FROM messages") [] w) as (w1 & -> & H1);
    [done|done|apply He|done|]. run_ok.
  destruct (seen_bind_all 2 1 [] w1 He H1) as (w2 & -> & H2). run_ok.
  destruct (visit_history_spec (newest_rows (blake2b_keyed 32 k onion)
    (if limit <=? 0 then HISTORY_DEFAULT_LIMIT else limit) (db_messages d)) [] w2 He H2)
    as (w3 & -> & H3 & _).
  exists w3. split; [done|]. cbn zeta. unfold newest_rows in H3.
  by rewrite take_reverse, reverse_involutive in H3.
Qed.

End Visit.

Lemma filter_contradiction {A} (Q : A -> Prop) `{!forall x, Decision (Q x)} (l : list A) :
  (forall x, ~ Q x) -> filter Q l = [].
Proof.
  intros HQ. induction l as [|x l IH]; [done|]. rewrite filter_cons. case_decide; [|done].
  by destruct (HQ x).
Qed.

(** Deleting a conversation empties it and leaves the conversations with
    other addresses, the contacts and the queue as they were. *)
Theorem conversation_deleted onion w k :
  env_ok -> db_ready (w_db w) = true -> db_key (w_db w) = Some k -> len onion = NOX_ONION_LEN ->
  exists w', db_delete_conversation onion w = (NOX_OK, w') /\
    history (w_db w') onion = [] /\
    (forall other, (hash_onion (w_db w) other).2 <> (hash_onion (w_db w) onion).2 ->
       history (w_db w') other = history (w_db w) other) /\
    db_contacts (w_db w') = db_contacts (w_db w) /\ db_queue (w_db w') = db_queue (w_db w).
Proof.
  intros He Hr Hk Ho. unfold db_delete_conversation. run_st. rewrite Hr. cbn [negb].
  rewrite (hash_onion_ok _ k) by done. run_ok.
  edestruct (sql_ok_true (SqlPrepare "DELETE FROM messages WHERE peer_hash") w) as (w1 & -> & Q1);
    [apply He|done|]. run_ok.
  destruct (sql_ok_true (SqlBind 1) w1) as (w2 & -> & Q2); [apply He|done|]. run_ok.
  destruct (sql_ok_true SqlStep w2) as (w3 & -> & Q3); [apply He|done|]. run_ok.
  destruct (transitivity Q1 (transitivity Q2 Q3)) as [[_ Hd] _].
  eexists. split; [done|]. cbn [w_db set_field]. rewrite Hd.
  set (h := blake2b_keyed 32 k onion). split_and!; [| |done|done].
  - unfold history. cbn [db_messages set_field].
    change (hash_onion (_ <| db_messages := _ |>) onion) with (hash_onion (w_db w) onion).
    rewrite (hash_onion_ok _ k) by done. cbn [snd]. fold h. unfold conversation.
    rewrite list_filter_filter, (filter_contradiction (fun a => mr_peer_hash a = h /\ mr_peer_hash a <> h)); [done|]. by intros x [].
  - intros other Hne. unfold history. cbn [db_messages set_field].
    change (hash_onion (_ <| db_messages := _ |>) other) with (hash_onion (w_db w) other).
    unfold conversation. rewrite list_filter_filter. do 2 f_equal.
    apply list_filter_iff. intros x. split; [by intros []|]. intros Hx. split; [done|].
    rewrite Hx. exact Hne.
Qed.

(** A database that is not open refuses every operation with NOX_ERR_STATE
    and changes nothing. *)
Theorem closed_db_refuses w :
  db_ready (w_db w) = false ->
  (forall o n key, db_add_contact o n key w = (NOX_ERR_STATE, w)) /\
  (forall o n, (db_get_contact o n w).1.1.1 = NOX_ERR_STATE /\ (db_get_contact o n w).2 = w) /\
  (forall o t, db_queue_message o t w = (NOX_ERR_STATE, w)) /\
  (forall o n, 0 < n -> db_queue_rollback_last o n w = (NOX_ERR_STATE, w)) /\
  (forall o f, db_process_queue o f w = (NOX_ERR_STATE, w)) /\
  (forall v, db_list_contacts v w = (NOX_ERR_STATE, w)) /\
  (forall o t b ts, db_save_message o t b ts w = (NOX_ERR_STATE, w)) /\
  (forall o l v, db_get_history o l v w = (NOX_ERR_STATE, w)) /\
  (forall v, db_list_contacts_with_summary v w = (NOX_ERR_STATE, w)) /\
  (forall o, db_delete_conversation o w = (NOX_ERR_STATE, w)).
Proof.
  intros Hr. split_and!; intros;
    unfold db_add_contact, db_get_contact, db_queue_message, db_queue_rollback_last,
      db_process_queue, db_list_contacts, db_save_message, db_get_history,
      db_list_contacts_with_summary, db_delete_conversation;
    try rewrite (proj2 (Z.leb_gt _ _)) by done;
    cbv beta iota delta [mbind St_bind gets]; by rewrite Hr.
Qed.

End Conversation.

(** ** Witnesses *)

Section Witnesses.
#[local] Existing Instance kind_os.
#[local] Existing Instance toy_crypto.

Lemma boot_db_wf : db_wf boot_db.
Proof. split; cbn; [by eexists|constructor|split; constructor|split; constructor]. Qed.

Definition boot_saved : world := (db_save_message alice_onion (lit "hi") true 5 boot).2.


Lemma message_saved_witness :
  exists w', db_save_message alice_onion (lit "hi") true 5 boot = (NOX_OK, w') /\
    history (w_db w') alice_onion = history (w_db boot) alice_onion ++ [(lit "hi", true, 5)].
Proof.
  destruct (message_saved alice_onion (lit "hi") true 5 boot (replicate 32 Byte.x14))
    as (w' & E & Hh & _); [exact kind_env_ok|exact boot_db_wf|reflexivity|reflexivity|reflexivity
    |discriminate|apply (bool_decide_unpack _); exact I|constructor|].
  exists w'. exact (conj E Hh).
Defined.

(** A visitor that shows the text. *)
Definition show : msg_visitor := fun text _ _ => call_ (UiIncoming text).

Lemma history_visited_witness :
  exists w', db_get_history alice_onion 0 show boot_saved = (NOX_OK, w') /\ sent w' = [lit "hi"].
Proof.
  destruct (history_visited (w_db boot_saved) show
    (fun seen w => sent w = map (fun m => m.1.1) seen)) with
    (onion := alice_onion) (limit := 0) (w := boot_saved) (k := replicate 32 Byte.x14)
    as (w' & E & Hs).
  - intros seen w c Hp Hc. rewrite <-Hp. apply quiet_call. by destruct c.
  - intros seen text out ts w Hp _. rewrite map_app, <-Hp. unfold sent.
    change (w_tr (show text out ts w).2) with (UiIncoming text :: w_tr w).
    by rewrite reverse_cons, omap_app.
  - intros text out ts. unfold show. keep_code.
  - exact kind_env_ok.
  - reflexivity.
  - reflexivity.
  - reflexivity.
  - reflexivity.
  - vm_compute. reflexivity.
  - exists w'. split; [exact E|]. rewrite Hs. vm_compute. reflexivity.
Defined.

Lemma conversation_deleted_witness :
  exists w', db_delete_conversation alice_onion boot_saved = (NOX_OK, w') /\
    history (w_db w') alice_onion = [].
Proof.
  destruct (conversation_deleted alice_onion boot_saved (replicate 32 Byte.x14))
    as (w' & E & Hh & _); [exact kind_env_ok|reflexivity|reflexivity|reflexivity|].
  exists w'. exact (conj E Hh).
Defined.

Lemma closed_db_refuses_witness :
  db_save_message alice_onion (lit "hi") true 5 (db_close boot).2 = (NOX_ERR_STATE, (db_close boot).2).
Proof. apply (closed_db_refuses (db_close boot).2). reflexivity. Defined.

End Witnesses.
