(* ===== verification/Keys.v ===== *)
(** * The key store: src/crypto.c

    From the PIN to the master key, from the master key to the subkeys and the
    onion seed, the salt file and the encrypted identity file.  A function that
    fills buffers of the caller returns their contents; a buffer that the code
    wipes is returned as zeros.  The loops that retry after EINTR have fuel for
    every byte plus [IO_RETRIES] interruptions. *)

From S2P Require Import Prelude Primitives Types Network FileTransfer.

Definition NOX_SALT_LEN : Z := 16.
Definition NOX_PIN_MIN_LEN : Z := 8.
Definition NOX_PIN_MAX_LEN : Z := 128.
Definition SIGN_SECRETKEYBYTES : Z := 64.
Definition KEY_NONCE_LEN : Z := 24.
Definition IDENTITY_FILE_SIZE : Z := KEY_NONCE_LEN + SIGN_SECRETKEYBYTES + 16.
Definition NOX_KDF_CTX : bytes := lit "noxtor__".

Inductive nox_subkey_id :=
| NOX_SUBKEY_DB | NOX_SUBKEY_IDENTITY_UNLOCK | NOX_SUBKEY_SESSION | NOX_SUBKEY_ONION_SEED.

Definition subkey_num (i : nox_subkey_id) : Z :=
  match i with
  | NOX_SUBKEY_DB => 1 | NOX_SUBKEY_IDENTITY_UNLOCK => 2
  | NOX_SUBKEY_SESSION => 3 | NOX_SUBKEY_ONION_SEED => 4
  end.

Definition SALT_NAME : bytes := lit "salt".
Definition IDENTITY_NAME : bytes := lit "identity.key".
Definition KEY_RDONLY : Z := Z.lor 0x80000 0x20000.
Definition KEY_CREATE : Z := Z.lor KEY_RDONLY (Z.lor 0x1 (Z.lor 0x40 0x80)).
Definition EINVAL : Z := 22.
Definition ENOTSUP : Z := 95.

(** ["%02x"] of each byte, and ["%d"] of a pid. *)
Definition hex_digit (z : Z) : byte :=
  byte.of_Z (if z <? 10 then z + 48 else z + 87).
Definition hex_byte (b : byte) : bytes :=
  [hex_digit (byte.unsigned b / 16); hex_digit (byte.unsigned b mod 16)].
Fixpoint decimal (fuel : nat) (z : Z) (acc : bytes) : bytes :=
  match fuel with
  | O => acc
  | S fuel =>
      let acc := byte.of_Z (z mod 10 + 48) :: acc in
      if z <? 10 then acc else decimal fuel (z / 10) acc
  end.
Definition tmp_name (prefix : bytes) (pid : Z) (rnd : bytes) : bytes :=
  prefix ++ lit ".tmp." ++ decimal 10 pid [] ++ lit "." ++ concat (hex_byte <$> rnd).

Section Keys.
Context `{OS}.

(** ** Files *)

Fixpoint read_exact (fuel : nat) (fd : Z) (remaining : Z) (got : bytes)
    : St trace (nox_err * bytes) :=
  if remaining <=? 0 then mret (NOX_OK, got)
  else
    match fuel with
    | O => mret (NOX_ERR_IO, got)
    | S fuel =>
        r ← sys (Read fd remaining);
        if sr_ret r <? 0 then
          if sr_errno r =? EINTR then read_exact fuel fd remaining got else mret (NOX_ERR_IO, got)
        else if sr_ret r =? 0 then mret (NOX_ERR_IO, got)
        else read_exact fuel fd (remaining - sr_ret r)
               (got ++ pad_to (Z.to_nat (sr_ret r)) (sr_data r))
    end.

Fixpoint write_exact (fuel : nat) (fd : Z) (data : bytes) : St trace nox_err :=
  match data with
  | [] => mret NOX_OK
  | _ =>
      match fuel with
      | O => mret NOX_ERR_IO
      | S fuel =>
          r ← sys (Write fd data);
          if sr_ret r <? 0 then
            if sr_errno r =? EINTR then write_exact fuel fd data else mret NOX_ERR_IO
          else if sr_ret r =? 0 then mret NOX_ERR_IO
          else write_exact fuel fd (drop (Z.to_nat (sr_ret r)) data)
      end
  end.

(** [do r = fsync(fd); while (r != 0 && errno == EINTR)] *)
Fixpoint fsync_retry (fuel : nat) (fd : Z) : St trace sysret :=
  r ← sys (Fsync fd);
  match fuel with
  | O => mret r
  | S fuel =>
      if negb (sr_ret r =? 0) && (sr_errno r =? EINTR) then fsync_retry fuel fd else mret r
  end.

Definition fsync_exact (fd : Z) : St trace nox_err :=
  r ← fsync_retry IO_RETRIES fd;
  mret (if sr_ret r =? 0 then NOX_OK else NOX_ERR_IO).

Definition fsync_dir (dirfd : Z) : St trace nox_err :=
  r ← fsync_retry IO_RETRIES dirfd;
  mret (if sr_ret r =? 0 then NOX_OK
        else if (sr_errno r =? EINVAL) || (sr_errno r =? ENOTSUP) then NOX_OK
        else NOX_ERR_IO).

Definition crypto_global_init : St trace nox_err :=
  r ← sys SodiumInit; mret (if sr_ret r <? 0 then NOX_ERR_CRYPTO else NOX_OK).

(** [randombytes_buf]: exactly n bytes. *)
Definition random_bytes (n : Z) : St trace bytes :=
  r ← sys (RandomBytes n); mret (pad_to (Z.to_nat n) (sr_data r)).

Definition drop_tmp (dirfd : Z) (name : bytes) : St trace unit :=
  _ ← sys (Unlinkat dirfd name); mret tt.

(** ** Salt *)

(** The file is there: its size must be right and it is never written. *)
Definition load_salt (fd : Z) : St trace (nox_err * bytes) :=
  st ← sys (Fstat fd);
  if negb (sr_ret st =? 0) then _ ← sys (Close fd); mret (NOX_ERR_IO, zeros 16)
  else
    size ← sys (StatField fd St_size);
    if negb (sr_ret size =? NOX_SALT_LEN) then _ ← sys (Close fd); mret (NOX_ERR_IO, zeros 16)
    else
      '(err, salt) ← read_exact (16 + IO_RETRIES) fd NOX_SALT_LEN [];
      _ ← sys (Close fd);
      mret (err, salt).

(** Write a temporary file, sync it, rename it, sync the directory. *)
Definition create_salt (config_dir_fd : Z) : St trace (nox_err * bytes) :=
  salt ← random_bytes NOX_SALT_LEN;
  rnd ← random_bytes 4;
  pid ← sys Getpid;
  let tmp := tmp_name SALT_NAME (sr_ret pid) rnd in
  if 64 <=? len tmp then mret (NOX_ERR_CONFIG, salt)
  else
    r ← sys (Openat config_dir_fd tmp KEY_CREATE);
    let tmp_fd := sr_ret r in
    if tmp_fd <? 0 then mret (NOX_ERR_IO, salt)
    else
      werr ← write_exact (16 + IO_RETRIES) tmp_fd salt;
      serr ← (if err_ok werr then fsync_exact tmp_fd else mret NOX_OK);
      if negb (err_ok serr) then
        _ ← sys (Close tmp_fd); _ ← drop_tmp config_dir_fd tmp; mret (NOX_ERR_IO, salt)
      else
        _ ← sys (Close tmp_fd);
        if negb (err_ok werr) then _ ← drop_tmp config_dir_fd tmp; mret (NOX_ERR_IO, salt)
        else
          r ← sys (Renameat config_dir_fd tmp SALT_NAME);
          if negb (sr_ret r =? 0) then _ ← drop_tmp config_dir_fd tmp; mret (NOX_ERR_IO, salt)
          else
            derr ← fsync_dir config_dir_fd;
            if negb (err_ok derr) then mret (NOX_ERR_IO, salt) else mret (NOX_OK, salt).

Definition crypto_load_or_create_salt (config_dir_fd : Z) : St trace (nox_err * bytes) :=
  if config_dir_fd <? 0 then mret (NOX_ERR_CONFIG, zeros 16)
  else
    r ← sys (Openat config_dir_fd SALT_NAME KEY_RDONLY);
    if 0 <=? sr_ret r then load_salt (sr_ret r)
    else if negb (sr_errno r =? ENOENT) then mret (NOX_ERR_IO, zeros 16)
    else create_salt config_dir_fd.

Section Derivation.
Context `{Crypto} `{KeyCrypto}.

(** ** Derivation *)

(** The error, the master key and the PIN buffer afterwards. *)
Definition crypto_derive_master_key (pin salt : bytes) : nox_err * bytes * bytes :=
  let wiped := zeros (length pin) in
  if len pin <? NOX_PIN_MIN_LEN then (NOX_ERR_PIN, zeros 32, wiped)
  else if NOX_PIN_MAX_LEN <? len pin then (NOX_ERR_PIN, zeros 32, wiped)
  else
    match pwhash pin salt with
    | None => (NOX_ERR_CRYPTO, zeros 32, wiped)
    | Some master_key => (NOX_OK, master_key, wiped)
    end.

Definition derive (i : nox_subkey_id) (master_key : bytes) : option bytes :=
  kdf (subkey_num i) NOX_KDF_CTX master_key.

(** The buffers of the caller are [db], [unlock] and [session]. *)
Definition crypto_derive_subkeys (master_key db unlock session : bytes)
    : nox_err * bytes * bytes * bytes :=
  match derive NOX_SUBKEY_DB master_key with
  | None => (NOX_ERR_CRYPTO, zeros 32, unlock, session)
  | Some db =>
      match derive NOX_SUBKEY_IDENTITY_UNLOCK master_key with
      | None => (NOX_ERR_CRYPTO, zeros 32, zeros 32, session)
      | Some unlock =>
          match derive NOX_SUBKEY_SESSION master_key with
          | None => (NOX_ERR_CRYPTO, zeros 32, zeros 32, zeros 32)
          | Some session => (NOX_OK, db, unlock, session)
          end
      end
  end.

Definition crypto_derive_onion_seed (master_key : bytes) : nox_err * bytes :=
  match derive NOX_SUBKEY_ONION_SEED master_key with
  | None => (NOX_ERR_CRYPTO, zeros 32)
  | Some seed => (NOX_OK, seed)
  end.

(** Clamping: [h[0] &= 248; h[31] &= 63; h[31] |= 64]. *)
Definition upd_byte (i : nat) (f : Z -> Z) (b : bytes) : bytes :=
  alter (fun c => byte.of_Z (f (byte.unsigned c))) i b.
Definition clamp (h : bytes) : bytes :=
  upd_byte 31 (fun z => Z.lor z 64) (upd_byte 31 (fun z => Z.land z 63)
    (upd_byte 0 (fun z => Z.land z 248) h)).

(** The 64-byte key for Tor and the public key of the seed. *)
Definition derive_tor_expanded_key (seed : bytes) : nox_err * bytes * bytes :=
  (NOX_OK, clamp (sha512 seed), ed25519_pub seed).

(** ** Identity *)

(** Every exit after the temporary name is known: the file is removed unless it
    was renamed and synced. *)
Definition identity_cleanup (dirfd fd : Z) (tmp : bytes) (ret : nox_err) : St trace unit :=
  if 0 <=? fd then _ ← sys (Close fd); drop_tmp dirfd tmp
  else if negb (err_ok ret) then drop_tmp dirfd tmp else skip.

(** The file is written, synced, closed, renamed and the directory synced.
    The error and the descriptor still open. *)
Definition write_identity (config_dir_fd fd : Z) (tmp nonce ciphertext : bytes)
    : St trace (nox_err * Z) :=
  e ← write_exact (24 + IO_RETRIES) fd nonce;
  if negb (err_ok e) then mret (NOX_ERR_IO, fd)
  else
    e ← write_exact (80 + IO_RETRIES) fd ciphertext;
    if negb (err_ok e) then mret (NOX_ERR_IO, fd)
    else
      e ← fsync_exact fd;
      if negb (err_ok e) then mret (NOX_ERR_IO, fd)
      else
        _ ← sys (Close fd);
        r ← sys (Renameat config_dir_fd tmp IDENTITY_NAME);
        if negb (sr_ret r =? 0) then mret (NOX_ERR_IO, -1)
        else
          e ← fsync_dir config_dir_fd;
          if negb (err_ok e) then mret (NOX_ERR_IO, -1) else mret (NOX_OK, -1).

(** The error and the public key. *)
Definition crypto_generate_identity (config_dir_fd : Z) (unlock_key : bytes)
    : St trace (nox_err * bytes) :=
  if config_dir_fd <? 0 then mret (NOX_ERR_CRYPTO, [])
  else
    rnd ← random_bytes 4;
    pid ← sys Getpid;
    let tmp := tmp_name IDENTITY_NAME (sr_ret pid) rnd in
    if 64 <=? len tmp then mret (NOX_ERR_CONFIG, [])
    else
      ok ← malloc_ok SIGN_SECRETKEYBYTES;
      if negb ok then mret (NOX_ERR_ALLOC, [])
      else
        r ← sys SignKeypair;
        if negb (sr_ret r =? 0) then
          _ ← identity_cleanup config_dir_fd (-1) tmp NOX_ERR_CRYPTO; mret (NOX_ERR_CRYPTO, [])
        else
          let sk := pad_to 64 (sr_data r) in
          let pk := default (zeros 32) (sk_to_pk sk) in
          nonce ← random_bytes KEY_NONCE_LEN;
          match secretbox unlock_key nonce sk with
          | None =>
              _ ← identity_cleanup config_dir_fd (-1) tmp NOX_ERR_CRYPTO; mret (NOX_ERR_CRYPTO, [])
          | Some ciphertext =>
              _ ← sys (Wipe "sk");
              r ← sys (Openat config_dir_fd tmp KEY_CREATE);
              '(ret, fd) ← (if sr_ret r <? 0 then mret (NOX_ERR_IO, sr_ret r)
                            else write_identity config_dir_fd (sr_ret r) tmp nonce ciphertext);
              _ ← identity_cleanup config_dir_fd fd tmp ret;
              mret (ret, if err_ok ret then pk else [])
          end.

(** The error, the secret key and the public key; zeros unless it succeeds. *)
Definition crypto_load_identity (config_dir_fd : Z) (unlock_key : bytes)
    : St trace (nox_err * bytes * bytes) :=
  let fail e := (e, zeros 64, zeros 32) in
  if config_dir_fd <? 0 then mret (fail NOX_ERR_CRYPTO)
  else
    r ← sys (Openat config_dir_fd IDENTITY_NAME KEY_RDONLY);
    let fd := sr_ret r in
    if fd <? 0 then mret (fail NOX_ERR_IO)
    else
      st ← sys (Fstat fd);
      if negb (sr_ret st =? 0) then _ ← sys (Close fd); mret (fail NOX_ERR_IO)
      else
        size ← sys (StatField fd St_size);
        if negb (sr_ret size =? IDENTITY_FILE_SIZE)
        then _ ← sys (Close fd); mret (fail NOX_ERR_IO)
        else
          ok ← malloc_ok IDENTITY_FILE_SIZE;
          if negb ok then _ ← sys (Close fd); mret (fail NOX_ERR_ALLOC)
          else
            '(err, file_buf) ← read_exact (104 + IO_RETRIES) fd IDENTITY_FILE_SIZE [];
            _ ← sys (Close fd);
            if negb (err_ok err) then mret (fail NOX_ERR_IO)
            else
              let nonce := take 24 file_buf in
              let ciphertext := drop 24 file_buf in
              match secretbox_open unlock_key nonce ciphertext with
              | None => mret (fail NOX_ERR_AUTH)
              | Some sk =>
                  match sk_to_pk sk with
                  | None => mret (fail NOX_ERR_CRYPTO)
                  | Some pk => mret (NOX_OK, sk, pk)
                  end
              end.

(** Pointers that may be NULL are options: the sources, and whether each
    target is given.  The error and the targets. *)
Definition crypto_ed25519_to_curve25519 (want_pk want_sk : bool) (pk sk : option bytes)
    : nox_err * option bytes * option bytes :=
  let cleared (b : bool) := if b then Some (zeros 32) else None in
  match pk, sk with
  | None, None => (NOX_ERR_CRYPTO, None, None)
  | _, _ =>
      if negb want_pk && negb want_sk then (NOX_ERR_CRYPTO, None, None)
      else if want_pk && bool_decide (pk = None) then (NOX_ERR_CRYPTO, Some (zeros 32), None)
      else if want_sk && bool_decide (sk = None) then (NOX_ERR_CRYPTO, None, Some (zeros 32))
      else
        let pk_out := if want_pk then pk ≫= pk_to_curve else None in
        if want_pk && bool_decide (pk_out = None)
        then (NOX_ERR_CRYPTO, Some (zeros 32), cleared want_sk)
        else
          let sk_out := if want_sk then sk ≫= sk_to_curve else None in
          if want_sk && bool_decide (sk_out = None)
          then (NOX_ERR_CRYPTO, cleared want_pk, Some (zeros 32))
          else (NOX_OK, pk_out, sk_out)
  end.

End Derivation.
End Keys.
