(* ===== verification/KeysProofs.v ===== *)
(** * Theorems about the key store

    The PIN is erased, keys exist only on success, the onion key is clamped, a
    key file is published only after it is complete and synced, an identity is
    read back with the key it was sealed with and never with another. *)

From S2P Require Import Prelude Primitives Types Network FileTransfer FileTransferProofs Keys.

(** ** Derivation *)

Section Derivation.
Context `{HOS : OS} `{HC : Crypto} `{HK : KeyCrypto}.

(** The PIN buffer is zero after crypto_derive_master_key on every path; a
    key is produced exactly for a PIN of 8 to 128 bytes when Argon2id succeeds,
    and it is Argon2id's; otherwise the key buffer is zero. *)
Theorem master_key_derivation pin salt :
  let '(e, mk, pin') := crypto_derive_master_key pin salt in
  pin' = zeros (length pin) /\
  (e = NOX_OK <-> NOX_PIN_MIN_LEN <= len pin <= NOX_PIN_MAX_LEN /\ is_Some (pwhash pin salt)) /\
  mk = (if err_ok e then default (zeros 32) (pwhash pin salt) else zeros 32).
Proof.
  unfold crypto_derive_master_key. destruct (len pin <? _) eqn:E1.
  { split_and!; try done. split; [done|lia]. }
  destruct (_ <? len pin) eqn:E2.
  { split_and!; try done. split; [done|lia]. }
  destruct (pwhash pin salt) eqn:E3; split_and!; try done; split; try done.
  - intros _. split; [lia|by eexists].
  - intros [_ [? ?]]. done.
Qed.

(** ** The onion key *)

Lemma clamp_eq c0 mid c31 rest :
  length mid = 30%nat ->
  clamp (c0 :: mid ++ c31 :: rest) =
    byte.of_Z (Z.land (byte.unsigned c0) 248) ::
    mid ++ byte.of_Z (Z.lor (Z.land (byte.unsigned c31) 63) 64) :: rest.
Proof.
  intros Hm. unfold clamp, upd_byte. cbn [alter list_alter]. f_equal.
  rewrite alter_app_r_alt, Hm by lia. cbn [Nat.sub alter list_alter].
  rewrite alter_app_r_alt, Hm by lia. cbn [Nat.sub alter list_alter]. do 3 f_equal. rewrite byte.unsigned_of_Z. unfold byte.wrap.
  rewrite Z.mod_small; [done|]. change 63 with (Z.ones 6). rewrite Z.land_ones by lia.
  pose proof (Z.mod_pos_bound (byte.unsigned c31) (2 ^ 6)). lia.
Qed.

(** The scalar: 32 bytes, least significant first. *)
Fixpoint le_value (b : bytes) : Z :=
  match b with [] => 0 | c :: b => byte.unsigned c + 256 * le_value b end.

Lemma le_value_app a b : le_value (a ++ b) = le_value a + 256 ^ len a * le_value b.
Proof.
  induction a as [|c a IH]; [unfold len; cbn; lia|]. cbn [Datatypes.app le_value].
  rewrite IH. unfold len. cbn [length]. rewrite Nat2Z.inj_succ, Z.pow_succ_r by lia. lia.
Qed.

Lemma le_value_bounds b : 0 <= le_value b < 256 ^ len b.
Proof.
  induction b as [|c b IH]; [unfold len; cbn; lia|]. cbn [le_value].
  pose proof (byte.unsigned_range c). unfold len in *. cbn [length].
  rewrite Nat2Z.inj_succ, Z.pow_succ_r by lia. lia.
Qed.

Lemma split_64 (h : bytes) :
  length h = 64%nat ->
  exists c0 mid c31 rest, h = c0 :: mid ++ c31 :: rest /\ length mid = 30%nat.
Proof.
  intros Hh. destruct h as [|c0 h]; [done|]. cbn [length] in Hh.
  exists c0, (take 30 h). destruct (drop 30 h) as [|c31 rest] eqn:E.
  - apply (f_equal length) in E. rewrite length_drop in E. cbn in E. lia.
  - exists c31, rest. rewrite <-E, take_drop, length_take. split; [done|lia].
Qed.

Lemma low_bits c :
  byte.unsigned (byte.of_Z (Z.land (byte.unsigned c) 248)) mod 8 = 0.
Proof. by destruct c. Qed.

Lemma top_bits c :
  64 <= byte.unsigned (byte.of_Z (Z.lor (Z.land (byte.unsigned c) 63) 64)) < 128.
Proof. destruct c; vm_compute; split; congruence. Qed.

(** The key handed to Tor is the RFC 8032 expansion of the seed: its scalar
    is a multiple of 8 with bit 254 as highest bit, its second half is the
    second half of the SHA-512 digest, and the public key is that of the
    seed. *)
Theorem tor_key_clamped {HL : KeyCryptoLaws HK} seed :
  let '(e, expanded, pub) := derive_tor_expanded_key seed in
  let scalar := le_value (take 32 expanded) in
  e = NOX_OK /\ length expanded = 64%nat /\ scalar mod 8 = 0 /\ 2 ^ 254 <= scalar < 2 ^ 255 /\
  drop 32 expanded = drop 32 (sha512 seed) /\ pub = ed25519_pub seed.
Proof.
  unfold derive_tor_expanded_key. cbn zeta.
  destruct (split_64 (sha512 seed) (sha512_length seed)) as (c0 & mid & c31 & rest & E & Hm).
  pose proof (sha512_length seed) as Hl. rewrite E in Hl |- *. rewrite clamp_eq by done.
  pose proof (low_bits c0) as Hlo. pose proof (top_bits c31) as Hhi.
  set (b0 := byte.of_Z _) in *. set (b31 := byte.of_Z (Z.lor _ _)) in *.
  assert (take 32 (b0 :: mid ++ b31 :: rest) = b0 :: mid ++ [b31]) as ->.
  { change 32%nat with (S 31). cbn [take]. f_equal.
    change 31%nat with (30 + 1)%nat. by rewrite (take_app_add' mid _ 30 1) by done. }
  assert (forall x, drop 32 (b0 :: mid ++ x :: rest) = rest) as Hdrop.
  { intros x. change 32%nat with (S 31). cbn [drop].
    change 31%nat with (30 + 1)%nat. by rewrite (drop_app_add' mid _ 30 1) by done. }
  assert (drop 32 (c0 :: mid ++ c31 :: rest) = rest) as ->.
  { pose proof (Hdrop c31) as D. exact D. }
  rewrite Hdrop. cbn [le_value]. rewrite le_value_app.
  assert (len mid = 30) as -> by (unfold len; lia). cbn [le_value].
  pose proof (le_value_bounds mid) as Hb. unfold len in Hb. rewrite Hm in Hb.
  change (Z.of_nat 30) with 30 in Hb. change (256 ^ 30) with (2 ^ 240) in *.
  pose proof (byte.unsigned_range b0) as Hb0.
  split_and!; try done.
  - cbn [length] in *. rewrite length_app in *. cbn [length] in *. lia.
  - rewrite Z.add_mod by lia. rewrite Hlo, Z.add_0_l.
    replace (256 * (le_value mid + 2 ^ 240 * (byte.unsigned b31 + 256 * 0)))
      with (32 * (le_value mid + 2 ^ 240 * (byte.unsigned b31 + 256 * 0)) * 8) by lia.
    by rewrite Z.mod_mul, Z.mod_0_l by lia.
  - lia.
  - lia.
Qed.

End Derivation.

(** ** Files *)

Section Files.
Context `{HOS : OS}.

Definition writes_only (fd : Z) (c : syscall) : Prop :=
  match c with Write f _ => f = fd | _ => False end.

Definition is_write (c : syscall) : bool := match c with Write _ _ => true | _ => false end.
Definition is_rename (c : syscall) : bool := match c with Renameat _ _ _ => true | _ => false end.

(** A call that does not change the directory or a file. *)
Definition read_only (c : syscall) : bool :=
  match c with
  | Write _ _ | Renameat _ _ _ | Unlinkat _ _ => false
  | Openat _ _ flags => flags =? KEY_RDONLY
  | _ => true
  end.

Lemma file_content_app fd new tr :
  Forall (fun c => is_write c = false) new -> file_content fd (new ++ tr) = file_content fd tr.
Proof.
  induction 1 as [|c new Hc _ IH]; [done|]. cbn [Datatypes.app file_content]. rewrite IH.
  destruct c; try apply app_nil_r. done.
Qed.

Lemma write_exact_spec fuel fd data tr :
  exists e new, write_exact fuel fd data tr = (e, new ++ tr) /\ Forall (writes_only fd) new /\
    (e = NOX_OK -> file_content fd (new ++ tr) = file_content fd tr ++ data).
Proof.
  revert data tr. induction fuel as [|fuel IH]; intros data tr.
  { destruct data; eexists _, []; (split; [reflexivity|]); split_and!; try done.
    intros _. by rewrite app_nil_r. }
  destruct data as [|b data].
  { exists NOX_OK, []. split_and!; try done. intros _. by rewrite app_nil_r. }
  cbn [write_exact]. unfold sys. run_st. set (c := Write fd (b :: data)).
  set (r := os_answer tr c).
  assert (file_content fd (c :: tr) = file_content fd tr ++ take (Z.to_nat (sr_ret r)) (b :: data))
    as Hc by (cbn [file_content c]; by rewrite Z.eqb_refl).
  destruct (sr_ret r <? 0) eqn:E1.
  - destruct (sr_errno r =? EINTR).
    + destruct (IH (b :: data) (c :: tr)) as (e & new & -> & Hw & Ho).
      exists e, (new ++ [c]). rewrite <-app_assoc. split; [done|]. split.
      { apply Forall_app. split; [done|by repeat constructor]. }
      intros He. cbn [Datatypes.app]. rewrite Ho, Hc by done.
      replace (Z.to_nat (sr_ret r)) with 0%nat by lia. by rewrite take_0, app_nil_r.
    + exists NOX_ERR_IO, [c]. split_and!; [done|by repeat constructor|done].
  - destruct (sr_ret r =? 0) eqn:E2.
    { exists NOX_ERR_IO, [c]. split_and!; [done|by repeat constructor|done]. }
    destruct (IH (drop (Z.to_nat (sr_ret r)) (b :: data)) (c :: tr)) as (e & new & -> & Hw & Ho).
    exists e, (new ++ [c]). rewrite <-app_assoc. split; [done|]. split.
    { apply Forall_app. split; [done|by repeat constructor]. }
    intros He. cbn [Datatypes.app]. rewrite Ho, Hc by done. by rewrite <-app_assoc, take_drop.
Qed.

Lemma fsync_retry_spec fuel fd tr :
  exists new, let tr1 := new ++ tr in
    fsync_retry fuel fd tr = (os_answer tr1 (Fsync fd), Fsync fd :: tr1) /\
    Forall (eq (Fsync fd)) new.
Proof.
  revert tr. induction fuel as [|fuel IH]; intros tr; cbn [fsync_retry]; unfold sys; run_st.
  { exists []. done. }
  destruct (_ && _); [|by exists []].
  destruct (IH (Fsync fd :: tr)) as (new & E & Hn). exists (new ++ [Fsync fd]).
  rewrite <-app_assoc. split; [done|]. apply Forall_app. split; [done|by repeat constructor].
Qed.

Lemma fsync_exact_spec fd tr :
  exists e new, let tr1 := new ++ tr in
    fsync_exact fd tr = (e, Fsync fd :: tr1) /\ Forall (eq (Fsync fd)) new /\
    (e = NOX_OK -> sr_ret (os_answer tr1 (Fsync fd)) = 0).
Proof.
  destruct (fsync_retry_spec IO_RETRIES fd tr) as (new & E & Hn). unfold fsync_exact. run_st.
  rewrite E. eexists _, new. split; [reflexivity|]. split; [done|].
  destruct (_ =? 0) eqn:E0; [lia|done].
Qed.

Lemma fsync_dir_spec fd tr :
  exists e new, fsync_dir fd tr = (e, new ++ tr) /\ Forall (eq (Fsync fd)) new.
Proof.
  destruct (fsync_retry_spec IO_RETRIES fd tr) as (new & E & Hn). unfold fsync_dir. run_st.
  rewrite E. eexists _, (Fsync fd :: new). split; [reflexivity|]. by constructor.
Qed.

(** The file [name] was replaced by a file with exactly the content [data]: it
    was created under another name, filled, synced successfully, and only then
    renamed; it was not written afterwards. *)
Definition published (dirfd : Z) (name data : bytes) (tr tr' : trace) : Prop :=
  exists fd tmp base writes syncs mid post,
    let opened := Openat dirfd tmp KEY_CREATE :: base in
    let full := syncs ++ writes ++ opened in
    let synced := mid ++ Fsync fd :: full in
    tr' = post ++ Renameat dirfd tmp name :: synced /\
    suffix tr base /\ sr_ret (os_answer base (Openat dirfd tmp KEY_CREATE)) = fd /\
    file_content fd full = file_content fd opened ++ data /\
    sr_ret (os_answer full (Fsync fd)) = 0 /\
    sr_ret (os_answer synced (Renameat dirfd tmp name)) = 0 /\
    Forall (fun c => is_write c = false) (post ++ mid).

(** The renames the kernel carried out. *)
Fixpoint renames (tr : trace) : list syscall :=
  match tr with
  | [] => []
  | c :: tr => (if is_rename c && (sr_ret (os_answer tr c) =? 0) then [c] else []) ++ renames tr
  end.

(** No file got a new name since [tr]. *)
Definition no_rename (tr tr' : trace) : Prop := renames tr' = renames tr.

Lemma nr_refl tr : no_rename tr tr.
Proof. done. Qed.
Lemma nr_app new tr tr' :
  Forall (fun c => is_rename c = false) new -> no_rename tr tr' -> no_rename tr (new ++ tr').
Proof.
  intros Hn Hr. unfold no_rename. rewrite <-Hr. clear Hr.
  induction Hn as [|c new Hc _ IH]; [done|]. cbn [Datatypes.app renames]. by rewrite Hc.
Qed.
Lemma nr_cons c tr tr' : is_rename c = false -> no_rename tr tr' -> no_rename tr (c :: tr').
Proof. intros Hc. apply (nr_app [c]). by repeat constructor. Qed.
Lemma nr_failed c tr tr' :
  negb (sr_ret (os_answer tr' c) =? 0) = true -> no_rename tr tr' -> no_rename tr (c :: tr').
Proof.
  intros Hc Hr. unfold no_rename. cbn [renames]. destruct (_ =? 0); [done|]. by rewrite andb_false_r.
Qed.

Lemma writes_no_rename fd new :
  Forall (writes_only fd) new -> Forall (fun c => is_rename c = false) new.
Proof. intros Hn. eapply Forall_impl; [exact Hn|]. by intros []. Qed.
Lemma syncs_plain fd new :
  Forall (eq (Fsync fd)) new ->
  Forall (fun c => is_rename c = false) new /\ Forall (fun c => is_write c = false) new.
Proof. intros Hn. split; (eapply Forall_impl; [exact Hn|]); by intros ? <-. Qed.

Ltac nr := repeat first
  [ apply nr_refl | apply nr_cons; [reflexivity|] | apply nr_failed; [assumption|]
  | apply nr_app; [first [ eapply writes_no_rename; eassumption
                    | eapply proj1, syncs_plain; eassumption ]|] ].

Lemma create_salt_spec d tr :
  let '((e, salt), tr') := create_salt d tr in
  length salt = 16%nat /\
  (e <> NOX_OK /\ no_rename tr tr' \/ published d SALT_NAME salt tr tr').
Proof.
  unfold create_salt, random_bytes, sys, drop_tmp. run_st.
  set (salt := pad_to (Z.to_nat NOX_SALT_LEN) _). assert (length salt = 16%nat) as Hs by apply length_pad_to.
  destruct (64 <=? _); [split; [done|left; split; [done|nr]]|].
  set (tmp := tmp_name _ _ _). set (base := Getpid :: _).
  destruct (_ <? 0); [split; [done|left; split; [done|unfold base; nr]]|].
  set (fd := sr_ret (os_answer base _)).
  destruct (write_exact_spec (16 + IO_RETRIES) fd salt (Openat d tmp KEY_CREATE :: base))
    as (werr & nw & -> & Hw & Hc).
  destruct (err_ok werr) eqn:Ew; cbn [negb].
  2: { split; [done|left; split; [done|unfold base; nr]]. }
  apply err_ok_true in Ew. specialize (Hc Ew).
  destruct (fsync_exact_spec fd (nw ++ Openat d tmp KEY_CREATE :: base))
    as (serr & ns & -> & Hns & Hsync).
  destruct (err_ok serr) eqn:Es; cbn [negb].
  2: { split; [done|left; split; [done|unfold base; nr]]. }
  apply err_ok_true in Es. specialize (Hsync Es). destruct (negb _) eqn:Er.
  { split; [done|left; split; [done|unfold base; nr]]. }
  destruct (fsync_dir_spec d (Renameat d tmp SALT_NAME :: Close fd :: Fsync fd ::
    ns ++ nw ++ Openat d tmp KEY_CREATE :: base)) as (derr & nd & -> & Hd).
  assert (published d SALT_NAME salt tr (nd ++ Renameat d tmp SALT_NAME :: Close fd :: Fsync fd ::
    ns ++ nw ++ Openat d tmp KEY_CREATE :: base)) as Hpub.
  { exists fd, tmp, base, nw, ns, [Close fd], nd. split_and!; try done.
    - by exists [Getpid; RandomBytes 4; RandomBytes NOX_SALT_LEN].
    - rewrite file_content_app by apply (syncs_plain _ _ Hns). done.
    - apply negb_false_iff in Er. by apply Z.eqb_eq.
    - apply Forall_app. split; [apply (syncs_plain _ _ Hd)|by repeat constructor]. }
  destruct (err_ok derr); cbn [negb]; (split; [done|by right]).
Qed.

Lemma read_exact_spec fuel fd n got tr :
  exists e out new, read_exact fuel fd n got tr = ((e, out), new ++ tr) /\
    Forall (fun c => read_only c = true) new.
Proof.
  revert n got tr. induction fuel as [|fuel IH]; intros n got tr; cbn [read_exact].
  { destruct (_ <=? 0); by eexists _, _, []. }
  destruct (n <=? 0); [by eexists _, _, []|]. unfold sys. run_st.
  destruct (_ <? 0).
  { destruct (_ =? EINTR); [|eexists _, _, [_]; split; [done|by repeat constructor]].
    destruct (IH n got (Read fd n :: tr)) as (e & out & new & -> & Hf).
    exists e, out, (new ++ [Read fd n]). rewrite <-app_assoc. split; [done|].
    apply Forall_app. split; [done|by repeat constructor]. }
  destruct (_ =? 0); [eexists _, _, [_]; split; [done|by repeat constructor]|].
  edestruct IH as (e & out & new & -> & Hf).
  exists e, out, (new ++ [Read fd n]). rewrite <-app_assoc. split; [done|].
  apply Forall_app. split; [done|by repeat constructor].
Qed.

(** The salt file is never overwritten and never half written.  If it can be
    opened, nothing is created, written, renamed or removed, whatever else goes
    wrong.  A new salt is used only when it was published atomically: complete
    and synced under a temporary name before it was renamed to its place. *)
Theorem salt_file_safe d tr :
  let opening := os_answer tr (Openat d SALT_NAME KEY_RDONLY) in
  let '((e, salt), tr') := crypto_load_or_create_salt d tr in
  if (0 <=? d) && (0 <=? sr_ret opening)
  then exists new, tr' = new ++ tr /\ Forall (fun c => read_only c = true) new
  else e <> NOX_OK /\ no_rename tr tr' \/
       length salt = 16%nat /\ published d SALT_NAME salt tr tr'.
Proof.
  unfold crypto_load_or_create_salt. destruct (d <? 0) eqn:Ed.
  { rewrite (proj2 (Z.leb_gt 0 d)) by lia. left. split; [done|nr]. }
  rewrite (proj2 (Z.leb_le 0 d)) by lia. unfold sys. run_st. cbn [andb].
  set (c := Openat d SALT_NAME KEY_RDONLY). set (r := os_answer tr c).
  destruct (0 <=? sr_ret r).
  - unfold load_salt, sys. run_st. destruct (negb _).
    { eexists [_; _; _]. split; [done|by repeat constructor]. }
    destruct (negb _).
    { eexists [_; _; _; _]. split; [done|by repeat constructor]. }
    edestruct read_exact_spec as (e & out & new & -> & Hf).
    eexists (Close (sr_ret r) :: new ++ [StatField (sr_ret r) St_size; Fstat (sr_ret r); c]).
    split; [cbn; by rewrite <-app_assoc|]. constructor; [done|]. apply Forall_app.
    split; [done|by repeat constructor].
  - destruct (negb _); [left; split; [done|nr]|].
    pose proof (create_salt_spec d (c :: tr)) as Hs.
    destruct (create_salt d (c :: tr)) as [[e salt] tr']. destruct Hs as [Hl [[He Hn]|Hp]].
    + left. split; [done|]. unfold no_rename. rewrite Hn. nr.
    + right. split; [done|]. destruct Hp as (fd & tmp & base & nw & ns & mid & post & E & [x Hx] & Hp).
      exists fd, tmp, base, nw, ns, mid, post. split; [exact E|]. split; [|exact Hp].
      exists (x ++ [c]). rewrite Hx. by rewrite <-app_assoc.
Qed.

(** ** Identity *)

Section Identity.
Context `{HC : Crypto} {HL : CryptoLaws HC} `{HK : KeyCrypto} {HKL : KeyCryptoLaws HK}.

Lemma write_identity_spec d fd tmp nonce c base :
  fd = sr_ret (os_answer base (Openat d tmp KEY_CREATE)) ->
  let tr := Openat d tmp KEY_CREATE :: base in
  let '((e, fd'), tr') := write_identity d fd tmp nonce c tr in
  e <> NOX_OK /\ no_rename tr tr' \/ published d IDENTITY_NAME (nonce ++ c) base tr' /\ fd' = -1.
Proof.
  intros Hfd tr. unfold write_identity. run_st.
  destruct (write_exact_spec (24 + IO_RETRIES) fd nonce tr) as (e1 & n1 & -> & W1 & C1).
  destruct (err_ok e1) eqn:E1; cbn [negb]; [|left; split; [done|nr]].
  apply err_ok_true in E1. specialize (C1 E1).
  destruct (write_exact_spec (80 + IO_RETRIES) fd c (n1 ++ tr)) as (e2 & n2 & -> & W2 & C2).
  destruct (err_ok e2) eqn:E2; cbn [negb]; [|left; split; [done|nr]].
  apply err_ok_true in E2. specialize (C2 E2).
  destruct (fsync_exact_spec fd (n2 ++ n1 ++ tr)) as (e3 & n3 & -> & W3 & C3).
  destruct (err_ok e3) eqn:E3; cbn [negb]; [|left; split; [done|nr]].
  apply err_ok_true in E3. specialize (C3 E3). unfold sys. run_st.
  destruct (negb _) eqn:Er; [left; split; [done|nr]|].
  destruct (fsync_dir_spec d (Renameat d tmp IDENTITY_NAME :: Close fd :: Fsync fd ::
    n3 ++ n2 ++ n1 ++ tr)) as (derr & nd & -> & Hd).
  assert (published d IDENTITY_NAME (nonce ++ c) base (nd ++ Renameat d tmp IDENTITY_NAME ::
    Close fd :: Fsync fd :: n3 ++ n2 ++ n1 ++ tr)) as Hpub.
  { exists fd, tmp, base, (n2 ++ n1), n3, [Close fd], nd. cbv zeta. rewrite <-!app_assoc.
    split_and!; try done.
    - rewrite file_content_app by apply (syncs_plain _ _ W3). fold tr. by rewrite C2, C1, app_assoc.
    - apply negb_false_iff in Er. by apply Z.eqb_eq.
    - apply Forall_app. split; [apply (syncs_plain _ _ Hd)|by repeat constructor]. }
  destruct (err_ok derr); cbn [negb]; by right.
Qed.

(** Calls after the publication that do not write. *)
Lemma published_app d name data tr tr' new :
  published d name data tr tr' -> Forall (fun c => is_write c = false) new ->
  published d name data tr (new ++ tr').
Proof.
  intros (fd & tmp & base & nw & ns & mid & post & -> & Hp) Hn.
  exists fd, tmp, base, nw, ns, mid, (new ++ post). cbv zeta. rewrite <-!app_assoc. split; [done|].
  destruct Hp as (? & ? & ? & ? & ? & Hf). split_and!; try done. by apply Forall_app.
Qed.

Lemma published_suffix d name data tr tr0 tr' :
  published d name data tr0 tr' -> suffix tr tr0 -> published d name data tr tr'.
Proof.
  intros (fd & tmp & base & nw & ns & mid & post & E & Hs & Hp) Hn.
  exists fd, tmp, base, nw, ns, mid, post. split; [exact E|]. split; [|exact Hp]. by etrans.
Qed.

(** The sealed identity: the content of identity.key for a secret key. *)
Definition sealed (unlock_key sk file : bytes) : Prop :=
  exists nonce c, length nonce = 24%nat /\ secretbox unlock_key nonce sk = Some c /\ file = nonce ++ c.

(** crypto_generate_identity replaces identity.key only by a complete, synced
    file that holds a fresh secret key sealed with the unlock key, and reports
    success, with the public key of that secret key, only if it did so; on any
    earlier failure no file gets the name. *)
Theorem identity_published d unlock_key tr :
  let '((e, pk), tr') := crypto_generate_identity d unlock_key tr in
  e <> NOX_OK /\ no_rename tr tr' \/
  exists sk file, length sk = 64%nat /\ sealed unlock_key sk file /\
    published d IDENTITY_NAME file tr tr' /\ (e = NOX_OK -> sk_to_pk sk = Some pk).
Proof.
  unfold crypto_generate_identity. destruct (d <? 0); [left; split; [done|nr]|].
  unfold random_bytes, malloc_ok, sys, drop_tmp, identity_cleanup. run_st.
  destruct (64 <=? _); [left; split; [done|nr]|].
  destruct (negb (negb _)); [left; split; [done|nr]|].
  destruct (negb _); [left; split; [done|nr]|].
  set (tmp := tmp_name _ _ _). set (sk := pad_to 64 _).
  assert (length sk = 64%nat) as Hsk by apply length_pad_to.
  set (nonce := pad_to (Z.to_nat KEY_NONCE_LEN) _).
  assert (length nonce = 24%nat) as Hno by apply length_pad_to.
  destruct (secretbox unlock_key nonce sk) as [c|] eqn:Ec; [|left; split; [done|nr]].
  match goal with |- context [os_answer (Wipe "sk" :: ?t) _] => set (base := Wipe "sk" :: t) end.
  assert (suffix tr base) as Hsuf.
  { eexists [Wipe "sk"; RandomBytes KEY_NONCE_LEN; SignKeypair; Malloc SIGN_SECRETKEYBYTES;
      Getpid; RandomBytes 4]. done. }
  set (fd := sr_ret (os_answer base (Openat d tmp KEY_CREATE))).
  destruct (fd <? 0) eqn:Efd.
  { rewrite (proj2 (Z.leb_gt 0 fd)) by lia. cbn [err_ok negb]. left. split; [done|].
    unfold base. nr. }
  pose proof (write_identity_spec d fd tmp nonce c base eq_refl) as Hw. cbv zeta in Hw.
  destruct (write_identity _ _ _ _ _ _) as [[ret fd'] tr2].
  destruct Hw as [[He Hn]|[Hp ->]].
  - assert (no_rename tr tr2) as Hn2 by (unfold no_rename; rewrite Hn; unfold base; nr).
    rewrite (err_ok_false ret He). cbn [negb].
    destruct (0 <=? fd'); left; (split; [done|]); unfold no_rename; rewrite <-Hn2; nr.
  - pose proof (published_suffix _ _ _ tr _ _ Hp Hsuf) as Hp'.
    destruct (sk_to_pk_total sk Hsk) as [pk Epk]. rewrite Epk.
    change (0 <=? -1) with false.
    destruct (err_ok ret) eqn:Er; cbn [negb]; right; exists sk, (nonce ++ c);
      (split; [done|]); (split; [by exists nonce, c|]).
    + by split.
    + split; [|by intros ->]. by apply (published_app _ _ _ _ _ [Unlinkat d tmp]); [|repeat constructor].
Qed.

(** How many bytes of [fd] were delivered since it was opened. *)
Fixpoint delivered (fd : Z) (tr : trace) : Z :=
  match tr with
  | [] => 0
  | c :: tr =>
      match c with
      | Openat _ _ _ => if sr_ret (os_answer tr c) =? fd then 0 else delivered fd tr
      | Read f _ => (if f =? fd then Z.max 0 (sr_ret (os_answer tr c)) else 0) + delivered fd tr
      | _ => delivered fd tr
      end
  end.

(** [fd] reads a file with this content: what a read delivers are the next
    bytes of it, as many as the kernel likes. *)
Definition serves (fd : Z) (content : bytes) : Prop :=
  forall tr n, let r := os_answer tr (Read fd n) in
    0 < sr_ret r -> sr_ret r <= n /\
    pad_to (Z.to_nat (sr_ret r)) (sr_data r) =
      take (Z.to_nat (sr_ret r)) (drop (Z.to_nat (delivered fd tr)) content).

Lemma read_exact_serves fuel fd content n got tr :
  serves fd content -> got = take (length got) content -> n = len content - len got -> 0 <= n ->
  delivered fd tr = len got ->
  exists e out tr', read_exact fuel fd n got tr = ((e, out), tr') /\
    (e = NOX_OK /\ out = content \/ e = NOX_ERR_IO).
Proof.
  intros Hs. revert n got tr. induction fuel as [|fuel IH]; intros n got tr Hg Hn Hn0 Hd;
    cbn [read_exact].
  { destruct (n <=? 0) eqn:E; [|eauto 8]. eexists _, _, _. split; [done|]. left. split; [done|].
    rewrite Hg, take_ge; [done|]. unfold len in *. lia. }
  destruct (n <=? 0) eqn:E.
  { eexists _, _, _. split; [done|]. left. split; [done|]. rewrite Hg, take_ge; [done|].
    unfold len in *. lia. }
  unfold sys. run_st. destruct (_ <? 0) eqn:E1.
  { destruct (_ =? EINTR); [|eauto 8]. apply IH; try done. cbn [delivered].
    rewrite Z.eqb_refl, Hd. lia. }
  destruct (_ =? 0) eqn:E2; [eauto 8|].
  destruct (Hs tr n) as [Hle Hdata]; [lia|]. rewrite Hdata, Hd.
  set (k := sr_ret (os_answer tr (Read fd n))) in *.
  replace (Z.to_nat (len got)) with (length got) by (unfold len; lia).
  assert (length (take (Z.to_nat k) (drop (length got) content)) = Z.to_nat k) as Hl
    by (rewrite length_take, length_drop; unfold len in *; lia).
  apply IH.
  - rewrite length_app, Hl. rewrite Hg at 1. by rewrite take_take_drop.
  - unfold len in *. rewrite length_app, Hl. lia.
  - lia.
  - cbn [delivered]. rewrite Z.eqb_refl, Hd. fold k. unfold len. rewrite length_app, Hl. lia.
Qed.

(** C23 Loading identity.key gives a key only if the file opens with the unlock
    key, and then exactly the key that was sealed in it together with its
    public key, however the reads are cut; on every failure both buffers are
    zero, and a correctly sealed file never counts as a wrong PIN. *)
Theorem identity_loaded d unlock_key file tr :
  let fd := sr_ret (os_answer tr (Openat d IDENTITY_NAME KEY_RDONLY)) in
  len file = IDENTITY_FILE_SIZE -> serves fd file ->
  let '((e, sk, pk), _) := crypto_load_identity d unlock_key tr in
  (e = NOX_OK -> secretbox_open unlock_key (take 24 file) (drop 24 file) = Some sk /\
                 sk_to_pk sk = Some pk) /\
  (e <> NOX_OK -> sk = zeros 64 /\ pk = zeros 32) /\
  (forall sk0, sealed unlock_key sk0 file -> e <> NOX_ERR_AUTH /\ (e = NOX_OK -> sk = sk0)).
Proof.
  intros fd Hlen Hserve. unfold crypto_load_identity, malloc_ok.
  destruct (d <? 0); [done|]. unfold sys. run_st. fold fd. destruct (fd <? 0); [done|].
  destruct (negb _); [done|]. destruct (negb _); [done|]. destruct (negb (negb _)); [done|].
  match goal with |- context [read_exact ?f ?g ?n [] ?t] =>
    destruct (read_exact_serves f g file n [] t) as (e & out & tr' & -> & He) end;
    [done|done|unfold len in *; cbn [length]; lia|done| |].
  { cbn [delivered]. change (sr_ret (os_answer tr (Openat d IDENTITY_NAME KEY_RDONLY))) with fd.
    by rewrite Z.eqb_refl. }
  destruct He as [[-> ->]| ->]; [|done]. cbn [err_ok negb].
  assert (forall sk0, sealed unlock_key sk0 file ->
    secretbox_open unlock_key (take 24 file) (drop 24 file) = Some sk0) as Hsealed.
  { intros sk0 (nonce & c & Hn & Hb & ->). rewrite take_app_length', drop_app_length' by done.
    by apply secretbox_open_secretbox. }
  destruct (secretbox_open _ _ _) as [sk|].
  - destruct (sk_to_pk sk) as [pk|] eqn:Ep; split_and!; try done.
    intros sk0 H0. apply Hsealed in H0. split; [done|]. intros _. congruence.
  - split_and!; try done. intros sk0 H0. by apply Hsealed in H0.
Qed.

End Identity.
End Files.

(** ** Witnesses *)

(** A directory with a sealed identity.key: the first read delivers it whole,
    later ones fail. *)
Definition demo_sk : bytes := replicate 64 Byte.x21.
Definition demo_unlock : bytes := replicate 32 Byte.x22.
Definition demo_identity : bytes :=
  zeros 24 ++ default [] (@secretbox toy_crypto demo_unlock (zeros 24) demo_sk).

Definition reads_9 (c : syscall) : bool := match c with Read f _ => f =? 9 | _ => false end.

Definition identity_os : OS := fun tr c =>
  match c with
  | Openat _ _ _ => SysRet 9 0 []
  | StatField _ St_size => SysRet 104 0 []
  | Read f n =>
      if (f =? 9) && negb (existsb reads_9 tr) && (104 <=? n) then SysRet 104 0 demo_identity
      else SysRet (-1) 5 []
  | _ => kind_os tr c
  end.

Lemma identity_undelivered tr : existsb reads_9 tr = false -> @delivered identity_os 9 tr = 0.
Proof.
  induction tr as [|c tr IH]; [done|]. intros E. cbn [existsb] in E.
  apply orb_false_iff in E as [Ec E]. cbn [delivered]. destruct c; try (by apply IH).
  - by case_match; [|apply IH].
  - cbn in Ec. rewrite Ec. by apply IH.
Qed.

Lemma identity_serves : @serves identity_os 9 demo_identity.
Proof.
  intros tr n. cbn zeta.
  assert (@os_answer identity_os tr (Read 9 n) =
    if negb (existsb reads_9 tr) && (104 <=? n) then SysRet 104 0 demo_identity
    else SysRet (-1) 5 []) as -> by reflexivity.
  destruct (existsb reads_9 tr) eqn:E; [intros Hr; cbn in Hr; lia|].
  destruct (104 <=? n) eqn:En; [|intros Hr; cbn in Hr; lia]. intros _. cbn [negb andb sr_ret sr_data].
  split; [lia|]. rewrite identity_undelivered by done. vm_compute. reflexivity.
Qed.

Lemma identity_loaded_witness :
  exists e sk pk tr', @crypto_load_identity identity_os toy_crypto toy_keys 6 demo_unlock [] =
    ((e, sk, pk), tr') /\ e = NOX_OK /\ sk = demo_sk.
Proof.
  pose proof (@identity_loaded identity_os toy_crypto _ toy_keys 6 demo_unlock demo_identity []
    ltac:(vm_compute; reflexivity) identity_serves) as Hl.
  destruct (@crypto_load_identity identity_os toy_crypto toy_keys 6 demo_unlock [])
    as [[[e sk] pk] tr'] eqn:E.
  exists e, sk, pk, tr'. split; [reflexivity|].
  assert (e = NOX_OK) as He by (vm_compute in E; by simplify_eq).
  split; [exact He|]. destruct Hl as (_ & _ & Hs).
  destruct (Hs demo_sk) as [_ Hk]; [|by apply Hk].
  exists (zeros 24), (default [] (@secretbox toy_crypto demo_unlock (zeros 24) demo_sk)).
  split_and!; vm_compute; reflexivity.
Defined.

(** A first start: no salt yet. *)
Definition fresh_os : OS := fun tr c =>
  match c with
  | Openat _ _ flags => if flags =? KEY_RDONLY then SysRet (-1) 2 [] else SysRet 9 0 []
  | _ => kind_os tr c
  end.

Lemma tor_key_clamped_witness :
  exists expanded pub, @derive_tor_expanded_key toy_crypto toy_keys demo_unlock =
    (NOX_OK, expanded, pub) /\ le_value (take 32 expanded) mod 8 = 0.
Proof.
  pose proof (@tor_key_clamped toy_crypto toy_keys _ demo_unlock) as (_ & _ & Hm & _).
  eexists _, _. split; [reflexivity|]. exact Hm.
Defined.

Lemma identity_published_witness :
  exists e pk tr', @crypto_generate_identity fresh_os toy_crypto toy_keys 6 demo_unlock [] =
    ((e, pk), tr') /\ e = NOX_OK /\
    exists file, @published fresh_os 6 IDENTITY_NAME file [] tr'.
Proof.
  pose proof (@identity_published fresh_os toy_crypto toy_keys _ 6 demo_unlock []) as Hp.
  destruct (@crypto_generate_identity fresh_os toy_crypto toy_keys 6 demo_unlock [])
    as [[e pk] tr'] eqn:E.
  assert (e = NOX_OK) as He by (vm_compute in E; by simplify_eq).
  exists e, pk, tr'. split; [reflexivity|]. split; [exact He|].
  destruct Hp as [[Hn _]|(sk & file & _ & _ & Hp & _)]; [done|]. by exists file.
Defined.
