(* ===== verification/Control.v ===== *)
(** * Bounded I/O, the Tor control dialogue and the SOCKS5 client: src/network.c

    A clock reading is a [struct timespec]; a function that fills a buffer of
    the caller returns the bytes it put there.  The loops that repeat an
    interrupted or would-block call have fuel for every byte plus [IO_RETRIES]
    repetitions, and report an I/O error when it is used up.  A call to
    [read] that asks for n bytes returns at most n. *)

From S2P Require Import Prelude Primitives Types World Onion Network FileTransfer Keys.

Definition NOX_READ_TIMEOUT_MS : Z := 10000.
Definition NOX_CTRL_TIMEOUT_MS : Z := 5000.
Definition NOX_BOOTSTRAP_TIMEOUT_MAX : Z := 3600.
Definition NOX_VIRTUAL_PORT : Z := 9876.
Definition NOX_ONION_KEY_B64_MAX : Z := 88.
Definition SUN_PATH_SIZE : Z := 108.
Definition MAX_RESPONSE_LINES : Z := 64.
Definition POLLIN : Z := 1.
Definition POLLOUT : Z := 4.
Definition O_NONBLOCK : Z := 0x800.
Definition OPEN_NOFOLLOW : Z := Z.lor 0x80000 0x20000.
Definition LF : byte := Byte.x0a.
Definition CR : byte := Byte.x0d.
Definition CRLF : bytes := [CR; LF].

Definition has_crlf (s : bytes) : bool := existsb (fun c => Byte.eqb c CR || Byte.eqb c LF) s.

(** ** Deadlines *)

Record timespec := Timespec { tv_sec : Z; tv_nsec : Z }.

(** A conversion to a 32-bit [int]. *)
Definition i32 (z : Z) : Z := (z + 2 ^ 31) mod 2 ^ 32 - 2 ^ 31.

Definition deadline_after (now : timespec) (timeout_ms : Z) : timespec :=
  let sec := tv_sec now + Z.quot timeout_ms 1000 in
  let nsec := tv_nsec now + Z.rem timeout_ms 1000 * 1000000 in
  if 1000000000 <=? nsec then Timespec (sec + 1) (nsec - 1000000000) else Timespec sec nsec.

Definition remaining_ms (deadline now : timespec) : Z :=
  (tv_sec deadline - tv_sec now) * 1000
    + Z.quot (tv_nsec deadline - tv_nsec now) 1000000.

Definition poll_timeout (remaining : Z) : Z := Z.min remaining INT_MAX.

Section Io.
Context `{OS}.

Definition clock : St trace timespec :=
  r ← sys ClockNs; mret (Timespec (sr_ret r / 1000000000) (sr_ret r mod 1000000000)).

(** [while (nanosleep(&ts, &rem) == -1 && errno == EINTR) ts = rem] *)
Fixpoint nanosleep_retry (fuel : nat) (ns : Z) : St trace unit :=
  r ← sys (Nanosleep ns);
  match fuel with
  | O => mret tt
  | S fuel =>
      if (sr_ret r =? -1) && (sr_errno r =? EINTR)
      then left ← sys SleepRem; nanosleep_retry fuel (sr_ret left) else mret tt
  end.
Definition safe_nanosleep (ns : Z) : St trace unit := nanosleep_retry IO_RETRIES ns.

(** [do r = read(fd, p, n); while (r < 0 && errno == EINTR)]: the result and
    the bytes read. *)
Fixpoint read_retry (fuel : nat) (fd n : Z) : St trace (sysret * bytes) :=
  r ← sys (Read fd n);
  match fuel with
  | O => mret (r, pad_to (Z.to_nat (Z.min (sr_ret r) n)) (sr_data r))
  | S fuel =>
      if (sr_ret r <? 0) && (sr_errno r =? EINTR) then read_retry fuel fd n
      else mret (r, pad_to (Z.to_nat (Z.min (sr_ret r) n)) (sr_data r))
  end.

(** ** write_full and read_full *)

Fixpoint write_loop (fuel : nat) (fd : Z) (deadline : timespec) (rest : bytes)
    : St trace nox_err :=
  match rest, fuel with
  | [], _ => mret NOX_OK
  | _, O => mret NOX_ERR_IO
  | _, S fuel =>
      r ← sys (Write fd rest);
      if sr_ret r <? 0 then
        if sr_errno r =? EINTR then write_loop fuel fd deadline rest
        else if sr_errno r =? EAGAIN then
          now ← clock;
          let remaining := remaining_ms deadline now in
          if remaining <=? 0 then mret NOX_ERR_IO
          else
            p ← sys (Poll fd POLLOUT (poll_timeout remaining));
            if (sr_ret p <? 0) && negb (sr_errno p =? EINTR) then mret NOX_ERR_IO
            else if sr_ret p =? 0 then mret NOX_ERR_IO
            else write_loop fuel fd deadline rest
        else mret NOX_ERR_IO
      else if sr_ret r =? 0 then mret NOX_ERR_IO
      else write_loop fuel fd deadline (drop (Z.to_nat (sr_ret r)) rest)
  end.

Definition write_full (fd : Z) (buf : bytes) : St trace nox_err :=
  now ← clock;
  write_loop (length buf + IO_RETRIES) fd (deadline_after now NOX_READ_TIMEOUT_MS) buf.

Fixpoint read_loop (fuel : nat) (fd n : Z) (deadline : timespec) (got : bytes)
    : St trace (nox_err * bytes) :=
  if n <=? len got then mret (NOX_OK, got)
  else
    match fuel with
    | O => mret (NOX_ERR_IO, got)
    | S fuel =>
        now ← clock;
        let remaining := remaining_ms deadline now in
        if remaining <=? 0 then mret (NOX_ERR_IO, got)
        else
          p ← sys (Poll fd POLLIN (poll_timeout remaining));
          if sr_ret p <? 0 then
            if sr_errno p =? EINTR then read_loop fuel fd n deadline got
            else mret (NOX_ERR_IO, got)
          else if sr_ret p =? 0 then mret (NOX_ERR_IO, got)
          else
            '(r, b) ← read_retry IO_RETRIES fd (n - len got);
            if sr_ret r <? 0 then
              if sr_errno r =? EAGAIN then read_loop fuel fd n deadline got
              else mret (NOX_ERR_IO, got)
            else if sr_ret r =? 0 then mret (NOX_ERR_IO, got)
            else read_loop fuel fd n deadline (got ++ b)
    end.

Definition read_full (fd n : Z) : St trace (nox_err * bytes) :=
  now ← clock;
  read_loop (Z.to_nat n + IO_RETRIES) fd n (deadline_after now NOX_READ_TIMEOUT_MS) [].

(** ** The control protocol *)

(** [cmd] is a C string. *)
Definition ctrl_send_command (fd : Z) (cmd : bytes) : St trace nox_err := write_full fd cmd.

Definition line_complete (got : bytes) : nox_err * bytes :=
  match last got with
  | Some c => if Byte.eqb c LF then (NOX_OK, got) else (NOX_ERR_OVERFLOW, got)
  | None => (NOX_ERR_OVERFLOW, got)
  end.

Fixpoint line_loop (fuel : nat) (fd buf_size : Z) (deadline : timespec) (got : bytes)
    : St trace (nox_err * bytes) :=
  if buf_size - 1 <=? len got then mret (line_complete got)
  else
    match fuel with
    | O => mret (NOX_ERR_IO, got)
    | S fuel =>
        down ← sys ShutdownFlag;
        if negb (sr_ret down =? 0) then mret (NOX_ERR_TOR, got)
        else
          now ← clock;
          let remaining := remaining_ms deadline now in
          if remaining <=? 0 then mret (NOX_ERR_TOR, got)
          else
            p ← sys (Poll fd POLLIN (poll_timeout remaining));
            if sr_ret p <? 0 then
              if sr_errno p =? EINTR then line_loop fuel fd buf_size deadline got
              else mret (NOX_ERR_IO, got)
            else if sr_ret p =? 0 then mret (NOX_ERR_TOR, got)
            else
              '(r, b) ← read_retry IO_RETRIES fd 1;
              if sr_ret r <=? 0 then mret (NOX_ERR_TOR, got)
              else
                let got' := got ++ b in
                if bytes_eqb b [LF] then mret (line_complete got')
                else line_loop fuel fd buf_size deadline got'
    end.

(** The line with its newline. *)
Definition ctrl_read_line (fd buf_size timeout_ms : Z) : St trace (nox_err * bytes) :=
  if buf_size <? 2 then mret (NOX_ERR_CONFIG, [])
  else
    now ← clock;
    line_loop (Z.to_nat buf_size + IO_RETRIES) fd buf_size (deadline_after now timeout_ms) [].

(** "250 " ends an answer; 4xx and 5xx are errors; the line goes on otherwise. *)
Definition line_final (line : bytes) : bool := bytes_eqb (take 4 line) (lit "250 ").
Definition line_error (line : bytes) : bool :=
  (3 <=? len line)
    && match line with c :: _ => Byte.eqb c Byte.x34 || Byte.eqb c Byte.x35 | [] => false end.

(** [nlines] lines are in [buf].  The line that would be one too many ends the
    loop, so [MAX_RESPONSE_LINES + 1] rounds are all there can be. *)
Fixpoint response_loop (fuel : nat) (fd buf_size : Z) (deadline : timespec) (nlines : Z)
    (buf : bytes) : St trace (nox_err * bytes) :=
  match fuel with
  | O => mret (NOX_ERR_OVERFLOW, buf)
  | S fuel =>
      now ← clock;
      let remaining := remaining_ms deadline now in
      if remaining <=? 0 then mret (NOX_ERR_TOR, buf)
      else
        '(err, text) ← ctrl_read_line fd 256 (i32 remaining);
        if negb (err_ok err) then mret (err, buf)
        else
          let line := cstr text in
          if MAX_RESPONSE_LINES <? nlines + 1 then mret (NOX_ERR_OVERFLOW, buf)
          else if buf_size <=? len buf + len line + 1 then mret (NOX_ERR_OVERFLOW, buf)
          else
            let buf := buf ++ line in
            if line_final line then mret (NOX_OK, buf)
            else if line_error line then mret (NOX_ERR_TOR, buf)
            else response_loop fuel fd buf_size deadline (nlines + 1) buf
  end.

Definition ctrl_read_response (fd buf_size timeout_ms : Z) : St trace (nox_err * bytes) :=
  now ← clock;
  response_loop (Z.to_nat MAX_RESPONSE_LINES + 1) fd buf_size
    (deadline_after now timeout_ms) 0 [].

(** ** AUTHENTICATE *)

Definition cookie_name (data_dir : bytes) : bytes := data_dir ++ lit "/control_auth_cookie".
Definition auth_command (cookie : bytes) : bytes :=
  lit "AUTHENTICATE " ++ concat (hex_byte <$> cookie) ++ CRLF.

Definition tor_authenticate (ctrl_fd : Z) (data_dir : bytes) : St trace nox_err :=
  let cookie_path := cookie_name data_dir in
  if NOX_PATH_MAX <=? len cookie_path then mret NOX_ERR_CONFIG
  else
    r ← sys (OpenPath cookie_path OPEN_NOFOLLOW);
    let fd := sr_ret r in
    if fd <? 0 then mret NOX_ERR_TOR
    else
      st ← sys (Fstat fd);
      if negb (sr_ret st =? 0) then _ ← sys (Close fd); mret NOX_ERR_TOR
      else
        size ← sys (StatField fd St_size);
        if negb (sr_ret size =? 32) then _ ← sys (Close fd); mret NOX_ERR_TOR
        else
          '(err, cookie) ← read_full fd 32;
          _ ← sys (Close fd);
          if negb (err_ok err) then mret NOX_ERR_TOR
          else
            _ ← sys (Unlink cookie_path);
            err ← ctrl_send_command ctrl_fd (auth_command cookie);
            if negb (err_ok err) then mret err
            else
              '(err, _) ← ctrl_read_response ctrl_fd 256 NOX_CTRL_TIMEOUT_MS;
              mret err.

(** ** Waiting for the bootstrap *)

Definition BOOTSTRAP_QUERY : bytes := lit "GETINFO status/bootstrap-phase" ++ CRLF.

Fixpoint bootstrap_loop (rounds : nat) (ctrl_fd elapsed timeout_sec : Z) : St trace nox_err :=
  match rounds with
  | O => mret NOX_ERR_TOR
  | S rounds =>
      if timeout_sec <=? elapsed then mret NOX_ERR_TOR
      else
        down ← sys ShutdownFlag;
        if negb (sr_ret down =? 0) then mret NOX_ERR_TOR
        else
          err ← ctrl_send_command ctrl_fd BOOTSTRAP_QUERY;
          if negb (err_ok err) then mret err
          else
            '(err, resp) ← ctrl_read_response ctrl_fd 512 NOX_CTRL_TIMEOUT_MS;
            if negb (err_ok err) then mret err
            else
              match after_str (lit "PROGRESS=100") resp with
              | Some _ => mret NOX_OK
              | None =>
                  _ ← safe_nanosleep 2000000000;
                  bootstrap_loop rounds ctrl_fd (elapsed + 2) timeout_sec
              end
  end.

(** Each round adds two seconds to [elapsed]. *)
Definition tor_wait_bootstrap (ctrl_fd timeout_sec : Z) : St trace nox_err :=
  if (timeout_sec <=? 0) || (NOX_BOOTSTRAP_TIMEOUT_MAX <? timeout_sec) then mret NOX_ERR_TOR
  else bootstrap_loop (Z.to_nat timeout_sec) ctrl_fd 0 timeout_sec.

End Io.

(** ** ADD_ONION *)

(** [sodium_bin2base64] with VARIANT_ORIGINAL: None for NULL.  The buffer holds
    [NOX_ONION_KEY_B64_MAX] characters and the NUL. *)
Class Base64 := bin2base64 : bytes -> option bytes.

Definition b64_char (c : byte) : bool :=
  let z := byte.unsigned c in
  ((65 <=? z) && (z <=? 90)) || ((97 <=? z) && (z <=? 122)) || ((48 <=? z) && (z <=? 57))
    || (z =? 43) || (z =? 47) || (z =? 61).

(** [strspn] with that character set. *)
Fixpoint b64_span (s : bytes) : Z :=
  match s with
  | c :: s => if b64_char c then 1 + b64_span s else 0
  | [] => 0
  end.

Definition add_onion_command (b64_key listen_path : bytes) : bytes :=
  lit "ADD_ONION ED25519-V3:" ++ b64_key ++ lit " Port=" ++ decimal 10 NOX_VIRTUAL_PORT []
    ++ lit ",unix:" ++ listen_path ++ CRLF.

Section HiddenService.
Context `{OS} `{Crypto} `{KeyCrypto} `{Base64}.

(** Steps 2 to 6, the same in both functions: the error and the address. *)
Definition add_onion (ctrl_fd : Z) (listen_path seed : bytes) (onion_len : Z)
    : St trace (nox_err * bytes) :=
  let '(err, expanded_sk, _) := derive_tor_expanded_key seed in
  if negb (err_ok err) then mret (NOX_ERR_CRYPTO, [])
  else
    match bin2base64 expanded_sk with
    | None => mret (NOX_ERR_CRYPTO, [])
    | Some text =>
        let b64_key := cstr (take (Z.to_nat NOX_ONION_KEY_B64_MAX) text) in
        if negb (b64_span b64_key =? NOX_ONION_KEY_B64_MAX) then mret (NOX_ERR_CRYPTO, [])
        else
          let cmd := add_onion_command b64_key listen_path in
          if 256 <=? len cmd then mret (NOX_ERR_OVERFLOW, [])
          else
            err ← ctrl_send_command ctrl_fd cmd;
            if negb (err_ok err) then mret (err, [])
            else
              '(err, resp) ← ctrl_read_response ctrl_fd 512 NOX_READ_TIMEOUT_MS;
              if negb (err_ok err) then mret (err, [])
              else mret (parse_service_id resp onion_len)
    end.

(** The error, the address and, on success, the seed. *)
Definition tor_create_new_hs (ctrl_fd : Z) (listen_path : bytes) (onion_len : Z)
    : St trace (nox_err * bytes * option bytes) :=
  if has_crlf listen_path then mret (NOX_ERR_CONFIG, [], None)
  else
    onion_seed ← random_bytes 32;
    '(err, onion) ← add_onion ctrl_fd listen_path onion_seed onion_len;
    _ ← sys (Wipe "onion_seed");
    mret (err, onion, if err_ok err then Some onion_seed else None).

Definition tor_create_derived_hs (ctrl_fd : Z) (listen_path master_key : bytes) (onion_len : Z)
    : St trace (nox_err * bytes) :=
  if has_crlf listen_path then mret (NOX_ERR_CONFIG, [])
  else
    match crypto_derive_onion_seed master_key with
    | (NOX_OK, onion_seed) =>
        res ← add_onion ctrl_fd listen_path onion_seed onion_len;
        _ ← sys (Wipe "onion_seed");
        mret res
    | (err, _) => _ ← sys (Wipe "onion_seed"); mret (err, [])
    end.

(** ** SOCKS5 *)

Definition SOCKS_GREETING : bytes := [Byte.x05; Byte.x01; Byte.x00].
Definition socks_request (onion_addr : bytes) (port : Z) : bytes :=
  [Byte.x05; Byte.x01; Byte.x00; Byte.x03; byte.of_Z (u8 (len onion_addr))] ++ onion_addr
    ++ [byte.of_Z (u8 (Z.shiftr port 8)); byte.of_Z (Z.land port 0xFF)].

(** The rest of the reply after VER REP RSV ATYP: its length, read from the
    peer for a domain name.  None ends the connection. *)
Definition socks_bound_length (fd : Z) (atyp : byte) : St trace (option Z) :=
  match atyp with
  | Byte.x01 => mret (Some (4 + 2))
  | Byte.x04 => mret (Some (16 + 2))
  | Byte.x03 =>
      '(err, dlen) ← read_full fd 1;
      mret (if err_ok err then Some (byte.unsigned (nth 0 dlen NUL) + 2) else None)
  | _ => mret None
  end.

(** The descriptor is the function's until it succeeds. *)
Definition socks_abort (fd : Z) (err : nox_err) : St trace (nox_err * Z) :=
  _ ← sys (Close fd); mret (err, -1).

Definition socks_nonblocking (fd : Z) : St trace (nox_err * Z) :=
  fl ← sys (FcntlGetfl fd);
  if sr_ret fl <? 0 then socks_abort fd NOX_ERR_NET
  else
    r ← sys (FcntlSetfl fd (Z.lor (sr_ret fl) O_NONBLOCK));
    if sr_ret r <? 0 then socks_abort fd NOX_ERR_NET else mret (NOX_OK, fd).

(** The reply to the request. *)
Definition socks_reply (fd : Z) : St trace (nox_err * Z) :=
  '(err, sresp) ← read_full fd 4;
  if negb (err_ok err) then socks_abort fd NOX_ERR_NET
  else if negb (bytes_eqb (take 2 sresp) [Byte.x05; Byte.x00]) then socks_abort fd NOX_ERR_NET
  else
    drain_len ← socks_bound_length fd (nth 3 sresp NUL);
    match drain_len with
    | None => socks_abort fd NOX_ERR_NET
    | Some drain_len =>
        '(err, _) ← read_full fd drain_len;
        if negb (err_ok err) then socks_abort fd NOX_ERR_NET else socks_nonblocking fd
    end.

(** The error and, on success, the connected descriptor. *)
Definition socks5_connect (onion_addr : bytes) (port : Z) (socks_path : bytes)
    : St trace (nox_err * Z) :=
  s ← sys Socket;
  let fd := sr_ret s in
  if fd <? 0 then mret (NOX_ERR_NET, -1)
  else if SUN_PATH_SIZE <=? len socks_path then socks_abort fd NOX_ERR_CONFIG
  else
    c ← sys (ConnectUnix fd socks_path);
    if negb (sr_ret c =? 0) then socks_abort fd NOX_ERR_NET
    else
      err ← write_full fd SOCKS_GREETING;
      if negb (err_ok err) then socks_abort fd NOX_ERR_IO
      else
        '(err, gresp) ← read_full fd 2;
        if negb (err_ok err) || negb (bytes_eqb gresp [Byte.x05; Byte.x00])
        then socks_abort fd NOX_ERR_NET
        else if negb (validate_onion_address onion_addr) then socks_abort fd NOX_ERR_NET
        else
          err ← write_full fd (socks_request onion_addr port);
          if negb (err_ok err) then socks_abort fd NOX_ERR_IO
          else socks_reply fd.

End HiddenService.
