(* ===== verification/ControlProofs.v ===== *)
(** * Theorems about the bounded I/O, the control dialogue and SOCKS5

    What a descriptor was sent and what was received from it is read off the
    history of calls.  Against it, each function is shown to put exactly its
    message on the wire, to take exactly the answer off it, and to keep or close
    its descriptor as its result says. *)

From S2P Require Import Prelude Primitives Types World Onion OnionProofs Network NetworkProofs.
From S2P Require Import FileTransfer Keys Control.

Section Wire.
Context `{HOS : OS}.

(** ** What went over a descriptor *)

Fixpoint sent (fd : Z) (tr : trace) : bytes :=
  match tr with
  | [] => []
  | Write f b :: tr =>
      if f =? fd then sent fd tr ++ take (Z.to_nat (sr_ret (os_answer tr (Write f b)))) b
      else sent fd tr
  | _ :: tr => sent fd tr
  end.

Fixpoint received (fd : Z) (tr : trace) : bytes :=
  match tr with
  | [] => []
  | Read f n :: tr =>
      let r := os_answer tr (Read f n) in
      if f =? fd then received fd tr ++ pad_to (Z.to_nat (Z.min (sr_ret r) n)) (sr_data r)
      else received fd tr
  | _ :: tr => received fd tr
  end.

(** The calls that bounded I/O on [fd] makes. *)
Definition io_call (fd : Z) (c : syscall) : bool :=
  match c with
  | ClockNs | ShutdownFlag | Nanosleep _ | SleepRem => true
  | Poll f _ _ | Read f _ | Write f _ => f =? fd
  | _ => false
  end.

(** From [tr] to [tr'] only such calls were made; [s] was sent and [r] received. *)
Definition io (fd : Z) (tr tr' : trace) (s r : bytes) : Prop :=
  (exists new, tr' = new ++ tr /\ forallb (io_call fd) new = true) /\
  sent fd tr' = sent fd tr ++ s /\ received fd tr' = received fd tr ++ r.

Lemma io_refl fd tr : io fd tr tr [] [].
Proof. split_and!; [by exists []|by rewrite app_nil_r..]. Qed.

Lemma io_trans fd t1 t2 t3 s1 r1 s2 r2 :
  io fd t1 t2 s1 r1 -> io fd t2 t3 s2 r2 -> io fd t1 t3 (s1 ++ s2) (r1 ++ r2).
Proof.
  intros ((n1 & -> & F1) & S1 & R1) ((n2 & -> & F2) & S2 & R2). split_and!.
  - exists (n2 ++ n1). rewrite forallb_app, F1, F2. by rewrite (assoc _).
  - rewrite S2, S1. by rewrite (assoc _).
  - rewrite R2, R1. by rewrite (assoc _).
Qed.

(** A call that transfers nothing. *)
Definition quiet (fd : Z) (c : syscall) : bool :=
  io_call fd c && match c with Read _ _ | Write _ _ => false | _ => true end.

Lemma io_quiet fd c tr : quiet fd c = true -> io fd tr (c :: tr) [] [].
Proof.
  intros Hc. split_and!.
  - exists [c]. split; [done|]. simpl. unfold quiet in Hc. by destruct (io_call fd c).
  - rewrite app_nil_r. unfold quiet in Hc. destruct c; try done; simpl in *; by rewrite andb_false_r in Hc.
  - rewrite app_nil_r. unfold quiet in Hc. destruct c; try done; simpl in *; by rewrite andb_false_r in Hc.
Qed.

Lemma io_write fd b tr :
  io fd tr (Write fd b :: tr) (take (Z.to_nat (sr_ret (os_answer tr (Write fd b)))) b) [].
Proof.
  split_and!.
  - exists [Write fd b]. split; [done|]. simpl. by rewrite Z.eqb_refl.
  - simpl. by rewrite Z.eqb_refl.
  - simpl. by rewrite app_nil_r.
Qed.

Lemma io_read fd n tr :
  io fd tr (Read fd n :: tr) []
    (pad_to (Z.to_nat (Z.min (sr_ret (os_answer tr (Read fd n))) n))
       (sr_data (os_answer tr (Read fd n)))).
Proof.
  split_and!.
  - exists [Read fd n]. split; [done|]. simpl. by rewrite Z.eqb_refl.
  - simpl. by rewrite app_nil_r.
  - simpl. by rewrite Z.eqb_refl.
Qed.

(** Append a quiet call, or a part known to transfer. *)
Lemma io_snoc fd t0 tr s r c : io fd t0 tr s r -> quiet fd c = true -> io fd t0 (c :: tr) s r.
Proof.
  intros H1 H2. pose proof (io_trans _ _ _ _ _ _ _ _ H1 (io_quiet fd c tr H2)) as H.
  by rewrite !app_nil_r in H.
Qed.

(** ** Running a call *)

Lemma wp_sys c (Q : sysret -> trace -> Prop) tr : Q (os_answer tr c) (c :: tr) -> wp (sys c) Q tr.
Proof. done. Qed.
Lemma wp_clock (Q : timespec -> trace -> Prop) tr :
  (forall t, Q t (ClockNs :: tr)) -> wp clock Q tr.
Proof. intros HQ. apply wp_bind, wp_sys, wp_ret, HQ. Qed.

End Wire.

(** Follow the code up to the next function with a specification. *)
Ltac wp_code :=
  repeat first
    [ progress cbv beta zeta
    | lazymatch goal with
      | |- wp (mbind _ _) _ _ => apply wp_bind
      | |- wp (mret _) _ _ => apply wp_ret
      | |- wp (sys _) _ _ => apply wp_sys
      | |- wp clock _ _ => apply wp_clock; intros
      | |- wp (if _ then _ else _) _ _ => case_match
      end ].

#[export] Hint Extern 4 (io _ _ (_ :: _) _ _) =>
  apply io_snoc; [|unfold quiet, io_call; rewrite ?Z.eqb_refl; reflexivity] : nox.
#[export] Hint Resolve io_refl : nox.

Section Io.
Context `{HOS : OS}.

(** ** write_full and read_full *)

Lemma read_retry_io fuel fd n tr :
  wp (read_retry fuel fd n) (fun '(r, b) tr' =>
    io fd tr tr' [] b /\ len b = Z.max 0 (Z.min (sr_ret r) n)) tr.
Proof.
  revert tr. induction fuel as [|fuel IH]; intros tr; cbn [read_retry]; wp_code.
  - split; [apply io_read|]. unfold len. rewrite length_pad_to. lia.
  - eapply wp_mono; [apply IH|]. intros [r b] t [H1 H2]. split; [|done].
    pose proof (io_read fd n tr) as Hr. apply andb_true_iff in H as [H _].
    replace (Z.to_nat (Z.min _ _)) with O in Hr by lia.
    exact (io_trans _ _ _ _ _ _ _ _ Hr H1).
  - split; [apply io_read|]. unfold len. rewrite length_pad_to. lia.
Qed.

(** A prefix of [buf] was sent, all of it when the result is NOX_OK. *)
Definition wrote (fd : Z) (buf : bytes) (tr : trace) (e : nox_err) (tr' : trace) : Prop :=
  exists s, io fd tr tr' s [] /\ s `prefix_of` buf /\
            (e = NOX_OK /\ s = buf \/ e = NOX_ERR_IO).

Lemma wrote_after fd s buf t0 tr e tr' :
  io fd t0 tr s [] -> wrote fd buf tr e tr' -> wrote fd (s ++ buf) t0 e tr'.
Proof.
  intros H0 (s' & H1 & Hp & He). exists (s ++ s'). split_and!.
  - exact (io_trans _ _ _ _ _ _ _ _ H0 H1).
  - by apply prefix_app.
  - destruct He as [[-> ->]| ->]; auto.
Qed.

Lemma wrote_error fd buf t0 tr : io fd t0 tr [] [] -> wrote fd buf t0 NOX_ERR_IO tr.
Proof. intros H0. exists []. split_and!; auto using prefix_nil. Qed.

Lemma write_loop_io fuel fd dl buf tr :
  wp (write_loop fuel fd dl buf) (wrote fd buf tr) tr.
Proof.
  revert buf tr. induction fuel as [|fuel IH]; intros [|c rest] tr; cbn [write_loop].
  1,3: apply wp_ret; exists []; auto using prefix_nil, io_refl.
  { apply wp_ret, wrote_error, io_refl. }
  set (buf := c :: rest). set (n := sr_ret (os_answer tr (Write fd buf))).
  pose proof (io_write fd buf tr) as Hw. fold n in Hw.
  assert (n <= 0 -> io fd tr (Write fd buf :: tr) [] []) as Hneg.
  { intros Hn. by replace (Z.to_nat n) with O in Hw by lia. }
  wp_code; fold n in H.
  1-7: specialize (Hneg ltac:(lia)).
  2-4,6-7: apply wrote_error; auto 8 with nox.
  1,2: eapply wp_mono; [apply IH|]; intros e t'; apply (wrote_after fd []); auto 8 with nox.
  eapply wp_mono; [apply IH|]. intros e t Ht. fold n in Ht.
  rewrite <-(take_drop (Z.to_nat n) buf). by eapply wrote_after.
Qed.

Lemma write_full_io fd buf tr : wp (write_full fd buf) (wrote fd buf tr) tr.
Proof.
  unfold write_full. wp_code. eapply wp_mono; [apply write_loop_io|].
  intros e t'. apply (wrote_after fd []); auto with nox.
Qed.

(** Bytes were received; when the result is NOX_OK they are [n] bytes and the
    result. *)
Definition got_bytes (fd n : Z) (tr : trace) (x : nox_err * bytes) (tr' : trace) : Prop :=
  io fd tr tr' [] x.2 /\ len x.2 <= n /\
  (x.1 = NOX_OK /\ len x.2 = n \/ x.1 = NOX_ERR_IO).

Lemma read_loop_io fuel fd n dl got t0 tr :
  len got <= n -> io fd t0 tr [] got ->
  wp (read_loop fuel fd n dl got) (got_bytes fd n t0) tr.
Proof.
  revert got tr. induction fuel as [|fuel IH]; intros got tr Hn H0; cbn [read_loop]; wp_code.
  - split_and!; [done|done|left; cbn; split; [done|lia]].
  - split_and!; auto.
  - split_and!; [done|done|left; cbn; split; [done|lia]].
  - split_and!; auto with nox.
  - apply IH; auto with nox.
  - split_and!; auto with nox.
  - split_and!; auto with nox.
  - eapply wp_mono; [apply read_retry_io|]. intros [r b] t' [Hb Hl].
    assert (io fd t0 t' [] (got ++ b)) as Hio.
    { refine (io_trans _ _ _ _ [] _ [] _ _ Hb). auto with nox. }
    assert (sr_ret r <= 0 -> io fd t0 t' [] got) as Hnone.
    { intros Hr. destruct b; [by rewrite app_nil_r in Hio|]. unfold len in Hl. cbn in Hl. lia. }
    wp_code; try (specialize (Hnone ltac:(lia)); split_and!; by auto).
    + apply IH; [done|]. apply Hnone. lia.
    + apply IH; [|done]. unfold len in *. rewrite length_app. lia.
Qed.

Lemma read_full_io fd n tr : 0 <= n -> wp (read_full fd n) (got_bytes fd n tr) tr.
Proof.
  intros Hn. unfold read_full. wp_code. apply read_loop_io; [done|auto with nox].
Qed.

(** ** Lines and answers *)

Definition is_line (l : bytes) : Prop := exists body, l = body ++ [LF] /\ LF ∉ body.

(** What was received; on success it is the result, one line that fits. *)
Definition got_line (fd buf_size : Z) (tr : trace) (x : nox_err * bytes) (tr' : trace) : Prop :=
  io fd tr tr' [] x.2 /\ (x.1 = NOX_OK -> is_line x.2 /\ len x.2 < buf_size).

Lemma line_complete_ok got :
  (line_complete got).1 = NOX_OK -> last got = Some LF.
Proof.
  unfold line_complete. destruct (last got) as [c|]; [|done].
  destruct (byte_eqb_spec c LF) as [->|]; [done|]. done.
Qed.

Lemma line_complete_snd got : (line_complete got).2 = got.
Proof. unfold line_complete. by repeat case_match. Qed.

Lemma elem_last {A} (l : list A) x : last l = Some x -> x ∈ l.
Proof. rewrite last_Some. intros [k ->]. set_solver. Qed.

Lemma line_loop_io fuel fd n dl got t0 tr :
  len got < n -> LF ∉ got -> io fd t0 tr [] got ->
  wp (line_loop fuel fd n dl got) (got_line fd n t0) tr.
Proof.
  revert got tr. induction fuel as [|fuel IH]; intros got tr Hn Hlf H0; cbn [line_loop]; wp_code.
  1,3: split; rewrite line_complete_snd; [done|]; intros E%line_complete_ok%elem_last; done.
  1,2,3,5,6: split; [auto 8 with nox|done].
  { apply IH; auto 8 with nox. }
  eapply wp_mono; [apply read_retry_io|]. intros [r b] t' [Hb Hl].
  assert (io fd t0 t' [] (got ++ b)) as Hio.
  { refine (io_trans _ _ _ _ [] _ [] _ _ Hb). auto 8 with nox. }
  wp_code.
  - split; [|done]. destruct b; [by rewrite app_nil_r in Hio|]. unfold len in Hl. cbn in Hl. lia.
  - match goal with E : bytes_eqb _ _ = true |- _ => apply bytes_eqb_eq in E as -> end.
    split; rewrite line_complete_snd; [done|].
    intros _. split; [by exists got|]. unfold len in *. rewrite length_app. cbn. lia.
  - assert (length b = 1%nat) as Hb1 by (unfold len in Hl; lia).
    destruct b as [|c [|]]; try done. apply IH; [unfold len in *; rewrite length_app; cbn; lia| |done].
    match goal with E : bytes_eqb _ _ = false |- _ => apply bool_decide_eq_false in E end.
    set_solver.
Qed.

Lemma ctrl_read_line_io fd n ms tr :
  wp (ctrl_read_line fd n ms) (got_line fd n tr) tr.
Proof.
  unfold ctrl_read_line. wp_code; [split; [apply io_refl|done]|].
  apply line_loop_io; [unfold len; cbn; lia|set_solver|auto with nox].
Qed.

(** A line that an answer goes on after. *)
Definition goes_on (l : bytes) : Prop :=
  is_line l /\ line_final (cstr l) = false /\ line_error (cstr l) = false.

(** An answer of the control port: lines that go on and a final one. *)
Definition answer (lines : list bytes) : Prop :=
  exists more fin, lines = more ++ [fin] /\ Forall goes_on more /\
    is_line fin /\ line_final (cstr fin) = true /\ len lines <= MAX_RESPONSE_LINES.

Definition got_answer (fd buf_size : Z) (tr : trace) (x : nox_err * bytes) (tr' : trace) : Prop :=
  exists r, io fd tr tr' [] r /\
    (x.1 = NOX_OK -> exists lines, answer lines /\ r = concat lines /\
       x.2 = concat (cstr <$> lines) /\ len x.2 + 1 < buf_size).

Lemma got_no_answer fd size t0 e b tr' r :
  io fd t0 tr' [] r -> e <> NOX_OK -> got_answer fd size t0 (e, b) tr'.
Proof. intros H0 He. by exists r. Qed.

Lemma response_loop_io fuel fd size dl lines t0 tr :
  Forall goes_on lines -> io fd t0 tr [] (concat lines) ->
  wp (response_loop fuel fd size dl (len lines) (concat (cstr <$> lines)))
     (got_answer fd size t0) tr.
Proof.
  revert lines tr. induction fuel as [|fuel IH]; intros lines tr Hl H0; cbn [response_loop].
  { apply wp_ret. by eapply got_no_answer. }
  wp_code; [eapply got_no_answer; [eauto with nox|done]|].
  eapply wp_mono; [apply ctrl_read_line_io|]. intros [e text] t' [Hio Hok]. cbn [fst snd] in *.
  assert (io fd t0 t' [] (concat (lines ++ [text]))) as Hio'.
  { rewrite concat_app. simpl. rewrite app_nil_r.
    refine (io_trans _ _ _ _ [] _ [] _ _ Hio). auto with nox. }
  assert (concat (cstr <$> lines ++ [text]) = concat (cstr <$> lines) ++ cstr text) as Hc.
  { rewrite fmap_app, concat_app. simpl. by rewrite app_nil_r. }
  wp_code; try (eapply got_no_answer; [done|by destruct e]).
  - destruct e; try done. destruct (Hok eq_refl) as [Hline _].
    exists (concat (lines ++ [text])). split; [done|]. intros _. exists (lines ++ [text]).
    rewrite Hc. cbn [snd]. split_and!; [|done|done|].
    + exists lines, text. split_and!; try done. unfold len in *. rewrite length_app. cbn. lia.
    + unfold len in *. rewrite length_app. lia.
  - destruct e; try done. destruct (Hok eq_refl) as [Hline _].
    rewrite <-Hc. replace (len lines + 1) with (len (lines ++ [text]))
      by (unfold len; rewrite length_app; cbn; lia).
    apply IH; [|done]. apply Forall_app. split; [done|]. by repeat constructor.
Qed.

Lemma ctrl_read_response_io fd size ms tr :
  wp (ctrl_read_response fd size ms) (got_answer fd size tr) tr.
Proof.
  unfold ctrl_read_response. wp_code.
  apply (response_loop_io _ _ _ _ []); [done|auto with nox].
Qed.

(** When ctrl_read_response succeeds, what it took off the control connection
    is exactly one answer: at most 64 lines, the last one "250 ", none of them
    an error, and not a byte after it; the text it returns is the text of these
    lines and fits the buffer with its NUL.  It sends nothing and makes no call
    but polls, one-byte reads and clock readings on this descriptor. *)
Theorem ctrl_response_framed fd buf_size timeout_ms tr :
  let '(e, resp) := (ctrl_read_response fd buf_size timeout_ms tr).1 in
  let tr' := (ctrl_read_response fd buf_size timeout_ms tr).2 in
  (exists new, tr' = new ++ tr /\ forallb (io_call fd) new = true) /\
  sent fd tr' = sent fd tr /\
  (e = NOX_OK -> exists lines, answer lines /\
     received fd tr' = received fd tr ++ concat lines /\
     resp = concat (cstr <$> lines) /\ len resp + 1 < buf_size).
Proof.
  pose proof (ctrl_read_response_io fd buf_size timeout_ms tr) as (r & (Hn & Hs & Hr) & Hok).
  destruct (ctrl_read_response _ _ _ _) as [[e resp] tr']. cbn [fst snd] in *.
  rewrite app_nil_r in Hs. split_and!; try done.
  intros E. destruct (Hok E) as (lines & Ha & -> & Ht & Hsize). by exists lines.
Qed.

End Io.

(** ** Deadlines *)

Definition ns (t : timespec) : Z := tv_sec t * 1000000000 + tv_nsec t.
Definition normal (t : timespec) : Prop := 0 <= tv_nsec t < 1000000000.

Lemma deadline_after_ns now ms :
  normal now -> 0 <= ms ->
  normal (deadline_after now ms) /\ ns (deadline_after now ms) = ns now + ms * 1000000.
Proof.
  unfold normal, ns, deadline_after. intros Hn Hms.
  pose proof (Z.quot_rem' ms 1000) as Hq. pose proof (Z.rem_bound_pos ms 1000) as Hr.
  destruct (1000000000 <=? _) eqn:E; cbn [tv_sec tv_nsec]; lia.
Qed.

(** The rest is right to less than a millisecond. *)
Lemma remaining_ms_bounds dl now :
  normal dl -> normal now ->
  ns dl - ns now - 1000000 < remaining_ms dl now * 1000000 < ns dl - ns now + 1000000.
Proof.
  unfold normal, ns, remaining_ms. intros H1 H2.
  set (d := tv_nsec dl - tv_nsec now).
  assert (- 1000000 < d - Z.quot d 1000000 * 1000000 < 1000000) as Hd.
  { pose proof (Z.quot_rem' d 1000000). pose proof (Z.rem_bound_abs d 1000000). lia. }
  unfold d in *. lia.
Qed.

Section Delivery.
Context `{HOS : OS}.

Definition clock_ns (tr : trace) : Z := sr_ret (os_answer tr ClockNs).

Lemma clock_normal tr : normal (clock tr).1 /\ ns (clock tr).1 = clock_ns tr.
Proof.
  unfold clock, normal, ns, clock_ns. run_st. cbn.
  pose proof (Z.mod_pos_bound (sr_ret (os_answer tr ClockNs)) 1000000000).
  pose proof (Z.div_mod (sr_ret (os_answer tr ClockNs)) 1000000000). lia.
Qed.

Lemma wp_clock_ns (Q : timespec -> trace -> Prop) tr :
  (forall t, normal t -> ns t = clock_ns tr -> Q t (ClockNs :: tr)) -> wp clock Q tr.
Proof. intros HQ. destruct (clock_normal tr). unfold wp. by apply HQ. Qed.

(** A peer that has [stream] ready on [fd], while the clock stays within [T]
    milliseconds after [start] and no one asks the program to stop. *)
Record delivers (fd : Z) (stream : bytes) (start T : Z) : Prop := {
  dv_running tr : sr_ret (os_answer tr ShutdownFlag) = 0;
  dv_clock tr : start <= clock_ns tr <= start + T * 1000000;
  dv_poll tr t : 0 < sr_ret (os_answer tr (Poll fd POLLIN t));
  dv_read tr c : stream !! length (received fd tr) = Some c ->
    os_answer tr (Read fd 1) = SysRet 1 0 [c] }.

Context (fd : Z) (stream : bytes) (start T : Z) (HD : delivers fd stream start T).

Lemma read_one fuel c tr :
  stream !! length (received fd tr) = Some c ->
  read_retry fuel fd 1 tr = ((SysRet 1 0 [c], [c]), Read fd 1 :: tr).
Proof.
  intros Hc. pose proof (dv_read _ _ _ _ HD tr c Hc) as E.
  destruct fuel; cbn [read_retry]; rewrite bind_eq; unfold sys; cbn [fst snd]; by rewrite E.
Qed.

(** One byte of a line. *)
Lemma line_step c rest fuel n dl got (Q : nox_err * bytes -> trace -> Prop) tr :
  stream = received fd tr ++ c :: rest -> len got + 1 < n ->
  normal dl -> start + T * 1000000 + 1000000 <= ns dl ->
  (forall tr2, received fd tr2 = received fd tr ++ [c] ->
     if Byte.eqb c LF then Q (NOX_OK, got ++ [c]) tr2
     else wp (line_loop fuel fd n dl (got ++ [c])) Q tr2) ->
  wp (line_loop (S fuel) fd n dl got) Q tr.
Proof.
  intros Hs Hn Hdl Hns HQ. cbn [line_loop].
  destruct (n - 1 <=? len got) eqn:E; [lia|].
  apply wp_bind, wp_sys. rewrite (dv_running _ _ _ _ HD). cbn [Z.eqb negb].
  apply wp_bind, wp_clock_ns. intros t Ht1 Ht2. cbv zeta.
  pose proof (dv_clock _ _ _ _ HD (ShutdownFlag :: tr)) as Hc.
  pose proof (remaining_ms_bounds dl t Hdl Ht1) as Hr.
  destruct (remaining_ms dl t <=? 0) eqn:E1; [lia|]. apply wp_bind, wp_sys.
  pose proof (dv_poll _ _ _ _ HD (ClockNs :: ShutdownFlag :: tr)
                (poll_timeout (remaining_ms dl t))) as Hp.
  destruct (_ <? 0) eqn:E2; [lia|]. clear E2. destruct (_ =? 0) eqn:E2; [lia|].
  set (tr1 := Poll fd _ _ :: _). assert (received fd tr1 = received fd tr) as Hr1 by done.
  assert (stream !! length (received fd tr1) = Some c) as Hat.
  { rewrite Hr1, Hs. by apply list_lookup_middle. }
  apply wp_bind. unfold wp at 1. rewrite (read_one _ c) by done. cbn [fst snd sr_ret Z.leb Z.compare].
  assert (received fd (Read fd 1 :: tr1) = received fd tr ++ [c]) as Hr2.
  { cbn [received]. rewrite Z.eqb_refl, (dv_read _ _ _ _ HD tr1 c Hat), Hr1. done. }
  specialize (HQ _ Hr2). unfold bytes_eqb. destruct (byte_eqb_spec c LF) as [->|Hne].
  - rewrite bool_decide_true by done. apply wp_ret. unfold line_complete. by rewrite last_snoc.
  - rewrite bool_decide_false by congruence. done.
Qed.

(** A line. *)
Lemma line_loop_delivers body rest fuel n dl got tr :
  stream = received fd tr ++ body ++ LF :: rest ->
  LF ∉ body -> len got + len body + 1 < n -> (length body < fuel)%nat ->
  normal dl -> start + T * 1000000 + 1000000 <= ns dl ->
  wp (line_loop fuel fd n dl got) (fun x tr' =>
    x = (NOX_OK, got ++ body ++ [LF]) /\ received fd tr' = received fd tr ++ body ++ [LF]) tr.
Proof.
  intros Hs Hlf Hn Hf Hdl Hns. revert fuel got tr Hs Hlf Hn Hf.
  induction body as [|c body IH]; intros [|fuel] got tr Hs Hlf Hn Hf; try (cbn in Hf; lia).
  - apply (line_step LF rest); try done. unfold len in *. cbn in Hn. lia.
  - apply (line_step c (body ++ LF :: rest)); try done; [unfold len in *; cbn in Hn; lia|].
    intros tr2 H2.
    destruct (byte_eqb_spec c LF); [set_solver|].
    eapply wp_mono; [apply IH|].
    + by rewrite Hs, H2, <-(assoc _).
    + set_solver.
    + unfold len in *. rewrite length_app. cbn in *. lia.
    + cbn in Hf. lia.
    + intros x t [-> E]. by rewrite E, H2, <-!(assoc _).
Qed.

Lemma ctrl_read_line_delivers body rest n ms tr :
  stream = received fd tr ++ body ++ LF :: rest ->
  LF ∉ body -> len body + 1 < n -> T + 1 <= ms ->
  wp (ctrl_read_line fd n ms) (fun x tr' =>
    x = (NOX_OK, body ++ [LF]) /\ received fd tr' = received fd tr ++ body ++ [LF]) tr.
Proof.
  intros Hs Hlf Hn Hms. unfold ctrl_read_line. pose proof (len_nonneg body).
  pose proof (dv_clock _ _ _ _ HD tr) as Hc.
  destruct (n <? 2) eqn:E; [lia|]. apply wp_bind, wp_clock_ns. intros t Ht1 Ht2.
  destruct (deadline_after_ns t ms Ht1) as [Hd1 Hd2]; [lia|].
  apply (line_loop_delivers body rest _ n _ [] (ClockNs :: tr)); try done.
  - unfold len in *. lia.
  - lia.
Qed.

(** One line of an answer. *)
Lemma response_step l rest fuel size dl n buf (Q : nox_err * bytes -> trace -> Prop) tr :
  stream = received fd tr ++ l ++ rest -> is_line l -> len l <= 255 ->
  n < MAX_RESPONSE_LINES -> len buf + len (cstr l) + 1 < size -> normal dl ->
  start + 2 * T * 1000000 + 2000000 <= ns dl < start + 2 ^ 30 * 1000000 ->
  (forall tr2, received fd tr2 = received fd tr ++ l ->
     if line_final (cstr l) then Q (NOX_OK, buf ++ cstr l) tr2
     else if line_error (cstr l) then Q (NOX_ERR_TOR, buf ++ cstr l) tr2
     else wp (response_loop fuel fd size dl (n + 1) (buf ++ cstr l)) Q tr2) ->
  wp (response_loop (S fuel) fd size dl n buf) Q tr.
Proof.
  intros Hs (body & -> & Hlf) Hlen Hn Hsize Hdl Hns HQ. cbn [response_loop].
  apply wp_bind, wp_clock_ns. intros t Ht1 Ht2. cbv zeta.
  pose proof (dv_clock _ _ _ _ HD tr) as Hc. pose proof (remaining_ms_bounds dl t Hdl Ht1) as Hr.
  assert (i32 (remaining_ms dl t) = remaining_ms dl t) as ->.
  { unfold i32. rewrite Z.mod_small; lia. }
  destruct (remaining_ms dl t <=? 0) eqn:E1; [lia|]. apply wp_bind.
  eapply wp_mono; [apply (ctrl_read_line_delivers body rest)|].
  - cbn [received]. by rewrite Hs, <-(assoc _).
  - done.
  - unfold len in *. rewrite length_app in Hlen. cbn in Hlen. lia.
  - lia.
  - intros x tr2 [-> H2]. cbn [err_ok negb fst snd].
    destruct (MAX_RESPONSE_LINES <? n + 1) eqn:E2; [lia|].
    destruct (size <=? _) eqn:E3; [lia|]. specialize (HQ tr2 H2).
    destruct (line_final _); [done|]. by destruct (line_error _).
Qed.

Lemma response_loop_delivers fin more rest size dl fuel n buf tr :
  stream = received fd tr ++ concat (more ++ [fin]) ++ rest ->
  Forall goes_on more -> is_line fin -> line_final (cstr fin) = true ->
  Forall (fun l => len l <= 255) (more ++ [fin]) -> 
  n + len more < MAX_RESPONSE_LINES -> (length more < fuel)%nat ->
  len buf + len (concat (cstr <$> more ++ [fin])) + 1 < size -> normal dl ->
  start + 2 * T * 1000000 + 2000000 <= ns dl < start + 2 ^ 30 * 1000000 ->
  wp (response_loop fuel fd size dl n buf)
     (fun x tr' => x = (NOX_OK, buf ++ concat (cstr <$> more ++ [fin])) /\
                   received fd tr' = received fd tr ++ concat (more ++ [fin])) tr.
Proof.
  intros Hs Hgo Hfin Hff Hlen Hn Hf Hsize Hdl Hns. revert fuel n buf tr Hs Hgo Hlen Hn Hf Hsize.
  induction more as [|l more IH]; intros [|fuel] n buf tr Hs Hgo Hlen Hn Hf Hsize;
    try (cbn in Hf; lia); simpl in Hs, Hlen, Hsize.
  - apply Forall_cons in Hlen as [Hlen _]. rewrite app_nil_r in *.
    apply (response_step fin rest); try done; [unfold len in *; cbn in *; lia|].
    intros tr2 H2. rewrite Hff. simpl. by rewrite !app_nil_r.
  - apply Forall_cons in Hlen as [Hl Hlen]. apply Forall_cons in Hgo as [(H1 & H2 & H3) Hgo].
    rewrite <-(assoc _) in Hs. unfold len in Hsize, Hn. rewrite length_app in Hsize.
    apply (response_step l (concat (more ++ [fin]) ++ rest)); try done;
      [unfold len; cbn in *; lia..|]. intros tr2 E. rewrite H2, H3.
    eapply wp_mono; [apply IH; try done|].
    + by rewrite E, Hs, <-(assoc _).
    + unfold len. cbn in *. lia.
    + cbn in Hf. lia.
    + unfold len. rewrite length_app. change (cstr <$> more ++ [fin]) with (list_fmap _ _ cstr (more ++ [fin])). lia.
    + intros x tr3 [-> E3]. simpl. by rewrite E3, E, <-!(assoc _).
Qed.

(** C32 A control port that answers is heard: when the peer has an answer of at
    most 64 lines of at most 255 bytes ready, its text fits the buffer, and
    everything happens within half of the timeout, ctrl_read_response returns
    NOX_OK with that text and leaves what follows the answer in the stream. *)
Theorem ctrl_response_delivered lines rest buf_size timeout_ms tr :
  stream = received fd tr ++ concat lines ++ rest -> answer lines ->
  Forall (fun l => len l <= 255) lines ->
  len (concat (cstr <$> lines)) + 1 < buf_size -> 2 * T + 2 <= timeout_ms < 2 ^ 20 ->
  let x := ctrl_read_response fd buf_size timeout_ms tr in
  x.1 = (NOX_OK, concat (cstr <$> lines)) /\
  received fd x.2 = received fd tr ++ concat lines.
Proof.
  intros Hs (more & fin & -> & Hgo & Hfin & Hff & Hcount) Hlen Hsize Hms.
  change (wp (ctrl_read_response fd buf_size timeout_ms) (fun x tr' =>
    x = (NOX_OK, concat (cstr <$> more ++ [fin])) /\
    received fd tr' = received fd tr ++ concat (more ++ [fin])) tr).
  unfold ctrl_read_response. pose proof (dv_clock _ _ _ _ HD tr) as Hc.
  apply wp_bind, wp_clock_ns. intros t Ht1 Ht2.
  destruct (deadline_after_ns t timeout_ms Ht1) as [Hd1 Hd2]; [lia|].
  unfold MAX_RESPONSE_LINES, len in *. rewrite length_app in Hcount. cbn in Hcount.
  apply (response_loop_delivers fin more rest buf_size _ _ 0 [] (ClockNs :: tr)); try done;
    unfold MAX_RESPONSE_LINES, len in *; cbn [length]; lia.
Qed.

End Delivery.

(** ** How long a call can wait *)

Section Waiting.
Context `{HOS : OS}.

(** From [tr] on, every poll came right after a clock reading and its timeout
    ends before [limit]. *)
Inductive waits (limit : Z) (tr : trace) : trace -> Prop :=
| waits_none : waits limit tr tr
| waits_call c tr' : waits limit tr tr' ->
    match c with Poll _ _ _ => false | _ => true end = true -> waits limit tr (c :: tr')
| waits_poll f events t tr' : waits limit tr (ClockNs :: tr') ->
    0 < t -> clock_ns tr' + t * 1000000 < limit ->
    waits limit tr (Poll f events t :: ClockNs :: tr').

Hint Constructors waits : core.

Lemma waits_read fuel fd n limit t0 tr :
  waits limit t0 tr -> wp (read_retry fuel fd n) (fun _ => waits limit t0) tr.
Proof.
  revert tr. induction fuel as [|fuel IH]; intros tr Ht; cbn [read_retry]; wp_code; auto.
Qed.

(** The poll of a loop with this deadline. *)
Lemma waits_deadline dl t fd events limit t0 tr :
  normal dl -> ns dl + 1000000 <= limit -> normal t -> ns t = clock_ns tr ->
  (remaining_ms dl t <=? 0) = false -> waits limit t0 tr ->
  waits limit t0 (Poll fd events (poll_timeout (remaining_ms dl t)) :: ClockNs :: tr).
Proof.
  intros Hd Hl Ht Hc Hr Hw. pose proof (remaining_ms_bounds dl t Hd Ht) as Hb.
  assert (0 < poll_timeout (remaining_ms dl t) <= remaining_ms dl t) as Hp.
  { unfold poll_timeout, INT_MAX. lia. }
  constructor; [auto|lia|]. nia.
Qed.

Ltac wait_code :=
  repeat first
    [ progress cbv beta zeta
    | lazymatch goal with
      | |- wp (mbind _ _) _ _ => apply wp_bind
      | |- wp (mret _) _ _ => apply wp_ret
      | |- wp (sys _) _ _ => apply wp_sys
      | |- wp clock _ _ => apply wp_clock_ns; intros
      | |- wp (if _ then _ else _) _ _ => case_match
      end ].

Hint Resolve waits_deadline : core.

Lemma waits_write fuel fd dl buf limit t0 tr :
  normal dl -> ns dl + 1000000 <= limit -> waits limit t0 tr ->
  wp (write_loop fuel fd dl buf) (fun _ => waits limit t0) tr.
Proof.
  intros Hd Hl. revert buf tr. induction fuel as [|fuel IH]; intros [|c buf] tr Ht;
    cbn [write_loop]; wait_code; auto 6.
Qed.

Lemma waits_read_loop fuel fd n dl got limit t0 tr :
  normal dl -> ns dl + 1000000 <= limit -> waits limit t0 tr ->
  wp (read_loop fuel fd n dl got) (fun _ => waits limit t0) tr.
Proof.
  intros Hd Hl. revert got tr. induction fuel as [|fuel IH]; intros got tr Ht;
    cbn [read_loop]; wait_code; auto 6.
  eapply wp_mono; [apply (waits_read _ _ _ limit t0); auto|]. intros [r b] t' Ht'. wait_code; auto.
Qed.

Lemma waits_line_loop fuel fd n dl got limit t0 tr :
  normal dl -> ns dl + 1000000 <= limit -> waits limit t0 tr ->
  wp (line_loop fuel fd n dl got) (fun _ => waits limit t0) tr.
Proof.
  intros Hd Hl. revert got tr. induction fuel as [|fuel IH]; intros got tr Ht;
    cbn [line_loop]; wait_code; auto 6.
  eapply wp_mono; [apply (waits_read _ _ _ limit t0); auto|]. intros [r b] t' Ht'. wait_code; auto.
Qed.

(** C36 No peer can hold the program beyond the deadline by being slow: in
    read_full, write_full and ctrl_read_line every poll is preceded by a fresh
    clock reading, and that reading plus the timeout of the poll ends less than
    a millisecond after the deadline set when the function was entered, however
    many bytes have arrived in between. *)
Theorem io_deadline fd buf n size timeout_ms tr :
  0 <= timeout_ms ->
  let limit ms := clock_ns tr + ms * 1000000 + 1000000 in
  waits (limit NOX_READ_TIMEOUT_MS) tr (write_full fd buf tr).2 /\
  waits (limit NOX_READ_TIMEOUT_MS) tr (read_full fd n tr).2 /\
  waits (limit timeout_ms) tr (ctrl_read_line fd size timeout_ms tr).2.
Proof.
  intros Hms. cbv zeta. unfold NOX_READ_TIMEOUT_MS. split_and!.
  - change (wp (write_full fd buf) (fun _ => waits (clock_ns tr + 10000 * 1000000 + 1000000) tr) tr).
    unfold write_full. wait_code. destruct (deadline_after_ns t 10000) as [Hd1 Hd2]; [done|lia|].
    apply waits_write; [done|unfold NOX_READ_TIMEOUT_MS; lia|auto].
  - change (wp (read_full fd n) (fun _ => waits (clock_ns tr + 10000 * 1000000 + 1000000) tr) tr).
    unfold read_full. wait_code. destruct (deadline_after_ns t 10000) as [Hd1 Hd2]; [done|lia|].
    apply waits_read_loop; [done|unfold NOX_READ_TIMEOUT_MS; lia|auto].
  - change (wp (ctrl_read_line fd size timeout_ms)
      (fun _ => waits (clock_ns tr + timeout_ms * 1000000 + 1000000) tr) tr).
    unfold ctrl_read_line. wait_code; [auto|].
    destruct (deadline_after_ns t timeout_ms) as [Hd1 Hd2]; [done|lia|].
    apply waits_line_loop; [done|lia|auto].
Qed.

End Waiting.

Lemma io_deadline_witness :
  waits (HOS := kind_os) 5001000000 [] (ctrl_read_line (H := kind_os) 4 256 5000 []).2.
Proof. exact (proj2 (proj2 (io_deadline (HOS := kind_os) 4 [] 0 256 5000 [] ltac:(lia)))). Defined.

(** ** SOCKS5 *)

Section Socks.
Context `{HOS : OS} `{HC : Crypto}.

Definition is_close (c : syscall) : bool := match c with Close _ => true | _ => false end.

(** As [io], with any calls in between that close nothing. *)
Definition talk (fd : Z) (tr tr' : trace) (s r : bytes) : Prop :=
  (exists new, tr' = new ++ tr /\ forallb (fun c => negb (is_close c)) new = true) /\
  sent fd tr' = sent fd tr ++ s /\ received fd tr' = received fd tr ++ r.

Lemma talk_refl fd tr : talk fd tr tr [] [].
Proof. split_and!; [by exists []|by rewrite app_nil_r..]. Qed.

Lemma talk_io fd t0 tr tr' s r s' r' :
  talk fd t0 tr s r -> io fd tr tr' s' r' -> talk fd t0 tr' (s ++ s') (r ++ r').
Proof.
  intros ((n1 & -> & F1) & S1 & R1) ((n2 & -> & F2) & S2 & R2). split_and!.
  - exists (n2 ++ n1). rewrite forallb_app, F1, (assoc _). split; [done|].
    rewrite andb_true_r. rewrite forallb_forall in *. intros c Hc. specialize (F2 c Hc). by destruct c.
  - rewrite S2, S1. by rewrite (assoc _).
  - rewrite R2, R1. by rewrite (assoc _).
Qed.

Lemma talk_snoc fd t0 tr s r c :
  match c with Close _ | Read _ _ | Write _ _ => false | _ => true end = true ->
  talk fd t0 tr s r -> talk fd t0 (c :: tr) s r.
Proof.
  intros Hc ((n & -> & F) & S & R). split_and!.
  - exists (c :: n). cbn [forallb]. rewrite F. by destruct c.
  - rewrite <-S. by destruct c.
  - rewrite <-R. by destruct c.
Qed.

(** BND.ADDR and BND.PORT of a reply, by its address type. *)
Definition bound_address (atyp : byte) (b : bytes) : Prop :=
  match atyp with
  | Byte.x01 => length b = 6%nat
  | Byte.x04 => length b = 18%nat
  | Byte.x03 => exists d rest, b = d :: rest /\ len rest = byte.unsigned d + 2
  | _ => False
  end.

(** A reply that grants the connection. *)
Definition socks_granted (reply : bytes) : Prop :=
  exists rsv atyp b, reply = [Byte.x05; Byte.x00; rsv; atyp] ++ b /\ bound_address atyp b.

(** What the client may say to the proxy: an invalid address is not mentioned. *)
Definition socks_says (onion : bytes) (port : Z) : bytes :=
  SOCKS_GREETING ++ (if validate_onion_address onion then socks_request onion port else []).

(** The connection stays open exactly when it is granted. *)
Definition socks_outcome (fd : Z) (onion : bytes) (port : Z) (t0 : trace)
    (x : nox_err * Z) (tr' : trace) : Prop :=
  (x = (NOX_OK, fd) /\ validate_onion_address onion = true /\
   exists reply, socks_granted reply /\
     talk fd t0 tr' (SOCKS_GREETING ++ socks_request onion port)
       ([Byte.x05; Byte.x00] ++ reply)) \/
  (x.1 <> NOX_OK /\ x.2 = -1 /\
   exists t1 s r, tr' = Close fd :: t1 /\ talk fd t0 t1 s r /\ s `prefix_of` socks_says onion port).

Lemma socks_abort_outcome fd onion port t0 tr s r e :
  e <> NOX_OK -> talk fd t0 tr s r -> s `prefix_of` socks_says onion port ->
  wp (socks_abort fd e) (socks_outcome fd onion port t0) tr.
Proof.
  intros He Ht Hs. unfold socks_abort. wp_code. right. split_and!; [done|done|].
  by exists tr, s, r.
Qed.

Lemma socks_bound_length_talk fd atyp t0 tr s r :
  talk fd t0 tr s r ->
  wp (socks_bound_length fd atyp) (fun x tr' =>
    exists d, talk fd t0 tr' s (r ++ d) /\
      forall n, x = Some n -> 0 <= n /\ forall b, len b = n -> bound_address atyp (d ++ b)) tr.
Proof.
  intros Ht. unfold socks_bound_length.
  destruct (decide (atyp = Byte.x03)) as [->|Hne].
  - apply wp_bind. eapply wp_mono; [by apply read_full_io|]. intros [e d] t' (Hio & Hl & He).
    cbn [fst snd] in *. pose proof (talk_io _ _ _ _ _ _ _ _ Ht Hio) as Ht'. rewrite app_nil_r in Ht'.
    wp_code. exists d. split; [done|]. intros n E. destruct He as [[-> Hl1]| ->]; [|done].
    destruct d as [|c [|]]; [done| |unfold len in Hl1; cbn in Hl1; lia]. injection E as <-.
    pose proof (byte.unsigned_range c). cbn [nth]. split; [lia|]. intros b Hb. cbn. eauto.
  - exists []. rewrite app_nil_r. destruct atyp; try (split; [done|]; by intros ? ?);
      try done; (split; [done|]); intros n [= <-]; (split; [lia|]); intros b Hb; cbn; unfold len in Hb; lia.
Qed.

Lemma socks_reply_outcome fd onion port t0 tr :
  validate_onion_address onion = true ->
  talk fd t0 tr (SOCKS_GREETING ++ socks_request onion port) [Byte.x05; Byte.x00] ->
  wp (socks_reply fd) (socks_outcome fd onion port t0) tr.
Proof.
  intros Hv Ht. assert (socks_says onion port = SOCKS_GREETING ++ socks_request onion port) as Hp.
  { unfold socks_says. by rewrite Hv. }
  unfold socks_reply. apply wp_bind. eapply wp_mono; [by apply read_full_io|].
  intros [e sresp] t1 (Hio & Hl & He). cbn [fst snd] in *.
  pose proof (talk_io _ _ _ _ _ _ _ _ Ht Hio) as Ht1. rewrite app_nil_r in Ht1.
  wp_code; [by eapply socks_abort_outcome; rewrite ?Hp..|].
  destruct He as [[-> Hl4]| ->]; [|done].
  match goal with E : negb (bytes_eqb _ _) = false |- _ =>
    apply negb_false_iff, bytes_eqb_eq in E; rename E into Hok end.
  destruct sresp as [|c0 [|c1 [|rsv [|atyp [|]]]]]; try (unfold len in Hl4; cbn in Hl4; lia).
  injection Hok as -> ->. cbn [nth].
  eapply wp_mono; [by apply socks_bound_length_talk|]. intros [n|] t2 (d & Ht2 & Hd).
  2: { by eapply socks_abort_outcome; rewrite ?Hp. }
  destruct (Hd n eq_refl) as [Hn Hb]. apply wp_bind.
  eapply wp_mono; [by apply read_full_io|]. intros [e b] t3 (Hio3 & _ & He). cbn [fst snd] in *.
  pose proof (talk_io _ _ _ _ _ _ _ _ Ht2 Hio3) as Ht3. rewrite app_nil_r in Ht3.
  wp_code; [by eapply socks_abort_outcome; rewrite ?Hp|].
  destruct He as [[-> Hlb]| ->]; [|done]. unfold socks_nonblocking.
  assert (talk fd t0 (FcntlGetfl fd :: t3) (SOCKS_GREETING ++ socks_request onion port)
    ((([Byte.x05; Byte.x00] ++ [Byte.x05; Byte.x00; rsv; atyp]) ++ d) ++ b)) as Ht4
    by (by apply talk_snoc).
  wp_code; [by eapply socks_abort_outcome; rewrite ?Hp..| |].
  - eapply socks_abort_outcome; [done|by apply talk_snoc|by rewrite Hp].
  - left. split_and!; try done. exists ([Byte.x05; Byte.x00; rsv; atyp] ++ d ++ b). split.
    + exists rsv, atyp, (d ++ b). auto.
    + apply talk_snoc; [done|]. by rewrite <-!(assoc _) in Ht4.
Qed.

(** The whole call, from the answer to socket(). *)
Definition socks_result (onion : bytes) (port : Z) (tr : trace) (x : nox_err * Z) (tr' : trace)
    : Prop :=
  let fd := sr_ret (os_answer tr Socket) in
  fd < 0 /\ x = (NOX_ERR_NET, -1) /\ tr' = Socket :: tr \/
  0 <= fd /\ socks_outcome fd onion port (Socket :: tr) x tr'.

Lemma socks5_connect_result onion port path tr :
  wp (socks5_connect onion port path) (socks_result onion port tr) tr.
Proof.
  unfold socks5_connect. apply wp_bind, wp_sys. set (fd := sr_ret _). cbv zeta.
  destruct (fd <? 0) eqn:E; [apply wp_ret; left; split; [lia|done]|].
  eapply wp_mono; [|intros x t Hx; right; split; [lia|exact Hx]].
  set (t0 := Socket :: tr). pose proof (talk_refl fd t0) as Ht0.
  wp_code.
  { eapply socks_abort_outcome; [done|done|apply prefix_nil]. }
  { eapply socks_abort_outcome; [done|by apply talk_snoc|apply prefix_nil]. }
  eapply wp_mono; [apply write_full_io|]. intros e1 t1 (s1 & Hio1 & Hp1 & He1).
  assert (talk fd t0 (ConnectUnix fd path :: t0) [] []) as Htc by (by apply talk_snoc).
  pose proof (talk_io _ _ _ _ _ _ _ _ Htc Hio1) as Ht1. simpl in Ht1.
  wp_code.
  { eapply socks_abort_outcome; [done|done|]. by apply prefix_app_r. }
  destruct He1 as [[-> ->]| ->]; [|done].
  eapply wp_mono; [by apply read_full_io|]. intros [e2 g] t2 (Hio2 & _ & He2). cbn [fst snd] in *.
  pose proof (talk_io _ _ _ _ _ _ _ _ Ht1 Hio2) as Ht2. rewrite app_nil_r in Ht2. simpl in Ht2.
  assert (SOCKS_GREETING `prefix_of` socks_says onion port) as Hpre by (by apply prefix_app_r).
  wp_code; [by eapply socks_abort_outcome..|].
  destruct (validate_onion_address onion) eqn:Hv; [|done].
  match goal with E : _ || _ = false |- _ => apply orb_false_iff in E as [_ Hg] end.
  apply negb_false_iff, bytes_eqb_eq in Hg as ->.
  eapply wp_mono; [apply write_full_io|]. intros e3 t3 (s3 & Hio3 & Hp3 & He3).
  pose proof (talk_io _ _ _ _ _ _ _ _ Ht2 Hio3) as Ht3. rewrite app_nil_r in Ht3.
  wp_code.
  - eapply socks_abort_outcome; [done|done|]. unfold socks_says. rewrite Hv. by apply prefix_app.
  - destruct He3 as [[-> ->]| ->]; [|done]. by apply socks_reply_outcome.
Qed.

Lemma socks5_connect_fd onion port path tr :
  (socks5_connect onion port path tr).1.1 = NOX_OK ->
  0 <= (socks5_connect onion port path tr).1.2.
Proof.
  pose proof (socks5_connect_result onion port path tr) as Hr. unfold wp in Hr.
  destruct (socks5_connect onion port path tr) as [[e fd] tr']. cbn [fst snd] in *. intros ->.
  destruct Hr as [(_ & ? & _)|(Hfd & [([= ->] & _)|(? & _)])]; done.
Qed.

(** C25 When socks5_connect succeeds, the proxy was sent exactly the greeting and
    the CONNECT request for the address and port, the address is a valid v3
    onion address, the proxy granted the request, its whole reply was consumed
    and nothing after it, and the descriptor is open.  When it fails, the
    descriptor it opened was closed last and only then, and what was sent is a
    prefix of these messages, without any of the address if that is invalid. *)
Theorem socks5_connect_protocol onion port path tr :
  let '(x, tr') := socks5_connect onion port path tr in
  let fd := sr_ret (os_answer tr Socket) in
  fd < 0 /\ x = (NOX_ERR_NET, -1) /\ tr' = Socket :: tr \/
  0 <= fd /\ socks_outcome fd onion port (Socket :: tr) x tr'.
Proof.
  pose proof (socks5_connect_result onion port path tr) as Hr. unfold wp in Hr.
  by destruct (socks5_connect onion port path tr).
Qed.

End Socks.

(** ** ADD_ONION *)

Lemma has_crlf_app a b : has_crlf (a ++ b) = has_crlf a || has_crlf b.
Proof. apply existsb_app. Qed.

Lemma b64_span_full s : b64_span s = len s -> has_crlf s = false.
Proof.
  unfold len. induction s as [|c s IH]; [done|]. cbn [b64_span length has_crlf existsb].
  assert (b64_span s <= Z.of_nat (length s)) as Hle.
  { clear. induction s as [|c s IH]; cbn [b64_span length]; [lia|]. destruct (b64_char c); lia. }
  destruct (b64_char c) eqn:E; [|lia]. intros H. apply orb_false_iff. split; [|apply IH; lia].
  by destruct c.
Qed.

Lemma b64_span_le s : b64_span s <= len s.
Proof.
  unfold len. induction s as [|c s IH]; cbn [b64_span length]; [lia|]. destruct (b64_char c); lia.
Qed.

Lemma cstr_length b : (length (cstr b) <= length b)%nat.
Proof. induction b as [|c b IH]; simpl; [lia|]. destruct (Byte.eqb c NUL); simpl; lia. Qed.

Section HiddenService.
Context `{HOS : OS} `{HC : Crypto} {HL : CryptoLaws HC} `{HK : KeyCrypto} `{HB : Base64}.

(** A command of the control protocol: one line. *)
Definition one_command (cmd : bytes) : Prop :=
  exists body, cmd = body ++ CRLF /\ has_crlf body = false.

(** What the control connection is sent for a hidden service with [seed], and
    what comes back: nothing or a part of one command on failure; on success the
    whole command for the expanded key of the seed, and the v3 address of some
    key. *)
Definition hs_outcome (ctrl_fd : Z) (path seed : bytes) (onion_len : Z) (t0 : trace)
    (x : nox_err * bytes) (tr' : trace) : Prop :=
  exists s r, talk ctrl_fd t0 tr' s r /\
    (s <> [] -> exists key, s `prefix_of` add_onion_command key path /\
                            one_command (add_onion_command key path)) /\
    (x.1 <> NOX_OK -> x.2 = []) /\
    (x.1 = NOX_OK ->
       (exists text, bin2base64 (clamp (sha512 seed)) = Some text /\
          s = add_onion_command (cstr (take 88 text)) path) /\
       len x.2 + 1 <= onion_len /\
       exists pub, length pub = 32%nat /\ x.2 = onion_address pub).

Lemma add_onion_one_command key path :
  b64_span key = 88 -> len key <= 88 -> has_crlf path = false ->
  one_command (add_onion_command key path).
Proof.
  intros Hk Hl Hp. unfold add_onion_command.
  exists (lit "ADD_ONION ED25519-V3:" ++ key ++ lit " Port=" ++ decimal 10 NOX_VIRTUAL_PORT []
    ++ lit ",unix:" ++ path). split; [by rewrite <-!(assoc _)|].
  pose proof (b64_span_le key). rewrite !has_crlf_app, Hp, (b64_span_full key) by lia. done.
Qed.

Lemma hs_nothing ctrl_fd path seed n t0 tr s r e :
  talk ctrl_fd t0 tr s r -> e <> NOX_OK ->
  (s <> [] -> exists key, s `prefix_of` add_onion_command key path /\
                          one_command (add_onion_command key path)) ->
  hs_outcome ctrl_fd path seed n t0 (e, []) tr.
Proof. intros Ht He Hs. by exists s, r. Qed.

Lemma add_onion_outcome ctrl_fd path seed n t0 tr :
  has_crlf path = false -> talk ctrl_fd t0 tr [] [] ->
  wp (add_onion ctrl_fd path seed n) (hs_outcome ctrl_fd path seed n t0) tr.
Proof.
  intros Hp Ht. unfold add_onion, derive_tor_expanded_key. cbn [err_ok negb].
  destruct (bin2base64 _) as [text|] eqn:Eb; [|by apply wp_ret; eapply hs_nothing].
  cbv zeta. change (Z.to_nat NOX_ONION_KEY_B64_MAX) with 88%nat. set (key := cstr _).
  assert (len key <= 88) as Hlk.
  { unfold key, len. pose proof (cstr_length (take 88 text)) as Hc.
    rewrite length_take in Hc. lia. }
  wp_code; [by eapply hs_nothing..|].
  assert (one_command (add_onion_command key path)) as Hone.
  { apply add_onion_one_command; [|done|done].
    match goal with E : negb (b64_span key =? _) = false |- _ => apply negb_false_iff in E end.
    unfold NOX_ONION_KEY_B64_MAX in *. lia. }
  unfold ctrl_send_command. eapply wp_mono; [apply write_full_io|].
  intros e1 t1 (s1 & Hio1 & Hp1 & He1).
  pose proof (talk_io _ _ _ _ _ _ _ _ Ht Hio1) as Ht1. simpl in Ht1.
  wp_code; [eapply hs_nothing; [done|by destruct e1|by exists key]|].
  destruct He1 as [[-> ->]| ->]; [|done].
  eapply wp_mono; [apply ctrl_read_response_io|]. intros [e2 resp] t2 (r2 & Hio2 & _).
  pose proof (talk_io _ _ _ _ _ _ _ _ Ht1 Hio2) as Ht2. rewrite app_nil_r in Ht2. simpl in Ht2.
  wp_code; [eapply hs_nothing; [done|by destruct e2|by exists key]|].
  exists (add_onion_command key path), r2. destruct (parse_service_id resp n) as [e3 onion] eqn:Es.
  cbn [fst snd]. split_and!; [done|by exists key| |].
  - intros He. unfold parse_service_id in Es. by repeat case_match; simplify_eq.
  - intros ->. apply service_id_valid in Es as [Hn Hpub]. split_and!; [by exists text|done|done].
Qed.


(** The same for the service of the master key. *)
Lemma derived_service_created ctrl_fd path mk onion_len tr :
  let '(e, onion, tr') := tor_create_derived_hs ctrl_fd path mk onion_len tr in
  (has_crlf path = true -> tr' = tr /\ e = NOX_ERR_CONFIG) /\
  exists sd, (e = NOX_OK -> derive NOX_SUBKEY_ONION_SEED mk = Some sd) /\
    hs_outcome ctrl_fd path sd onion_len tr (e, onion) tr'.
Proof.
  enough (wp (tor_create_derived_hs ctrl_fd path mk onion_len) (fun '(e, onion) tr' =>
    (has_crlf path = true -> tr' = tr /\ e = NOX_ERR_CONFIG) /\
    exists sd, (e = NOX_OK -> derive NOX_SUBKEY_ONION_SEED mk = Some sd) /\
      hs_outcome ctrl_fd path sd onion_len tr (e, onion) tr') tr) as E.
  { unfold wp in E. by destruct (tor_create_derived_hs _ _ _ _ _) as [[e onion] tr']. }
  unfold tor_create_derived_hs, crypto_derive_onion_seed. destruct (has_crlf path) eqn:Hp.
  { apply wp_ret. split; [done|]. exists []. split; [done|].
    eapply hs_nothing; [apply talk_refl|done|done]. }
  destruct (derive _ mk) as [sd|] eqn:Ed.
  - wp_code. eapply wp_mono; [apply add_onion_outcome; [done|apply talk_refl]|].
    intros [e onion] t1 (s & r & Ht & H1 & H2 & H3). wp_code. split; [done|].
    exists sd. split; [done|]. exists s, r. split_and!; try done. by apply talk_snoc.
  - wp_code. split; [done|]. exists []. split; [done|].
    eapply hs_nothing; [by apply talk_snoc, talk_refl|done|done].
Qed.

End HiddenService.

(** ** AUTHENTICATE *)

Section Authenticate.
Context `{HOS : OS}.

(** Reading from one descriptor sends nothing to any. *)
Lemma io_silent fd tr tr' r fd' : io fd tr tr' [] r -> sent fd' tr' = sent fd' tr.
Proof.
  intros ((new & -> & Hn) & Hs & _). destruct (decide (fd' = fd)) as [->|Hne].
  { by rewrite Hs, app_nil_r. }
  clear Hs. induction new as [|c new IH]; [done|]. cbn [forallb Datatypes.app] in *.
  apply andb_true_iff in Hn as [Hc Hn]. rewrite <-(IH Hn).
  destruct c; try done. cbn [io_call] in Hc. cbn [sent].
  destruct (Z.eqb_spec fd0 fd'); [lia|done].
Qed.

(** tor_authenticate sends nothing to anyone unless it has read a cookie of 32
    bytes from the file, closed the file and asked for its removal; then it
    sends at most the one AUTHENTICATE line with the cookie in hexadecimal, to
    the control connection.  It reports success only when the whole line was
    sent and the answer to it was a positive one. *)
Theorem cookie_authentication ctrl_fd data_dir tr :
  let '(e, tr') := tor_authenticate ctrl_fd data_dir tr in
  let path := cookie_name data_dir in
  let opened := OpenPath path OPEN_NOFOLLOW :: tr in
  let fd := sr_ret (os_answer tr (OpenPath path OPEN_NOFOLLOW)) in
  (e <> NOX_OK /\ forall fd', sent fd' tr' = sent fd' tr) \/
  exists cookie t1 s r, length cookie = 32%nat /\
    io fd (StatField fd St_size :: Fstat fd :: opened) t1 [] cookie /\
    io ctrl_fd (Unlink path :: Close fd :: t1) tr' s r /\ s `prefix_of` auth_command cookie /\
    (e = NOX_OK -> s = auth_command cookie /\ exists lines, answer lines /\ r = concat lines).
Proof.
  cbv zeta. set (path := cookie_name data_dir). set (opened := OpenPath path _ :: tr).
  set (fd := sr_ret _). set (t2 := StatField fd _ :: _).
  enough (wp (tor_authenticate ctrl_fd data_dir) (fun e tr' =>
    (e <> NOX_OK /\ forall fd', sent fd' tr' = sent fd' tr) \/
    exists cookie t1 s r, length cookie = 32%nat /\ io fd t2 t1 [] cookie /\
      io ctrl_fd (Unlink path :: Close fd :: t1) tr' s r /\ s `prefix_of` auth_command cookie /\
      (e = NOX_OK -> s = auth_command cookie /\ exists lines, answer lines /\ r = concat lines))
    tr) as E.
  { unfold wp in E. by destruct (tor_authenticate _ _ _). }
  unfold tor_authenticate. fold path. wp_code; fold opened fd; try by left.
  eapply wp_mono; [by apply read_full_io|]. intros [e1 cookie] t1 (Hio1 & _ & He1).
  fold opened fd t2 in Hio1. cbn [fst snd] in *. wp_code.
  { left. split; [done|]. intros fd'. cbn [sent]. by rewrite (io_silent _ _ _ _ _ Hio1). }
  destruct He1 as [[-> Hl]| ->]; [|done].
  unfold ctrl_send_command. eapply wp_mono; [apply write_full_io|].
  intros e2 t3 (s2 & Hio2 & Hp2 & He2).
  assert (length cookie = 32%nat) as Hlen by (unfold len in Hl; lia).
  wp_code.
  { right. exists cookie, t1, s2, []. split_and!; try done. intros ->. done. }
  destruct He2 as [[-> ->]| ->]; [|done].
  eapply wp_mono; [apply ctrl_read_response_io|]. intros [e3 resp] t4 (r & Hio3 & Hok).
  wp_code. right. exists cookie, t1, (auth_command cookie), r.
  pose proof (io_trans _ _ _ _ _ _ _ _ Hio2 Hio3) as Hio. rewrite app_nil_r in Hio.
  split_and!; try done. intros ->. destruct (Hok eq_refl) as (lines & Ha & -> & _).
  split; [done|]. by exists lines.
Qed.

End Authenticate.

(** ** A concrete control port *)

(** How much of [stream] the reads on [fd] have taken, one byte each. *)
Fixpoint taken (fd : Z) (stream : bytes) (tr : trace) : nat :=
  match tr with
  | [] => O
  | Read f n :: tr =>
      let k := taken fd stream tr in
      if (f =? fd) && (1 <=? n) && (k <? length stream)%nat then S k else k
  | _ :: tr => taken fd stream tr
  end.

(** A peer on [fd] that says [stream] and takes everything it is sent. *)
Definition talking_os (fd : Z) (stream : bytes) : OS := fun tr c =>
  match c with
  | Read f n =>
      match stream !! taken fd stream tr with
      | Some b => if (f =? fd) && (1 <=? n) then SysRet 1 0 [b] else SysRet 0 0 []
      | None => SysRet 0 0 []
      end
  | Poll _ _ _ => SysRet 1 0 []
  | _ => kind_os tr c
  end.

Lemma taken_received fd stream tr :
  length (received (HOS := talking_os fd stream) fd tr) = taken fd stream tr.
Proof.
  induction tr as [|c tr IH]; [done|]. destruct c; try done. cbn [received taken].
  destruct (_ =? fd) eqn:Ef; [|done]. rewrite length_app, length_pad_to, IH.
  unfold os_answer, talking_os. rewrite Ef. cbn [andb].
  destruct (stream !! taken fd stream tr) as [b|] eqn:Eb.
  - assert (taken fd stream tr <? length stream = true)%nat as ->.
    { apply lookup_lt_Some in Eb. by apply Nat.ltb_lt. }
    destruct (1 <=? n) eqn:En; cbn; lia.
  - apply lookup_ge_None in Eb. destruct (Nat.ltb_spec (taken fd stream tr) (length stream)); [lia|].
    rewrite andb_false_r. cbn. lia.
Qed.

Lemma talking_delivers fd stream : delivers (HOS := talking_os fd stream) fd stream 0 0.
Proof.
  split; try done.
  intros tr c Hc. rewrite taken_received in Hc. unfold os_answer, talking_os. by rewrite Hc, Z.eqb_refl.
Qed.

Definition line_of (s : String.string) : bytes := lit s ++ CRLF.
Definition demo_lines : list bytes := [line_of "250-version=0.4.8"; line_of "250 OK"].

Lemma demo_answer_lines : answer demo_lines.
Proof.
  exists [line_of "250-version=0.4.8"], (line_of "250 OK"). split_and!; try done.
  - repeat constructor. exists (lit "250-version=0.4.8" ++ [CR]). split; [done|].
    apply (bool_decide_unpack _). vm_compute. exact I.
  - exists (lit "250 OK" ++ [CR]). split; [done|]. apply (bool_decide_unpack _). vm_compute. exact I.
Qed.

Lemma ctrl_response_delivered_witness :
  let stream := concat demo_lines ++ lit "650 NEXT" in
  (ctrl_read_response (H := talking_os 4 stream) 4 256 5000 []).1
    = (NOX_OK, lit "250-version=0.4.8" ++ CRLF ++ lit "250 OK" ++ CRLF).
Proof.
  cbv zeta.
  refine (proj1 (ctrl_response_delivered (HOS := talking_os 4 (concat demo_lines ++ lit "650 NEXT"))
    4 _ 0 0 (talking_delivers _ _) demo_lines (lit "650 NEXT") 256 5000 [] _ _ _ _ _)).
  - reflexivity.
  - apply demo_answer_lines.
  - repeat constructor; vm_compute; congruence.
  - vm_compute. reflexivity.
  - lia.
Defined.

Definition demo_service : bytes := demo_answer ++ line_of "250 OK".
Definition demo_b64 : Base64 := fun _ => Some (replicate 88 Byte.x41).

