(* ===== verification/TorProcess.v ===== *)
(** * The Tor process: src/network.c

    The left-over directories of earlier runs, the torrc file, starting and
    stopping Tor, the control connection, the listener and epoll.  [ndebug] is
    the build (the release build defines NDEBUG, and has no assertions);
    [dir_max] bounds the entries a directory loop visits, and no theorem depends
    on its value. *)

From S2P Require Import Prelude Primitives Types World Onion Network FileTransfer Keys Control.

Definition NOX_CTRL_SOCK_WAIT_SEC : Z := 30.
Definition NOX_CTRL_CONNECT_RETRIES : nat := 10.
Definition ECHILD : Z := 10.
Definition SIGKILL : Z := 9.
Definition SIGTERM : Z := 15.
Definition WNOHANG : Z := 1.
Definition STDIN_FILENO : Z := 0.
Definition PR_SET_PDEATHSIG : Z := 1.
Definition OPEN_DIR : Z := Z.lor OPEN_NOFOLLOW 0x10000.
Definition OPEN_TRUNC : Z := Z.lor OPEN_NOFOLLOW (Z.lor 0x1 (Z.lor 0x40 0x200)).
Definition OPEN_RDWR : Z := 2.

Definition join (dir name : bytes) : bytes := dir ++ [SLASH] ++ name.

(** ** Removing what an earlier run left *)

Section Cleanup.
Context `{OS} (dir_max : nat).

Section Entries.
Context (remove_dir : bytes -> St trace unit).

(** The [readdir] loop of [rm_rf]. *)
Fixpoint rm_entries (k : nat) (fd : Z) (path : bytes) : St trace unit :=
  match k with
  | O => mret tt
  | S k =>
      e ← sys (Readdir fd);
      if sr_ret e =? 0 then mret tt
      else
        let name := cstr (sr_data e) in
        _ ← (if negb (is_safe_filename name) then mret tt
             else
               st ← sys (FstatatDir fd name);
               if sr_ret st <? 0 then mret tt
               else if sr_ret st =? 1 then
                 let subpath := join path name in
                 if len subpath <? NOX_PATH_MAX then remove_dir subpath else mret tt
               else _ ← sys (Unlinkat fd name); mret tt);
        rm_entries k fd path
  end.

End Entries.

(** A path is shorter than [NOX_PATH_MAX] and each level adds a slash and a
    name, so the depth is bounded by it. *)
Fixpoint rm_rf_at (depth : nat) (path : bytes) : St trace unit :=
  match depth with
  | O => mret tt
  | S depth =>
      r ← sys (OpenPath path OPEN_DIR);
      let fd := sr_ret r in
      if fd <? 0 then _ ← sys (Unlink path); mret tt
      else
        d ← sys (Fdopendir fd);
        if sr_ret d =? 0 then _ ← sys (Close fd); mret tt
        else
          _ ← rm_entries (rm_rf_at depth) dir_max fd path;
          _ ← sys (Closedir fd);
          _ ← sys (Rmdir path);
          mret tt
  end.
Definition rm_rf : bytes -> St trace unit := rm_rf_at (Z.to_nat NOX_PATH_MAX).

(** [fgets] into 32 bytes, without the newline. *)
Fixpoint until_lf (s : bytes) : bytes :=
  match s with c :: s => if Byte.eqb c LF then [] else c :: until_lf s | [] => [] end.

Definition is_our_stale_entry (full_path : bytes) (pid : Z) : St trace bool :=
  st ← sys (Lstat full_path);
  if sr_ret st <? 0 then mret false
  else
    me ← sys Getuid;
    if negb (sr_ret st =? sr_ret me) then mret false
    else
      k ← sys (Kill pid 0);
      if sr_ret k =? 0 then
        comm ← sys (ReadComm pid);
        if negb (sr_ret comm =? 0)
             && bytes_eqb (until_lf (cstr (take 31 (sr_data comm)))) (lit "tor")
        then mret false
        else k ← sys (Kill pid 0); mret (negb (sr_ret k =? 0))
      else if negb (sr_errno k =? ESRCH) then mret false
      else mret true.

(** The pid of a name, and whether it names a data directory. *)
Definition stale_name (name : bytes) : option (Z * bool) :=
  if bytes_eqb (take 9 name) (lit "tor_data_") then Some (safe_parse_pid (drop 9 name), true)
  else if bytes_eqb (take 6 name) (lit "torrc_") then Some (safe_parse_pid (drop 6 name), false)
  else None.

Definition cleanup_entry (config_dir name : bytes) : St trace unit :=
  if negb (is_safe_filename name) then mret tt
  else
    match stale_name name with
    | None => mret tt
    | Some (pid, is_data_dir) =>
        if pid <=? 0 then mret tt
        else
          let path := join config_dir name in
          if NOX_PATH_MAX <=? len path then mret tt
          else if negb (path_under_dir path config_dir) then mret tt
          else
            stale ← is_our_stale_entry path pid;
            if negb stale then mret tt
            else if is_data_dir : bool then rm_rf path
            else _ ← sys (Unlink path); mret tt
    end.

Fixpoint cleanup_entries (k : nat) (dirfd : Z) (config_dir : bytes) : St trace unit :=
  match k with
  | O => mret tt
  | S k =>
      e ← sys (Readdir dirfd);
      if sr_ret e =? 0 then mret tt
      else
        _ ← cleanup_entry config_dir (cstr (sr_data e));
        cleanup_entries k dirfd config_dir
  end.

Definition cleanup_stale_tor_dirs (config_dir : bytes) : St trace unit :=
  d ← sys (Opendir config_dir);
  if sr_ret d =? 0 then mret tt
  else
    _ ← cleanup_entries dir_max (sr_ret d) config_dir;
    _ ← sys (Closedir (sr_ret d));
    mret tt.

End Cleanup.

(** ** torrc *)

(** The lines of each configuration, without their newlines. *)
Definition torrc_base (ndebug : bool) (dir : bytes) : list bytes :=
  [lit "SocksPort unix:" ++ dir ++ lit "/socks.sock";
   lit "ControlSocket " ++ dir ++ lit "/control.sock";
   lit "CookieAuthentication 1";
   lit "DataDirectory " ++ dir;
   lit "Log notice file " ++ (if ndebug then lit "/dev/null" else dir ++ lit "/tor.log")].

Definition snowflake_lines (plugin : bytes) : list bytes :=
  [lit "UseBridges 1";
   lit "UpdateBridgesFromAuthority 1";
   lit "ClientTransportPlugin snowflake exec " ++ plugin;
   lit "Bridge snowflake 192.0.2.3:80 2B280B2313E81E262C97C20B2F2B4B2F5714EAB1 "
     ++ lit "fingerprint=2B280B2313E81E262C97C20B2F2B4B2F5714EAB1 "
     ++ lit "url=https://snowflake-broker.torproject.net/ front=cdn.sstatic.net "
     ++ lit "ice=stun:stun.l.google.com:19302 utls-imitation=hellorandomizedalpn"].

Definition obfs4_lines (plugin bridge : bytes) : list bytes :=
  if bool_decide (bridge = []) then
    [lit "UseBridges 1"; lit "UpdateBridgesFromAuthority 1";
     lit "ClientTransportPlugin obfs4 exec " ++ plugin]
  else
    [lit "UseBridges 1"; lit "Bridge " ++ bridge;
     lit "ClientTransportPlugin obfs4 exec " ++ plugin].

Definition torrc_text (lines : list bytes) : bytes := concat ((fun l => l ++ [LF]) <$> lines).

Definition TORRC_CAPACITY : Z := NOX_PATH_MAX * 4 + 1024.

Section Torrc.
Context `{OS} (ndebug : bool) (dir_max : nat).

(** The program of a transport plugin: /usr/local/bin when it is there. *)
Definition plugin_path (name : bytes) : St world bytes :=
  r ← call (Access (lit "/usr/local/bin/" ++ name));
  mret ((if sr_ret r =? 0 then lit "/usr/local/bin/" else lit "/usr/bin/") ++ name).

(** None: the bridge line has a line break. *)
Definition torrc_lines : St world (option (list bytes)) :=
  a ← app id;
  let base := torrc_base ndebug (as_tor_data_dir a) in
  match as_transport_type a with
  | TRANSPORT_SNOWFLAKE =>
      p ← plugin_path (lit "snowflake-client"); mret (Some (base ++ snowflake_lines p))
  | TRANSPORT_OBFS4 =>
      p ← plugin_path (lit "obfs4proxy");
      mret (if negb (bool_decide (as_obfs4_bridge_line a = []))
               && has_crlf (as_obfs4_bridge_line a)
            then None else Some (base ++ obfs4_lines p (as_obfs4_bridge_line a)))
  | TRANSPORT_DIRECT => mret (Some base)
  end.

Definition pid_text : St world bytes := r ← call Getpid; mret (decimal 10 (sr_ret r) []).

(** Files of the configuration directory are reached through its descriptor
    when there is one. *)
Definition drop_torrc (name : bytes) : St world unit :=
  a ← app id;
  if 0 <=? as_config_dir_fd a then call_ (Unlinkat (as_config_dir_fd a) name)
  else call_ (Unlink (as_torrc_path a)).

(** The data directory: created or found, a directory of the user, mode 0700. *)
Definition prepare_data_dir (name : bytes) : St world nox_err :=
  a ← app id;
  m ← (if 0 <=? as_config_dir_fd a then call (Mkdirat (as_config_dir_fd a) name 0x1C0)
       else call (Mkdir (as_tor_data_dir a) 0x1C0));
  if negb (sr_ret m =? 0) && negb (sr_errno m =? EEXIST) then mret NOX_ERR_TOR
  else
    r ← (if 0 <=? as_config_dir_fd a then call (Openat (as_config_dir_fd a) name OPEN_DIR)
         else call (OpenPath (as_tor_data_dir a) OPEN_DIR));
    let dd := sr_ret r in
    if dd <? 0 then mret NOX_ERR_TOR
    else
      st ← call (Fstat dd);
      if negb (sr_ret st =? 0) then _ ← call_ (Close dd); mret NOX_ERR_TOR
      else
        mode ← call (StatField dd St_mode);
        if negb (Z.land (sr_ret mode) S_IFMT =? S_IFDIR)
        then _ ← call_ (Close dd); mret NOX_ERR_TOR
        else
          uid ← call (StatField dd St_uid);
          me ← call Geteuid;
          if negb (sr_ret uid =? sr_ret me) then _ ← call_ (Close dd); mret NOX_ERR_TOR
          else
            c ← call (Fchmod dd 0x1C0);
            _ ← call_ (Close dd);
            mret (if sr_ret c =? 0 then NOX_OK else NOX_ERR_TOR).

(** The torrc file is opened and filled. *)
Definition write_torrc (name : bytes) : St world nox_err :=
  a ← app id;
  r ← (if 0 <=? as_config_dir_fd a then call (Openat (as_config_dir_fd a) name OPEN_TRUNC)
       else call (OpenPath (as_torrc_path a) OPEN_TRUNC));
  let fd := sr_ret r in
  if fd <? 0 then mret NOX_ERR_TOR
  else
    st ← call (Fstat fd);
    mode ← (if sr_ret st =? 0 then call (StatField fd St_mode) else mret (SysRet S_IFREG 0 []));
    if (sr_ret st =? 0) && negb (Z.land (sr_ret mode) S_IFMT =? S_IFREG)
    then _ ← call_ (Close fd); _ ← drop_torrc name; mret NOX_ERR_TOR
    else
      lines ← torrc_lines;
      match lines with
      | None => _ ← call_ (Close fd); _ ← drop_torrc name; mret NOX_ERR_CONFIG
      | Some lines =>
          let content := torrc_text lines in
          if TORRC_CAPACITY <=? len content
          then _ ← call_ (Close fd); _ ← drop_torrc name; mret NOX_ERR_CONFIG
          else
            err ← lift_tr (write_full fd content);
            _ ← call_ (Close fd);
            mret err
      end.

Definition generate_torrc : St world nox_err :=
  config_dir ← app as_config_dir;
  _ ← lift_tr (cleanup_stale_tor_dirs dir_max config_dir);
  pid ← pid_text;
  let data_dir := join config_dir (lit "tor_data_" ++ pid) in
  _ ← upd_app (fun a => a <| as_tor_data_dir := take (Z.to_nat NOX_PATH_MAX - 1) data_dir |>);
  if NOX_PATH_MAX <=? len data_dir then mret NOX_ERR_CONFIG
  else
    pid ← pid_text;
    let torrc := join config_dir (lit "torrc_" ++ pid) in
    _ ← upd_app (fun a => a <| as_torrc_path := take (Z.to_nat NOX_PATH_MAX - 1) torrc |>);
    if NOX_PATH_MAX <=? len torrc then mret NOX_ERR_CONFIG
    else
      pid ← pid_text;
      err ← prepare_data_dir (lit "tor_data_" ++ pid);
      if negb (err_ok err) then mret err
      else
        pid ← pid_text;
        write_torrc (lit "torrc_" ++ pid).

End Torrc.

(** ** The process *)

Section Process.
Context `{OS}.

(** The polling loop: whether the child is gone. *)
Fixpoint reap_loop (rounds : nat) (pid : Z) : St trace bool :=
  match rounds with
  | O => mret false
  | S rounds =>
      r ← sys (Waitpid pid WNOHANG);
      if 0 <? sr_ret r then mret true
      else if (sr_ret r <? 0) && (sr_errno r =? ECHILD) then mret true
      else _ ← safe_nanosleep 100000000; reap_loop rounds pid
  end.

Definition terminate_and_reap (pid : Z) : St trace bool :=
  if pid <=? 0 then mret false
  else
    _ ← sys (Kill pid SIGTERM);
    gone ← reap_loop 50 pid;
    if gone : bool then mret true
    else
      _ ← sys (Kill pid SIGKILL);
      _ ← sys (Waitpid pid 0);
      mret false.

Definition tor_child_cleanup (pid : Z) : St trace unit :=
  if pid <=? 0 then mret tt else _ ← terminate_and_reap pid; mret tt.

(** [sizeof(struct ucred)] is 12. *)
Definition tor_verify_peer (fd expected_pid : Z) : St trace nox_err :=
  r ← sys (PeerCred fd);
  if negb (sr_ret r =? 0) then mret NOX_ERR_NET
  else
    n ← sys (StatField fd Cred_len);
    if negb (sr_ret n =? 12) then mret NOX_ERR_NET
    else
      pid ← sys (StatField fd Cred_pid);
      if negb (sr_ret pid =? expected_pid) then mret NOX_ERR_TOR
      else
        uid ← sys (StatField fd Cred_uid);
        me ← sys Getuid;
        mret (if sr_ret uid =? sr_ret me then NOX_OK else NOX_ERR_TOR).

Fixpoint wait_loop (tries : nat) (tor_pid : Z) (socket_path : bytes) : St trace nox_err :=
  match tries with
  | O => mret NOX_ERR_TOR
  | S tries =>
      down ← sys ShutdownFlag;
      if negb (sr_ret down =? 0) then mret NOX_ERR_TOR
      else
        died ← sys TorDiedFlag;
        if negb (sr_ret died =? 0) then mret NOX_ERR_TOR
        else
          w ← sys (Waitpid tor_pid WNOHANG);
          if 0 <? sr_ret w then mret NOX_ERR_TOR
          else if (sr_ret w <? 0) && (sr_errno w =? ECHILD) then mret NOX_ERR_TOR
          else
            s ← sys Socket;
            let probe_fd := sr_ret s in
            if probe_fd <? 0 then
              _ ← safe_nanosleep 100000000; wait_loop tries tor_pid socket_path
            else if SUN_PATH_SIZE <=? len socket_path then
              _ ← sys (Close probe_fd); mret NOX_ERR_CONFIG
            else
              c ← sys (ConnectUnix probe_fd socket_path);
              if sr_ret c =? 0 then
                peer_err ← tor_verify_peer probe_fd tor_pid;
                _ ← sys (Close probe_fd);
                mret peer_err
              else
                _ ← sys (Close probe_fd);
                _ ← safe_nanosleep 100000000;
                wait_loop tries tor_pid socket_path
  end.

Definition wait_for_control_socket (tor_pid : Z) (socket_path : bytes) (timeout_sec : Z)
    : St trace nox_err :=
  wait_loop (Z.to_nat (timeout_sec * 10)) tor_pid socket_path.

(** The child after [fork]: its exit code, or None once Tor has replaced it. *)
Definition close_fds_from (first last : Z) : St trace unit :=
  foldr (fun k m => _ ← sys (Close k); m) (mret tt) (seqZ first (last - first)).

Definition redirect (fd : Z) : St trace unit := _ ← sys (Dup2 fd STDIN_FILENO);
  _ ← sys (Dup2 fd 1); _ ← sys (Close fd); mret tt.

Definition tor_child (debug : bool) (torrc_path : bytes) : St trace (option Z) :=
  parent ← sys Getppid;
  p ← sys (Prctl PR_SET_PDEATHSIG SIGTERM);
  if negb (sr_ret p =? 0) then mret (Some 127)
  else
    now ← sys Getppid;
    if negb (sr_ret now =? sr_ret parent) then mret (Some 127)
    else
      sid ← sys Setsid;
      if sr_ret sid <? 0 then mret (Some 126)
      else
        dn ← sys (OpenPath (lit "/dev/null") OPEN_RDWR);
        _ ← (if 0 <=? sr_ret dn then redirect (sr_ret dn) else mret tt);
        _ ← (if debug then mret tt
             else
               dn ← sys (OpenPath (lit "/dev/null") OPEN_RDWR);
               if 0 <=? sr_ret dn then
                 _ ← sys (Dup2 (sr_ret dn) 2); _ ← sys (Close (sr_ret dn)); mret tt
               else mret tt);
        cr ← sys (CloseRange 3);
        _ ← (if sr_ret cr =? 0 then mret tt
             else
               m ← sys SysconfOpenMax;
               let max_fds := if (sr_ret m <? 0) || (4096 <? sr_ret m) then 4096 else sr_ret m in
               close_fds_from 3 max_fds);
        let argv := [lit "tor"; lit "-f"; torrc_path] in
        x ← sys (Execv (lit "/usr/bin/tor") argv);
        if 0 <=? sr_ret x then mret None
        else
          x ← sys (Execv (lit "/usr/local/bin/tor") argv);
          if 0 <=? sr_ret x then mret None else mret (Some 127).

(** The connection attempts; a shutdown ends them like the last failure. *)
Fixpoint connect_loop (tries : nat) (ctrl_fd : Z) (socket_path : bytes) : St trace bool :=
  match tries with
  | O => mret false
  | S tries =>
      down ← sys ShutdownFlag;
      if negb (sr_ret down =? 0) then mret false
      else
        c ← sys (ConnectUnix ctrl_fd socket_path);
        if sr_ret c =? 0 then mret true
        else _ ← safe_nanosleep 1000000000; connect_loop tries ctrl_fd socket_path
  end.

(** The parent: the error and, on success, the control descriptor. *)
Definition tor_attach (pid : Z) (socket_path : bytes) : St trace (nox_err * Z) :=
  err ← wait_for_control_socket pid socket_path NOX_CTRL_SOCK_WAIT_SEC;
  if negb (err_ok err) then _ ← tor_child_cleanup pid; mret (NOX_ERR_TOR, -1)
  else
    s ← sys Socket;
    let ctrl_fd := sr_ret s in
    if ctrl_fd <? 0 then _ ← tor_child_cleanup pid; mret (NOX_ERR_NET, -1)
    else
      connected ← connect_loop NOX_CTRL_CONNECT_RETRIES ctrl_fd socket_path;
      if negb connected then
        _ ← sys (Close ctrl_fd); _ ← tor_child_cleanup pid; mret (NOX_ERR_TOR, -1)
      else
        err ← tor_verify_peer ctrl_fd pid;
        if negb (err_ok err) then
          _ ← sys (Close ctrl_fd); _ ← tor_child_cleanup pid; mret (err, -1)
        else mret (NOX_OK, ctrl_fd).

(** What a process that ran [tor_spawn] is afterwards: the parent with an error
    code, or the child, which does not return. *)
Inductive spawned := Parent (err : nox_err) | Child (exit : option Z).

Definition tor_spawn (ndebug debug : bool) (dir_max : nat) : St world spawned :=
  err ← generate_torrc ndebug dir_max;
  if negb (err_ok err) then mret (Parent err)
  else
    data_dir ← app as_tor_data_dir;
    let socket_path := data_dir ++ lit "/control.sock" in
    if NOX_PATH_MAX <=? len socket_path then mret (Parent NOX_ERR_CONFIG)
    else if SUN_PATH_SIZE <=? len socket_path then mret (Parent NOX_ERR_CONFIG)
    else
      let socks := data_dir ++ lit "/socks.sock" in
      _ ← upd_app (fun a => a <| as_socks_path := take (Z.to_nat NOX_PATH_MAX - 1) socks |>);
      if NOX_PATH_MAX <=? len socks then mret (Parent NOX_ERR_CONFIG)
      else if SUN_PATH_SIZE <=? len socks then mret (Parent NOX_ERR_CONFIG)
      else
        _ ← call_ (Unlink socket_path);
        f ← call Fork;
        let pid := sr_ret f in
        if pid <? 0 then mret (Parent NOX_ERR_TOR)
        else if pid =? 0 then
          torrc ← app as_torrc_path;
          x ← lift_tr (tor_child debug torrc); mret (Child x)
        else
          '(err, ctrl_fd) ← lift_tr (tor_attach pid socket_path);
          if negb (err_ok err) then mret (Parent err)
          else
            _ ← upd_app (fun a => a <| as_tor_pid := pid |>);
            _ ← call_ (SetTorPid pid);
            _ ← upd_app (fun a => a <| as_tor_ctrl_fd := ctrl_fd |>);
            mret (Parent NOX_OK).

(** ** Shutdown *)

(** [strrchr(path, '/') + 1], or the whole path. *)
Definition base_name (path : bytes) : bytes :=
  match after_last_slash path with Some b => b | None => path end.

Definition tor_shutdown (dir_max : nat) : St world unit :=
  a ← app id;
  _ ← (if 0 <=? as_tor_ctrl_fd a then
         _ ← lift_tr (ctrl_send_command (as_tor_ctrl_fd a) (lit "SIGNAL SHUTDOWN" ++ CRLF));
         _ ← call_ (Close (as_tor_ctrl_fd a));
         upd_app (fun a => a <| as_tor_ctrl_fd := -1 |>)
       else skip);
  _ ← (if 0 <? as_tor_pid a then
         _ ← lift_tr (terminate_and_reap (as_tor_pid a));
         _ ← upd_app (fun a => a <| as_tor_pid := 0 |>);
         call_ (SetTorPid 0)
       else skip);
  _ ← (if negb (bool_decide (as_torrc_path a = [])) then
         _ ← (if negb (path_under_dir (as_torrc_path a) (as_config_dir a)) then skip
              else if 0 <=? as_config_dir_fd a
              then call_ (Unlinkat (as_config_dir_fd a) (base_name (as_torrc_path a)))
              else call_ (Unlink (as_torrc_path a)));
         upd_app (fun a => a <| as_torrc_path := [] |>)
       else skip);
  if negb (bool_decide (as_tor_data_dir a = [])) then
    _ ← (if negb (path_under_dir (as_tor_data_dir a) (as_config_dir a)) then skip
         else lift_tr (rm_rf dir_max (as_tor_data_dir a)));
    upd_app (fun a => a <| as_tor_data_dir := [] |>)
  else skip.

(** ** The listener and epoll *)

(** The error, the path and, on success, the descriptor. *)
Definition listener_create (tor_data_dir : bytes) : St trace (nox_err * bytes * option Z) :=
  let path := tor_data_dir ++ lit "/listen.sock" in
  if NOX_PATH_MAX <=? len path
  then mret (NOX_ERR_CONFIG, take (Z.to_nat NOX_PATH_MAX - 1) path, None)
  else
    s ← sys Socket;
    let fd := sr_ret s in
    if fd <? 0 then mret (NOX_ERR_NET, path, None)
    else
      _ ← sys (Unlink path);
      if SUN_PATH_SIZE <=? len path then
        _ ← sys (Close fd); _ ← sys (Unlink path); mret (NOX_ERR_CONFIG, path, None)
      else
        old ← sys (Umask 0x3F);
        b ← sys (BindUnix fd path);
        _ ← sys (Umask (sr_ret old));
        if negb (sr_ret b =? 0) then _ ← sys (Close fd); mret (NOX_ERR_NET, path, None)
        else
          _ ← sys (Chmod path 0x180);
          l ← sys (Listen fd 1);
          if negb (sr_ret l =? 0) then
            _ ← sys (Close fd); _ ← sys (Unlink path); mret (NOX_ERR_NET, path, None)
          else mret (NOX_OK, path, Some fd).

Definition epoll_setup (listen_fd : Z) : St world nox_err :=
  e ← call EpollCreate;
  let efd := sr_ret e in
  if efd <? 0 then mret NOX_ERR_NET
  else
    _ ← upd_app (fun a => a <| as_epoll_fd := efd |>);
    fl ← call (FcntlGetfl STDIN_FILENO);
    _ ← (if 0 <=? sr_ret fl then call_ (FcntlSetfl STDIN_FILENO (Z.lor (sr_ret fl) O_NONBLOCK))
         else skip);
    let undo := _ ← call_ (Close efd); upd_app (fun a => a <| as_epoll_fd := -1 |>) in
    err ← epoll_add_fd efd STDIN_FILENO;
    if negb (err_ok err) then _ ← undo; mret err
    else if 0 <=? listen_fd then
      err ← epoll_add_fd efd listen_fd;
      if negb (err_ok err) then _ ← undo; mret err else mret NOX_OK
    else mret NOX_OK.

End Process.
