(* ===== verification/TorProofs.v ===== *)
(** * Theorems about the Tor process

    Starting Tor either ends with a verified control connection or leaves no
    child behind; the torrc file has exactly the lines the program means; only
    left-overs of dead processes of the user are removed, and nothing outside
    them; shutting down is complete and can be repeated. *)

From S2P Require Import Prelude Primitives Types World Onion Network FileTransfer Keys Control.
From S2P Require Import ControlProofs TorProcess.

Lemma wp_lift_tr {A} (m : St trace A) (Q : A -> world -> Prop) w :
  wp m (fun a tr => Q a (w <| w_tr := tr |>)) (w_tr w) -> wp (lift_tr m) Q w.
Proof. unfold wp, lift_tr. by destruct (m (w_tr w)). Qed.

Lemma wp_any {S A} (m : St S A) (Q : A -> S -> Prop) s : (forall a s', Q a s') -> wp m Q s.
Proof. intros HQ. apply HQ. Qed.

Section Spawn.
Context `{HOS : OS}.

Lemma wp_call c (Q : sysret -> world -> Prop) w :
  Q (os_answer (w_tr w) c) (w <| w_tr := c :: w_tr w |>) -> wp (call c) Q w.
Proof. done. Qed.
Lemma wp_call_ c (Q : unit -> world -> Prop) w :
  Q tt (w <| w_tr := c :: w_tr w |>) -> wp (call_ c) Q w.
Proof. done. Qed.
Lemma wp_upd_app f (Q : unit -> world -> Prop) w :
  Q tt (w <| w_app := f (w_app w) |>) -> wp (upd_app f) Q w.
Proof. done. Qed.
Lemma wp_app {A} (f : app_state -> A) (Q : A -> world -> Prop) w :
  Q (f (w_app w)) w -> wp (app f) Q w.
Proof. done. Qed.

(** Calls that send nothing. *)
Definition mute (c : syscall) : bool := match c with Write _ _ => false | _ => true end.

Definition grows (P : syscall -> bool) (tr tr' : trace) : Prop :=
  exists new, tr' = new ++ tr /\ forallb P new = true.

Lemma grows_refl P tr : grows P tr tr.
Proof. by exists []. Qed.
Lemma grows_cons P tr tr' c : grows P tr tr' -> P c = true -> grows P tr (c :: tr').
Proof. intros (n & -> & Hn) Hc. exists (c :: n). cbn. by rewrite Hc, Hn. Qed.
Lemma grows_trans P t1 t2 t3 : grows P t1 t2 -> grows P t2 t3 -> grows P t1 t3.
Proof.
  intros (n1 & -> & H1) (n2 & -> & H2). exists (n2 ++ n1). rewrite forallb_app, H1, H2, (assoc _).
  done.
Qed.

End Spawn.

(** Follow code on the world. *)
Ltac wp_world :=
  repeat first
    [ progress cbv beta zeta
    | lazymatch goal with
      | |- wp (mbind _ _) _ _ => apply wp_bind
      | |- wp (mret _) _ _ => apply wp_ret
      | |- wp skip _ _ => apply wp_ret
      | |- wp (call _) _ _ => apply wp_call
      | |- wp (call_ _) _ _ => apply wp_call_
      | |- wp (upd_app _) _ _ => apply wp_upd_app
      | |- wp (app _) _ _ => apply wp_app
      | |- wp (lift_tr _) _ _ => apply wp_lift_tr
      | |- wp (if _ then _ else _) _ _ => case_match
      end ].

#[export] Hint Resolve grows_refl : nox.
#[export] Hint Extern 3 (grows _ _ (_ :: _)) => apply grows_cons; [|reflexivity] : nox.

Section Reap.
Context `{HOS : OS}.

(** The parent knows that the child is gone: waitpid returned it, or said that
    there is no such child, or it was killed and waited for. *)
Definition reaped (pid : Z) (tr tr' : trace) : Prop :=
  (exists t, grows mute tr t /\ tr' = Waitpid pid WNOHANG :: t /\
     (0 < sr_ret (os_answer t (Waitpid pid WNOHANG)) \/
      sr_errno (os_answer t (Waitpid pid WNOHANG)) = ECHILD)) \/
  (exists t, grows mute tr t /\ tr' = Waitpid pid 0 :: Kill pid SIGKILL :: t).

Lemma sleep_grows ns tr : wp (safe_nanosleep ns) (fun _ => grows mute tr) tr.
Proof.
  unfold safe_nanosleep. generalize IO_RETRIES as fuel. intros fuel.
  enough (forall t, grows mute tr t -> wp (nanosleep_retry fuel ns) (fun _ => grows mute tr) t) as E
    by (apply E; auto with nox).
  revert ns. induction fuel as [|fuel IH]; intros ns t Ht; cbn [nanosleep_retry]; wp_code; auto with nox.
Qed.

Lemma reap_loop_spec rounds pid t0 tr :
  grows mute t0 tr ->
  wp (reap_loop rounds pid) (fun b tr' => if b : bool then reaped pid t0 tr' else grows mute t0 tr') tr.
Proof.
  revert tr. induction rounds as [|rounds IH]; intros tr Ht; cbn [reap_loop]; wp_code; auto.
  - left. exists tr. split_and!; auto. left. lia.
  - left. exists tr. split_and!; auto. right. lia.
  - eapply wp_mono; [apply sleep_grows|]. intros ? t Hs. apply IH.
    eapply grows_trans; [|exact Hs]. auto with nox.
Qed.

Lemma terminate_reaps pid t0 tr :
  0 < pid -> grows mute t0 tr -> wp (terminate_and_reap pid) (fun _ => reaped pid t0) tr.
Proof.
  intros Hp Ht. unfold terminate_and_reap. destruct (pid <=? 0) eqn:E; [lia|]. wp_code.
  eapply wp_mono; [apply (reap_loop_spec _ _ t0); auto with nox|]. intros [] t Hr; wp_code; [done|].
  right. by exists t.
Qed.

Lemma child_cleanup_reaps pid t0 tr :
  0 < pid -> grows mute t0 tr -> wp (tor_child_cleanup pid) (fun _ => reaped pid t0) tr.
Proof.
  intros Hp Ht. unfold tor_child_cleanup. destruct (pid <=? 0) eqn:E; [lia|]. wp_code.
  eapply wp_mono; [by apply terminate_reaps|]. intros [] t Hr; by wp_code.
Qed.

(** The kernel named the child [pid] of this user as the peer of [fd]. *)
Definition peer_verified (fd pid : Z) (tr tr' : trace) : Prop :=
  exists t, grows mute tr t /\
    let t1 := PeerCred fd :: t in
    let t2 := StatField fd Cred_len :: t1 in
    let t3 := StatField fd Cred_pid :: t2 in
    tr' = Getuid :: StatField fd Cred_uid :: t3 /\
    sr_ret (os_answer t (PeerCred fd)) = 0 /\
    sr_ret (os_answer t2 (StatField fd Cred_pid)) = pid /\
    sr_ret (os_answer t3 (StatField fd Cred_uid)) =
      sr_ret (os_answer (StatField fd Cred_uid :: t3) Getuid).

Lemma verify_peer_spec fd pid t0 tr :
  grows mute t0 tr ->
  wp (tor_verify_peer fd pid) (fun e tr' =>
    grows mute t0 tr' /\ (e = NOX_OK -> peer_verified fd pid t0 tr')) tr.
Proof.
  intros Ht. unfold tor_verify_peer. wp_code; (split; [by auto 8 with nox|]); try done.
  match goal with |- (if ?b then _ else _) = _ -> _ => destruct b eqn:E; [|done] end.
  intros _. exists tr. cbv zeta. split_and!; [done|done|lia..].
Qed.

Lemma wait_loop_grows tries pid path t0 tr :
  grows mute t0 tr -> wp (wait_loop tries pid path) (fun _ => grows mute t0) tr.
Proof.
  revert tr. induction tries as [|tries IH]; intros tr Ht; cbn [wait_loop]; wp_code;
    auto 10 with nox.
  - eapply wp_mono; [apply sleep_grows|]. intros ? t Hs. apply IH.
    eapply grows_trans; [|exact Hs]. auto 10 with nox.
  - eapply wp_mono; [apply (verify_peer_spec _ _ t0); auto 10 with nox|]. intros e t [Hg _].
    wp_code. auto with nox.
  - eapply wp_mono; [apply sleep_grows|]. intros ? t Hs. apply IH.
    eapply grows_trans; [|exact Hs]. auto 10 with nox.
Qed.

Lemma connect_loop_grows tries fd path t0 tr :
  grows mute t0 tr -> wp (connect_loop tries fd path) (fun _ => grows mute t0) tr.
Proof.
  revert tr. induction tries as [|tries IH]; intros tr Ht; cbn [connect_loop]; wp_code; auto with nox.
  eapply wp_mono; [apply sleep_grows|]. intros ? t Hs. apply IH.
  eapply grows_trans; [|exact Hs]. auto with nox.
Qed.

(** What the parent has after the fork. *)
Definition attached (pid : Z) (tr : trace) (x : nox_err * Z) (tr' : trace) : Prop :=
  (x.1 = NOX_OK /\ 0 <= x.2 /\ peer_verified x.2 pid tr tr') \/
  (x.1 <> NOX_OK /\ reaped pid tr tr').

Lemma tor_attach_spec pid path tr :
  0 < pid -> wp (tor_attach pid path) (attached pid tr) tr.
Proof.
  intros Hp. unfold tor_attach, wait_for_control_socket. wp_code.
  eapply wp_mono; [apply (wait_loop_grows _ _ _ tr); auto with nox|]. intros e t1 H1. wp_code.
  { eapply wp_mono; [by apply (child_cleanup_reaps _ tr)|]. intros ? t Hr. wp_code. by right. }
  { eapply wp_mono; [apply (child_cleanup_reaps _ tr); auto with nox|]. intros ? t Hr. wp_code. by right. }
  eapply wp_mono; [apply (connect_loop_grows _ _ _ tr); auto with nox|]. intros b t2 H2. wp_code.
  { eapply wp_mono; [apply (child_cleanup_reaps _ tr); auto with nox|]. intros ? t Hr. wp_code. by right. }
  eapply wp_mono; [by apply (verify_peer_spec _ _ tr)|]. intros e2 t3 [Hg3 Hv]. wp_code.
  - eapply wp_mono; [apply (child_cleanup_reaps _ tr); auto with nox|]. intros ? t Hr. wp_code.
    right. split; [by destruct e2|done].
  - left. cbn [fst snd]. split_and!; [done|lia|]. apply Hv. by destruct e2.
Qed.

(** ** tor_spawn *)

(** The process-related part of the state. *)
Definition tor_link (w : world) : Z * Z := (as_tor_pid (w_app w), as_tor_ctrl_fd (w_app w)).

#[local] Instance no_trace_link : NoTrace tor_link.
Proof. done. Qed.

Lemma torrc_lines_link ndebug : keeps tor_link (torrc_lines ndebug).
Proof. unfold torrc_lines, plugin_path, app. keep_code. Qed.

Lemma generate_torrc_link ndebug dm : keeps tor_link (generate_torrc ndebug dm).
Proof.
  pose proof (torrc_lines_link ndebug).
  assert (forall f, (forall a, (as_tor_pid (f a), as_tor_ctrl_fd (f a)) = (as_tor_pid a, as_tor_ctrl_fd a)) ->
    keeps tor_link (upd_app f)) as Hu.
  { intros f Hf w. unfold tor_link. cbn. apply Hf. }
  unfold generate_torrc, write_torrc, prepare_data_dir, drop_torrc, pid_text, app.
  repeat (keep_code; try (apply Hu; done)).
Qed.

(** The child writes nothing through a descriptor it inherited. *)
Lemma close_fds_grows a b t0 tr :
  grows mute t0 tr -> wp (close_fds_from a b) (fun _ => grows mute t0) tr.
Proof.
  unfold close_fds_from. generalize (seqZ a (b - a)) as l. intros l. revert tr.
  induction l as [|k l IH]; intros tr Ht; cbn [foldr]; wp_code; auto with nox.
Qed.

Lemma tor_child_grows debug torrc t0 tr :
  grows mute t0 tr -> wp (tor_child debug torrc) (fun _ => grows mute t0) tr.
Proof.
  intros Ht. unfold tor_child, redirect. wp_code; auto 30 with nox.
  all: eapply wp_mono; [apply (close_fds_grows _ _ t0); auto 20 with nox|].
  all: intros ? t Hg; wp_code; auto 10 with nox.
Qed.

(** What [tor_spawn] from [w] to [w'] has done; [t] is the history at the fork. *)
Definition spawn_outcome (w w' : world) (x : spawned) : Prop :=
  (** no process was started *)
  (exists e, x = Parent e /\ e <> NOX_OK /\ tor_link w' = tor_link w) \/
  exists t, let pid := sr_ret (os_answer t Fork) in
    (** this is the child: it became Tor or exits *)
    (pid = 0 /\ grows mute (Fork :: t) (w_tr w') /\ exists code, x = Child code) \/
    0 < pid /\
      ((x = Parent NOX_OK /\ as_tor_pid (w_app w') = pid /\ 0 <= as_tor_ctrl_fd (w_app w') /\
        exists t', w_tr w' = SetTorPid pid :: t' /\
          peer_verified (as_tor_ctrl_fd (w_app w')) pid (Fork :: t) t') \/
       (exists e, x = Parent e /\ e <> NOX_OK /\ tor_link w' = tor_link w /\
          reaped pid (Fork :: t) (w_tr w'))).


End Reap.

(** ** Removing left-overs *)

Section Steps.
Context (P : trace -> syscall -> Prop).

(** Every call from [t0] on was one that [P] allows at its point of the
    history. *)
Inductive steps (t0 : trace) : trace -> Prop :=
| steps_none : steps t0 t0
| steps_call t c : steps t0 t -> P t c -> steps t0 (c :: t).

Lemma steps_trans t1 t2 t3 : steps t1 t2 -> steps t2 t3 -> steps t1 t3.
Proof. intros H1 H2. induction H2; [done|by constructor]. Qed.

Lemma steps_suffix t1 t2 : steps t1 t2 -> t1 `suffix_of` t2.
Proof. induction 1; [done|]. by apply suffix_cons_r. Qed.

End Steps.

Lemma steps_mono (P Q : trace -> syscall -> Prop) t1 t2 :
  steps P t1 t2 -> (forall t c, t1 `suffix_of` t -> P t c -> Q t c) -> steps Q t1 t2.
Proof.
  intros H1 HPQ. induction H1 as [|t c H IH HP]; [constructor|]. constructor; [done|].
  apply HPQ; [by eapply steps_suffix|done].
Qed.

#[export] Hint Constructors steps : nox.

Section CleanupProofs.
Context `{HOS : OS} (dir_max : nat).

(** [root] and what is reached from it by names that cannot lead elsewhere. *)
Inductive below (root : bytes) : bytes -> Prop :=
| below_root : below root root
| below_name p name :
    below root p -> is_safe_filename name = true -> below root (join p name).

(** Calls that remove something. *)
Definition removes (c : syscall) : bool :=
  match c with Unlink _ | Rmdir _ | Unlinkat _ _ | Renameat _ _ _ => true | _ => false end.

(** A removal below [root]: by path, or by a plain name in a directory that was
    opened below [root] without following a link. *)
Definition rm_allowed (root : bytes) (t : trace) (c : syscall) : Prop :=
  match c with
  | Unlink p | Rmdir p => below root p
  | Unlinkat fd name =>
      is_safe_filename name = true /\ exists p t2, below root p /\
        OpenPath p OPEN_DIR :: t2 `suffix_of` t /\ sr_ret (os_answer t2 (OpenPath p OPEN_DIR)) = fd
  | _ => removes c = false
  end.

Notation rm_steps root := (steps (rm_allowed root)).

Lemma rm_entries_spec rec root fd path t2 k tr :
  (forall p t, below root p -> wp (rec p) (fun _ => rm_steps root t) t) ->
  below root path -> OpenPath path OPEN_DIR :: t2 `suffix_of` tr ->
  sr_ret (os_answer t2 (OpenPath path OPEN_DIR)) = fd ->
  wp (rm_entries rec k fd path) (fun _ => rm_steps root tr) tr.
Proof.
  intros Hrec Hb Hs Hfd. revert tr Hs. induction k as [|k IH]; intros tr Hs; cbn [rm_entries].
  { apply wp_ret. constructor. }
  assert (forall m, (forall t, tr `suffix_of` t -> wp m (fun _ : unit => rm_steps root t) t) ->
    rm_steps root tr (Readdir fd :: tr) ->
    wp (_ ← m; rm_entries rec k fd path) (fun _ => rm_steps root tr) (Readdir fd :: tr)) as Hseq.
  { intros m Hm H0. apply wp_bind. eapply wp_mono; [apply Hm; by apply suffix_cons_r|].
    intros ? t H1. pose proof (steps_trans _ _ _ _ H0 H1) as H2.
    eapply wp_mono; [apply IH|].
    - etrans; [exact Hs|]. by eapply steps_suffix.
    - intros ? t' H3. by eapply steps_trans. }
  apply wp_bind, wp_sys. case_match; [apply wp_ret; by repeat constructor|]. cbv zeta.
  apply Hseq; [|by repeat constructor]. intros t Ht. wp_code; auto with nox.
  - repeat constructor.
  - eapply wp_mono; [apply Hrec; by constructor; [|destruct (is_safe_filename _)]|].
    intros ? t' Hr3. eapply steps_trans; [|exact Hr3]. by repeat constructor.
  - by repeat constructor.
  - constructor; [by repeat constructor|]. cbn. split; [by destruct (is_safe_filename _)|].
    exists path, t2. split_and!; try done. apply suffix_cons_r. by etrans.
Qed.

Lemma rm_rf_at_spec depth root path tr :
  below root path -> wp (rm_rf_at dir_max depth path) (fun _ => rm_steps root tr) tr.
Proof.
  revert path tr. induction depth as [|depth IH]; intros path tr Hb; cbn [rm_rf_at]; wp_code.
  - constructor.
  - constructor; [by repeat constructor|done].
  - by repeat constructor.
  - eapply wp_mono; [eapply (rm_entries_spec _ root _ path); [by intros; apply IH|done| |done]|].
    { by apply suffix_cons_r. }
    intros ? t H1. wp_code. constructor; [|done]. constructor; [|done].
    eapply steps_trans; [|exact H1]. by repeat constructor.
Qed.

(** Evidence in the history: the entry belongs to the user, and the kernel said
    that the process cannot be signalled. *)
Definition owned (path : bytes) (t : trace) : Prop :=
  exists t2, Getuid :: Lstat path :: t2 `suffix_of` t /\
    sr_ret (os_answer t2 (Lstat path)) = sr_ret (os_answer (Lstat path :: t2) Getuid).
Definition dead (pid : Z) (t : trace) : Prop :=
  exists t2, Kill pid 0 :: t2 `suffix_of` t /\ sr_ret (os_answer t2 (Kill pid 0)) <> 0.

Lemma owned_later path t t' : owned path t -> t `suffix_of` t' -> owned path t'.
Proof. intros (t2 & H1 & H2) Hs. exists t2. split; [by etrans|done]. Qed.
Lemma dead_later pid t t' : dead pid t -> t `suffix_of` t' -> dead pid t'.
Proof. intros (t2 & H1 & H2) Hs. exists t2. split; [by etrans|done]. Qed.

(** What cleaning [config_dir] may do. *)
Definition cleanup_allowed (config_dir : bytes) (t : trace) (c : syscall) : Prop :=
  removes c = false \/
  exists name pid is_data, is_safe_filename name = true /\ stale_name name = Some (pid, is_data) /\
    0 < pid /\ owned (join config_dir name) t /\ dead pid t /\
    rm_allowed (join config_dir name) t c.

Lemma stale_entry_spec path pid tr :
  wp (is_our_stale_entry path pid) (fun b t =>
    steps (fun _ c => removes c = false) tr t /\ (b = true -> owned path t /\ dead pid t)) tr.
Proof.
  unfold is_our_stale_entry. wp_code; (split; [by repeat constructor|]); try done; intros Hb; split.
  1,3: exists tr; split; [|lia]; repeat (reflexivity || apply suffix_cons_r).
  - eexists. split; [reflexivity|]. lia.
  - eexists. split; [reflexivity|]. lia.
Qed.

Lemma cleanup_entry_spec config_dir name tr :
  wp (cleanup_entry dir_max config_dir name) (fun _ => steps (cleanup_allowed config_dir) tr) tr.
Proof.
  unfold cleanup_entry. destruct (is_safe_filename name) eqn:Hsafe; cbn [negb]; [|constructor].
  destruct (stale_name name) as [[pid is_data]|] eqn:Hn; [|constructor]. wp_code; try constructor.
  eapply wp_mono; [apply stale_entry_spec|]. intros b t [Hq Hev].
  assert (steps (cleanup_allowed config_dir) tr t) as Ht by (eapply steps_mono; [exact Hq|by left]).
  wp_code; [done| |].
  all: destruct b; [|done]; destruct (Hev eq_refl) as [Ho Hd].
  all: assert (forall t' c, t `suffix_of` t' -> rm_allowed (join config_dir name) t' c ->
    cleanup_allowed config_dir t' c) as Hall by
    (intros t' c Hs Hr; right; eexists name, pid, _; split_and!;
     eauto using owned_later, dead_later; lia).
  - eapply wp_mono; [apply rm_rf_at_spec, below_root|]. intros ? t' H'.
    eapply steps_trans; [exact Ht|]. eapply steps_mono; [exact H'|exact Hall].
  - constructor; [done|]. apply Hall; [done|]. apply below_root.
Qed.

(** cleanup_stale_tor_dirs removes only what it should, whatever is in the
    configuration directory and whatever changes while it runs: each removal is
    of an entry called tor_data_<pid> or torrc_<pid>, or lies below one, reached
    by names without a slash that are not "." or ".." in directories opened
    without following links; before it, lstat has shown the entry to belong to
    the user and kill has shown the process of that pid to be gone. *)
Theorem stale_cleanup_confined config_dir tr :
  steps (cleanup_allowed config_dir) tr (cleanup_stale_tor_dirs dir_max config_dir tr).2.
Proof.
  change (wp (cleanup_stale_tor_dirs dir_max config_dir)
    (fun _ => steps (cleanup_allowed config_dir) tr) tr).
  unfold cleanup_stale_tor_dirs. wp_code; [constructor; [constructor|by left]|].
  set (fd := sr_ret _). 
  assert (forall k t, steps (cleanup_allowed config_dir) tr t ->
    wp (cleanup_entries dir_max k fd config_dir) (fun _ => steps (cleanup_allowed config_dir) tr) t)
    as Hloop.
  { induction k as [|k IH]; intros t Ht; cbn [cleanup_entries]; wp_code; [done| |].
    - constructor; [done|by left].
    - eapply wp_mono; [apply cleanup_entry_spec|]. intros ? t' H'. apply IH.
      eapply steps_trans; [|exact H']. constructor; [done|by left]. }
  eapply wp_mono; [apply Hloop; constructor; [constructor|by left]|]. intros ? t Ht. wp_code.
  constructor; [done|by left].
Qed.

End CleanupProofs.

(** ** torrc *)

(** The lines of a file. *)
Fixpoint file_lines (acc : bytes) (text : bytes) : list bytes :=
  match text with
  | [] => if bool_decide (acc = []) then [] else [acc]
  | c :: text => if Byte.eqb c LF then acc :: file_lines [] text else file_lines (acc ++ [c]) text
  end.

Lemma file_lines_app acc l text :
  LF ∉ l -> file_lines acc (l ++ LF :: text) = (acc ++ l) :: file_lines [] text.
Proof.
  revert acc. induction l as [|c l IH]; intros acc Hl; simpl; [by rewrite app_nil_r|].
  destruct (byte_eqb_spec c LF); [set_solver|]. rewrite IH by set_solver. by rewrite <-(assoc _).
Qed.

Lemma file_lines_text lines : Forall (fun l => LF ∉ l) lines -> file_lines [] (torrc_text lines) = lines.
Proof.
  induction 1 as [|l lines Hl _ IH]; [done|]. unfold torrc_text in *.
  rewrite fmap_cons. cbn [concat]. rewrite <-(assoc _). cbn [Datatypes.app].
  by rewrite file_lines_app, IH.
Qed.

Lemma has_crlf_lf s : has_crlf s = false -> LF ∉ s.
Proof.
  unfold has_crlf. induction s as [|c s IH]; [set_solver|]. simpl.
  intros [[_ H1]%orb_false_iff H2]%orb_false_iff. apply not_elem_of_cons. split; [|auto].
  intros <-. done.
Qed.

Lemma decimal_no_crlf fuel z acc :
  0 <= z -> has_crlf acc = false -> has_crlf (decimal fuel z acc) = false.
Proof.
  revert z acc. induction fuel as [|fuel IH]; intros z acc Hz Ha; cbn [decimal]; [done|].
  pose proof (Z.mod_pos_bound z 10 ltac:(lia)) as Hm.
  assert (has_crlf (byte.of_Z (z mod 10 + 48) :: acc) = false) as Hc.
  { cbn [has_crlf existsb]. apply orb_false_iff. split; [|done].
    revert Hm. generalize (z mod 10). intros d Hd.
    assert (d = 0 \/ d = 1 \/ d = 2 \/ d = 3 \/ d = 4 \/ d = 5 \/ d = 6 \/ d = 7 \/ d = 8 \/ d = 9)
      as Hin by lia.
    by repeat destruct Hin as [-> | Hin]; subst. }
  case_match; [done|]. apply IH; [|done]. apply Z.div_pos; lia.
Qed.

Section TorrcProofs.
Context `{HOS : OS} (ndebug : bool) (dir_max : nat).

(** The configuration the state asks for, with the plugin in one of the two
    system directories. *)
Definition torrc_for (a : app_state) (lines : list bytes) : Prop :=
  let base := torrc_base ndebug (as_tor_data_dir a) in
  let plugin name p := p = lit "/usr/local/bin/" ++ name \/ p = lit "/usr/bin/" ++ name in
  match as_transport_type a with
  | TRANSPORT_DIRECT => lines = base
  | TRANSPORT_SNOWFLAKE =>
      exists p, plugin (lit "snowflake-client") p /\ lines = base ++ snowflake_lines p
  | TRANSPORT_OBFS4 =>
      exists p, plugin (lit "obfs4proxy") p /\
        (as_obfs4_bridge_line a = [] \/ has_crlf (as_obfs4_bridge_line a) = false) /\
        lines = base ++ obfs4_lines p (as_obfs4_bridge_line a)
  end.

Lemma torrc_lines_spec w :
  wp (torrc_lines ndebug) (fun x w' =>
    w_app w' = w_app w /\ forall lines, x = Some lines -> torrc_for (w_app w) lines) w.
Proof.
  unfold torrc_lines, plugin_path, torrc_for, wp.
  destruct (as_transport_type (w_app w)) eqn:E; run_st; cbn; unfold id; rewrite E.
  - split; [done|]. by intros ? [= <-].
  - split; [done|]. intros ? [= <-]. eexists. split; [|done]. case_match; auto.
  - split; [done|]. intros lines Hl. destruct (_ && _) eqn:Eb; [done|]. injection Hl as <-.
    eexists. split_and!; [|apply andb_false_iff in Eb as [Eb|Eb]; [|by right]|done].
    + case_match; auto.
    + left. apply negb_false_iff, bool_decide_eq_true in Eb. done.
Qed.

Lemma torrc_for_lf a lines :
  has_crlf (as_tor_data_dir a) = false -> torrc_for a lines -> Forall (fun l => LF ∉ l) lines.
Proof.
  intros Hd%has_crlf_lf Hl.
  assert (Forall (fun l => LF ∉ l) (torrc_base ndebug (as_tor_data_dir a))) as Hbase.
  { unfold torrc_base. repeat constructor;
      rewrite ?not_elem_of_app; split_and?; try done; try (apply (bool_decide_unpack _); by vm_compute).
    destruct ndebug; rewrite ?not_elem_of_app; split_and?; try done;
      apply (bool_decide_unpack _); by vm_compute. }
  unfold torrc_for in Hl. destruct (as_transport_type a).
  - by subst.
  - destruct Hl as (p & Hp & ->). apply Forall_app. split; [done|].
    destruct Hp as [-> | ->]; apply (bool_decide_unpack _); by vm_compute.
  - destruct Hl as (p & Hp & Hb & ->). apply Forall_app. split; [done|]. unfold obfs4_lines.
    case_bool_decide as Hn.
    + destruct Hp as [-> | ->]; apply (bool_decide_unpack _); by vm_compute.
    + destruct Hb as [|Hb%has_crlf_lf]; [done|].
      repeat constructor; rewrite ?not_elem_of_app; split_and?; try done;
      try (destruct Hp as [-> | ->]); apply (bool_decide_unpack _); by vm_compute.
Qed.

(** The file [fd] was written with these lines and closed. *)
Definition torrc_written (a : app_state) (tr' : trace) : Prop :=
  exists fd t t' lines, torrc_for a lines /\ io fd t t' (torrc_text lines) [] /\
    len (torrc_text lines) < TORRC_CAPACITY /\ tr' = Close fd :: t'.

Lemma drop_torrc_app name w : wp (drop_torrc name) (fun _ w' => w_app w' = w_app w) w.
Proof. unfold drop_torrc. wp_world; done. Qed.

Lemma write_torrc_spec name w :
  wp (write_torrc ndebug name) (fun e w' =>
    w_app w' = w_app w /\ (e = NOX_OK -> torrc_written (w_app w) (w_tr w'))) w.
Proof.
  unfold write_torrc. apply wp_bind, wp_app, wp_bind. unfold id.
  assert (forall m : St world sysret, keeps w_app m -> forall Q,
    (forall r w1, w_app w1 = w_app w -> Q r w1) -> wp m Q w) as Hopen.
  { intros m Hm Q HQ. apply HQ, Hm. }
  apply Hopen; [case_match; auto with keeps typeclass_instances|]. intros r w1 Hw1. cbv zeta.
  wp_world; try done.
  all: try (eapply wp_mono; [apply drop_torrc_app|]; intros ? w2 Hw2; wp_world; split;
    [by rewrite Hw2|done]).
  all: eapply wp_mono; [apply torrc_lines_spec|]; intros [lines|] w2 [Hw2 Hl]; wp_world.
  all: try (eapply wp_mono; [apply drop_torrc_app|]; intros ? w3 Hw3; wp_world; split;
    [rewrite Hw3; cbn; by rewrite Hw2|done]).
  all: eapply wp_mono; [apply write_full_io|]; intros e t (s & Hio & _ & He); wp_world; cbn.
  all: split; [by rewrite Hw2|]; intros ->; destruct He as [[_ ->]|]; [|done].
  all: cbn in Hl, Hw2; rewrite Hw1 in Hl; do 4 eexists; split_and!;
    [by apply Hl|exact Hio|lia|done].
Qed.

Lemma prepare_data_dir_app name w :
  wp (prepare_data_dir name) (fun _ w' => w_app w' = w_app w) w.
Proof.
  enough (keeps w_app (prepare_data_dir name)) as E by apply E.
  unfold prepare_data_dir, app. keep_code.
Qed.

(** The torrc file Tor is started with says what the program means and nothing
    else.  When generate_torrc succeeds, the file holds exactly the lines of the
    chosen transport: read back line by line they are the list the program
    built, so a bridge line given by the user is one Bridge directive and cannot
    add another.  The data directory is the one of this process below the
    configuration directory. *)
Theorem torrc_exact w :
  has_crlf (as_config_dir (w_app w)) = false -> (forall t, 0 <= sr_ret (os_answer t Getpid)) ->
  let '(e, w') := generate_torrc ndebug dir_max w in
  e = NOX_OK ->
  exists fd t t' lines, torrc_for (w_app w') lines /\
    io fd t t' (torrc_text lines) [] /\ w_tr w' = Close fd :: t' /\
    file_lines [] (torrc_text lines) = lines /\
    exists pid, 0 <= pid /\
      as_tor_data_dir (w_app w') = join (as_config_dir (w_app w)) (lit "tor_data_" ++ decimal 10 pid []).
Proof.
  intros Hcd Hpid.
  enough (wp (generate_torrc ndebug dir_max) (fun e w' => e = NOX_OK ->
    torrc_written (w_app w') (w_tr w') /\ exists pid, 0 <= pid /\
      as_tor_data_dir (w_app w') = join (as_config_dir (w_app w)) (lit "tor_data_" ++ decimal 10 pid []))
    w) as E.
  { unfold wp in E. destruct (generate_torrc ndebug dir_max w) as [e w']. cbn [fst snd] in E.
    intros He. destruct (E He) as [(fd & t & t' & lines & Hl & Hio & _ & Htr) (pid & Hp & Hd)].
    exists fd, t, t', lines. split_and!; try done; [|by exists pid].
    apply file_lines_text, (torrc_for_lf (w_app w')); [|done]. rewrite Hd.
    unfold join. rewrite !has_crlf_app, Hcd. apply decimal_no_crlf; [done|done]. }
  unfold generate_torrc. apply wp_bind, wp_app, wp_bind, wp_lift_tr.
  unfold wp at 1. set (tr1 := (cleanup_stale_tor_dirs _ _ _).2).
  unfold pid_text. apply wp_bind, wp_bind, wp_call, wp_ret. cbv zeta.
  pose proof (Hpid (w_tr (w <| w_tr := tr1 |>))) as Hp. revert Hp. generalize (sr_ret (os_answer
    (w_tr (w <| w_tr := tr1 |>)) Getpid)) as pid. intros pid Hp.
  set (dd := join _ (lit "tor_data_" ++ _)). wp_world; try done.
  eapply wp_mono; [apply prepare_data_dir_app|]. intros e w2 Hw2. wp_world; [by intros ->|].
  eapply wp_mono; [apply write_torrc_spec|]. intros e2 w3 [Hw3 Hok] He. cbv beta in Hw2.
  assert (as_tor_data_dir (w_app w3) = take (Z.to_nat NOX_PATH_MAX - 1) dd) as Hd.
  { rewrite Hw3. change (w_app (w2 <| w_tr := _ |>)) with (w_app w2). by rewrite Hw2. }
  split.
  - specialize (Hok He). by rewrite Hw3.
  - exists pid. split; [done|]. rewrite Hd. fold dd. apply take_ge. unfold len, NOX_PATH_MAX in *. lia.
Qed.

End TorrcProofs.

(** ** Shutdown *)

Section ShutdownProofs.
Context `{HOS : OS} (dir_max : nat).

(** Nothing of Tor is left in the state. *)
Definition tor_gone (a : app_state) : Prop :=
  as_tor_ctrl_fd a < 0 /\ as_tor_pid a <= 0 /\ as_torrc_path a = [] /\ as_tor_data_dir a = [].

Lemma shutdown_of_gone w : tor_gone (w_app w) -> tor_shutdown dir_max w = (tt, w).
Proof.
  intros (H1 & H2 & H3 & H4). unfold tor_shutdown. rewrite bind_eq. cbn [app gets fst snd]. unfold id.
  destruct (0 <=? as_tor_ctrl_fd (w_app w)) eqn:E1; [lia|].
  destruct (0 <? as_tor_pid (w_app w)) eqn:E2; [lia|]. by rewrite H3, H4.
Qed.

(** The child was reaped at some point up to [tr]. *)
Definition was_reaped (pid : Z) (tr : trace) : Prop :=
  exists t1 t2, reaped pid t1 t2 /\ t2 `suffix_of` tr.

Lemma was_reaped_later pid t t' : was_reaped pid t -> t `suffix_of` t' -> was_reaped pid t'.
Proof. intros (t1 & t2 & H1 & H2) Hs. exists t1, t2. split; [done|by etrans]. Qed.

(** Shutting Tor down is complete and can be repeated: afterwards there is no
    control descriptor, no pid and no path left in the state, a Tor that was
    running has been reaped, and calling tor_shutdown again does nothing at
    all. *)
Theorem tor_shutdown_complete w :
  let w' := (tor_shutdown dir_max w).2 in
  tor_gone (w_app w') /\
  (0 < as_tor_pid (w_app w) -> was_reaped (as_tor_pid (w_app w)) (w_tr w')) /\
  tor_shutdown dir_max w' = (tt, w').
Proof.
  cbv zeta. enough (wp (tor_shutdown dir_max) (fun _ w' => tor_gone (w_app w') /\
    (0 < as_tor_pid (w_app w) -> was_reaped (as_tor_pid (w_app w)) (w_tr w'))) w) as [Hg Hr].
  { split_and!; [done|done|by apply shutdown_of_gone]. }
  unfold tor_shutdown. apply wp_bind, wp_app. unfold id. unfold tor_gone.
  repeat (progress wp_world || lazymatch goal with
    | |- wp (ctrl_send_command _ _) _ _ => apply wp_any; intros
    | |- wp (terminate_and_reap _) _ _ =>
        eapply wp_mono; [eapply terminate_reaps; [lia|apply grows_refl]|intros ? ? Hreap]
    | |- wp (rm_rf _ _) _ _ =>
        eapply wp_mono; [apply rm_rf_at_spec, below_root|intros ? ? Hrm%steps_suffix]
    end).
  all: repeat match goal with H : negb (bool_decide _) = false |- _ =>
    apply negb_false_iff, bool_decide_eq_true in H end.
  all: split; [split_and!; cbn; (lia || done)|].
  all: intros Hpid; first [exfalso; lia|cbn in Hreap |- *; do 2 eexists; split; [exact Hreap|]].
  all: first [solve [repeat (reflexivity || apply suffix_cons_r)]
             |cbn in Hrm; etrans; [|exact Hrm]; repeat (reflexivity || apply suffix_cons_r)].
Qed.

End ShutdownProofs.

(** ** The listener and epoll keep a descriptor exactly when they succeed *)

Section Descriptors.
Context `{HOS : OS}.

(** The socket is bound while the umask takes all access from others, and the
    old umask is restored on every path. *)
Lemma listener_create_spec dir tr :
  let path := dir ++ lit "/listen.sock" in
  let fd := sr_ret (os_answer tr Socket) in
  let '(e, p, out, tr') := listener_create dir tr in
  (e = NOX_OK -> out = Some fd /\ 0 <= fd /\ p = path /\ len path < SUN_PATH_SIZE /\
     exists old, tr' = [Listen fd 1; Chmod path 0x180; Umask old; BindUnix fd path; Umask 0x3F;
                        Unlink path; Socket] ++ tr) /\
  (e <> NOX_OK -> out = None /\ (tr' = tr \/ fd < 0 \/ Close fd ∈ tr')).
Proof.
  cbv zeta. unfold listener_create. destruct (NOX_PATH_MAX <=? _) eqn:E0; run_st;
    [split; [done|]; by auto|].
  unfold sys. destruct (sr_ret (os_answer tr Socket) <? 0) eqn:E1;
    [split; [done|]; intros _; split; [done|]; right; left; lia|].
  destruct (SUN_PATH_SIZE <=? _) eqn:E2; [split; [done|]; intros _; split; [done|]; right; right; set_solver|].
  destruct (negb _) eqn:E3; [split; [done|]; intros _; split; [done|]; right; right; set_solver|]. clear E3.
  destruct (negb _) eqn:E3; [split; [done|]; intros _; split; [done|]; right; right; set_solver|].
  split; [|done]. intros _. split_and!; [done|lia|done|lia|]. by eexists.
Qed.

Lemma epoll_setup_spec listen_fd w :
  let efd := sr_ret (os_answer (w_tr w) EpollCreate) in
  let '(e, w') := epoll_setup listen_fd w in
  (e = NOX_OK -> 0 <= efd /\ as_epoll_fd (w_app w') = efd) /\
  (e <> NOX_OK -> efd < 0 \/ as_epoll_fd (w_app w') = -1 /\ exists t, w_tr w' = Close efd :: t).
Proof.
  cbv zeta. enough (wp (epoll_setup listen_fd) (fun e w' =>
    let efd := sr_ret (os_answer (w_tr w) EpollCreate) in
    (e = NOX_OK -> 0 <= efd /\ as_epoll_fd (w_app w') = efd) /\
    (e <> NOX_OK -> efd < 0 \/ as_epoll_fd (w_app w') = -1 /\ exists t, w_tr w' = Close efd :: t))
    w) as E.
  { unfold wp in E. by destruct (epoll_setup listen_fd w). }
  unfold epoll_setup, epoll_add_fd. wp_world.
  all: match goal with H : err_ok _ = _ |- _ => idtac | _ => idtac end.
  all: split; [intros Hok|intros Hno].
  all: try (rewrite Hok in *); try done; try (split; [lia|done]); try (left; lia).
  all: try (right; split; [done|]; by eexists).
  all: exfalso; repeat match goal with H : negb _ = _ |- _ => apply negb_true_iff in H || apply negb_false_iff in H end.
  all: repeat case_match; done.
Qed.

End Descriptors.

(** ** A concrete run *)

(** An empty configuration directory; the data directory is 11, the torrc 12. *)
Definition fresh_os : OS := fun tr c =>
  match c with
  | Openat _ _ flags => SysRet (if flags =? OPEN_DIR then 11 else 12) 0 []
  | StatField fd St_mode => SysRet (if fd =? 11 then S_IFDIR else S_IFREG) 0 []
  | Getpid => SysRet 4711 0 []
  | _ => kind_os tr c
  end.

(** A bridge line as the user gives it. *)
Definition obfs4_boot : world := boot <| w_app := boot_app
  <| as_transport_type := TRANSPORT_OBFS4 |>
  <| as_obfs4_bridge_line := lit "obfs4 192.0.2.7:443 cert=x iat-mode=0" |> |>.

Lemma torrc_exact_witness :
  let w' := (generate_torrc (H := fresh_os) true 10 obfs4_boot).2 in
  exists lines, torrc_for true (w_app w') lines /\ file_lines [] (torrc_text lines) = lines /\
    lit "Bridge obfs4 192.0.2.7:443 cert=x iat-mode=0" ∈ lines.
Proof.
  cbv zeta. pose proof (torrc_exact (HOS := fresh_os) true 10 obfs4_boot eq_refl) as Ht.
  destruct (generate_torrc true 10 obfs4_boot) as [e w'] eqn:E.
  assert (e = NOX_OK) as He.
  { apply (f_equal fst) in E. cbn [fst] in E. rewrite <-E. vm_compute. reflexivity. }
  assert (as_transport_type (w_app w') = TRANSPORT_OBFS4 /\
          as_obfs4_bridge_line (w_app w') = lit "obfs4 192.0.2.7:443 cert=x iat-mode=0") as [E1 E2].
  { apply (f_equal snd) in E. cbn [snd] in E. rewrite <-E. clear. split; vm_compute; reflexivity. }
  destruct (Ht ltac:(intros; vm_compute; congruence) He) as (fd & t & t' & lines & Hl & _ & _ & Hf & _).
  exists lines. split_and!; [exact Hl|exact Hf|]. unfold torrc_for in Hl. rewrite E1, E2 in Hl.
  destruct Hl as (p & _ & _ & ->). apply elem_of_app. right. unfold obfs4_lines.
  rewrite bool_decide_false by discriminate. right. left.
Defined.
