(* ===== verification/Frontend.v ===== *)
(** * What reaches the terminal: src/frontend.c, src/fe_ansi.c, src/log.c

    [ui_strip_ansi] removes escape sequences and control characters from a text
    before it is drawn; it rewrites the string in place, here it is a function
    of the string.  Around it: the filter of incoming messages, the line a chat
    message is drawn as, the progress line, and the log line.  The bytes a
    drawing function writes to stderr are its result. *)

From S2P Require Import Prelude Primitives Types Keys Control.

Definition ESC : byte := Byte.x1b.
Definition BEL : byte := Byte.x07.
Definition TAB : byte := Byte.x09.
Definition BACKSLASH : byte := Byte.x5c.

(** A [char] is signed: a byte from 0x80 on is in neither range. *)
Definition between (lo hi : Z) (c : byte) : bool :=
  (lo <=? byte.unsigned c) && (byte.unsigned c <=? hi).
Definition csi_param (c : byte) : bool := between 0x30 0x3f c || between 0x20 0x2f c.

(** Dropped: a control character but TAB, LF and CR, or DEL. *)
Definition control (c : byte) : bool :=
  (byte.unsigned c <? 32) && negb (Byte.eqb c TAB) && negb (Byte.eqb c LF) && negb (Byte.eqb c CR)
  || (byte.unsigned c =? 0x7f).

(** [src[0] == ESC && src[1] == '\\']: the string terminator. *)
Definition at_st (s : bytes) : bool :=
  match s with a :: b :: _ => Byte.eqb a ESC && Byte.eqb b BACKSLASH | _ => false end.

(** ESC [ parameters final *)
Fixpoint skip_params (s : bytes) : bytes :=
  match s with c :: s' => if csi_param c then skip_params s' else s | [] => [] end.
Definition skip_csi (s : bytes) : bytes := drop 1 (skip_params s).

(** ESC ] data, up to BEL or the terminator, at most [limit] bytes *)
Fixpoint scan_osc (limit : nat) (s : bytes) : bytes :=
  match s, limit with
  | c :: s', S limit => if Byte.eqb c BEL || at_st s then s else scan_osc limit s'
  | _, _ => s
  end.
Definition skip_osc (s : bytes) : bytes :=
  let s := scan_osc 256 s in
  match s with
  | c :: s' => if Byte.eqb c BEL then s' else if at_st s then drop 2 s else s
  | [] => []
  end.

(** ESC P data, up to the terminator *)
Fixpoint scan_dcs (limit : nat) (s : bytes) : bytes :=
  match s, limit with
  | c :: s', S limit => if at_st s then s else scan_dcs limit s'
  | _, _ => s
  end.
Definition skip_dcs (s : bytes) : bytes :=
  let s := scan_dcs 256 s in if at_st s then drop 2 s else s.

(** What follows an ESC. *)
Definition skip_escape (s : bytes) : bytes :=
  match s with
  | Byte.x5b :: s => skip_csi s           (* [ *)
  | Byte.x5d :: s => skip_osc s           (* ] *)
  | Byte.x50 :: s => skip_dcs s           (* P *)
  | _ :: s => s
  | [] => []
  end.

Fixpoint strip (fuel : nat) (s : bytes) : bytes :=
  match fuel, s with
  | S fuel, c :: s =>
      if Byte.eqb c ESC then strip fuel (skip_escape s)
      else if control c then strip fuel s
      else c :: strip fuel s
  | _, _ => []
  end.
Definition ui_strip_ansi (s : bytes) : bytes := strip (length s) s.

(** ** Messages *)

(** [ui_print_incoming] draws nothing for a message of blanks only. *)
Definition blank (c : byte) : bool := Byte.eqb c Byte.x20 || Byte.eqb c TAB.
Definition incoming_shown (msg : bytes) : bool := negb (forallb blank msg).

Inductive ui_label := UI_LABEL_NONE | UI_LABEL_SELF | UI_LABEL_PEER | UI_LABEL_ERROR.
#[global] Instance ui_label_eq : EqDecision ui_label.
Proof. solve_decision. Defined.

Record nox_theme := Theme {
  clr_self : bytes; clr_peer : bytes; clr_system : bytes; clr_error : bytes;
  clr_prompt : bytes; clr_timestamp : bytes; clr_progress : bytes; clr_reset : bytes }.

Definition sgr (code : String.string) : bytes := ESC :: lit code.
Definition nox_theme_default : nox_theme := {|
  clr_self := sgr "[38;2;38;162;105m";
  clr_peer := sgr "[38;2;133;60;153m";
  clr_system := sgr "[38;2;202;151;15m";
  clr_error := sgr "[1;38;2;210;24;38m";
  clr_prompt := sgr "[38;2;34;105;121m";
  clr_timestamp := sgr "[38;2;31;65;117m";
  clr_progress := sgr "[38;2;34;105;121m";
  clr_reset := sgr "[0m" |}.

(** ["%02d"] *)
Definition two_digits (z : Z) : bytes :=
  if z <? 10 then lit "0" ++ decimal 10 z [] else decimal 10 z [].

Record tm := Tm { tm_hour : Z; tm_min : Z; tm_sec : Z }.

Definition print_timestamp_short (th : nox_theme) (t : tm) : bytes :=
  clr_timestamp th ++ lit "[" ++ two_digits (tm_hour t) ++ lit ":" ++ two_digits (tm_min t) ++ lit ":"
    ++ two_digits (tm_sec t) ++ lit "]" ++ clr_reset th ++ lit " ".

Definition print_label (th : nox_theme) (l : ui_label) : bytes :=
  match l with
  | UI_LABEL_SELF => clr_self th ++ lit "Sen:" ++ clr_reset th
  | UI_LABEL_PEER => clr_peer th ++ lit "Peer:" ++ clr_reset th
  | UI_LABEL_ERROR => clr_error th ++ lit "!:" ++ clr_reset th
  | UI_LABEL_NONE => []
  end.

(** [atomic_message] while the line editor owns the line, with the label of the
    last message; the label it leaves. *)
Definition atomic_message (th : nox_theme) (last label : ui_label) (msg : bytes) (t : tm)
    : bytes * ui_label :=
  let safe_msg := ui_strip_ansi msg in
  ((if negb (bool_decide (last = UI_LABEL_NONE)) && negb (bool_decide (last = label))
    then [LF] else [])
   ++ print_timestamp_short th t ++ print_label th label ++ lit " " ++ safe_msg ++ [LF], label).

(** [block_message], for lines of the program itself. *)
Definition block_message (th : nox_theme) (t : tm) (color tag text : bytes) : bytes :=
  print_timestamp_short th t ++ lit "  " ++ color ++ tag ++ text ++ clr_reset th ++ [LF].

(** ** Progress *)

Definition PROGRESS_BAR_WIDTH : Z := 16.

(** [(unsigned)((done * 100ULL) / total)], at most 100. *)
Definition percent (done total : Z) : Z := Z.min 100 ((u64 (done * 100) / total) mod 2 ^ 32).
Definition bar (pct : Z) : bytes :=
  let filled := Z.to_nat (pct * PROGRESS_BAR_WIDTH / 100) in
  replicate filled Byte.x3d ++ replicate (Z.to_nat PROGRESS_BAR_WIDTH - filled) Byte.x2d.

(** ** Log lines *)

Definition sanitize_log_newlines (s : bytes) : bytes :=
  (fun c => if Byte.eqb c LF || Byte.eqb c CR then Byte.x20 else c) <$> s.

(** ** PIN *)

Definition pin_bad (c : byte) : bool :=
  (byte.unsigned c <? 0x20) && negb (Byte.eqb c TAB) || (byte.unsigned c =? 0x7f).

(** The string and its [strlen]; a NUL cannot be inside. *)
Definition validate_pin (pin : bytes) : nox_err :=
  if len pin <? NOX_PIN_MIN_LEN then NOX_ERR_PIN
  else if NOX_PIN_MAX_LEN <? len pin then NOX_ERR_PIN
  else if existsb pin_bad pin then NOX_ERR_PIN
  else NOX_OK.
