(* ===== verification/Seccomp.v ===== *)
(** * The seccomp policy: src/seccomp.c

    The table of blocked system calls, the rules with arguments, and loading
    them stage by stage.  A system call is named as in the table; [headers] says
    which of the newer names the build's kernel headers define, [ndebug] which
    build it is.  libseccomp is called through the environment; the filter that
    is loaded is the list of the rules it accepted. *)

From S2P Require Import Prelude Primitives Types.

Definition EDOM : Z := 33.
Definition CLONE_THREAD : Z := 0x10000.
Definition PROT_EXEC : Z := 4.
Definition ARCH_SHSTK_DISABLE : Z := 0x5002.
Definition ARCH_SHSTK_UNLOCK : Z := 0x5004.
Definition ALL_BITS : Z := 2 ^ 64 - 1.

(** Socket families. *)
Definition AF_UNIX : Z := 1.
Definition AF_INET : Z := 2.
Definition AF_IPX : Z := 4.
Definition AF_APPLETALK : Z := 5.
Definition AF_INET6 : Z := 10.
Definition AF_KEY : Z := 15.
Definition AF_NETLINK : Z := 16.
Definition AF_PACKET : Z := 17.
Definition AF_RDS : Z := 21.
Definition AF_CAN : Z := 29.
Definition AF_BLUETOOTH : Z := 31.
Definition AF_ALG : Z := 38.
Definition AF_NFC : Z := 39.
Definition AF_VSOCK : Z := 40.
Definition AF_QIPCRTR : Z := 42.
Definition AF_SMC : Z := 43.
Definition AF_XDP : Z := 44.

(** ** The rules *)

(** [SCMP_CMP_EQ] and [SCMP_CMP_MASKED_EQ] on one argument. *)
Definition kill (name : String.string) : scmp_rule := ScmpRule true name [].
Definition kill_eq (name : String.string) (arg : nat) (v : Z) : scmp_rule :=
  ScmpRule true name [(arg, ALL_BITS, v)].
Definition kill_masked (name : String.string) (arg : nat) (mask v : Z) : scmp_rule :=
  ScmpRule true name [(arg, mask, v)].

Section Policy.
Context (ndebug : bool) (headers : String.string -> bool).

Definition blacklist : list (String.string * Z) :=
  [("process_vm_readv", 1); ("process_vm_writev", 1)] ++
  (if ndebug then [("ptrace", 1)] else []) ++
  [("io_uring_setup", 1); ("io_uring_enter", 1); ("io_uring_register", 1); ("userfaultfd", 1);
   ("perf_event_open", 1); ("bpf", 1); ("kexec_file_load", 1); ("finit_module", 1);
   ("personality", 1); ("execve", 2); ("execveat", 2); ("uselib", 2); ("fork", 2); ("vfork",
   2); ("acct", 2); ("pidfd_open", 2); ("process_madvise", 2); ("kcmp", 2); ("io_setup", 2);
   ("io_destroy", 2); ("io_submit", 2); ("io_cancel", 2); ("io_getevents", 2);
   ("io_pgetevents", 2); ("mount", 2); ("umount2", 2); ("fsopen", 2); ("fsconfig", 2);
   ("fsmount", 2); ("fspick", 2); ("move_mount", 2); ("open_tree", 2); ("umount", 2);
   ("pivot_root", 2); ("open_by_handle_at", 2); ("reboot", 2); ("sethostname", 2);
   ("setdomainname", 2); ("kexec_load", 2); ("init_module", 2); ("delete_module", 2);
   ("unshare", 2); ("setns", 2); ("swapon", 2); ("swapoff", 2); ("request_key", 2); ("add_key",
   2); ("keyctl", 2); ("nfsservctl", 2); ("quotactl", 2); ("symlink", 3); ("symlinkat", 3);
   ("link", 3); ("linkat", 3); ("chmod", 3); ("fchmod", 3); ("fchmodat", 3); ("chown", 3);
   ("fchown", 3); ("fchownat", 3); ("sendto", 3); ("mknod", 3); ("mknodat", 3); ("modify_ldt",
   3); ("iopl", 3); ("ioperm", 3); ("syslog", 3); ("pkey_mprotect", 2); ("pkey_alloc", 2);
   ("pkey_free", 2); ("fchmodat2", 3); ("name_to_handle_at", 3); ("pidfd_getfd", 3);
   ("memfd_secret", 3); ("vmsplice", 3); ("mount_setattr", 3)] ++
  (if headers "open_tree_attr" then [("open_tree_attr", 3)] else []) ++
  (if headers "file_setattr" then [("file_setattr", 3)] else []) ++
  [("splice", 3); ("shmget", 2); ("shmat", 2); ("shmctl", 2); ("msgget", 3); ("msgsnd", 3);
   ("msgrcv", 3); ("sendmsg", 3); ("recvmsg", 3); ("sendmmsg", 3); ("recvmmsg", 3); ("msgctl",
   3); ("memfd_create", 3)] ++
  (if headers "statmount" then [("statmount", 3)] else []) ++
  (if headers "listmount" then [("listmount", 3)] else []).

(** A rule and whether it must be accepted: the others may be refused with
    -EDOM, a system call the architecture does not have. *)
Definition table_rules (stage : Z) : list (scmp_rule * bool) :=
  (fun e => (kill e.1, false)) <$> filter (fun e : String.string * Z => e.2 <= stage) blacklist.

Definition prctl_blocked : list Z :=
  [4 (* PR_SET_DUMPABLE *); 0x59616d61 (* PR_SET_PTRACER *); 14 (* PR_SET_TIMING *);
   35 (* PR_SET_MM *); 26 (* PR_SET_TSC *); 28 (* PR_SET_SECUREBITS *);
   59 (* PR_SET_SYSCALL_USER_DISPATCH *); 65 (* PR_SET_MDWE *)].

Definition add_socket_domain_rule (domain : Z) : scmp_rule * bool :=
  (kill_eq "socket" 0 domain, false).

Definition stage2_rules : list (scmp_rule * bool) :=
  [(kill_masked "clone" 0 CLONE_THREAD 0, true); (ScmpRule false "clone3" [], false)] ++
  (if headers "ARCH_SHSTK_DISABLE"
   then [(kill_eq "arch_prctl" 0 ARCH_SHSTK_DISABLE, false)] else []) ++
  (if headers "ARCH_SHSTK_UNLOCK"
   then [(kill_eq "arch_prctl" 0 ARCH_SHSTK_UNLOCK, false)] else []) ++
  ((fun op => (kill_eq "prctl" 0 op, false)) <$> prctl_blocked) ++
  (add_socket_domain_rule <$>
     [AF_PACKET; AF_INET; AF_INET6; AF_NETLINK; AF_CAN; AF_KEY; AF_NFC; AF_APPLETALK; AF_IPX]) ++
  [(kill_masked "mprotect" 2 PROT_EXEC PROT_EXEC, false);
   (kill_masked "mmap" 2 PROT_EXEC PROT_EXEC, false)].

Definition stage3_rules : list (scmp_rule * bool) :=
  (kill "clone", false) ::
  ((fun d => (kill_eq "socket" 0 d, false)) <$>
     [AF_XDP; AF_ALG; AF_VSOCK; AF_BLUETOOTH; AF_SMC; AF_RDS; AF_QIPCRTR]).

Definition policy_rules (stage : Z) : list (scmp_rule * bool) :=
  table_rules stage ++ (if 2 <=? stage then stage2_rules else [])
    ++ (if 3 <=? stage then stage3_rules else []).

Section Load.
Context `{OS}.

(** The rules accepted, or None at the first refusal that is not tolerated. *)
Fixpoint add_rules (rules : list (scmp_rule * bool)) (accepted : list scmp_rule)
    : St trace (option (list scmp_rule)) :=
  match rules with
  | [] => mret (Some accepted)
  | (r, strict) :: rules =>
      rc ← sys (ScmpRuleAdd r);
      if sr_ret rc =? 0 then add_rules rules (accepted ++ [r])
      else if (sr_ret rc =? - EDOM) && negb strict then add_rules rules accepted
      else mret None
  end.

Definition scmp_fail : St trace nox_err := _ ← sys ScmpRelease; mret NOX_ERR_CRYPTO.

Definition seccomp_policy_load (stage : Z) : St trace nox_err :=
  ctx ← sys ScmpInit;
  if sr_ret ctx =? 0 then mret NOX_ERR_CRYPTO
  else
    a ← sys ScmpBadarch;
    if sr_ret a <? 0 then scmp_fail
    else
      a ← sys ScmpTsync;
      if sr_ret a <? 0 then scmp_fail
      else
        acc ← add_rules (policy_rules stage) [];
        match acc with
        | None => scmp_fail
        | Some rules =>
            rc ← sys (ScmpLoad rules);
            _ ← sys ScmpRelease;
            mret (if sr_ret rc <? 0 then NOX_ERR_CRYPTO else NOX_OK)
        end.

End Load.
End Policy.

(** ** What the kernel does with the filters that are loaded *)

Record sys_request := SysRequest {
  rq_native : bool;               (* the x86_64 entry point, not i386 or x32 *)
  rq_name : String.string;
  rq_args : list Z }.

Inductive verdict := Allow | Errno | Kill_process.

Definition rule_matches (q : sys_request) (r : scmp_rule) : bool :=
  bool_decide (sr_sys r = rq_name q) &&
  forallb (fun '(i, mask, v) => Z.land (nth i (rq_args q) 0) mask =? v) (sr_cmp r).

(** One filter: a foreign architecture is killed ([ScmpBadarch]); no system call
    of the table has rules of both kinds. *)
Definition filter_verdict (rules : list scmp_rule) (q : sys_request) : verdict :=
  if negb (rq_native q) then Kill_process
  else if existsb (fun r => sr_kill r && rule_matches q r) rules then Kill_process
  else if existsb (rule_matches q) rules then Errno
  else Allow.

(** Filters are never removed; the most severe verdict wins. *)
Definition severity (v : verdict) : nat := match v with Allow => 0 | Errno => 1 | Kill_process => 2 end.
Definition worse (v u : verdict) : verdict := if (severity v <? severity u)%nat then u else v.
Definition kernel_verdict (filters : list (list scmp_rule)) (q : sys_request) : verdict :=
  foldr (fun f v => worse (filter_verdict f q) v) Allow filters.

(** The filters a process has loaded, read off its history. *)
Fixpoint loaded `{OS} (tr : trace) : list (list scmp_rule) :=
  match tr with
  | [] => []
  | ScmpLoad rules :: tr =>
      if sr_ret (os_answer tr (ScmpLoad rules)) <? 0 then loaded tr else rules :: loaded tr
  | _ :: tr => loaded tr
  end.
