(* ===== verification/SeccompProofs.v ===== *)
(** * Theorems about the seccomp policy

    A policy is loaded whole or not at all; once loaded it holds for good; from
    stage 2 on the process can gain no executable memory, start no process and
    open no network socket; what the program itself needs stays allowed. *)

From S2P Require Import Prelude Primitives Types World Control ControlProofs TorProcess TorProofs.
From S2P Require Import Seccomp.

(** ** Verdicts *)

Lemma worse_severity v u : severity (worse v u) = Nat.max (severity v) (severity u).
Proof. by destruct v, u. Qed.

Lemma kernel_severity_cons f fs q :
  severity (kernel_verdict (f :: fs) q) =
    Nat.max (severity (filter_verdict f q)) (severity (kernel_verdict fs q)).
Proof. apply worse_severity. Qed.

Lemma severity_kill v : (2 <= severity v)%nat -> v = Kill_process.
Proof. destruct v; cbn; [lia|lia|done]. Qed.

Lemma kill_by_rule rules fs q r :
  r ∈ rules -> sr_kill r = true -> rule_matches q r = true -> rules ∈ fs ->
  kernel_verdict fs q = Kill_process.
Proof.
  intros Hr Hk Hm Hf. apply severity_kill. induction fs as [|f fs IH]; [set_solver|].
  apply elem_of_cons in Hf as [<-|Hf].
  - assert (filter_verdict rules q = Kill_process) as E.
    { unfold filter_verdict. destruct (rq_native q); [|done]. cbn [negb].
      assert (existsb (fun r => sr_kill r && rule_matches q r) rules = true) as ->; [|done].
      apply existsb_exists. exists r. rewrite Hk, Hm. split; [by apply list_elem_of_In|done]. }
    rewrite kernel_severity_cons, E. cbn [severity]. lia.
  - specialize (IH Hf). rewrite kernel_severity_cons. lia.
Qed.

Section SeccompProofs.
Context `{HOS : OS} (ndebug : bool) (headers : String.string -> bool).

(** ** Loading *)

Lemma loaded_grows t t' q :
  t `suffix_of` t' ->
  (severity (kernel_verdict (loaded t) q) <= severity (kernel_verdict (loaded t') q))%nat /\
  forall f, f ∈ loaded t -> f ∈ loaded t'.
Proof.
  intros [k ->]. induction k as [|c k [IH1 IH2]]; [split; [done|auto]|]. cbn [Datatypes.app].
  destruct c; try (split; [done|auto]). cbn [loaded]. case_match; [split; [done|auto]|].
  split; [|set_solver]. rewrite kernel_severity_cons. lia.
Qed.

(** libseccomp does not know the system call of the rule. *)
Definition unknown_rule (r : scmp_rule) (tr : trace) : Prop :=
  exists t, ScmpRuleAdd r :: t `suffix_of` tr /\ sr_ret (os_answer t (ScmpRuleAdd r)) = - EDOM.

Lemma unknown_later r t t' : unknown_rule r t -> t `suffix_of` t' -> unknown_rule r t'.
Proof. intros (t2 & H1 & H2) Hs. exists t2. split; [by etrans|done]. Qed.

(** The calls that build a filter; they load nothing. *)
Definition building (c : syscall) : bool :=
  match c with ScmpInit | ScmpBadarch | ScmpTsync | ScmpRuleAdd _ | ScmpRelease => true | _ => false end.

Lemma building_loaded t0 t : grows building t0 t -> loaded t = loaded t0 /\ t0 `suffix_of` t.
Proof.
  intros (new & -> & Hn). induction new as [|c new IH]; [by split|]. cbn [forallb Datatypes.app] in *.
  apply andb_true_iff in Hn as [Hc Hn]. destruct (IH Hn) as [H1 H2]. split.
  - destruct c; try done.
  - by apply suffix_cons_r.
Qed.

Lemma add_rules_spec rules acc tr :
  wp (add_rules rules acc) (fun x tr' =>
    grows building tr tr' /\ forall out, x = Some out ->
      acc `prefix_of` out /\
      (forall r, r ∈ out -> r ∈ acc \/ r ∈ rules.*1) /\
      forall r strict, (r, strict) ∈ rules -> r ∈ out \/ strict = false /\ unknown_rule r tr') tr.
Proof.
  revert acc tr. induction rules as [|[r strict] rules IH]; intros acc tr; cbn [add_rules].
  { apply wp_ret. split; [apply grows_refl|]. intros out [= <-]. split_and!; [done|auto|set_solver]. }
  apply wp_bind, wp_sys.
  assert (forall t, grows building (ScmpRuleAdd r :: tr) t -> grows building tr t) as Hg.
  { intros t. apply grows_trans. auto with nox. }
  case_match; [|case_match].
  - eapply wp_mono; [by apply IH|]. intros x t [H1 H2]. split; [by apply Hg|]. intros out Ho.
    destruct (H2 out Ho) as (Hp & Hsub & Hr). split_and!; [by eapply prefix_app_l| |].
    + intros r' [Hr'|Hr']%Hsub; set_solver.
    + intros r' s' [[= -> ->]|Hin]%elem_of_cons; [|by apply (Hr r' s')]. left.
      destruct Hp as [k ->]. set_solver.
  - eapply wp_mono; [by apply (IH acc)|]. intros x t [H1 H2]. split; [by apply Hg|]. intros out Ho.
    destruct (H2 out Ho) as (Hp & Hsub & Hr). split_and!; [done| |].
    + intros r' [Hr'|Hr']%Hsub; set_solver.
    + intros r' s' [[= -> ->]|Hin]%elem_of_cons; [|by apply (Hr r' s')]. right.
      apply andb_true_iff in H0 as [E1 E2]. split; [by destruct strict|].
      exists tr. split; [by apply building_loaded in H1 as [_ Hs]|lia].
  - apply wp_ret. split; [|done]. auto with nox.
Qed.

(** How loading a stage ends. *)
Definition policy_loaded (stage : Z) (tr : trace) (e : nox_err) (tr' : trace) : Prop :=
  (e = NOX_OK /\ exists rules, loaded tr' = rules :: loaded tr /\
     (forall r, r ∈ rules -> r ∈ (policy_rules ndebug headers stage).*1) /\
     (forall r strict, (r, strict) ∈ policy_rules ndebug headers stage ->
        r ∈ rules \/ strict = false /\ unknown_rule r tr')) \/
  (e = NOX_ERR_CRYPTO /\ loaded tr' = loaded tr).

(** The calls of seccomp_policy_load. *)
Definition policy_call (c : syscall) : bool :=
  building c || match c with ScmpLoad _ => true | _ => false end.

Lemma grows_weaken (P Q : syscall -> bool) t t' :
  (forall c, P c = true -> Q c = true) -> grows P t t' -> grows Q t t'.
Proof.
  intros HPQ (new & -> & Hn). exists new. split; [done|]. rewrite forallb_forall in *. auto.
Qed.

Lemma policy_load_spec stage tr :
  wp (seccomp_policy_load ndebug headers stage) (fun e tr' =>
    grows policy_call tr tr' /\ policy_loaded stage tr e tr') tr.
Proof.
  unfold seccomp_policy_load, scmp_fail. wp_code.
  1-3: split; [auto 6 with nox|by right].
  set (t3 := ScmpTsync :: _). eapply wp_mono; [apply add_rules_spec|].
  intros [rules|] t4 [Hg Hr]; destruct (building_loaded _ _ Hg) as [Hl Hs];
    (assert (grows policy_call tr t4) as Hg4;
     [eapply (grows_trans _ _ t3); [unfold t3; auto 6 with nox|];
      eapply grows_weaken; [|exact Hg]; intros c Hc; unfold policy_call; by rewrite Hc|]); wp_code.
  - split; [auto with nox|]. unfold policy_loaded. cbn [loaded].
    destruct (sr_ret (os_answer t4 (ScmpLoad rules)) <? 0) eqn:E.
    + right. by rewrite Hl.
    + left. split; [done|]. exists rules. destruct (Hr rules eq_refl) as (_ & Hsub & Hall).
      split_and!; [by rewrite Hl|by intros r [?|?]%Hsub; [set_solver|]|].
      intros r strict [Hin|[Hst Hu]]%Hall; [by left|]. right. split; [done|].
      eapply unknown_later; [exact Hu|]. by repeat apply suffix_cons_r.
  - split; [auto with nox|right; split; [done|]; cbn [loaded]; by rewrite Hl].
Qed.

(** ** What a process under stage 2 cannot do *)

Definition arg (i : nat) (q : sys_request) : Z := nth i (rq_args q) 0.

(** To run another program, to get executable memory, to start a process, to
    open a network socket. *)
Inductive dangerous (q : sys_request) : Prop :=
| dangerous_call :
    rq_name q ∈ ["execve"; "execveat"; "uselib"; "pkey_mprotect"; "shmat"; "fork"; "vfork"]%string ->
    dangerous q
| dangerous_exec :
    rq_name q ∈ ["mprotect"; "mmap"]%string -> Z.testbit (arg 2 q) 2 = true -> dangerous q
| dangerous_clone :
    rq_name q = "clone"%string -> Z.testbit (arg 0 q) 16 = false -> dangerous q
| dangerous_socket :
    rq_name q = "socket"%string -> arg 0 q ∈ [AF_INET; AF_INET6; AF_NETLINK; AF_PACKET] ->
    dangerous q.

Lemma in_table stage name :
  2 <= stage ->
  existsb (fun e => String.eqb e.1 name && (e.2 <=? 2)) (blacklist ndebug headers) = true ->
  (kill name, false) ∈ policy_rules ndebug headers stage.
Proof.
  intros Hs. rewrite existsb_exists. intros ([n k] & Hin & [E1 E2]%andb_true_iff). cbn in E1, E2.
  apply String.eqb_eq in E1 as ->. unfold policy_rules. apply elem_of_app. left.
  unfold table_rules. apply list_elem_of_fmap. exists (name, k). split; [done|].
  apply list_elem_of_filter. cbn. split; [lia|by apply list_elem_of_In].
Qed.

Lemma in_stage2 stage r strict :
  2 <= stage -> (r, strict) ∈ stage2_rules headers -> (r, strict) ∈ policy_rules ndebug headers stage.
Proof.
  intros Hs Hr. unfold policy_rules. destruct (2 <=? stage) eqn:E; [|lia].
  apply elem_of_app. right. apply elem_of_app. by left.
Qed.

Lemma land_bit a n : 0 <= n -> Z.land a (2 ^ n) = if Z.testbit a n then 2 ^ n else 0.
Proof.
  intros Hn. apply Z.bits_inj'. intros m Hm. rewrite Z.land_spec, Z.pow2_bits_eqb by lia.
  destruct (Z.eqb_spec n m) as [<-|]; destruct (Z.testbit a n) eqn:E;
    rewrite ?Z.pow2_bits_eqb, ?Z.bits_0, ?andb_false_r, ?andb_true_r by lia; try done.
  - by rewrite Z.eqb_refl.
  - destruct (Z.eqb_spec n m); [done|done].
Qed.

(** Each has a rule. *)
Lemma dangerous_rule stage q :
  2 <= stage -> dangerous q ->
  exists r strict, (r, strict) ∈ policy_rules ndebug headers stage /\ sr_kill r = true /\
    rule_matches q r = true.
Proof.
  intros Hs [Hn|Hn Hb|Hn Hb|Hn Ha].
  - exists (kill (rq_name q)), false. split_and!; [|done|].
    + apply in_table; [done|]. set_unfold in Hn.
      destruct_or!; rewrite Hn; unfold blacklist;
        destruct ndebug, (headers "open_tree_attr"), (headers "file_setattr"); reflexivity.
    + unfold rule_matches. cbn. by rewrite bool_decide_true.
  - exists (kill_masked (rq_name q) 2 PROT_EXEC PROT_EXEC), false. split_and!; [|done|].
    + apply in_stage2; [done|]. do 5 (apply elem_of_app; right).
      repeat apply elem_of_cons in Hn as [Hn|Hn]; try (by apply not_elem_of_nil in Hn); rewrite Hn;
        [left|right; left].
    + unfold rule_matches. cbn [kill_masked sr_sys sr_cmp forallb]. rewrite bool_decide_true by done.
      change PROT_EXEC with (2 ^ 2). unfold arg in Hb. by rewrite land_bit, Hb.
  - exists (kill_masked "clone" 0 CLONE_THREAD 0), true. split_and!; [|done|].
    + apply in_stage2; [done|]. apply elem_of_app. left. left.
    + unfold rule_matches. cbn [kill_masked sr_sys sr_cmp forallb]. rewrite bool_decide_true by done.
      change CLONE_THREAD with (2 ^ 16). unfold arg in Hb. by rewrite land_bit, Hb.
  - exists (kill_eq "socket" 0 (arg 0 q)), false. split_and!; [|done|].
    + apply in_stage2; [done|]. do 4 (apply elem_of_app; right). apply elem_of_app. left.
      apply list_elem_of_fmap. exists (arg 0 q). split; [done|]. set_solver.
    + unfold rule_matches. cbn [kill_eq sr_sys sr_cmp forallb]. rewrite bool_decide_true by done.
      fold (arg 0 q).
      repeat apply elem_of_cons in Ha as [Ha|Ha]; try (by apply not_elem_of_nil in Ha); by rewrite Ha.
Qed.


End SeccompProofs.

(** A kernel and a libseccomp that accept everything. *)
Definition policy_os : OS := fun tr c =>
  match c with
  | ScmpInit => SysRet 1 0 []
  | LandlockVersion => SysRet 6 0 []
  | _ => kind_os tr c
  end.


(** ** What the program itself asks of the kernel *)

Definition rq (name : String.string) (args : list Z) : sys_request := SysRequest true name args.

(** The system calls behind a call of the model.  Memory comes from brk and
    from mappings that are readable and writable at most (3), with guard pages
    (0); descriptors are stream sockets of AF_UNIX.  sqlite's file accesses are
    its own. *)
Definition requests (c : syscall) : list sys_request :=
  match c with
  | Malloc n => [rq "brk" []; rq "mmap" [0; n; 3]; rq "mprotect" [0; n; 3]; rq "mprotect" [0; n; 0];
                 rq "mlock" []; rq "madvise" []]
  | RandomBytes _ => [rq "getrandom" []]
  | Close _ => [rq "close" []]
  | EpollAdd _ _ | EpollDel _ _ | EpollMod _ _ _ => [rq "epoll_ctl" []]
  | Unlinkat _ _ => [rq "unlinkat" []]
  | Openat _ _ _ | Open _ | OpenPath _ _ => [rq "openat" []; rq "open" []]
  | Fstat _ => [rq "fstat" []; rq "newfstatat" []]
  | Fstatvfs _ => [rq "fstatfs" []]
  | Getuid => [rq "getuid" []] | Geteuid => [rq "geteuid" []]
  | Getpid => [rq "getpid" []] | Getppid => [rq "getppid" []]
  | Flock _ => [rq "flock" []]
  | Lseek _ _ => [rq "lseek" []]
  | Read _ _ => [rq "read" []]
  | Write _ _ => [rq "write" []]
  | Writev _ _ => [rq "writev" []]
  | Recv _ _ => [rq "recvfrom" []]
  | IoctlFionread _ => [rq "ioctl" []]
  | Accept4 _ => [rq "accept4" []]
  | ClockMonotonic | ClockNs => [rq "clock_gettime" []]
  | Time => [rq "time" []]
  | Kill _ _ => [rq "kill" []]
  | Fsync _ => [rq "fsync" []]
  | Fchmod _ _ => [rq "fchmod" []]
  | Chmod _ _ => [rq "chmod" []]
  | Renameat _ _ _ => [rq "renameat" []]
  | Nanosleep _ => [rq "clock_nanosleep" []]
  | Poll _ _ _ => [rq "poll" []]
  | Socket => [rq "socket" [AF_UNIX]]
  | ConnectUnix _ _ => [rq "connect" []]
  | BindUnix _ _ => [rq "bind" []]
  | Listen _ _ => [rq "listen" []]
  | Umask _ => [rq "umask" []]
  | PeerCred _ => [rq "getsockopt" []]
  | FcntlGetfl _ | FcntlSetfl _ _ => [rq "fcntl" []]
  | EpollCreate => [rq "epoll_create1" []]
  | Unlink _ => [rq "unlink" []] | Rmdir _ => [rq "rmdir" []]
  | Mkdir _ _ => [rq "mkdir" []] | Mkdirat _ _ _ => [rq "mkdirat" []]
  | Fdopendir _ => [rq "fcntl" []; rq "fstat" []] | Opendir _ => [rq "openat" []]
  | Readdir _ => [rq "getdents64" []] | Closedir _ => [rq "close" []]
  | FstatatDir _ _ => [rq "newfstatat" []] | Lstat _ => [rq "lstat" []; rq "newfstatat" []]
  | ReadComm _ => [rq "openat" []; rq "read" []; rq "close" []]
  | Access _ => [rq "access" []]
  | Fork => [rq "clone" [0x1200011]]
  | Waitpid _ _ => [rq "wait4" []]
  | Prctl option v => [rq "prctl" [option; v]]
  | Setsid => [rq "setsid" []] | Dup2 _ _ => [rq "dup2" []]
  | CloseRange _ => [rq "close_range" []]
  | Execv _ _ => [rq "execve" []]
  | Getpwuid => [rq "openat" []; rq "fstat" []; rq "newfstatat" []; rq "read" []; rq "lseek" [];
                 rq "close" []; rq "socket" [AF_UNIX]; rq "connect" []]
  | Realpath _ => [rq "readlink" []; rq "lstat" []; rq "newfstatat" []; rq "getcwd" []]
  | LstatMode _ => [rq "lstat" []; rq "newfstatat" []]
  | FstatatMode _ _ => [rq "newfstatat" []] | Stat _ => [rq "stat" []; rq "newfstatat" []]
  | EditStart | EditStop | EditFeed =>
      [rq "ioctl" []; rq "read" []; rq "write" []; rq "brk" []; rq "mmap" [0; 0; 3];
       rq "mprotect" [0; 0; 3]; rq "mprotect" [0; 0; 0]; rq "mlock" []; rq "munlock" [];
       rq "munmap" []; rq "madvise" []]
  | Isatty | Tcgetattr | Tcsetattr _ => [rq "ioctl" []]
  | Sigaction _ => [rq "rt_sigaction" []] | Sigprocmask _ => [rq "rt_sigprocmask" []]
  | Setrlimit => [rq "setrlimit" []; rq "prlimit64" []]
  | Getrlimit => [rq "getrlimit" []; rq "prlimit64" []]
  | RandomUniform _ => [rq "getrandom" []]
  | Fgets _ | ReadStatus => [rq "read" []; rq "fstat" []; rq "newfstatat" []]
  | ArchPrctl op v => [rq "arch_prctl" [op; v]]
  | Mmap n => [rq "mmap" [0; n; 3]] | Munmap _ => [rq "munmap" []]
  | Mprotect off n prot => [rq "mprotect" [off; n; prot]]
  | Madvise _ => [rq "madvise" []]
  | Mlock _ => [rq "mlock" []] | Munlock _ => [rq "munlock" []]
  | LandlockVersion | LandlockCreate _ _ => [rq "landlock_create_ruleset" []]
  | LandlockAddRule _ _ _ => [rq "landlock_add_rule" []]
  | LandlockRestrict _ => [rq "landlock_restrict_self" []]
  | NoNewPrivs => [rq "prctl" [38; 1]]
  | ScmpLoad _ => [rq "seccomp" []; rq "prctl" [22; 2]]
  | Ui _ _ | UiIncoming _ | Stderr _ => [rq "write" []; rq "writev" []]
  | _ => []
  end.

(** The calls the filter of stage 3 leaves alone. *)
Definition spared (c : syscall) : bool :=
  match c with
  | Fork | Execv _ _ | Chmod _ _ | Fchmod _ _ | Prctl _ _ | Mprotect _ _ _ | ArchPrctl _ _ => false
  | _ => true
  end.

Definition full_policy : list scmp_rule := (policy_rules true (fun _ => true) 3).*1.

Lemma incl_app_both {A} (l1 l2 k1 k2 : list A) :
  (forall e, e ∈ l1 -> e ∈ k1) -> (forall e, e ∈ l2 -> e ∈ k2) ->
  forall e, e ∈ l1 ++ l2 -> e ∈ k1 ++ k2.
Proof. intros H1 H2 e [He|He]%elem_of_app; apply elem_of_app; auto. Qed.
Lemma incl_if {A} (b : bool) (l : list A) e : e ∈ (if b then l else []) -> e ∈ l.
Proof. destruct b; [done|]. by intros ?%not_elem_of_nil. Qed.

Lemma blacklist_full nd h e : e ∈ blacklist nd h -> e ∈ blacklist true (fun _ => true).
Proof. revert e. unfold blacklist.
  repeat (apply incl_app_both; [intros e He; first [exact He | exact (incl_if _ _ _ He)]|]).
  intros e He; first [exact He | exact (incl_if _ _ _ He)].
Qed.

Lemma stage2_full h r : r ∈ stage2_rules h -> r ∈ stage2_rules (fun _ => true).
Proof. revert r. unfold stage2_rules.
  repeat (apply incl_app_both; [intros e He; first [exact He | exact (incl_if _ _ _ He)]|]).
  intros e He; first [exact He | exact (incl_if _ _ _ He)].
Qed.

Lemma policy_full nd h stage r : stage <= 3 -> r ∈ (policy_rules nd h stage).*1 -> r ∈ full_policy.
Proof.
  intros Hs (x & -> & Hx)%list_elem_of_fmap. apply list_elem_of_fmap. exists x. split; [done|].
  unfold policy_rules in *. change (2 <=? 3) with true. change (3 <=? 3) with true.
  apply elem_of_app in Hx as [Hx|[Hx|Hx]%elem_of_app].
  - apply elem_of_app. left. unfold table_rules in *. apply list_elem_of_fmap in Hx as (e & -> & He).
    apply list_elem_of_fmap. exists e. split; [done|]. apply list_elem_of_filter in He as [H1 H2].
    apply list_elem_of_filter. split; [lia|by eapply blacklist_full].
  - apply elem_of_app. right. apply elem_of_app. left. destruct (2 <=? stage); [|set_solver].
    by eapply stage2_full.
  - apply elem_of_app. right. apply elem_of_app. right. destruct (3 <=? stage); [done|set_solver].
Qed.

Lemma unmatched_allowed rules q :
  rq_native q = true -> forallb (fun r => negb (rule_matches q r)) full_policy = true ->
  (forall r, r ∈ rules -> r ∈ full_policy) -> filter_verdict rules q = Allow.
Proof.
  intros Hn Hq Hsub. unfold filter_verdict. rewrite Hn. cbn [negb].
  rewrite forallb_forall in Hq.
  assert (forall r, In r rules -> rule_matches q r = false) as Hno.
  { intros r Hr. apply negb_true_iff, Hq, list_elem_of_In, Hsub. by apply list_elem_of_In. }
  assert (existsb (rule_matches q) rules = false) as ->.
  { apply not_true_is_false. rewrite existsb_exists. intros (r & Hr & E). by rewrite Hno in E. }
  assert (existsb (fun r => sr_kill r && rule_matches q r) rules = false) as ->; [|done].
  apply not_true_is_false. rewrite existsb_exists. intros (r & Hr & E). rewrite Hno in E by done.
  by rewrite andb_false_r in E.
Qed.

Definition policy_filters (filters : list (list scmp_rule)) : Prop :=
  forall rules, rules ∈ filters -> forall r, r ∈ rules -> r ∈ full_policy.

Lemma spared_unmatched c q :
  spared c = true -> q ∈ requests c ->
  rq_native q = true /\ forallb (fun r => negb (rule_matches q r)) full_policy = true.
Proof.
  intros Hc Hq. destruct c; cbn [spared] in Hc; try done; cbn [requests] in Hq;
    repeat (apply elem_of_cons in Hq as [->|Hq]; [split; [done|vm_compute; reflexivity]|]);
    by apply not_elem_of_nil in Hq.
Qed.

Lemma unmatched_filters filters q :
  policy_filters filters -> rq_native q = true ->
  forallb (fun r => negb (rule_matches q r)) full_policy = true -> kernel_verdict filters q = Allow.
Proof.
  intros Hf Hn Hm. induction filters as [|f fs IH]; [done|].
  assert (severity (kernel_verdict (f :: fs) q) = 0%nat) as E.
  { rewrite kernel_severity_cons, (unmatched_allowed f q Hn Hm), IH; [done| |].
    - intros rules Hr. apply Hf. by right.
    - apply Hf. left. }
  by destruct (kernel_verdict (f :: fs) q).
Qed.

(** No call but these is harmed by filters of this policy. *)
Lemma spared_allowed filters c q :
  policy_filters filters -> spared c = true -> q ∈ requests c -> kernel_verdict filters q = Allow.
Proof. intros Hf Hc Hq. destruct (spared_unmatched c q Hc Hq). by apply unmatched_filters. Qed.

(** ** What the socket rules miss *)

(** The families the policy names. *)
Definition blocked_families : list Z :=
  [AF_PACKET; AF_INET; AF_INET6; AF_NETLINK; AF_CAN; AF_KEY; AF_NFC; AF_APPLETALK; AF_IPX;
   AF_XDP; AF_ALG; AF_VSOCK; AF_BLUETOOTH; AF_SMC; AF_RDS; AF_QIPCRTR].

(** The argument register that names a family to the kernel, which reads an int,
    with a bit above the int. *)
Definition widened (family : Z) : Z := Z.lor (2 ^ 32) family.

(** The socket rules do not keep a compromised process from opening the
    sockets they name.  They compare the whole 64-bit register, while the kernel
    takes the family from its low 32 bits: with one of the upper bits set,
    socket() of every named family, of AF_INET for one, passes all filters of
    every stage. *)
Theorem socket_rules_bypassed filters family :
  policy_filters filters -> family ∈ blocked_families ->
  i32 (widened family) = family /\
  kernel_verdict filters (rq "socket" [widened family; 1; 0]) = Allow.
Proof.
  intros Hf Hin.
  assert (forallb (fun fam => (i32 (widened fam) =? fam) &&
    forallb (fun r => negb (rule_matches (rq "socket" [widened fam; 1; 0]) r)) full_policy)
      blocked_families = true) as Hall by (vm_compute; reflexivity).
  rewrite forallb_forall in Hall. apply list_elem_of_In, Hall, andb_true_iff in Hin as [E Hm].
  split; [lia|]. by apply unmatched_filters.
Qed.

Lemma socket_rules_bypassed_witness :
  let tr := (seccomp_policy_load (H := policy_os) true (fun _ => true) 3 []).2 in
  length (loaded (H := policy_os) tr) = 1%nat /\
  kernel_verdict (loaded (H := policy_os) tr) (rq "socket" [AF_INET; 1; 0]) = Kill_process /\
  kernel_verdict (loaded (H := policy_os) tr) (rq "socket" [widened AF_INET; 1; 0]) = Allow.
Proof.
  cbv zeta. split; [vm_compute; reflexivity|]. split; [vm_compute; reflexivity|].
  refine (proj2 (socket_rules_bypassed _ AF_INET _ _)); [|vm_compute; right; left].
  destruct (policy_load_spec (HOS := policy_os) true (fun _ => true) 3 []) as [_ [(_ & rules & E & H & _)|[_ E]]].
  - rewrite E. intros f [->|Hf]%elem_of_cons; [|by apply not_elem_of_nil in Hf]. exact H.
  - rewrite E. by intros f Hf%not_elem_of_nil.
Defined.
