(* ===== verification/Startup.v ===== *)
(** * The steps of the start: src/main.c, src/cet_shstk.c

    Signal handlers, the constructors that run before main, the configuration
    directory, PIN entry, the choice of the transport, the erasure of all keys
    and the shadow stack self-test.  [Main] puts them in order. *)

From S2P Require Import Prelude Primitives Types World Network FileTransfer Keys Control TorProcess.
From S2P Require Import Frontend Seccomp.

Definition PARANOID_CONFIG_DIR : bytes := lit ".config/paranoidcli".
Definition PR_SET_DUMPABLE : Z := 4.
Definition SIGINT : Z := 2.
Definition SIGQUIT : Z := 3.
Definition SIGSEGV : Z := 11.
Definition SIGPIPE : Z := 13.
Definition SIGCHLD : Z := 17.

(** ** Signals *)

Section Signals.
Context `{OS}.

(** Collect every child that ended; whether Tor is one of them.  [children]
    bounds the number of children. *)
Fixpoint sigchld_handler (children : nat) (g_tor_pid : Z) (g_tor_died : bool) : St trace bool :=
  match children with
  | O => mret g_tor_died
  | S children =>
      r ← sys (Waitpid (-1) WNOHANG);
      if sr_ret r <=? 0 then mret g_tor_died
      else sigchld_handler children g_tor_pid (g_tor_died || (sr_ret r =? g_tor_pid))
  end.

Definition setup_signal_handlers : St trace unit :=
  _ ← sys (Sigaction SIGINT); _ ← sys (Sigaction SIGTERM); _ ← sys (Sigaction SIGQUIT);
  _ ← sys (Sigaction SIGPIPE); _ ← sys (Sigaction SIGCHLD); mret tt.

(** ** Before main: the exit code, if one of them ends the process *)

Definition seccomp_stage1_early (ndebug : bool) (headers : String.string -> bool)
    : St trace (option Z) :=
  r ← sys NoNewPrivs;
  if negb (sr_ret r =? 0) then _ ← sys (Stderr "PR_SET_NO_NEW_PRIVS"); mret (Some 1)
  else
    err ← seccomp_policy_load ndebug headers 1;
    if negb (err_ok err) then _ ← sys (Stderr "seccomp stage 1"); mret (Some 1) else mret None.

Definition early_hardening_init : St trace (option Z) :=
  r ← sys (Prctl PR_SET_DUMPABLE 0);
  if negb (sr_ret r =? 0) then _ ← sys (Stderr "PR_SET_DUMPABLE"); mret (Some 1)
  else
    r ← sys Setrlimit;
    if negb (sr_ret r =? 0) then _ ← sys (Stderr "RLIMIT_CORE"); mret (Some 1) else mret None.

(** ** The terminal: whether its settings were saved *)

Definition setup_terminal : St trace bool :=
  t ← sys Isatty;
  if sr_ret t =? 0 then mret false
  else
    g ← sys Tcgetattr;
    if sr_ret g =? 0 then _ ← sys (Tcsetattr "raw"); mret true else mret false.

Definition restore_terminal (saved : bool) : St trace bool :=
  if saved then _ ← sys (Tcsetattr "original"); mret false else mret saved.

(** ** The shadow stack *)

Inductive cet_ss_state :=
  CET_SS_UNSUPPORTED | CET_SS_ENFORCED | CET_SS_NOT_ENFORCED | CET_SS_BROKEN.

Definition ARCH_SHSTK_LOCK : Z := 0x5003.
Definition ARCH_SHSTK_STATUS : Z := 0x5005.
Definition SHSTK_AND_WRSS : Z := 3.
Definition SEGV_CPERR : Z := 10.
Definition EPERM : Z := 1.

(** The two lines of /proc/self/status: active and locked.  [lines] bounds the
    length of the file. *)
Fixpoint proc_ss_lines (lines : nat) (active locked : bool) : St trace (bool * bool) :=
  match lines with
  | O => mret (active, locked)
  | S lines =>
      r ← sys ReadStatus;
      if sr_ret r =? 0 then mret (active, locked)
      else
        let line := cstr (take 255 (sr_data r)) in
        let shstk := bool_decide (is_Some (after_str (lit "shstk") line)) in
        if bytes_eqb (take 20 line) (lit "x86_Thread_features:")
        then proc_ss_lines lines (active || shstk) locked
        else if bytes_eqb (take 27 line) (lit "x86_Thread_features_locked:")
        then proc_ss_lines lines active (locked || shstk)
        else proc_ss_lines lines active locked
  end.

(** The child of the self-test: its exit code.  The handler of SIGSEGV exits
    with 101 for a control protection fault and with 102 for another. *)
Definition cet_child : St trace Z :=
  r ← sys (Sigaction SIGSEGV);
  if negb (sr_ret r =? 0) then mret 104
  else
    t ← sys CetTrigger;
    mret (if sr_ret t =? 0 then 100 else if sr_ret t =? SEGV_CPERR then 101 else 102).

Fixpoint waitpid_retry (fuel : nat) (pid : Z) : St trace Z :=
  r ← sys (Waitpid pid 0);
  match fuel with
  | S fuel => if (sr_ret r <? 0) && (sr_errno r =? EINTR) then waitpid_retry fuel pid else mret (sr_ret r)
  | O => mret (sr_ret r)
  end.

(** [WIFEXITED] and [WEXITSTATUS] *)
Definition exited (status : Z) : bool := Z.land status 0x7f =? 0.
Definition exit_status (status : Z) : Z := Z.land (Z.shiftr status 8) 0xff.

(** What the exit code of the child and the status word say together. *)
Definition cet_verdict (active : bool) (code : Z) : cet_ss_state :=
  if code =? 101 then if active then CET_SS_ENFORCED else CET_SS_BROKEN
  else if code =? 100 then if active then CET_SS_BROKEN else CET_SS_NOT_ENFORCED
  else CET_SS_BROKEN.

(** In the parent the verdict, in the child its exit code. *)
Definition cet_self_test (active : bool) : St trace (cet_ss_state + Z) :=
  b ← sys (Sigprocmask true);
  if negb (sr_ret b =? 0) then mret (inl CET_SS_BROKEN)
  else
    f ← sys Fork;
    let pid := sr_ret f in
    if pid <? 0 then _ ← sys (Sigprocmask false); mret (inl CET_SS_BROKEN)
    else if pid =? 0 then code ← cet_child; mret (inr code)
    else
      r ← waitpid_retry IO_RETRIES pid;
      st ← sys WaitStatus;
      u ← sys (Sigprocmask false);
      if negb (sr_ret u =? 0) then mret (inl CET_SS_BROKEN)
      else if negb (r =? pid) || negb (exited (sr_ret st)) then mret (inl CET_SS_BROKEN)
      else mret (inl (cet_verdict active (exit_status (sr_ret st)))).

Definition cet_ss_lock_and_verify (lines : nat) : St trace (cet_ss_state + Z) :=
  c ← sys CpuHasShstk;
  if sr_ret c =? 0 then mret (inl CET_SS_UNSUPPORTED)
  else
    s ← sys (ArchPrctl ARCH_SHSTK_STATUS 0);
    if negb (sr_ret s =? 0) then mret (inl CET_SS_UNSUPPORTED)
    else
      let active := Z.odd (byte.unsigned (nth 0 (sr_data s) NUL)) in
      if active then
        l ← sys (ArchPrctl ARCH_SHSTK_LOCK SHSTK_AND_WRSS);
        if negb (sr_ret l =? 0) && negb (sr_errno l =? EPERM) then mret (inl CET_SS_BROKEN)
        else
          fp ← sys (OpenPath (lit "/proc/self/status") 0);
          if sr_ret fp <? 0 then mret (inl CET_SS_BROKEN)
          else
            '(active_seen, locked_seen) ← proc_ss_lines lines false false;
            _ ← sys (Close (sr_ret fp));
            if negb active_seen || negb locked_seen then mret (inl CET_SS_BROKEN)
            else cet_self_test true
      else cet_self_test false.

(** ** PIN entry *)

(** [memset] of a prefix of the buffer. *)
Definition zero_prefix (n : Z) (buf : bytes) : bytes :=
  zeros (Z.to_nat n) ++ drop (Z.to_nat n) buf.
Definition set_at (n : Z) (c : byte) (buf : bytes) : bytes := <[Z.to_nat n := c]> buf.

(** Whether a line was read, and the buffer.  One byte is read at a time; [fuel]
    also bounds the interruptions. *)
Fixpoint read_line_secure (fuel : nat) (cap n : Z) (buf : bytes) : St trace (bool * bytes) :=
  if cap <=? n + 1 then mret (false, zero_prefix cap buf)
  else
    match fuel with
    | O => mret (false, zero_prefix n buf)
    | S fuel =>
        r ← sys (Read STDIN_FILENO 1);
        if sr_ret r <? 0 then
          if sr_errno r =? EINTR then read_line_secure fuel cap n buf
          else mret (false, zero_prefix n buf)
        else if sr_ret r =? 0 then
          if n =? 0 then mret (false, zero_prefix cap buf) else mret (true, set_at n NUL buf)
        else
          let c := nth 0 (sr_data r) NUL in
          if Byte.eqb c LF then
            let buf := set_at n NUL buf in
            mret (true, if (0 <? n) && Byte.eqb (nth (Z.to_nat (n - 1)) buf NUL) CR
                        then set_at (n - 1) NUL buf else buf)
          else read_line_secure fuel cap (n + 1) (set_at n c buf)
    end.

Definition PIN_CAP : Z := NOX_PIN_MAX_LEN + 2.
Definition PIN_FUEL : nat := (Z.to_nat PIN_CAP + IO_RETRIES)%nat.

(** [sodium_malloc] fills new memory with 0xdb. *)
Definition fresh_buffer (n : Z) : bytes := replicate (Z.to_nat n) Byte.xdb.

Definition tc_restore (is_terminal : bool) : St trace unit :=
  if is_terminal then _ ← sys (Tcsetattr "old"); mret tt else mret tt.

(** The second entry: whether it is the same.  The terminal is restored unless
    it is. *)
Definition confirm_pin (is_terminal : bool) (pin : bytes) : St trace bool :=
  ok ← malloc_ok PIN_CAP;
  if negb ok then _ ← tc_restore is_terminal; mret false
  else
    _ ← sys (Stderr "PIN again");
    '(line, buf) ← read_line_secure PIN_FUEL PIN_CAP 0 (fresh_buffer PIN_CAP);
    if negb line then _ ← tc_restore is_terminal; _ ← sys (Wipe "confirm_buf"); mret false
    else
      let same := bytes_eqb (pad_to (Z.to_nat PIN_CAP) pin) (pad_to (Z.to_nat PIN_CAP) (cstr buf)) in
      _ ← sys (Wipe "confirm_buf");
      if same then mret true else _ ← tc_restore is_terminal; mret false.

(** The error and the buffer. *)
Definition read_pin (pin_buf : bytes) (confirm : bool) : St trace (nox_err * bytes) :=
  g ← sys Tcgetattr;
  let is_terminal := sr_ret g =? 0 in
  _ ← (if is_terminal then _ ← sys (Tcsetattr "no echo"); mret tt else mret tt);
  _ ← sys (Stderr "PIN");
  '(line, buf) ← read_line_secure PIN_FUEL PIN_CAP 0 pin_buf;
  if negb line then _ ← tc_restore is_terminal; mret (NOX_ERR_PIN, buf)
  else
    let pin := cstr buf in
    let wiped := zero_prefix PIN_CAP buf in
    match validate_pin pin with
    | NOX_OK =>
        same ← (if confirm then confirm_pin is_terminal pin else mret true);
        if same : bool then _ ← tc_restore is_terminal; mret (NOX_OK, buf)
        else mret (NOX_ERR_PIN, wiped)
    | err => _ ← tc_restore is_terminal; mret (err, wiped)
    end.

End Signals.

(** ** The configuration directory *)

Section Config.
Context `{OS}.

(** [getenv("HOME")], or the entry of the user database. *)
Definition home_dir : St world (option bytes) :=
  h ← call (Getenv (lit "HOME"));
  if (sr_ret h =? 0) || bool_decide (cstr (sr_data h) = []) then
    p ← call Getpwuid;
    mret (if sr_ret p =? 0 then None else Some (cstr (sr_data p)))
  else mret (Some (cstr (sr_data h))).

Definition set_config_dir (dir : bytes) : St world bool :=
  let path := join dir PARANOID_CONFIG_DIR in
  _ ← upd_app (fun a => a <| as_config_dir := take (Z.to_nat NOX_PATH_MAX - 1) path |>);
  mret (len path <? NOX_PATH_MAX).

Definition resolve_config_paths : St world nox_err :=
  home ← home_dir;
  match home with
  | None => mret NOX_ERR_CONFIG
  | Some home =>
      ok ← set_config_dir home;
      if negb ok then mret NOX_ERR_CONFIG
      else
        r ← call (Realpath home);
        if sr_ret r =? 0 then mret NOX_ERR_CONFIG
        else
          ok ← set_config_dir (cstr (sr_data r));
          if negb ok then mret NOX_ERR_CONFIG
          else
            dir ← app as_config_dir;
            if NOX_PATH_MAX <=? len dir + 14 then mret NOX_ERR_CONFIG
            else _ ← upd_app (fun a => a <| as_downloads_dir_fd := -1 |>); mret NOX_OK
  end.

(** The directory is found, or created with its parent. *)
Definition find_config_dir : St world nox_err :=
  dir ← app as_config_dir;
  st ← call (LstatMode dir);
  if 0 <=? sr_ret st then
    if is_mode (sr_ret st) S_IFLNK then mret NOX_ERR_CONFIG
    else if negb (is_mode (sr_ret st) S_IFDIR) then mret NOX_ERR_CONFIG
    else mret NOX_OK
  else
    m ← call (Mkdir dir 0x1C0);
    if sr_ret m =? 0 then mret NOX_OK
    else
      home ← home_dir;
      let parent := default [] home ++ lit "/.config" in
      if NOX_PATH_MAX <=? len parent then mret NOX_ERR_CONFIG
      else
        _ ← call (Mkdir parent 0x1C0);
        m ← call (Mkdir dir 0x1C0);
        mret (if sr_ret m =? 0 then NOX_OK else NOX_ERR_CONFIG).

Definition drop_config_dir (fd : Z) : St world (nox_err * bool) :=
  _ ← call_ (Close fd);
  _ ← upd_app (fun a => a <| as_config_dir_fd := -1 |>);
  mret (NOX_ERR_CONFIG, false).

(** The error and whether this is the first run.  The downloads path begins with
    the configuration path by construction, so the check of it cannot fail. *)
Definition ensure_config_dir : St world (nox_err * bool) :=
  err ← find_config_dir;
  if negb (err_ok err) then mret (err, false)
  else
    dir ← app as_config_dir;
    r ← call (OpenPath dir OPEN_DIR);
    let fd := sr_ret r in
    _ ← upd_app (fun a => a <| as_config_dir_fd := fd |>);
    if fd <? 0 then mret (NOX_ERR_CONFIG, false)
    else
      m ← call (Mkdirat fd (lit "downloads") 0x1C0);
      if negb (sr_ret m =? 0) && negb (sr_errno m =? EEXIST) then drop_config_dir fd
      else
        r ← call (Openat fd (lit "downloads") OPEN_DIR);
        _ ← upd_app (fun a => a <| as_downloads_dir_fd := sr_ret r |>);
        if sr_ret r <? 0 then drop_config_dir fd
        else
          st ← call (FstatatMode fd IDENTITY_NAME);
          mret (NOX_OK, negb ((0 <=? sr_ret st) && is_mode (sr_ret st) S_IFREG)).

(** ** The transport *)

Definition trimmed (c : byte) : bool :=
  existsb (Byte.eqb c) [LF; CR; Byte.x20; TAB].
Definition printable (c : byte) : bool := between 32 126 c.

(** The first character that is not white space, or 'D'. *)
Definition choice_char (line : bytes) : byte :=
  match filter (fun c => trimmed c = false) line with c :: _ => c | [] => Byte.x44 end.

Fixpoint trim_front (s : bytes) : bytes :=
  match s with c :: s' => if trimmed c then trim_front s' else s | [] => [] end.
Definition trim_end (s : bytes) : bytes := rev (trim_front (rev s)).

(** The line, trimmed; nothing when a character is not printable ASCII. *)
Definition bridge_line (s : bytes) : bytes :=
  let s := trim_end s in if forallb printable s then s else [].

Definition read_bridge : St world unit :=
  _ ← upd_app (fun a => a <| as_obfs4_bridge_line := [] |>);
  r ← call (Fgets 512);
  if sr_ret r =? 0 then skip
  else
    upd_app (fun a => a <| as_obfs4_bridge_line := bridge_line (cstr (take 511 (sr_data r))) |>).

Definition look_for (name : bytes) : St world unit :=
  r ← call (Access (lit "/usr/bin/" ++ name));
  if sr_ret r =? 0 then skip else call_ (Access (lit "/usr/local/bin/" ++ name)).

Definition set_transport (t : transport_type_t) : St world unit :=
  upd_app (fun a => a <| as_transport_type := t |>).

Definition prompt_transport_selection : St world unit :=
  g ← call Tcgetattr;
  let tty := sr_ret g =? 0 in
  _ ← (if tty then call_ (Tcsetattr "echo") else skip);
  _ ← call_ (Stderr "transport");
  r ← call (Fgets 16);
  if sr_ret r =? 0 then set_transport TRANSPORT_DIRECT
  else
    let c := choice_char (cstr (take 15 (sr_data r))) in
    _ ← (if existsb (Byte.eqb c) (lit "sS") then
           _ ← set_transport TRANSPORT_SNOWFLAKE; look_for (lit "snowflake-client")
         else if existsb (Byte.eqb c) (lit "oO") then
           _ ← set_transport TRANSPORT_OBFS4;
           _ ← look_for (lit "obfs4proxy");
           _ ← call_ (Stderr "bridge line");
           read_bridge
         else set_transport TRANSPORT_DIRECT);
    if tty then call_ (Tcsetattr "saved") else skip.

(** ** --full_cleankeys *)

Definition KEY_FILES : list bytes :=
  [lit "identity.key"; lit "salt"; lit "contacts.db"; lit "onion.key"].
Definition OPEN_WRONLY : Z := Z.lor OPEN_NOFOLLOW 1.

(** Zeros over the file, 256 bytes at a time.  The size of a request is
    subtracted, however much of it was written. *)
Fixpoint overwrite (fuel : nat) (fd remaining : Z) : St trace unit :=
  match fuel with
  | O => mret tt
  | S fuel =>
      if remaining <=? 0 then mret tt
      else
        let chunk := Z.min remaining 256 in
        w ← sys (Write fd (zeros (Z.to_nat chunk)));
        if sr_ret w <=? 0 then mret tt else overwrite fuel fd (remaining - chunk)
  end.

Definition overwrite_file (fd size : Z) : St trace unit :=
  _ ← overwrite (Z.to_nat size) fd size;
  _ ← sys (Fsync fd); _ ← sys (Close fd); mret tt.

(** Whether there is such a file.  Without a descriptor, or when fstatat fails,
    the path is tried. *)
Definition key_file_there (dir : bytes) (cfg_fd : Z) (bn : bytes) : St trace bool :=
  sret ← (if 0 <=? cfg_fd then r ← sys (FstatatMode cfg_fd bn); mret (sr_ret r) else mret (-1));
  if sret <? 0 then
    let tmp_path := join dir bn in
    if NOX_PATH_MAX <=? len tmp_path then mret false
    else r ← sys (Stat tmp_path); mret (sr_ret r =? 0)
  else mret (is_mode sret S_IFREG).

(** One file: whether it was removed. *)
Definition wipe_key_file (dir : bytes) (cfg_fd : Z) (bn : bytes) : St trace bool :=
  there ← key_file_there dir cfg_fd bn;
  if negb there then mret false
  else
    size ← sys (StatSize bn);
    _ ← (if 0 <=? cfg_fd then
           r ← sys (Openat cfg_fd bn OPEN_WRONLY);
           if 0 <=? sr_ret r then overwrite_file (sr_ret r) (sr_ret size) else mret tt
         else mret tt);
    removed ← (if 0 <=? cfg_fd then r ← sys (Unlinkat cfg_fd bn); mret (sr_ret r =? 0)
               else if len dir + 1 + len bn <? NOX_PATH_MAX
                    then r ← sys (Unlink (join dir bn)); mret (sr_ret r =? 0)
                    else mret false);
    _ ← (if bytes_eqb bn (lit "contacts.db") && (0 <=? cfg_fd) then
           _ ← sys (Unlinkat cfg_fd (lit "contacts.db-wal"));
           _ ← sys (Unlinkat cfg_fd (lit "contacts.db-shm")); mret tt
         else mret tt);
    mret removed.

Fixpoint wipe_key_files (dir : bytes) (cfg_fd : Z) (l : list bytes) (wiped : Z) : St trace Z :=
  match l with
  | [] => mret wiped
  | bn :: l =>
      ok ← wipe_key_file dir cfg_fd bn;
      wipe_key_files dir cfg_fd l (if ok : bool then wiped + 1 else wiped)
  end.

(** The exit code. *)
Definition full_cleankeys : St world Z :=
  err ← resolve_config_paths;
  if negb (err_ok err) then _ ← call_ (Stderr "config paths"); mret 1
  else
    dir ← app as_config_dir;
    if NOX_PATH_MAX <=? len dir + 14 then _ ← call_ (Stderr "config path too long"); mret 1
    else
      r ← call (OpenPath dir OPEN_DIR);
      let cfg_fd := sr_ret r in
      _ ← lift_tr (wipe_key_files dir cfg_fd KEY_FILES 0);
      _ ← (if 0 <=? cfg_fd then call_ (Close cfg_fd) else skip);
      _ ← call_ (Rmdir dir);
      _ ← call_ (Stderr "all key material destroyed");
      mret 0.

End Config.
