(* ===== verification/StartupProofs.v ===== *)
(** * Theorems about the steps of the start

    What PIN entry accepts and what it leaves behind; what the verdict on the
    shadow stack means. *)

From S2P Require Import Prelude Primitives Types World Network FileTransfer Keys Control ControlProofs.
From S2P Require Import DatabaseProofs TorProcess TorProofs Frontend Seccomp Startup.

(** ** A line from the terminal *)

(** What was typed, and the string it stands for: a line without its line end,
    or what came before the end of the input. *)
Definition chomp (line : bytes) : bytes :=
  match last line with
  | Some c => if Byte.eqb c CR then take (length line - 1) line else line
  | None => line
  end.
Definition entered (input pin : bytes) : Prop :=
  (exists line, input = line ++ [LF] /\ pin = cstr (chomp line)) \/ (input <> [] /\ pin = cstr input).

(** Nothing of what was typed is left in a buffer that held [orig]. *)
Definition erased (orig buf : bytes) : Prop := exists k, buf = zeros k ++ drop k orig.

Lemma cstr_cut (s rest : bytes) : cstr (s ++ NUL :: rest) = cstr s.
Proof. induction s as [|c s IH]; cbn; [done|]. case_match; [done|]. by rewrite IH. Qed.

Lemma length_chomp s : (length (chomp s) <= length s)%nat.
Proof. unfold chomp. repeat case_match; rewrite ?length_take; lia. Qed.

Lemma zero_prefix_drop n k (s buf : bytes) :
  length s = k -> (k <= n)%nat -> zeros n ++ drop n (s ++ drop k buf) = zeros n ++ drop n buf.
Proof.
  intros <- Hk. rewrite drop_app. f_equal. rewrite drop_ge by lia. cbn. rewrite drop_drop. f_equal. lia.
Qed.

(** The buffer after [s] was typed into it. *)
Definition typed (s buf0 : bytes) : bytes := s ++ drop (length s) buf0.

Lemma set_at_typed s c buf0 :
  (length s < length buf0)%nat ->
  set_at (len s) c (typed s buf0) = s ++ c :: drop (S (length s)) buf0.
Proof.
  intros Hl. unfold set_at, typed, len. rewrite Nat2Z.id.
  destruct (lookup_lt_is_Some_2 buf0 (length s) Hl) as [x Hx].
  rewrite (drop_S _ _ _ Hx). rewrite insert_app_r_alt by lia. by rewrite Nat.sub_diag.
Qed.

Lemma typed_snoc s c buf0 : s ++ c :: drop (S (length s)) buf0 = typed (s ++ [c]) buf0.
Proof. unfold typed. rewrite length_app, <-app_assoc. cbn. do 3 f_equal. lia. Qed.

Lemma typed_erased n s buf0 :
  (length s <= n)%nat -> erased buf0 (zeros n ++ drop n (typed s buf0)).
Proof.
  intros Hn. exists n. unfold typed. rewrite drop_app, (drop_ge s) by lia. cbn.
  rewrite drop_drop. do 2 f_equal. lia.
Qed.

(** The end of a line: the NUL goes to its end, over a CR. *)
Lemma end_of_line s buf0 :
  (length s < length buf0)%nat ->
  let buf := set_at (len s) NUL (typed s buf0) in
  let buf' := if (0 <? len s) && Byte.eqb (nth (Z.to_nat (len s - 1)) buf NUL) CR
              then set_at (len s - 1) NUL buf else buf in
  cstr buf' = cstr (chomp s) /\ length buf' = length buf0.
Proof.
  intros Hl. cbv zeta. rewrite set_at_typed by done. unfold chomp.
  assert (length (s ++ NUL :: drop (S (length s)) buf0) = length buf0) as Hlen
    by (rewrite length_app; cbn; rewrite length_drop; lia).
  destruct s as [|c s' _] using rev_ind.
  - cbn [len]. change (0 <? len (@nil byte)) with false. cbn [andb last]. by rewrite cstr_cut.
  - rewrite last_snoc, length_app. cbn [length].
    assert (len (s' ++ [c]) = Z.of_nat (length s') + 1) as El by (unfold len; rewrite length_app; cbn; lia).
    assert ((0 <? len (s' ++ [c])) = true) as -> by lia. cbn [andb].
    replace (Z.to_nat (len (s' ++ [c]) - 1)) with (length s') by lia.
    rewrite <-app_assoc. cbn [Datatypes.app]. rewrite nth_middle.
    destruct (Byte.eqb c CR).
    + unfold set_at. replace (Z.to_nat (len (s' ++ [c]) - 1)) with (length s') by lia.
      rewrite insert_app_r_alt, Nat.sub_diag by lia. cbn [list_insert insert].
      rewrite cstr_cut. replace (length s' + 1 - 1)%nat with (length s') by lia.
      rewrite take_app_length. split; [done|]. rewrite <-Hlen. repeat (rewrite length_app || cbn [length]). lia.
    + split; [|rewrite <-Hlen; repeat (rewrite length_app || cbn [length]); lia].
      change (s' ++ c :: NUL :: drop (S (length s' + 1)) buf0) with
        (s' ++ [c] ++ NUL :: drop (S (length s' + 1)) buf0).
      by rewrite app_assoc, cstr_cut.
Qed.

Section Pin.
Context `{HOS : OS}.

(** Calls that read a line. *)
Definition line_call (c : syscall) : bool := match c with Read 0 1 => true | _ => false end.

Lemma pad_one (b : bytes) : pad_to 1 b = [nth 0 b NUL].
Proof. by destruct b as [|c []]. Qed.

Lemma received_read tr :
  received 0 (Read 0 1 :: tr) = received 0 tr ++
    (if 0 <? sr_ret (os_answer tr (Read 0 1)) then [nth 0 (sr_data (os_answer tr (Read 0 1))) NUL] else []).
Proof.
  cbn [received]. rewrite Z.eqb_refl. f_equal. set (r := os_answer tr (Read 0 1)).
  destruct (0 <? sr_ret r) eqn:E.
  - replace (Z.to_nat (Z.min (sr_ret r) 1)) with 1%nat by lia. apply pad_one.
  - replace (Z.to_nat (Z.min (sr_ret r) 1)) with 0%nat by lia. done.
Qed.

(** The outcome of a line. *)
Definition line_read (tr0 : trace) (buf0 : bytes) (x : bool * bytes) (tr' : trace) : Prop :=
  grows line_call tr0 tr' /\
  if x.1 then exists input, received 0 tr' = received 0 tr0 ++ input /\ entered input (cstr x.2) /\
         length x.2 = length buf0 /\ (length (cstr x.2) < length buf0)%nat
  else erased buf0 x.2.

Lemma read_line_spec fuel cap s buf0 tr0 tr :
  length buf0 = Z.to_nat cap -> (length s < length buf0)%nat ->
  received 0 tr = received 0 tr0 ++ s -> grows line_call tr0 tr ->
  wp (read_line_secure fuel cap (len s) (typed s buf0)) (line_read tr0 buf0) tr.
Proof.
  intros Hb. revert s tr. induction fuel as [|fuel IH]; intros s tr Hl Hr Hg; cbn [read_line_secure].
  - destruct (_ <=? _); apply wp_ret; (split; [done|]).
    + apply typed_erased. lia.
    + unfold zero_prefix, len. rewrite Nat2Z.id. apply typed_erased. lia.
  - destruct (cap <=? len s + 1) eqn:Ec.
    { apply wp_ret. split; [done|]. apply typed_erased. lia. }
    apply wp_bind, wp_sys. pose proof (received_read tr) as Er. rewrite Hr in Er.
    change STDIN_FILENO with 0. set (r := os_answer tr (Read 0 1)) in *.
    assert (grows line_call tr0 (Read 0 1 :: tr)) as Hg' by by apply grows_cons.
    destruct (sr_ret r <? 0) eqn:E1.
    { rewrite (proj2 (Z.ltb_ge _ _)), app_nil_r in Er by lia.
      destruct (_ =? EINTR); [by apply IH|]. apply wp_ret. split; [done|].
      unfold zero_prefix, len. rewrite Nat2Z.id. apply typed_erased. lia. }
    destruct (sr_ret r =? 0) eqn:E2.
    { rewrite (proj2 (Z.ltb_ge _ _)), app_nil_r in Er by lia.
      destruct (len s =? 0) eqn:E3; apply wp_ret; (split; [done|]); [apply typed_erased; lia|].
      exists s. split; [done|]. cbn [snd]. rewrite set_at_typed by done. split.
      - right. split; [by intros ->|]. apply cstr_cut.
      - rewrite cstr_cut. pose proof (length_cstr s). split; [|lia].
        rewrite length_app. cbn. rewrite length_drop. lia. }
    rewrite (proj2 (Z.ltb_lt _ _)) in Er by lia. set (c := nth 0 (sr_data r) NUL) in *.
    destruct (byte_eqb_spec c LF) as [E4|E4].
    { rewrite E4 in Er. apply wp_ret. split; [done|].
      exists (s ++ [LF]). rewrite <-app_assoc in Er. split; [exact Er|]. cbn [snd].
      destruct (end_of_line s buf0 Hl) as [Ecstr Elen]. split.
      - left. exists s. split; [done|exact Ecstr].
      - rewrite Ecstr. pose proof (length_cstr (chomp s)). pose proof (length_chomp s). split; [done|lia]. }
    rewrite set_at_typed by done. rewrite typed_snoc.
    replace (len s + 1) with (len (s ++ [c])) by (unfold len; rewrite length_app; cbn; lia).
    apply IH; [|by rewrite <-app_assoc in Er|done].
    rewrite length_app. cbn. unfold len in Ec. lia.
Qed.

(** The settings the terminal was last given. *)
Fixpoint tty_mode (tr : trace) : option String.string :=
  match tr with
  | Tcsetattr m :: _ => Some m
  | _ :: tr => tty_mode tr
  | [] => None
  end.

Lemma tty_mode_grows tr tr' : grows line_call tr tr' -> tty_mode tr' = tty_mode tr.
Proof.
  intros (new & -> & Hn). induction new as [|c new IH]; [done|]. cbn in Hn.
  apply andb_true_iff in Hn as [Hc Hn]. destruct c; try done. cbn. by apply IH.
Qed.

(** The echo is as it was before: nothing was set, or the old settings were
    written last. *)
Definition tty_restored (tr tr' : trace) : Prop :=
  tty_mode tr' = tty_mode tr \/ tty_mode tr' = Some "old"%string.

Definition tty_after (is_terminal : bool) (tr : trace) (tr' : trace) : Prop :=
  if is_terminal then tty_mode tr' = Some "old"%string else tty_mode tr' = tty_mode tr.

Lemma tc_restore_spec is_terminal tr0 tr (Q : unit -> trace -> Prop) :
  (is_terminal = false -> tty_mode tr = tty_mode tr0) ->
  (forall tr', tty_after is_terminal tr0 tr' -> received 0 tr' = received 0 tr -> Q tt tr') ->
  wp (tc_restore is_terminal) Q tr.
Proof.
  intros Ht HQ. unfold tc_restore. destruct is_terminal.
  - apply wp_bind, wp_sys, wp_ret, HQ; done.
  - apply wp_ret, HQ; [by apply Ht|done].
Qed.

Lemma confirm_spec is_terminal pin tr0 tr :
  NUL ∉ pin -> len pin <= NOX_PIN_MAX_LEN -> (is_terminal = false -> tty_mode tr = tty_mode tr0) ->
  wp (confirm_pin is_terminal pin) (fun same tr' =>
    if same then (is_terminal = false -> tty_mode tr' = tty_mode tr0) /\
      exists input, received 0 tr' = received 0 tr ++ input /\ entered input pin
    else tty_after is_terminal tr0 tr') tr.
Proof.
  intros Hn Hl Ht. unfold confirm_pin. apply wp_bind, wp_bind, wp_sys, wp_ret. destruct (negb _).
  { apply wp_bind. apply (tc_restore_spec _ tr0); [done|]. intros tr' Ha _. by apply wp_ret. }
  apply wp_bind, wp_sys, wp_bind.
  eapply wp_mono; [eapply (read_line_spec PIN_FUEL PIN_CAP [] (fresh_buffer PIN_CAP) (Stderr "PIN again" :: Malloc PIN_CAP :: tr))|];
    [done|vm_compute; lia|by rewrite app_nil_r|apply grows_refl|].
  intros [line buf] t1 [Hg Hline]. cbn [fst snd] in Hline. pose proof (tty_mode_grows _ _ Hg) as Em.
  cbn in Em. destruct line; cbn [negb].
  2: { apply wp_bind. apply (tc_restore_spec _ tr0); [intros E; by rewrite Em, Ht|]. intros tr' Ha _.
       apply wp_bind, wp_sys, wp_ret. exact Ha. }
  destruct Hline as (input & Er & He & _ & Hlt). cbn [received] in Er. apply wp_bind, wp_sys.
  destruct (bytes_eqb _ _) eqn:Eq.
  - apply wp_ret. split; [intros E; cbn; by rewrite Em, Ht|]. exists input. split; [exact Er|].
    apply bytes_eqb_eq in Eq. apply (f_equal cstr) in Eq.
    rewrite !cstr_pad_to in Eq; [by rewrite Eq|..].
    + apply cstr_no_nul.
    + exact Hlt.
    + done.
    + unfold len, NOX_PIN_MAX_LEN in Hl. change (Z.to_nat PIN_CAP) with 130%nat. lia.
  - apply wp_bind. apply (tc_restore_spec _ tr0); [intros E; cbn; by rewrite Em, Ht|].
    intros tr' Ha _. by apply wp_ret.
Qed.

Lemma validate_pin_ok pin :
  validate_pin pin = NOX_OK ->
  NOX_PIN_MIN_LEN <= len pin <= NOX_PIN_MAX_LEN /\ forall c, c ∈ pin -> pin_bad c = false.
Proof.
  unfold validate_pin. repeat case_match; try done. intros _. split; [lia|]. intros c Hc.
  destruct (pin_bad c) eqn:Eb; [|done]. exfalso.
  assert (existsb pin_bad pin = true); [|congruence].
  apply existsb_exists. exists c. split; [by apply list_elem_of_In|done].
Qed.

(** A PIN that was accepted between two states. *)
Definition pin_taken (confirm : bool) (tr : trace) (pin : bytes) (tr' : trace) : Prop :=
  NOX_PIN_MIN_LEN <= len pin <= NOX_PIN_MAX_LEN /\ (forall c, c ∈ pin -> pin_bad c = false) /\
  exists first second, received 0 tr' = received 0 tr ++ first ++ second /\ entered first pin /\
    if confirm then entered second pin else second = [].

Definition pin_result (confirm : bool) (buf0 : bytes) (tr : trace) (x : nox_err * bytes)
    (tr' : trace) : Prop :=
  tty_restored tr tr' /\
  if decide (x.1 = NOX_OK) then pin_taken confirm tr (cstr x.2) tr' else erased buf0 x.2.

Lemma tty_after_restored is_terminal tr tr' : tty_after is_terminal tr tr' -> tty_restored tr tr'.
Proof. unfold tty_after, tty_restored. destruct is_terminal; auto. Qed.

Lemma restore_fails confirm is_terminal buf0 buf e tr tr0 :
  (is_terminal = false -> tty_mode tr = tty_mode tr0) -> e <> NOX_OK -> erased buf0 buf ->
  wp (_ ← tc_restore is_terminal; mret (e, buf)) (pin_result confirm buf0 tr0) tr.
Proof.
  intros Hm He Hb. apply wp_bind. apply (tc_restore_spec _ tr0); [done|]. intros tr' Ha _.
  apply wp_ret. split; [by eapply tty_after_restored|]. by rewrite decide_False.
Qed.

Lemma restore_succeeds confirm is_terminal buf0 buf tr tr0 :
  (is_terminal = false -> tty_mode tr = tty_mode tr0) -> pin_taken confirm tr0 (cstr buf) tr ->
  wp (_ ← tc_restore is_terminal; mret (NOX_OK, buf)) (pin_result confirm buf0 tr0) tr.
Proof.
  intros Hm (H1 & H2 & first & second & Er & H3 & H4). apply wp_bind.
  apply (tc_restore_spec _ tr0); [done|]. intros tr' Ha Er'.
  apply wp_ret. split; [by eapply tty_after_restored|]. rewrite decide_True by done.
  split; [done|]. split; [done|]. exists first, second. by rewrite Er'.
Qed.

(** C34 What PIN entry accepts and leaves behind.  It succeeds only with a PIN of 8
    to 128 characters without control characters other than a tab, the one that
    was typed as a line (a final CR belongs to the line end), and on the first
    run only when the second line typed is the same.  On failure nothing that was
    typed is left in the buffer.  On every path the terminal is given its old
    settings back, if it is one. *)
Theorem pin_entry confirm buf0 tr :
  length buf0 = Z.to_nat PIN_CAP ->
  pin_result confirm buf0 tr (read_pin buf0 confirm tr).1 (read_pin buf0 confirm tr).2.
Proof.
  intros Hb. change (wp (read_pin buf0 confirm) (pin_result confirm buf0 tr) tr).
  unfold read_pin. apply wp_bind, wp_sys. set (is_terminal := _ =? 0).
  apply wp_bind. set (t1 := if is_terminal then Tcsetattr "no echo" :: Tcgetattr :: tr else Tcgetattr :: tr).
  assert (forall Q : unit -> trace -> Prop, Q tt t1 ->
    wp (if is_terminal then _ ← sys (Tcsetattr "no echo"); mret tt else mret tt) Q (Tcgetattr :: tr)) as Hset
    by (intros Q HQ; unfold t1 in HQ; destruct is_terminal; [apply wp_bind, wp_sys, wp_ret, HQ|apply wp_ret, HQ]).
  apply Hset. clear Hset. apply wp_bind, wp_sys, wp_bind.
  eapply wp_mono; [eapply (read_line_spec PIN_FUEL PIN_CAP [] buf0 (Stderr "PIN" :: t1))|];
    [done|rewrite Hb; vm_compute; lia|by rewrite app_nil_r|apply grows_refl|].
  intros [line buf] t2 [Hg Hline]. cbn [fst snd] in Hline.
  assert (received 0 t1 = received 0 tr) as Er1 by (unfold t1; by destruct is_terminal).
  assert (is_terminal = false -> tty_mode t2 = tty_mode tr) as Hm.
  { intros E. rewrite (tty_mode_grows _ _ Hg). cbn. unfold t1. by rewrite E. }
  destruct line; cbn [negb]; [|by apply restore_fails].
  destruct Hline as (first & Er & He & Hlb & Hlt). cbn [received] in Er. rewrite Er1 in Er.
  assert (erased buf0 (zero_prefix PIN_CAP buf)) as Hw.
  { exists (Z.to_nat PIN_CAP). unfold zero_prefix. by rewrite !drop_ge by lia. }
  destruct (validate_pin (cstr buf)) eqn:Ev; try by apply restore_fails.
  destruct (validate_pin_ok _ Ev) as [Hlen Hbad]. apply wp_bind. destruct confirm.
  - eapply wp_mono; [apply (confirm_spec is_terminal (cstr buf) tr); [apply cstr_no_nul|lia|done]|].
    cbn beta. intros [|] t3; [intros [Hm3 (second & Er3 & He3)]|intros Ha].
    + apply restore_succeeds; [done|]. split; [done|]. split; [done|]. exists first, second.
      by rewrite Er3, Er, <-app_assoc.
    + apply wp_ret. split; [by eapply tty_after_restored|]. by rewrite decide_False.
  - apply wp_ret, restore_succeeds; [done|]. split; [done|]. split; [done|]. exists first, [].
    by rewrite Er, app_nil_r.
Qed.

End Pin.

(** A first run: the PIN is typed twice. *)
Definition typing_os (text : bytes) : OS := fun tr c =>
  match c with
  | Read f n => match text !! taken f text tr with Some b => SysRet 1 0 [b] | None => SysRet 0 0 [] end
  | _ => kind_os tr c
  end.

Lemma pin_entry_witness :
  let run := @read_pin (typing_os (lit "secret 12" ++ [CR; LF] ++ lit "secret 12" ++ [LF]))
               (fresh_buffer PIN_CAP) true [] in
  run.1.1 = NOX_OK /\ cstr run.1.2 = lit "secret 12" /\
  @pin_result (typing_os (lit "secret 12" ++ [CR; LF] ++ lit "secret 12" ++ [LF])) true
    (fresh_buffer PIN_CAP) [] run.1 run.2.
Proof.
  split; [vm_compute; reflexivity|]. split; [vm_compute; reflexivity|].
  apply (@pin_entry (typing_os (lit "secret 12" ++ [CR; LF] ++ lit "secret 12" ++ [LF])) true
    (fresh_buffer PIN_CAP) []). vm_compute. reflexivity.
Defined.

(** ** The shadow stack *)

Section Cet.
Context `{HOS : OS}.

(** A call of the run, with its answer. *)
Definition answered (c : syscall) (P : sysret -> Prop) (tr : trace) : Prop :=
  exists t, c :: t `suffix_of` tr /\ P (os_answer t c).

Lemma answered_now (c : syscall) (P : sysret -> Prop) tr : P (os_answer tr c) -> answered c P (c :: tr).
Proof. intros HP. by exists tr. Qed.
Lemma answered_later c P t t' : answered c P t -> t `suffix_of` t' -> answered c P t'.
Proof. intros (u & Hu & HP) Hs. exists u. split; [by etrans|done]. Qed.

(** A line of /proc/self/status names the feature. *)
Definition names_shstk (field : bytes) (r : sysret) : Prop :=
  let line := cstr (take 255 (sr_data r)) in
  take (length field) line = field /\ is_Some (after_str (lit "shstk") line).

Lemma proc_lines_spec lines a l tr :
  wp (proc_ss_lines lines a l) (fun x tr' => tr `suffix_of` tr' /\
    (x.1 = true -> a = true \/ answered ReadStatus (names_shstk (lit "x86_Thread_features:")) tr') /\
    (x.2 = true -> l = true \/
       answered ReadStatus (names_shstk (lit "x86_Thread_features_locked:")) tr')) tr.
Proof.
  revert a l tr. induction lines as [|lines IH]; intros a l tr; cbn [proc_ss_lines].
  - apply wp_ret. auto.
  - apply wp_bind, wp_sys. set (r := os_answer tr ReadStatus).
    assert (tr `suffix_of` ReadStatus :: tr) as Hs by by apply suffix_cons_r.
    destruct (sr_ret r =? 0); [apply wp_ret; auto|]. cbv zeta. set (line := cstr _).
    destruct (bytes_eqb (take 20 line) _) eqn:E1;
      [|destruct (bytes_eqb (take 27 line) _) eqn:E2]; (eapply wp_mono; [apply IH|]);
      intros [a' l'] tr' (Hs' & Ha & Hl); (split; [by etrans|]); cbn [fst snd] in *; split; intros Ht;
      first [apply Ha in Ht as [Ht|Ht] | apply Hl in Ht as [Ht|Ht]]; auto.
    + apply orb_true_iff in Ht as [Ht|Ht%bool_decide_eq_true]; [auto|right].
      eapply answered_later; [|exact Hs']. apply answered_now. split; [by apply bytes_eqb_eq|done].
    + apply orb_true_iff in Ht as [Ht|Ht%bool_decide_eq_true]; [auto|right].
      eapply answered_later; [|exact Hs']. apply answered_now. split; [by apply bytes_eqb_eq|done].
Qed.

(** The child of the self-test ended with this code. *)
Definition child_exited (code : Z) : trace -> Prop :=
  answered WaitStatus (fun r => exited (sr_ret r) = true /\ exit_status (sr_ret r) = code).

Lemma waitpid_grows fuel pid tr : wp (waitpid_retry fuel pid) (fun _ tr' => tr `suffix_of` tr') tr.
Proof.
  revert tr. induction fuel as [|fuel IH]; intros tr; cbn [waitpid_retry]; apply wp_bind, wp_sys.
  - apply wp_ret. by apply suffix_cons_r.
  - destruct (_ && _); [|apply wp_ret; by apply suffix_cons_r].
    eapply wp_mono; [apply IH|]. intros ? tr' Hs. etrans; [|exact Hs]. by apply suffix_cons_r.
Qed.

Lemma self_test_spec active tr :
  wp (cet_self_test active) (fun x tr' => tr `suffix_of` tr' /\
    match x with
    | inl CET_SS_ENFORCED => active = true /\ child_exited 101 tr'
    | inl CET_SS_NOT_ENFORCED => active = false /\ child_exited 100 tr'
    | inl CET_SS_UNSUPPORTED => False
    | _ => True
    end) tr.
Proof.
  unfold cet_self_test, cet_child. apply wp_bind, wp_sys. destruct (negb _); [apply wp_ret; auto using suffix_cons_r|].
  apply wp_bind, wp_sys. destruct (_ <? 0); [apply wp_bind, wp_sys, wp_ret; auto 6 using suffix_cons_r|].
  destruct (_ =? 0).
  { apply wp_bind, wp_bind, wp_sys. destruct (negb _); [apply wp_ret, wp_ret; auto 6 using suffix_cons_r|].
    apply wp_bind, wp_sys, wp_ret, wp_ret. auto 6 using suffix_cons_r. }
  apply wp_bind. eapply wp_mono; [apply waitpid_grows|]. intros r t1 Hs1.
  assert (tr `suffix_of` t1) as Hs by (etrans; [|exact Hs1]; auto using suffix_cons_r).
  apply wp_bind, wp_sys, wp_bind, wp_sys. set (st := os_answer t1 WaitStatus).
  destruct (negb _); [apply wp_ret; auto using suffix_cons_r|].
  destruct (negb (r =? _) || _) eqn:Ee; [apply wp_ret; auto using suffix_cons_r|]. apply wp_ret.
  split; [auto using suffix_cons_r|]. apply orb_false_iff in Ee as [_ Ee%negb_false_iff].
  assert (child_exited (exit_status (sr_ret st)) (Sigprocmask false :: WaitStatus :: t1)) as Hc.
  { eapply answered_later; [by apply answered_now|]. by apply suffix_cons_r. }
  unfold cet_verdict. destruct (_ =? 101) eqn:E1.
  - apply Z.eqb_eq in E1. rewrite E1 in Hc. by destruct active.
  - destruct (_ =? 100) eqn:E2; [|done]. apply Z.eqb_eq in E2. rewrite E2 in Hc. by destruct active.
Qed.

(** The status word the kernel gave. *)
Definition status_says (active : bool) : trace -> Prop :=
  answered (ArchPrctl ARCH_SHSTK_STATUS 0) (fun r =>
    sr_ret r = 0 /\ Z.odd (byte.unsigned (nth 0 (sr_data r) NUL)) = active).

(** The check of the shadow stack fails closed.  The release build goes on only
    when the processor or the kernel has none; when the kernel says that it is
    off and a child that overwrote its return address ran through (exit code
    100); or when the kernel says that it is on, the lock was set or already
    there, /proc/self/status shows it as active and as locked, and the child was
    stopped by a control protection fault (exit code 101).  Everything else is
    reported as broken, and main exits. *)
Theorem cet_fails_closed lines tr :
  let x := cet_ss_lock_and_verify lines tr in
  match x.1 with
  | inl CET_SS_UNSUPPORTED =>
      answered CpuHasShstk (fun r => sr_ret r = 0) x.2 \/
      answered (ArchPrctl ARCH_SHSTK_STATUS 0) (fun r => sr_ret r <> 0) x.2
  | inl CET_SS_NOT_ENFORCED => status_says false x.2 /\ child_exited 100 x.2
  | inl CET_SS_ENFORCED =>
      status_says true x.2 /\ child_exited 101 x.2 /\
      answered (ArchPrctl ARCH_SHSTK_LOCK SHSTK_AND_WRSS)
        (fun r => sr_ret r = 0 \/ sr_errno r = EPERM) x.2 /\
      answered ReadStatus (names_shstk (lit "x86_Thread_features:")) x.2 /\
      answered ReadStatus (names_shstk (lit "x86_Thread_features_locked:")) x.2
  | _ => True
  end.
Proof.
  match goal with |- let x := _ in @?P x => enough (wp (cet_ss_lock_and_verify lines)
    (fun a t => P (a, t)) tr) as H by (unfold wp in H; by destruct (cet_ss_lock_and_verify lines tr)) end.
  cbn beta. unfold cet_ss_lock_and_verify. apply wp_bind, wp_sys. destruct (_ =? 0) eqn:E1.
  { apply wp_ret. left. apply answered_now. lia. }
  apply wp_bind, wp_sys. destruct (negb _) eqn:E2.
  { apply wp_ret. right. apply answered_now. lia. }
  apply negb_false_iff, Z.eqb_eq in E2.
  set (t0 := CpuHasShstk :: tr) in *. set (s := os_answer t0 _) in *. cbv zeta.
  destruct (Z.odd _) eqn:Eo.
  - assert (status_says true (ArchPrctl ARCH_SHSTK_STATUS 0 :: t0)) as Hst by (apply answered_now; by split).
    apply wp_bind, wp_sys. destruct (_ && _) eqn:E3; [by apply wp_ret|].
    set (t1 := ArchPrctl ARCH_SHSTK_STATUS 0 :: t0) in *.
    assert (answered (ArchPrctl ARCH_SHSTK_LOCK SHSTK_AND_WRSS)
      (fun r => sr_ret r = 0 \/ sr_errno r = EPERM) (ArchPrctl ARCH_SHSTK_LOCK SHSTK_AND_WRSS :: t1)) as Hl
      by (apply answered_now; lia).
    apply wp_bind, wp_sys. destruct (_ <? 0); [by apply wp_ret|].
    apply wp_bind. eapply wp_mono; [apply proc_lines_spec|]. intros [a l] t2 (Hs2 & Ha & Hlk).
    apply wp_bind, wp_sys. destruct a, l; cbn [negb orb]; try by apply wp_ret. cbn [fst snd] in *.
    eapply wp_mono; [apply self_test_spec|]. intros [[]|] t3 [Hs3 Hx]; try done. cbn [fst snd].
    assert (t2 `suffix_of` t3) as Hs23 by (etrans; [|exact Hs3]; by apply suffix_cons_r).
    destruct (Ha eq_refl) as [?|Ha']; [done|]. destruct (Hlk eq_refl) as [?|Hl']; [done|].
    split_and!; [|apply Hx| |by eapply answered_later|by eapply answered_later].
    + eapply answered_later; [exact Hst|]. etrans; [|exact Hs23]. etrans; [|exact Hs2].
      auto using suffix_cons_r.
    + eapply answered_later; [exact Hl|]. etrans; [|exact Hs23]. etrans; [|exact Hs2].
      auto using suffix_cons_r.
    + by destruct Hx.
  - assert (status_says false (ArchPrctl ARCH_SHSTK_STATUS 0 :: t0)) as Hst by (apply answered_now; by split).
    eapply wp_mono; [apply self_test_spec|]. intros [[]|] t3 [Hs3 Hx]; try done; cbn [fst snd].
    + by destruct Hx.
    + split; [by eapply answered_later|apply Hx].
Qed.

End Cet.
