(* ===== verification/Messages.v ===== *)
(** * Sending text: the message functions of src/stdin_handler.c

    A message is cut into chunks at code point boundaries; each chunk is
    encrypted and written as one frame, or queued in the database. *)

From S2P Require Import Prelude Primitives Types World Noise Network Database StateMachine.

Definition CHUNK_LIMIT : Z := 4000.
Definition SIZE_MAX : Z := 2 ^ 64 - 1.

(** A UTF-8 continuation byte: [(b & 0xC0) == 0x80]. *)
Definition is_continuation (b : byte) : bool := Z.land (byte.unsigned b) 0xC0 =? 0x80.

(** The loop that moves the cut back: [size] after it. *)
Fixpoint cut_back (msg : bytes) (offset : Z) (size : nat) : nat :=
  match size with
  | O => O
  | S size' =>
      if is_continuation (nth (Z.to_nat offset + size) msg NUL)
      then cut_back msg offset size' else size
  end.

Definition nox_next_chunk_size (msg : bytes) (offset total_len : Z) : Z :=
  if total_len <=? offset then 0
  else
    let remaining := total_len - offset in
    if remaining <=? CHUNK_LIMIT then remaining
    else if SIZE_MAX - CHUNK_LIMIT <? offset then CHUNK_LIMIT
    else
      let size := Z.of_nat (cut_back msg offset (Z.to_nat CHUNK_LIMIT)) in
      if size =? 0 then 1 else size.

(** [memcpy(chunk, msg + offset, chunk_len)]. *)
Definition slice (msg : bytes) (offset n : Z) : bytes :=
  take (Z.to_nat n) (drop (Z.to_nat offset) msg).

Section Messages.
Context `{OS} `{Crypto}.

(** Encrypt [pt] under the slot's session and write it as one TEXT frame, then
    count it: the part the three senders have in common.  A short write
    disconnects the peer. *)
Definition send_frame (i : nat) (pt : bytes) : St world nox_err :=
  ps ← peer i;
  match ps_session ps with
  | None => mret NOX_ERR_CRYPTO
  | Some s =>
      let '(ct, s) := noise_encrypt s pt in
      _ ← upd_peer i (fun p => p <| ps_session := Some s |>);
      match ct with
      | None => mret NOX_ERR_CRYPTO
      | Some ct =>
          let fh := FrameHeader NOX_FRAME_MAGIC NOX_MSG_TEXT (ps_tx_seq ps) (u32 (len ct)) in
          r ← call (Writev (ps_fd ps) (frame_header_encode fh ++ ct));
          if negb (sr_ret r =? FRAME_HEADER_WIRE_SIZE + len ct) then
            _ ← sm_dispatch i EV_PEER_DISCONNECTED;
            mret NOX_ERR_IO
          else
            _ ← upd_peer i (fun p => p <| ps_tx_seq := u32 (ps_tx_seq p + 1) |>);
            now ← now_monotonic;
            _ ← upd_peer i (fun p => p <| ps_last_active := now |>);
            mret NOX_OK
      end
  end.

Definition send_queued_callback (i : nat) (text : bytes) : St world nox_err :=
  ps ← peer i;
  if (ps_fd ps <? 0) || bool_decide (ps_session ps = None) then mret NOX_ERR_NET
  else if 4096 <? len text + 1 then mret NOX_ERR_PROTO
  else
    ok ← alloc (4096 + NOX_MAC_LEN);
    if negb ok then mret NOX_ERR_ALLOC
    else send_frame i (text ++ [NUL]).

(** The loop of send_segmented_message_to; a chunk is at least one byte, so
    the length of the message is fuel enough. *)
Fixpoint send_segments (fuel : nat) (i : nat) (msg : bytes) (offset : Z) : St world nox_err :=
  match fuel with
  | O => mret NOX_OK
  | S fuel =>
      if len msg <=? offset then mret NOX_OK
      else
        let chunk_len := nox_next_chunk_size msg offset (len msg) in
        err ← send_frame i (slice msg offset chunk_len ++ [NUL]);
        if err_ok err then send_segments fuel i msg (offset + chunk_len) else mret err
  end.

Definition send_segmented_message_to (i : nat) (msg : bytes) : St world nox_err :=
  ps ← peer i;
  if bool_decide (ps_session ps = None) || (ps_fd ps <? 0) then mret NOX_ERR_NET
  else
    ok1 ← alloc (4096 + NOX_MAC_LEN);
    ok2 ← alloc (4096 + 1);
    if negb (ok1 && ok2) then mret NOX_ERR_ALLOC
    else send_segments (length msg) i msg 0.

Definition send_segmented_message (msg : bytes) : St world nox_err :=
  a ← app id;
  match ACTIVE_PEER a with
  | None => mret NOX_ERR_NET
  | Some i => send_segmented_message_to i msg
  end.

(** The loop of queue_segmented_message. *)
Fixpoint queue_segments (fuel : nat) (recipient_onion msg : bytes) (offset queued : Z)
    : St world nox_err :=
  match fuel with
  | O => mret NOX_OK
  | S fuel =>
      if len msg <=? offset then mret NOX_OK
      else
        let chunk_len := nox_next_chunk_size msg offset (len msg) in
        err ← db_queue_message recipient_onion (slice msg offset chunk_len);
        if negb (err_ok err) then
          _ ← (if 0 <? queued then
                 _ ← db_queue_rollback_last recipient_onion queued; skip
               else skip);
          mret err
        else queue_segments fuel recipient_onion msg (offset + chunk_len) (queued + 1)
  end.

Definition queue_segmented_message (recipient_onion msg : bytes) : St world nox_err :=
  ok ← alloc (4096 + 1);
  if negb ok then mret NOX_ERR_ALLOC
  else queue_segments (length msg) recipient_onion msg 0 0.

End Messages.
