(* ===== verification/EventLoop.v ===== *)
(** * The event loop: src/event_loop.c

    Reassembly of frames, the handshake with its identity claim, the
    deadlines, accepting connections and the death of Tor.  Lines printed to
    the user are one [Ui] call each, whichever front end draws them. *)

From S2P Require Import Prelude Primitives Types World Noise Onion Network Database.
From S2P Require Import StateMachine FileTransfer Messages.

(** ** Slots *)

(** The first slot of [l], numbered from [i], that satisfies [f]. *)
Definition find_slot (f : peer_session -> bool) (a : app_state) : option nat :=
  fst <$> list_find (fun p => f p = true) (as_peers a).

Definition find_peer_by_fd (a : app_state) (fd : Z) : option nat :=
  find_slot (fun p => ps_fd p =? fd) a.

Definition free_slot (a : app_state) : option nat :=
  find_slot (fun p => (ps_fd p =? -1) && bool_decide (ps_state p = ST_IDLE)) a.

Section EventLoop.
Context `{OS} `{Crypto}.

(** ** The identity claim *)

Definition hs_build_claim_payload (a : app_state) : nox_err * bytes :=
  match as_my_onion_seed a, as_my_static_pub a with
  | Some seed, Some pub =>
      let '(err, sig) := crypto_onion_sign (as_onion_addr a) pub seed in
      if negb (err_ok err) then (err, [])
      else (NOX_OK, [NOX_HS_PAYLOAD_V1_VER] ++ take 62 (as_onion_addr a) ++ sig)
  | _, _ => (NOX_ERR_STATE, [])
  end.

(** The address and the signature of a v1 payload. *)
Definition parse_claim (pl : bytes) : option (bytes * bytes) :=
  if (len pl =? NOX_HS_PAYLOAD_V1_LEN) && bool_decide (head pl = Some NOX_HS_PAYLOAD_V1_VER)
  then Some (cstr (take 62 (drop 1 pl)), take 64 (drop 63 pl))
  else None.

(** ** Handshake frames *)

Definition hs_fail (i : nat) (what : String.string) : St world unit :=
  _ ← ui UiError what;
  _ ← sm_dispatch i EV_HANDSHAKE_ERROR;
  mret tt.

(** The known key matches: the session starts at once. *)
Definition session_up (i : nat) (peer_onion : bytes) : St world unit :=
  ps ← peer i;
  match ps_hs ps with
  | None => mret tt
  | Some hs =>
      ok ← alloc SIZEOF_noise_session;
      if negb ok then
        _ ← upd_peer i (fun p => p <| ps_session := None |>);
        _ ← ui UiError "memory";
        _ ← sm_dispatch i EV_ARENA_FAIL;
        mret tt
      else
        '(err, hs, ssn) ← lift_tr (handshake_split hs);
        _ ← upd_peer i (fun p => p <| ps_hs := Some hs |>);
        match ssn with
        | None => hs_fail i "session split"
        | Some ssn =>
            _ ← upd_peer i (fun p =>
                  p <| ps_session := Some ssn |> <| ps_hs := None |>
                    <| ps_tx_seq := 0 |> <| ps_rx_seq := 0 |>
                    <| ps_queue_flushed := false |> <| ps_peer_verified := true |>
                    <| ps_tofu_was_zero_key := false |>);
            now ← now_monotonic;
            _ ← upd_peer i (fun p => p <| ps_last_active := now |>);
            _ ← sm_dispatch i EV_SESSION_READY;
            _ ← upd_peer i (fun p => p <| ps_peer_onion := peer_onion |>);
            _ ← upd_app (fun a => a <| as_active_peer_onion := take 62 peer_onion |>);
            ui UiSystem "secure channel established"
        end
  end.

(** A new or changed key: ask the user. *)
Definition tofu_ask (i : nat) (fd : Z) (peer_onion name remote_pub : bytes) (was_zero : bool)
    : St world unit :=
  _ ← upd_peer i (fun p =>
        p <| ps_tofu_pending := true |> <| ps_tofu_peer_fd := fd |>
          <| ps_tofu_was_zero_key := was_zero |> <| ps_peer_verified := false |>
          <| ps_tofu_onion := take 62 peer_onion |> <| ps_tofu_name := take 64 name |>
          <| ps_tofu_new_key := remote_pub |>);
  _ ← ui UiError "accept this key?";
  now ← now_monotonic;
  _ ← upd_peer i (fun p => p <| ps_tofu_start := now |>);
  _ ← sm_dispatch i EV_HANDSHAKE_DONE;
  mret tt.

(** The handshake is complete and [pl] is the peer's claim. *)
Definition handshake_finish (i : nat) (fd : Z) (hs : noise_handshake) (pl : bytes)
    : St world unit :=
  match parse_claim pl with
  | None => hs_fail i "claim version"
  | Some (peer_onion, sig) =>
      if negb (validate_onion_address peer_onion) then
        _ ← sm_dispatch i EV_HANDSHAKE_ERROR; mret tt
      else if negb (err_ok (crypto_onion_verify sig peer_onion (hs_rs hs))) then
        hs_fail i "claim signature"
      else
        ps ← peer i;
        if negb (bool_decide (ps_connect_target ps = []))
           && negb (bytes_eqb peer_onion (ps_connect_target ps))
        then hs_fail i "onion mismatch"
        else
          a ← app id;
          '(db_err, name, stored_key) ←
             (if negb (as_ghost_mode a) then db_get_contact peer_onion 65
              else mret (NOX_ERR_DB, [], zeros 32));
          let remote_pub := hs_rs hs in
          let zero_key := is_zero stored_key in
          if err_ok db_err && negb zero_key then
            if bytes_eqb stored_key remote_pub then session_up i peer_onion
            else tofu_ask i fd peer_onion name remote_pub false
          else
            let is_placeholder := err_ok db_err && zero_key in
            let default_name :=
              if is_placeholder && negb (bool_decide (name = [])) then name
              else lit "peer_" ++ take 8 peer_onion in
            tofu_ask i fd peer_onion default_name remote_pub is_placeholder
  end.

(** The answer of either role, with our own claim. *)
Definition handshake_reply (i : nat) (fd : Z) (hs : noise_handshake)
    : St world (option noise_handshake) :=
  ps ← peer i;
  a ← app id;
  let '(claim_err, hs_pl) := hs_build_claim_payload a in
  if negb (err_ok claim_err) then _ ← hs_fail i "claim"; mret None
  else
    '(err, hs, out) ← lift_tr (handshake_write hs hs_pl NOISE_MAX_HANDSHAKE_LEN);
    _ ← upd_peer i (fun p => p <| ps_hs := Some hs |>);
    if negb (err_ok err) then _ ← hs_fail i "handshake_write"; mret None
    else
      let fh := FrameHeader NOX_FRAME_MAGIC NOX_MSG_CTRL (ps_tx_seq ps) (u32 (len out)) in
      r ← call (Writev fd (frame_header_encode fh ++ out));
      if negb (sr_ret r =? FRAME_HEADER_WIRE_SIZE + len out) then
        _ ← hs_fail i "handshake not sent"; mret None
      else
        _ ← upd_peer i (fun p => p <| ps_tx_seq := u32 (ps_tx_seq p + 1) |>);
        now ← now_monotonic;
        _ ← upd_peer i (fun p => p <| ps_last_active := now |>);
        mret (Some hs).

(** A CTRL frame while the handshake runs.  False: leave the frame loop. *)
Definition on_handshake (i : nat) (fd : Z) (hs : noise_handshake) (payload : bytes)
    : St world bool :=
  '(err, hs, pl) ← lift_tr (handshake_read hs payload NOX_HS_PAYLOAD_V1_LEN);
  _ ← upd_peer i (fun p => p <| ps_hs := Some hs |>);
  if negb (err_ok err) then _ ← hs_fail i "handshake"; mret false
  else
    hs ← (if hs_msg_index hs <? 3 then handshake_reply i fd hs else mret (Some hs));
    match hs with
    | None => mret false
    | Some hs =>
        if 3 <=? hs_msg_index hs then _ ← handshake_finish i fd hs pl; mret true
        else mret true
    end.

(** ** Text and file frames *)

(** The queue is sent to a verified peer on its first message. *)
Definition maybe_flush_queue (i : nat) : St world unit :=
  ps ← peer i;
  a ← app id;
  if negb (ps_queue_flushed ps) && negb (as_ghost_mode a) then
    if negb (ps_peer_verified ps) then
      _ ← ui UiSystem "queue held back";
      upd_peer i (fun p => p <| ps_queue_flushed := true |>)
    else
      _ ← upd_peer i (fun p => p <| ps_queue_flushed := true |>);
      _ ← db_process_queue (ps_peer_onion ps) (send_queued_callback i);
      mret tt
  else skip.

Definition count_rx (i : nat) : St world unit :=
  _ ← upd_peer i (fun p => p <| ps_rx_seq := u32 (ps_rx_seq p + 1) |>);
  now ← now_monotonic;
  upd_peer i (fun p => p <| ps_last_active := now |>).

Definition on_text (i : nat) (s : noise_session) (payload : bytes) : St world unit :=
  ok ← alloc (len payload + 1);
  if negb ok then skip
  else
    let '(pt, s) := noise_decrypt s payload in
    _ ← upd_peer i (fun p => p <| ps_session := Some s |>);
    match pt with
    | Some (c :: pt) =>
        _ ← call_ (UiIncoming (cstr (c :: pt)));
        _ ← maybe_flush_queue i;
        count_rx i
    | _ => skip
    end.

Definition on_file (i : nat) (payload : bytes) : St world unit :=
  ok ← file_transfer_handle_rx i payload;
  if ok : bool then count_rx i else skip.

(** ** Reassembly *)

(** The handshake still expects or owes a message. *)
Definition hs_running (ps : peer_session) : option noise_handshake :=
  match ps_hs ps with
  | Some hs => if hs_msg_index hs <? 3 then Some hs else None
  | None => None
  end.

(** One complete frame was cut from the buffer.  True: go on with the next. *)
Definition on_frame (i : nat) (fd : Z) (fh : frame_header) (payload : bytes) : St world bool :=
  ps ← peer i;
  match (if fh_type fh =? NOX_MSG_CTRL then hs_running ps else None), ps_session ps with
  | Some hs, _ => on_handshake i fd hs payload
  | None, Some s =>
      if (fh_type fh =? NOX_MSG_TEXT) || (fh_type fh =? NOX_MSG_FILE) then
        if negb (fh_seq fh =? ps_rx_seq ps) then
          _ ← ui UiError "sequence"; _ ← sm_dispatch i EV_SEQ_MISMATCH; mret false
        else if fh_type fh =? NOX_MSG_TEXT then _ ← on_text i s payload; mret true
        else _ ← on_file i payload; mret true
      else mret true
  | None, None => mret true
  end.

(** What the buffer holds: nothing usable, part of a frame, a frame that must
    wait for the session, or a frame. *)
Inductive scan := ScanBad | ScanWait | ScanFrame (fh : frame_header) (payload : bytes).

Definition scan_frame (ps : peer_session) : scan :=
  if ps_recv_pos ps <? FRAME_HEADER_WIRE_SIZE then ScanWait
  else
    let '(err, fh) := frame_header_decode (ps_recv_buf ps) in
    if negb (err_ok err) then ScanBad
    else if (fh_len fh =? 0) || (4096 + NOX_MAC_LEN <? fh_len fh) then ScanBad
    else if ps_recv_pos ps <? FRAME_HEADER_WIRE_SIZE + fh_len fh then ScanWait
    else if ((fh_type fh =? NOX_MSG_TEXT) || (fh_type fh =? NOX_MSG_FILE))
            && bool_decide (ps_session ps = None)
    then ScanWait
    else ScanFrame fh (take (Z.to_nat (fh_len fh)) (drop 13 (ps_recv_buf ps))).

(** [memmove] of what follows the frame to the front of the buffer. *)
Definition consume (total : Z) (ps : peer_session) : peer_session :=
  let remaining := ps_recv_pos ps - total in
  ps <| ps_recv_buf := take (Z.to_nat remaining) (drop (Z.to_nat total) (ps_recv_buf ps)) ++
                       drop (Z.to_nat remaining) (ps_recv_buf ps) |>
     <| ps_recv_pos := remaining |>.

(** The frame loop.  Every round takes at least 14 bytes from the buffer, so
    [recv_pos] rounds are enough. *)
Fixpoint frame_loop (fuel : nat) (i : nat) (fd : Z) : St world unit :=
  match fuel with
  | O => mret tt
  | S fuel =>
      ps ← peer i;
      match scan_frame ps with
      | ScanWait => mret tt
      | ScanBad => upd_peer i (fun p => p <| ps_recv_pos := 0 |>)
      | ScanFrame fh payload =>
          ok ← alloc (fh_len fh);
          if negb ok then upd_peer i (fun p => p <| ps_recv_pos := 0 |>)
          else
            _ ← upd_peer i (consume (FRAME_HEADER_WIRE_SIZE + fh_len fh));
            more ← on_frame i fd fh payload;
            if more : bool then frame_loop fuel i fd else mret tt
      end
  end.

Definition process_peer_frames (i : nat) (fd : Z) : St world unit :=
  ps ← peer i;
  frame_loop (Z.to_nat (ps_recv_pos ps)) i fd.

(** ** Deadlines *)

Definition in_handshake (s : peer_state_t) : bool :=
  match s with ST_HANDSHAKE_INIT | ST_HANDSHAKE_RESP => true | _ => false end.
Definition is_established (s : peer_state_t) : bool :=
  match s with ST_ACTIVE | ST_FILE_TX | ST_FILE_RX => true | _ => false end.

Definition check_handshake_timeout (i : nat) : St world unit :=
  ps ← peer i;
  if in_handshake (ps_state ps) then
    now ← now_monotonic;
    if NOX_HANDSHAKE_TIMEOUT_SEC <? now - ps_handshake_start ps then
      _ ← ui UiError "handshake timeout";
      _ ← sm_dispatch i EV_HANDSHAKE_TIMEOUT; skip
    else skip
  else skip.

Definition check_tofu_timeout (i : nat) : St world unit :=
  ps ← peer i;
  if bool_decide (ps_state ps = ST_TOFU_PENDING) then
    now ← now_monotonic;
    if NOX_TOFU_TIMEOUT_SEC <? now - ps_tofu_start ps then
      _ ← ui UiError "TOFU timeout";
      _ ← sm_dispatch i EV_PEER_DISCONNECTED; skip
    else skip
  else skip.

Definition check_chunk_timeout (i : nat) : St world unit :=
  ps ← peer i;
  let rx := ps_rx_file ps in
  if rx_active rx then
    now ← now_monotonic;
    if file_transfer_chunk_expired (rx_last_chunk_ts rx) now NOX_FILE_CHUNK_TIMEOUT_SEC then
      dl ← app as_downloads_dir_fd;
      _ ← ui UiError "transfer timeout";
      _ ← (if (0 <=? dl) && negb (bool_decide (rx_local_name rx = []))
           then call_ (Unlinkat dl (rx_local_name rx)) else skip);
      _ ← (if 0 <=? rx_fd rx then call_ (Close (rx_fd rx)) else skip);
      _ ← rx_reset i;
      if bool_decide (ps_state ps = ST_FILE_RX) then
        _ ← sm_dispatch i EV_FILE_DONE; skip
      else skip
    else skip
  else skip.

Definition check_idle_timeout (i : nat) : St world unit :=
  ps ← peer i;
  if is_established (ps_state ps) then
    now ← now_monotonic;
    let idle := now - ps_last_active ps in
    if NOX_PEER_IDLE_TIMEOUT_SEC <? idle then
      _ ← ui UiError "idle timeout";
      _ ← sm_dispatch i EV_PEER_DISCONNECTED; skip
    else if (0 <? ps_recv_pos ps) && (NOX_HALFFRAME_TIMEOUT_SEC <? idle)
            && (ps_recv_pos ps <? RECV_BUF_CAPACITY) then
      _ ← sm_dispatch i EV_PEER_DISCONNECTED; skip
    else skip
  else skip.

(** One slot of the sweep at the top of the loop. *)
Definition sweep_slot (i : nat) : St world unit :=
  ps ← peer i;
  if (ps_fd ps =? -1) && bool_decide (ps_state ps = ST_IDLE) then skip
  else
    _ ← check_handshake_timeout i;
    _ ← check_tofu_timeout i;
    _ ← check_chunk_timeout i;
    check_idle_timeout i.

(** Slots [i], [i+1], ... in order. *)
Fixpoint each_slot (f : nat -> St world unit) (i n : nat) : St world unit :=
  match n with
  | O => skip
  | S n => _ ← f i; each_slot f (S i) n
  end.

Definition sweep : St world unit := each_slot sweep_slot 0 NOX_MAX_PEERS.

(** ** The death of Tor *)

Definition tor_died_slot (i : nat) : St world unit :=
  ps ← peer i;
  if (0 <=? ps_fd ps) || negb (bool_decide (ps_state ps = ST_IDLE)) then
    _ ← sm_dispatch i EV_TOR_DIED; skip
  else skip.

(** Every connection is dropped and every key is gone. *)
Definition on_tor_dead : St world unit :=
  _ ← each_slot tor_died_slot 0 NOX_MAX_PEERS;
  a ← app id;
  _ ← (if 0 <=? as_tor_ctrl_fd a then
         _ ← call_ (Close (as_tor_ctrl_fd a));
         upd_app (fun a => a <| as_tor_ctrl_fd := -1 |>)
       else skip);
  _ ← upd_app (fun a => a <| as_tor_pid := 0 |>);
  _ ← call_ (SetTorPid 0);
  _ ← (if negb (as_ghost_mode a) then db_close else skip);
  _ ← call_ (Wipe "arena");
  _ ← upd_app (fun a => a <| as_db_key := None |> <| as_my_static_priv := None |>
                          <| as_my_static_pub := None |>);
  _ ← (if as_my_onion_seed a then
         _ ← call_ (Wipe "onion_seed");
         upd_app (fun a => a <| as_my_onion_seed := None |>)
       else skip);
  ui UiError "Tor died".

(** [died] is g_tor_died, [last] the static last_tor_check; both are returned
    as they are after the check. *)
Definition tor_health_check (died : bool) (last : Z) : St world (bool * Z) :=
  r ← call Time;
  let now := sr_ret r in
  a ← app id;
  '(dead, last) ←
     (if died then mret (true, last)
      else if (0 <? as_tor_pid a) && (5 <=? now - last) then
        k ← call (Kill (as_tor_pid a) 0);
        mret (negb (sr_ret k =? 0) && (sr_errno k =? ESRCH), now)
      else mret (false, last));
  _ ← (if dead && (0 <? as_tor_pid a) then on_tor_dead else skip);
  mret (false, last).

(** ** Frames that waited for the session *)

Definition drain_slot (i : nat) : St world unit :=
  ps ← peer i;
  if negb (bool_decide (ps_session ps = None)) && (0 <=? ps_fd ps)
     && (FRAME_HEADER_WIRE_SIZE <=? ps_recv_pos ps)
  then process_peer_frames i (ps_fd ps) else skip.

Definition drain : St world unit := each_slot drain_slot 0 NOX_MAX_PEERS.

(** ** Events *)

(** The inbound rate limit: five handshakes in sixty seconds. *)
Definition inbound_allowed : St world bool :=
  now ← now_monotonic;
  _ ← upd_app (fun a =>
        if 60 <=? now - as_hs_inbound_window_start a
        then a <| as_hs_inbound_count := 0 |> <| as_hs_inbound_window_start := now |>
        else a);
  a ← app id;
  mret (negb (5 <=? as_hs_inbound_count a)).

(** The peer was given slot [i] and the descriptor [fd]. *)
Definition accept_in_slot (i : nat) (fd : Z) : St world unit :=
  a ← app id;
  _ ← upd_peer i (fun p => p <| ps_fd := fd |>);
  err ← epoll_add_fd (as_epoll_fd a) fd;
  let refuse := _ ← call_ (Close fd); upd_peer i (fun p => p <| ps_fd := -1 |>) in
  if negb (err_ok err) then refuse
  else
    ok ← alloc SIZEOF_noise_handshake;
    if negb ok then
      _ ← upd_peer i (fun p => p <| ps_hs := None |>); refuse
    else
      match handshake_init false (as_my_static_priv a) (as_my_static_pub a) with
      | (NOX_OK, Some hs) =>
          _ ← upd_peer i (fun p => p <| ps_hs := Some hs |>);
          now ← now_monotonic;
          _ ← upd_peer i (fun p => p <| ps_handshake_start := now |>);
          now ← now_monotonic;
          _ ← upd_peer i (fun p => p <| ps_last_active := now |>);
          _ ← upd_app (fun a => a <| as_hs_inbound_count := as_hs_inbound_count a + 1 |>);
          _ ← sm_dispatch i EV_PEER_ACCEPTED;
          _ ← upd_app (fun a => if as_active_peer_idx a <? 0
                                then a <| as_active_peer_idx := Z.of_nat i |> else a);
          ui UiSystem "incoming connection"
      | _ =>
          _ ← call_ (Wipe "noise_handshake");
          _ ← upd_peer i (fun p => p <| ps_hs := None |>); refuse
      end.

Definition on_accept : St world unit :=
  a ← app id;
  r ← call (Accept4 (as_listen_fd a));
  let peer_fd := sr_ret r in
  if peer_fd <? 0 then skip
  else
    match free_slot a with
    | None => call_ (Close peer_fd)
    | Some i =>
        ok ← inbound_allowed;
        if negb ok then
          _ ← ui UiError "too many handshakes"; call_ (Close peer_fd)
        else accept_in_slot i peer_fd
    end.

Definition on_epollout (i : nat) (fd : Z) : St world unit :=
  ps ← peer i;
  if tx_active (ps_tx_file ps) then file_transfer_handle_tx i
  else
    epfd ← app as_epoll_fd;
    _ ← epoll_modify_fd epfd fd EPOLLIN; skip.

(** [recv] put [data] at the end of what the buffer holds. *)
Definition receive (data : bytes) (ps : peer_session) : peer_session :=
  let pos := Z.to_nat (ps_recv_pos ps) in
  ps <| ps_recv_buf := take pos (ps_recv_buf ps) ++ data ++
                       drop (pos + length data) (ps_recv_buf ps) |>
     <| ps_recv_pos := ps_recv_pos ps + len data |>.

Definition on_epollin (i : nat) (fd : Z) : St world unit :=
  r ← call (IoctlFionread fd);
  ps ← peer i;
  let avail := if sr_ret r <? 0 then 0 else le32 (sr_data r) in
  let space := RECV_BUF_CAPACITY - ps_recv_pos ps in
  let to_read := if (avail <? space) && (0 <? avail) then avail else space in
  if to_read =? 0 then
    _ ← process_peer_frames i fd;
    ps ← peer i;
    if 0 <=? ps_fd ps then _ ← sm_dispatch i EV_PEER_DISCONNECTED; skip else skip
  else
    r ← call (Recv fd to_read);
    if sr_ret r <=? 0 then
      if (sr_ret r <? 0) && ((sr_errno r =? EAGAIN) || (sr_errno r =? EINTR)) then skip
      else
        _ ← ui UiSystem "peer left";
        _ ← sm_dispatch i EV_PEER_DISCONNECTED; skip
    else
      _ ← upd_peer i (receive (take (Z.to_nat (sr_ret r)) (sr_data r)));
      now ← now_monotonic;
      _ ← upd_peer i (fun p => p <| ps_last_active := now |>);
      process_peer_frames i fd.

(** [stdin] is process_stdin_events. *)
Definition on_event (stdin : St world unit) (fd events : Z) : St world unit :=
  a ← app id;
  if fd =? 0 then stdin
  else if fd =? as_listen_fd a then on_accept
  else
    match find_peer_by_fd a fd with
    | None => skip
    | Some i =>
        _ ← (if negb (Z.land events EPOLLOUT =? 0) then on_epollout i fd else skip);
        if negb (Z.land events EPOLLIN =? 0) then on_epollin i fd else skip
    end.

(** One round of the loop, with the events epoll_wait returned. *)
Definition loop_round (stdin : St world unit) (died : bool) (last : Z) (evs : list (Z * Z))
    : St world (bool * Z) :=
  _ ← sweep;
  r ← tor_health_check died last;
  _ ← drain;
  _ ← foldr (fun ev rest => _ ← on_event stdin ev.1 ev.2; rest) skip evs;
  mret r.

End EventLoop.
