(* ===== verification/StdinHandler.v ===== *)
(** * The user's input: src/stdin_handler.c

    The decision about an unknown key and the command line.  A line is the C
    string the editor hands over; a printed line is one [Ui] call whatever
    its text. *)

From S2P Require Import Prelude Primitives Types World Noise Onion Network Database.
From S2P Require Import StateMachine FileTransfer Control Messages EventLoop.

Definition BLANK : byte := Byte.x20.

(** ** Parsing a line *)

Definition starts_with (pre line : bytes) : bool := bytes_eqb (take (length pre) line) pre.

(** [while ( *p == ' ') p++] *)
Fixpoint skip_blanks (p : bytes) : bytes :=
  match p with
  | c :: p' => if Byte.eqb c BLANK then skip_blanks p' else p
  | [] => []
  end.

(** The word [while ( *p && *p != ' ') p++] passes over, and what follows. *)
Fixpoint split_word (p : bytes) : bytes * bytes :=
  match p with
  | c :: p' =>
      if Byte.eqb c BLANK then ([], p)
      else let '(word, rest) := split_word p' in (c :: word, rest)
  | [] => ([], [])
  end.

(** The number of leading slashes. *)
Fixpoint slashes (line : bytes) : nat :=
  match line with
  | c :: line' => if Byte.eqb c SLASH then S (slashes line') else O
  | [] => O
  end.

(** [strcasecmp(line, word) == 0] for a lower-case word. *)
Definition to_lower (c : byte) : byte :=
  let z := byte.unsigned c in
  if (65 <=? z) && (z <=? 90) then byte.of_Z (z + 32) else c.
Definition caseless_is (line : bytes) (word : String.string) : bool :=
  bytes_eqb (to_lower <$> line) (lit word).

(** The address and the text after it, as /add and /msg read them; None is the
    usage error. *)
Definition parse_onion_arg (p : bytes) : option (bytes * bytes) :=
  let '(onion, rest) := split_word (skip_blanks p) in
  if negb (len onion =? NOX_ONION_LEN) || bool_decide (rest = []) then None
  else if negb (validate_onion_input onion) then None
  else
    let text := skip_blanks rest in
    if bool_decide (text = []) then None else Some (onion, text).

(** [strpbrk(name, "\n\r\x1b") != NULL] *)
Definition has_control (name : bytes) : bool :=
  existsb (fun c => Byte.eqb c Byte.x0a || Byte.eqb c Byte.x0d || Byte.eqb c Byte.x1b) name.

(** ** Slots *)

Definition pending_slots (a : app_state) : list nat :=
  filter (fun i => ps_state (peer_at i a) = ST_TOFU_PENDING) (seq 0 (length (as_peers a))).

Definition active_peer_count (a : app_state) : Z :=
  len (filter (fun p => 0 <= ps_fd p) (as_peers a)).

Section StdinHandler.
Context `{OS} `{Crypto}.

Definition find_peer_by_name_or_onion (arg : bytes) : St world (option nat) :=
  a ← app id;
  match find_slot (fun p => negb ((ps_fd p <? 0) && bool_decide (ps_state p = ST_IDLE))
          && ((negb (bool_decide (ps_name p = [])) && bytes_eqb (ps_name p) arg)
              || bytes_eqb (ps_peer_onion p) arg)) a with
  | Some i => mret (Some i)
  | None =>
      if as_ghost_mode a then mret None
      else
        '(err, _, _) ← db_get_contact arg (NOX_CONTACT_NAME_LEN + 1);
        if err_ok err
        then mret (find_slot (fun p => (0 <=? ps_fd p) && bytes_eqb (ps_peer_onion p) arg) a)
        else mret None
  end.

(** ** The decision about an unknown key *)

Fixpoint print_each (l : list nat) : St world unit :=
  match l with
  | [] => skip
  | _ :: l => _ ← ui UiSystem "slot"; print_each l
  end.

Definition tofu_user_response (accept : bool) : St world unit :=
  a ← app id;
  match pending_slots a with
  | [] => skip
  | [i] =>
      ps ← peer i;
      if accept then
        if negb (ps_tofu_epoch ps =? as_tofu_prompt_epoch a)
           || negb (bytes_eqb (ps_tofu_new_key ps) (as_tofu_prompt_fp a))
        then
          _ ← upd_app (fun a => a <| as_tofu_prompt_epoch := ps_tofu_epoch ps |>
                                  <| as_tofu_prompt_fp := ps_tofu_new_key ps |>);
          ui UiError "approval window changed"
        else
          acc_rc ← sm_dispatch i EV_TOFU_ACCEPTED;
          _ ← upd_app (fun a => a <| as_tofu_prompt_epoch := 0 |>);
          if err_ok acc_rc then skip else _ ← sm_dispatch i EV_PEER_DISCONNECTED; skip
      else
        _ ← upd_app (fun a => a <| as_tofu_prompt_epoch := 0 |>);
        _ ← ui UiSystem "connection refused";
        _ ← sm_dispatch i EV_TOFU_REJECTED;
        skip
  | l => _ ← ui UiError "several connections wait for approval"; print_each l
  end.

(** ** Commands *)

(** [ps && ps->session && ps->fd >= 0] for the active peer. *)
Definition online (a : app_state) : bool :=
  match ACTIVE_PEER a with
  | Some i => negb (bool_decide (ps_session (peer_at i a) = None)) && (0 <=? ps_fd (peer_at i a))
  | None => false
  end.

Definition report_sent (err : nox_err) : St world unit :=
  if err_ok err then ui UiOutgoing "message" else ui UiError "encryption or sending".

Definition cmd_add (args : bytes) : St world unit :=
  ghost ← app as_ghost_mode;
  if ghost : bool then ui UiError "ghost mode"
  else
    match parse_onion_arg args with
    | None => ui UiError "usage"
    | Some (onion, name) =>
        if NOX_CONTACT_NAME_LEN <? len name then ui UiError "name too long"
        else if has_control name then ui UiError "control character"
        else
          err ← db_add_contact onion name (zeros 32);
          if err_ok err then ui UiSystem "saved" else ui UiError "database error"
    end.

Definition cmd_msg (args : bytes) : St world unit :=
  match parse_onion_arg args with
  | None => ui UiError "usage"
  | Some (onion, msg) =>
      target ← find_peer_by_name_or_onion onion;
      a ← app id;
      match (match target with
             | Some i => if negb (bool_decide (ps_session (peer_at i a) = None))
                            && (0 <=? ps_fd (peer_at i a)) then Some i else None
             | None => None
             end) with
      | Some i => err ← send_segmented_message_to i msg; report_sent err
      | None =>
          if as_ghost_mode a then ui UiError "ghost mode"
          else
            err ← queue_segmented_message onion msg;
            if err_ok err then ui UiSystem "queued" else ui UiError "not queued"
      end
  end.

(** The outbound rate limit: five attempts in sixty seconds. *)
Definition outbound_allowed : St world bool :=
  now ← now_monotonic;
  _ ← upd_app (fun a =>
        if 60 <=? now - as_hs_window_start a
        then a <| as_hs_attempt_count := 0 |> <| as_hs_window_start := now |>
        else a);
  a ← app id;
  mret (negb (5 <=? as_hs_attempt_count a)).

(** The first handshake message of a connection that was set up. *)
Definition connect_hello (i : nat) (fd : Z) (target : bytes) (hs : noise_handshake)
    : St world unit :=
  '(err, hs, out) ← lift_tr (handshake_write hs [] NOISE_MAX_HANDSHAKE_LEN);
  _ ← upd_peer i (fun p => p <| ps_hs := Some hs |>);
  if negb (err_ok err) then hs_fail i "handshake not started"
  else
    ps ← peer i;
    let fh := FrameHeader NOX_FRAME_MAGIC NOX_MSG_CTRL (ps_tx_seq ps) (u32 (len out)) in
    r ← call (Writev fd (frame_header_encode fh ++ out));
    if negb (sr_ret r =? FRAME_HEADER_WIRE_SIZE + len out) then hs_fail i "handshake not started"
    else
      _ ← upd_peer i (fun p => p <| ps_tx_seq := u32 (ps_tx_seq p + 1) |>);
      now ← now_monotonic;
      _ ← upd_peer i (fun p => p <| ps_last_active := now |>);
      _ ← ui UiSystem "handshake started";
      upd_app (fun a => a <| as_active_peer_idx := Z.of_nat i |>
                          <| as_active_peer_onion := take 62 target |>).

(** The connection [fd] to [target] in the free slot [i]. *)
Definition connect_in_slot (i : nat) (fd : Z) (target : bytes) : St world unit :=
  a ← app id;
  _ ← upd_peer i (fun p => p <| ps_fd := fd |> <| ps_peer_onion := take 62 target |>
                             <| ps_connect_target := take 62 target |>);
  let undo :=
    _ ← call_ (Close fd);
    upd_peer i (fun p => p <| ps_fd := -1 |> <| ps_peer_onion := [] |>
                           <| ps_connect_target := [] |>) in
  let drop_hs := upd_peer i (fun p => p <| ps_hs := None |>) in
  err ← epoll_add_fd (as_epoll_fd a) fd;
  if negb (err_ok err) then _ ← undo; ui UiError "not registered"
  else
    ok ← alloc SIZEOF_noise_handshake;
    if negb ok then _ ← drop_hs; _ ← ui UiError "memory"; undo
    else
      match handshake_init true (as_my_static_priv a) (as_my_static_pub a) with
      | (NOX_OK, Some hs) =>
          _ ← upd_peer i (fun p => p <| ps_hs := Some hs |>);
          now ← now_monotonic;
          _ ← upd_peer i (fun p => p <| ps_handshake_start := now |>);
          now ← now_monotonic;
          _ ← upd_peer i (fun p => p <| ps_last_active := now |>);
          err ← sm_dispatch i EV_CONNECT_CMD;
          if negb (err_ok err) then _ ← drop_hs; _ ← undo; ui UiError "wrong state"
          else connect_hello i fd target hs
      | _ =>
          _ ← call_ (Wipe "noise_handshake");
          _ ← drop_hs; _ ← undo; ui UiError "handshake not started"
      end.

(** The attempt is counted before it is made. *)
Definition dial (i : nat) (target : bytes) : St world unit :=
  _ ← upd_app (fun a => a <| as_hs_attempt_count := as_hs_attempt_count a + 1 |>);
  path ← app as_socks_path;
  '(err, fd) ← lift_tr (socks5_connect target NOX_VIRTUAL_PORT path);
  if negb (err_ok err) then ui UiError "connection failed"
  else connect_in_slot i fd target.

Definition cmd_connect (args : bytes) : St world unit :=
  let target := skip_blanks args in
  a ← app id;
  if negb (validate_onion_input target) then ui UiError "bad address"
  else if bytes_eqb target (take 62 (as_onion_addr a)) then ui UiError "own address"
  else
    match free_slot a with
    | None => ui UiError "no free slot"
    | Some i =>
        if existsb (fun j => negb (Nat.eqb j i) && (0 <=? ps_fd (peer_at j a))
                      && bytes_eqb (ps_peer_onion (peer_at j a)) target)
             (seq 0 (length (as_peers a)))
        then ui UiError "already connected"
        else
          ok ← outbound_allowed;
          if negb ok then ui UiError "too many handshakes"
          else dial i target
    end.

Definition cmd_file (args : bytes) : St world unit :=
  a ← app id;
  if negb (online a) then ui UiError "no active connection"
  else file_transfer_start (skip_blanks args).

Definition cmd_list : St world unit :=
  ghost ← app as_ghost_mode;
  if ghost : bool then ui UiError "ghost mode"
  else
    _ ← ui UiSystem "contacts";
    _ ← db_list_contacts (fun _ _ _ => ui UiSystem "contact");
    ui UiSystem "connected".

Definition cmd_switch (args : bytes) : St world unit :=
  let arg := skip_blanks args in
  if bool_decide (arg = []) then ui UiError "usage"
  else
    found ← find_peer_by_name_or_onion arg;
    match found with
    | None => ui UiError "peer not found"
    | Some i =>
        ps ← peer i;
        if (ps_fd ps <? 0) || bool_decide (ps_session ps = None)
           || negb (bool_decide (ps_state ps = ST_ACTIVE))
        then ui UiError "peer not active"
        else
          _ ← upd_app (fun a => a <| as_active_peer_idx := Z.of_nat i |>
                                  <| as_active_peer_onion := take 62 (ps_peer_onion ps) |>);
          ui UiSystem "active peer"
    end.

Definition cmd_disconnect : St world unit :=
  a ← app id;
  match ACTIVE_PEER a with
  | None => ui UiError "no active peer"
  | Some i =>
      ps ← peer i;
      if (ps_fd ps <? 0) || bool_decide (ps_state ps = ST_IDLE) then ui UiError "no active peer"
      else
        _ ← sm_dispatch i EV_PEER_DISCONNECTED;
        ui UiSystem "disconnected"
  end.

(** A line that begins with one slash. *)
Definition command (line : bytes) : St world unit :=
  let eq w := bytes_eqb line (lit w) in
  let args w := drop (length (lit w)) line in
  if eq "/quit"%string || eq "/exit"%string then upd_app (fun a => a <| as_running := false |>)
  else if eq "/help"%string then ui UiSystem "help"
  else if eq "/addr"%string then ui UiSystem "address"
  else if starts_with (lit "/add ") line then cmd_add (args "/add "%string)
  else if starts_with (lit "/msg ") line then cmd_msg (args "/msg "%string)
  else if starts_with (lit "/connect ") line then cmd_connect (args "/connect "%string)
  else if starts_with (lit "/file ") line then cmd_file (args "/file "%string)
  else if eq "/list"%string then cmd_list
  else if starts_with (lit "/switch ") line then cmd_switch (args "/switch "%string)
  else if eq "/disconnect"%string then cmd_disconnect
  else if eq "/status"%string then ui UiSystem "status"
  else ui UiError "unknown command".

(** A message to the active peer. *)
Definition say (text : bytes) : St world unit :=
  err ← send_segmented_message text; report_sent err.

Definition process_line (line : bytes) : St world unit :=
  a ← app id;
  let pending := negb (bool_decide (pending_slots a = [])) in
  let is_yes := caseless_is line "y" || caseless_is line "yes" in
  let is_no := caseless_is line "n" || caseless_is line "no" in
  if pending && (is_yes || is_no) then tofu_user_response is_yes
  else if pending && negb (Nat.eqb (slashes line) 1) then ui UiError "approval pending"
  else if bool_decide (2 <= slashes line)%nat then
    if negb (online a) then ui UiError "no connection" else say (drop 1 line)
  else if bool_decide (slashes line = 1)%nat then command line
  else if online a then
    if bool_decide (line = []) then skip else say line
  else ui UiError "no connection".

End StdinHandler.
