(* ===== verification/Input.v ===== *)
(** * Standard input: process_stdin_events of src/stdin_handler.c

    In the build without the full-screen interface a terminal is read through
    the line editor and anything else through a buffer that is cut into lines.
    The editor is a call of the environment: it takes more keys, delivers a line
    or gives up with an error.  [stdin_buf] is kept as the [stdin_len] bytes in
    use; the C code keeps a NUL behind them. *)

From S2P Require Import Prelude Primitives Types World Noise Network FileTransfer Control TorProcess.
From S2P Require Import Frontend StateMachine Messages StdinHandler.

Definition NOX_EDIT_CAP : Z := 4096.
Definition STDIN_BUF_MAX : Z := 64 * 1024.
Definition STDIN_BUF_INIT : Z := 512.
Definition STDOUT_FILENO : Z := 1.
Definition STDERR_FILENO : Z := 2.
Definition ECANCELED : Z := 125.
Definition BACKSPACE : byte := Byte.x08.
Definition DEL : byte := Byte.x7f.

Section Input.
Context `{OS}.

(** ** The line editor *)

Definition ln_edit_init : St world unit :=
  _ ← upd_app (fun a => a <| as_ln_active := false |>);
  t ← call Isatty;
  if sr_ret t =? 0 then skip
  else
    ok ← alloc (NOX_EDIT_CAP + 1);
    if negb ok then skip
    else
      r ← call EditStart;
      if negb (sr_ret r =? 0) then call_ (Wipe "ln_buf")
      else upd_app (fun a => a <| as_ln_active := true |>).

Definition ln_edit_deinit : St world unit :=
  active ← app as_ln_active;
  if active : bool then
    _ ← call_ EditStop;
    _ ← upd_app (fun a => a <| as_ln_active := false |>);
    call_ (Wipe "ln_buf")
  else skip.

(** ** The buffer *)

Definition stdin_bytes (a : app_state) : bytes := default [] (as_stdin_buf a).
Definition set_stdin (buf : bytes) : St world unit :=
  upd_app (fun a => a <| as_stdin_buf := Some buf |>).

(** Room for another read.  False: the handler returns. *)
Definition stdin_room : St world bool :=
  a ← app id;
  let cap := as_stdin_cap a in
  if len (stdin_bytes a) + 512 <? cap then mret true
  else if (STDIN_BUF_MAX / 2 <? cap) && (STDIN_BUF_MAX <=? cap) then
    _ ← call_ (Wipe "stdin_buf"); _ ← set_stdin []; mret false
  else
    let new_cap := Z.min (if cap =? 0 then STDIN_BUF_INIT else cap * 2) STDIN_BUF_MAX in
    ok ← alloc new_cap;
    if negb ok then mret false
    else
      _ ← (if as_stdin_buf a then call_ (Wipe "stdin_buf") else skip);
      _ ← set_stdin (stdin_bytes a);
      _ ← upd_app (fun a => a <| as_stdin_cap := new_cap |>);
      mret true.

(** The echo of the bytes from [i] on: what the buffer holds afterwards and what
    is printed. *)
Fixpoint echo (fuel i : nat) (buf out : bytes) : bytes * bytes :=
  match fuel, buf !! i with
  | S fuel, Some c =>
      if Byte.eqb c LF || Byte.eqb c CR then echo fuel (S i) buf (out ++ [LF])
      else if Byte.eqb c DEL || Byte.eqb c BACKSPACE
      then echo fuel (S i) (take (length buf - 1) buf) (out ++ [BACKSPACE; Byte.x20; BACKSPACE])
      else if between 0x20 0x7e c then echo fuel (S i) buf (out ++ [c])
      else echo fuel (S i) buf out
  | _, _ => (buf, out)
  end.

(** The bytes of one read behind those that are there: escape sequences are
    removed from the whole C string, the new ones are echoed. *)
Definition absorb (buf data : bytes) : bytes * bytes :=
  let stripped := ui_strip_ansi (cstr (buf ++ data)) in
  echo (length stripped) (Nat.min (length buf) (length stripped)) stripped [].

(** Up to the first line break, and what follows it. *)
Fixpoint first_line (s : bytes) : option (bytes * bytes) :=
  match s with
  | [] => None
  | c :: s =>
      if Byte.eqb c LF then Some ([], s)
      else match first_line s with Some (l, rest) => Some (c :: l, rest) | None => None end
  end.

Definition drop_cr (line : bytes) : bytes :=
  if Byte.eqb (default NUL (last line)) CR then take (length line - 1) line else line.

Section Lines.
Context (process_line : bytes -> St world unit).

(** [while ((newline = memchr(...)) != NULL)] *)
Fixpoint stdin_lines (fuel : nat) : St world unit :=
  match fuel with
  | O => skip
  | S fuel =>
      buf ← app stdin_bytes;
      match first_line buf with
      | None => skip
      | Some (line, rest) =>
          ok ← alloc (len line + 1);
          _ ← set_stdin rest;
          _ ← (if negb ok then skip
               else if existsb (Byte.eqb NUL) line then
                 _ ← ui UiError "line with a NUL"; call_ (Wipe "line")
               else _ ← process_line (drop_cr line); call_ (Wipe "line"));
          stdin_lines fuel
      end
  end.

(** End of file: the rest is a line, and standard input is not watched any
    more. *)
Definition stdin_eof : St world unit :=
  a ← app id;
  _ ← (if negb (bool_decide (stdin_bytes a = [])) then
         _ ← process_line (cstr (stdin_bytes a)); _ ← call_ (Wipe "stdin_buf"); set_stdin []
       else skip);
  a ← app id;
  if negb (as_stdin_closed a) then
    _ ← call_ (EpollDel (as_epoll_fd a) STDIN_FILENO);
    upd_app (fun a => a <| as_stdin_closed := true |>)
  else skip.

(** The data of a read: they are stripped, echoed and cut into lines. *)
Definition stdin_data (data : bytes) : St world unit :=
  buf ← app stdin_bytes;
  let '(buf, out) := absorb buf data in
  _ ← set_stdin buf;
  _ ← (if bool_decide (out = []) then skip else call_ (Write STDERR_FILENO out));
  if bool_decide (buf = []) || Byte.eqb (default NUL (last buf)) NUL then skip
  else stdin_lines (length buf).

(** One read, and [continue] where the loop goes on. *)
Definition stdin_read (continue : St world unit) : St world unit :=
  a ← app id;
  r ← call (Read STDIN_FILENO (as_stdin_cap a - len (stdin_bytes a) - 1));
  if sr_ret r <? 0 then
    if sr_errno r =? EINTR then continue else skip
  else if sr_ret r =? 0 then stdin_eof
  else _ ← stdin_data (pad_to (Z.to_nat (sr_ret r)) (sr_data r)); continue.

(** [reads] bounds the reads of one event. *)
Fixpoint stdin_pipe (reads : nat) : St world unit :=
  match reads with
  | O => skip
  | S reads => room ← stdin_room; if negb room then skip else stdin_read (stdin_pipe reads)
  end.

(** One event of the line editor. *)
Definition stdin_edit : St world unit :=
  r ← call EditFeed;
  if sr_ret r =? 0 then skip
  else
    _ ← (if sr_ret r =? 1 then
           _ ← call_ (Write STDOUT_FILENO CRLF);
           _ ← process_line (cstr (sr_data r));
           call_ (Wipe "line")
         else if sr_errno r =? ECANCELED then
           _ ← call_ (Write STDOUT_FILENO CRLF); process_line (lit "/quit")
         else skip);
    _ ← call_ (Wipe "ln_buf");
    running ← app as_running;
    if running : bool then
      s ← call EditStart;
      if negb (sr_ret s =? 0) then ln_edit_deinit else skip
    else skip.

Definition stdin_events (reads : nat) : St world unit :=
  active ← app as_ln_active;
  if active : bool then stdin_edit else stdin_pipe reads.

End Lines.
End Input.

Definition process_stdin_events `{OS} `{Crypto} (reads : nat) : St world unit :=
  stdin_events process_line reads.
