(* ===== verification/InputProofs.v ===== *)
(** * Theorems about standard input

    The buffer never overflows and what is in it can be shown; a text that is
    read in pieces reaches the command handler line by line, with nothing lost,
    added or reordered. *)

From S2P Require Import Prelude Primitives Types World Noise Onion Network Database StateMachine.
From S2P Require Import FileTransfer Control TorProcess Frontend FrontendProofs Messages EventLoop.
From S2P Require Import StdinHandler Input NoiseProofs.

(** ** The command handler leaves the buffer alone *)

Definition input_part (w : world) :=
  let a := w_app w in (as_stdin_buf a, as_stdin_cap a, as_stdin_closed a, as_ln_active a).

#[global] Instance no_trace_input : NoTrace input_part.
Proof. done. Qed.
Lemma input_upd_db f : keeps input_part (upd_db f).
Proof. done. Qed.
Lemma input_upd_peer i f : keeps input_part (upd_peer i f).
Proof. done. Qed.
#[export] Hint Resolve input_upd_db input_upd_peer : keeps.

#[export] Hint Extern 1 (keeps input_part (upd_app _)) =>
  intros ?; unfold input_part, upd_app, modify; cbn; repeat case_match; reflexivity : keeps.
Ltac input_code :=
  unfold peer, app; keep_code.

Section Handler.
Context `{HOS : OS} `{HC : Crypto}.

Lemma input_epoll_add a b : keeps input_part (epoll_add_fd a b).
Proof. unfold epoll_add_fd. input_code. Qed.
Lemma input_epoll_remove a b : keeps input_part (epoll_remove_fd a b).
Proof. unfold epoll_remove_fd. input_code. Qed.
Hint Resolve input_epoll_add input_epoll_remove : keeps.
Lemma input_bind_all i n : keeps input_part (bind_all i n).
Proof. revert i. induction n; intros i; cbn [bind_all]; unfold sql_ok; input_code. Qed.
Hint Resolve input_bind_all : keeps.
Lemma input_encrypt a b : keeps input_part (encrypt_payload a b).
Proof. unfold encrypt_payload. input_code. Qed.
Hint Resolve input_encrypt : keeps.
Lemma input_add_contact a b c : keeps input_part (db_add_contact a b c).
Proof. unfold db_add_contact, sql_ok. input_code. Qed.
Lemma input_queue_message a b : keeps input_part (db_queue_message a b).
Proof. unfold db_queue_message, sql_ok. input_code. Qed.
Lemma input_rollback a b : keeps input_part (db_queue_rollback_last a b).
Proof. unfold db_queue_rollback_last, sql_ok. input_code. Qed.
Lemma input_list_contacts : keeps input_part (db_list_contacts (fun _ _ _ => ui UiSystem "contact")).
Proof.
  unfold db_list_contacts, sql_ok. input_code.
  match goal with |- keeps _ (visit_contacts ?rows _) => induction rows; cbn [visit_contacts] end;
    input_code.
Qed.
Hint Resolve input_add_contact input_queue_message input_rollback input_list_contacts : keeps.

Lemma input_deactivate i : keeps input_part (upd_app (deactivate i)).
Proof. intros w. cbn. unfold deactivate, input_part. by case_bool_decide. Qed.
Hint Resolve input_deactivate : keeps.
Lemma input_cleanup i : keeps input_part (action_cleanup i).
Proof.
  unfold action_cleanup, cleanup_socket, cleanup_keys, cleanup_rx, cleanup_tx, cleanup_buffers. input_code.
Qed.
Hint Resolve input_cleanup : keeps.
Lemma input_tofu_prompt i : keeps input_part (action_tofu_prompt i).
Proof. unfold action_tofu_prompt. input_code. Qed.
Hint Resolve input_tofu_prompt : keeps.
Lemma input_tofu_accept d i : keeps input_part d -> keeps input_part (action_tofu_accept d i).
Proof. intros Hd. unfold action_tofu_accept. input_code. Qed.
Hint Resolve input_tofu_accept : keeps.
Lemma input_dispatch n i ev : keeps input_part (dispatch n i ev).
Proof. revert i ev. induction n; intros i ev; cbn [dispatch]; unfold run_action; input_code. Qed.
Lemma input_sm_dispatch i ev : keeps input_part (sm_dispatch i ev).
Proof. apply input_dispatch. Qed.
Hint Resolve input_sm_dispatch : keeps.

Lemma input_send_frame i p : keeps input_part (send_frame i p).
Proof. unfold send_frame. input_code. Qed.
Hint Resolve input_send_frame : keeps.
Lemma input_send_segments n i m o : keeps input_part (send_segments n i m o).
Proof. revert o. induction n; intros o; cbn [send_segments]; input_code. Qed.
Hint Resolve input_send_segments : keeps.
Lemma input_send_to i m : keeps input_part (send_segmented_message_to i m).
Proof. unfold send_segmented_message_to. input_code. Qed.
Hint Resolve input_send_to : keeps.
Lemma input_send m : keeps input_part (send_segmented_message m).
Proof. unfold send_segmented_message. input_code. Qed.
Lemma input_queue_segments n r m o q : keeps input_part (queue_segments n r m o q).
Proof. revert o q. induction n; intros o q; cbn [queue_segments]; input_code. Qed.
Hint Resolve input_send input_queue_segments : keeps.
Lemma input_queue r m : keeps input_part (queue_segmented_message r m).
Proof. unfold queue_segmented_message. input_code. Qed.
Hint Resolve input_queue : keeps.

Lemma input_hash_file n fd acc : keeps input_part (hash_file n fd acc).
Proof. revert acc. induction n; intros acc; cbn [hash_file]; input_code. Qed.
Hint Resolve input_hash_file : keeps.
Lemma input_tx_stop i : keeps input_part (tx_stop i).
Proof. unfold tx_stop. input_code. Qed.
Hint Resolve input_tx_stop : keeps.
Lemma input_send_metadata i : keeps input_part (send_metadata i).
Proof. unfold send_metadata. input_code. Qed.
Hint Resolve input_send_metadata : keeps.
Lemma input_tx_begin i a b c : keeps input_part (tx_begin i a b c).
Proof. unfold tx_begin. input_code. Qed.
Hint Resolve input_tx_begin : keeps.
Lemma input_dispatch_active ev : keeps input_part (sm_dispatch_active ev).
Proof. unfold sm_dispatch_active. input_code. Qed.
Hint Resolve input_dispatch_active : keeps.
Lemma input_file_start f : keeps input_part (file_transfer_start f).
Proof. unfold file_transfer_start. input_code. Qed.
Hint Resolve input_file_start : keeps.

Lemma input_print_each l : keeps input_part (print_each l).
Proof. induction l; cbn [print_each]; input_code. Qed.
Hint Resolve input_print_each : keeps.
Lemma input_tofu_answer b : keeps input_part (tofu_user_response b).
Proof. unfold tofu_user_response. input_code. Qed.
Lemma input_report e : keeps input_part (report_sent e).
Proof. unfold report_sent. input_code. Qed.
Hint Resolve input_tofu_answer input_report : keeps.
Lemma input_hs_fail i w : keeps input_part (hs_fail i w).
Proof. unfold hs_fail. input_code. Qed.
Hint Resolve input_hs_fail : keeps.
Lemma input_hello i fd t h : keeps input_part (connect_hello i fd t h).
Proof. unfold connect_hello. input_code. Qed.
Hint Resolve input_hello : keeps.
Lemma input_connect i fd t : keeps input_part (connect_in_slot i fd t).
Proof. unfold connect_in_slot. input_code. Qed.
Hint Resolve input_connect : keeps.
Lemma input_outbound : keeps input_part outbound_allowed.
Proof. unfold outbound_allowed. input_code. Qed.
Hint Resolve input_outbound : keeps.
Lemma input_find a : keeps input_part (find_peer_by_name_or_onion a).
Proof. unfold find_peer_by_name_or_onion. input_code. Qed.
Hint Resolve input_find : keeps.
Lemma input_command l : keeps input_part (command l).
Proof.
  unfold command, cmd_add, cmd_msg, cmd_connect, cmd_file, cmd_list, cmd_switch, cmd_disconnect, dial.
  input_code.
Qed.
Hint Resolve input_command : keeps.
Lemma input_process_line l : keeps input_part (process_line l).
Proof. unfold process_line, say. input_code. Qed.

End Handler.

(** ** Text *)

Lemma drawn_no_nul b : forallb drawn b = true -> NUL ∉ b.
Proof.
  intros Hb Hn. rewrite forallb_forall in Hb. apply list_elem_of_In, Hb in Hn. by vm_compute in Hn.
Qed.
Lemma drawn_app a b : forallb drawn (a ++ b) = forallb drawn a && forallb drawn b.
Proof. apply forallb_app. Qed.

(** Neither backspace nor DEL survives the sanitiser, so the echo never deletes. *)
Lemma echo_drawn fuel i buf out : forallb drawn buf = true -> (echo fuel i buf out).1 = buf.
Proof.
  intros Hb. revert i out. induction fuel as [|fuel IH]; intros i out; cbn [echo]; [done|].
  destruct (buf !! i) as [c|] eqn:E; [|done].
  rewrite forallb_forall in Hb. pose proof (Hb c (proj1 (list_elem_of_In _ _) (list_elem_of_lookup_2 _ _ _ E))) as Hc.
  destruct (_ || _); [apply IH|].
  destruct (byte_eqb_spec c DEL) as [->|_]; [by vm_compute in Hc|].
  destruct (byte_eqb_spec c BACKSPACE) as [->|_]; [by vm_compute in Hc|].
  cbn [orb]. destruct (between _ _ c); apply IH.
Qed.

Lemma absorb_eq buf data : (absorb buf data).1 = ui_strip_ansi (cstr (buf ++ data)).
Proof. apply echo_drawn, strip_drawn. Qed.

Lemma absorb_length buf data : len (absorb buf data).1 <= len buf + len data.
Proof.
  rewrite absorb_eq. pose proof (sublist_length _ _ (strip_sublist (cstr (buf ++ data)))).
  pose proof (length_cstr (buf ++ data)). rewrite length_app in *. unfold len. lia.
Qed.

Lemma absorb_text buf data :
  forallb drawn buf = true -> forallb drawn data = true -> (absorb buf data).1 = buf ++ data.
Proof.
  intros Hb Hd. rewrite absorb_eq, cstr_id by (apply drawn_no_nul; by rewrite drawn_app, Hb, Hd).
  rewrite <-(app_nil_r (buf ++ data)) at 1. rewrite strip_text by (by rewrite drawn_app, Hb, Hd).
  apply app_nil_r.
Qed.

Lemma first_line_spec s :
  match first_line s with
  | Some (l, rest) => s = l ++ LF :: rest /\ LF ∉ l
  | None => LF ∉ s
  end.
Proof.
  induction s as [|c s IH]; cbn [first_line]; [apply not_elem_of_nil|].
  destruct (byte_eqb_spec c LF) as [->|Hc]; [split; [done|apply not_elem_of_nil]|].
  destruct (first_line s) as [[l rest]|]; [destruct IH as [-> Hl]; split; [done|]|];
    by apply not_elem_of_cons.
Qed.

(** ** The buffer *)

(** No buffer; or one of 512 to 65536 bytes, a power of two, with room for the
    NUL, holding characters that can be shown and no complete line. *)
Definition buffer_ok (a : app_state) : Prop :=
  match as_stdin_buf a with
  | None => as_stdin_cap a = 0
  | Some buf => (exists k, as_stdin_cap a = 512 * 2 ^ k /\ 0 <= k <= 7) /\
      len buf < as_stdin_cap a /\ forallb drawn buf = true
  end.
Definition input_ok (w : world) : Prop := buffer_ok (w_app w) /\ LF ∉ stdin_bytes (w_app w).

Definition line_ok (l : bytes) : Prop := forallb drawn l = true /\ LF ∉ l /\ len l < STDIN_BUF_MAX.

Lemma buffer_ok_part w w' : input_part w' = input_part w -> buffer_ok (w_app w) -> buffer_ok (w_app w').
Proof. unfold input_part, buffer_ok. by intros [= -> -> _ _]. Qed.
Lemma bytes_part w w' : input_part w' = input_part w -> stdin_bytes (w_app w') = stdin_bytes (w_app w).
Proof. unfold input_part, stdin_bytes. by intros [= -> _ _ _]. Qed.

Lemma buffer_drawn a : buffer_ok a -> forallb drawn (stdin_bytes a) = true.
Proof. unfold buffer_ok, stdin_bytes. destruct (as_stdin_buf a); [by intros (_ & _ & ?)|done]. Qed.
Lemma cap_max a : buffer_ok a -> 0 <= as_stdin_cap a <= STDIN_BUF_MAX.
Proof.
  unfold buffer_ok, STDIN_BUF_MAX. destruct (as_stdin_buf a); [|lia].
  intros ((k & -> & Hk) & _). assert (2 ^ k <= 2 ^ 7) by (apply Z.pow_le_mono_r; lia).
  assert (0 < 2 ^ k) by (apply Z.pow_pos_nonneg; lia). change (2 ^ 7) with 128 in *. lia.
Qed.
Lemma buffer_len a : buffer_ok a -> len (stdin_bytes a) <= as_stdin_cap a.
Proof.
  unfold buffer_ok, stdin_bytes. destruct (as_stdin_buf a); [intros (_ & H & _); apply Z.lt_le_incl, H|].
  by intros ->.
Qed.
(** A shorter content. *)
Lemma buffer_ok_set a b :
  buffer_ok a -> as_stdin_buf a <> None -> len b <= len (stdin_bytes a) -> forallb drawn b = true ->
  buffer_ok (a <| as_stdin_buf := Some b |>).
Proof.
  unfold buffer_ok, stdin_bytes. destruct (as_stdin_buf a) as [c|]; [|done].
  intros (Hk & Hl & _) _ Hb Hd. split_and!; [done|by eapply Z.le_lt_trans|done].
Qed.

Lemma drop_cr_ok l : line_ok l -> line_ok (drop_cr l).
Proof.
  intros (Hd & Hn & Hl). unfold drop_cr. destruct (Byte.eqb _ _); [|done].
  rewrite <-(take_drop (length l - 1) l) in Hd, Hn. rewrite drawn_app in Hd.
  apply andb_true_iff in Hd as [Hd _]. split_and!; [done|set_solver|].
  unfold len in *. rewrite length_take. lia.
Qed.

Lemma line_parts b l rest :
  forallb drawn b = true -> len b <= STDIN_BUF_MAX -> b = l ++ LF :: rest -> LF ∉ l ->
  line_ok l /\ forallb drawn rest = true /\ len rest < len b.
Proof.
  intros Hd Hl -> Hn. rewrite drawn_app in Hd. cbn [forallb] in Hd.
  apply andb_true_iff in Hd as [H1 [_ H2]%andb_true_iff]. unfold line_ok, len in *.
  rewrite length_app in *. cbn [length] in *. split_and!; try done; lia.
Qed.

(** The state after the calls between two lines. *)
Lemma set_stdin_app b w : w_app (set_stdin b w).2 = w_app w <| as_stdin_buf := Some b |>.
Proof. done. Qed.

Section Pipe.
Context `{HOS : OS} (h : bytes -> St world unit).
(** Documented behaviour of read. *)
Definition reads_bounded : Prop := forall tr n, 0 <= n -> sr_ret (os_answer tr (Read STDIN_FILENO n)) <= n.
Context (Hh : forall l, line_ok l -> keeps input_part (h l)).

Lemma handed_part ok l : line_ok l ->
  keeps input_part
    (if negb ok then skip
     else if existsb (Byte.eqb NUL) l then _ ← ui UiError "line with a NUL"; call_ (Wipe "line")
     else _ ← h (drop_cr l); call_ (Wipe "line")).
Proof. intros Hl. keep_code. by apply Hh, drop_cr_ok. Qed.

Lemma stdin_lines_ok fuel w :
  buffer_ok (w_app w) -> (length (stdin_bytes (w_app w)) <= fuel)%nat ->
  input_ok (stdin_lines h fuel w).2.
Proof.
  revert w. induction fuel as [|fuel IH]; intros w Hw Hf; cbn [stdin_lines].
  { split; [done|]. change (LF ∉ stdin_bytes (w_app w)).
    destruct (stdin_bytes (w_app w)); [apply not_elem_of_nil|cbn in Hf; lia]. }
  rewrite bind_eq. cbn [app gets fst snd]. pose proof (first_line_spec (stdin_bytes (w_app w))) as Hs.
  destruct (first_line _) as [[l rest]|]; [|by split]. destruct Hs as [Es Hn].
  destruct (line_parts _ l rest (buffer_drawn _ Hw)) as (Hl & Hd & Hlen); [|done|done|].
  { pose proof (buffer_len _ Hw). pose proof (cap_max _ Hw). lia. }
  rewrite bind_eq. set (w1 := (alloc (len l + 1) w).2). rewrite bind_eq.
  set (w2 := (set_stdin rest w1).2). rewrite bind_eq.
  pose proof (handed_part (alloc (len l + 1) w).1 l Hl w2) as E.
  set (w3 := (_ w2).2) in *. assert (buffer_ok (w_app w2)) as H2.
  { unfold w2. rewrite set_stdin_app. apply buffer_ok_set; [exact Hw| |apply Z.lt_le_incl, Hlen|done].
    intros E0. unfold stdin_bytes in Es. change (w_app w1) with (w_app w) in E0. rewrite E0 in Es.
    by destruct l. }
  apply IH; [by apply (buffer_ok_part w2)|]. rewrite (bytes_part w2 w3 E).
  change (stdin_bytes (w_app w2)) with rest. unfold len in Hlen. lia.
Qed.

(** There is room for at least 511 bytes. *)
Lemma stdin_room_ok w :
  input_ok w ->
  input_ok (stdin_room w).2 /\
  ((stdin_room w).1 = true ->
    let a := w_app (stdin_room w).2 in
    stdin_bytes a = stdin_bytes (w_app w) /\ as_stdin_buf a <> None /\
    511 <= as_stdin_cap a - len (stdin_bytes a) - 1).
Proof.
  intros [Hw Hn]. unfold stdin_room. rewrite bind_eq. cbn [app gets fst snd id].
  pose proof (buffer_len _ Hw) as Hlen. pose proof (cap_max _ Hw) as Hcap. cbv zeta.
  destruct (_ <? _) eqn:E1; [apply Z.ltb_lt in E1|apply Z.ltb_ge in E1].
  { split; [done|]. intros _. split_and!; [done| |cbn [fst snd mret St_ret]; lia].
    intros E0. unfold buffer_ok in Hw. cbn [snd mret St_ret] in E0. rewrite E0 in Hw.
    pose proof (len_nonneg (stdin_bytes (w_app w))). unfold id in *. lia. }
  unfold id in *. destruct (_ && _) eqn:E2.
  { rewrite bind_eq, bind_eq. cbn [fst snd mret St_ret]. split; [|done]. split; [|apply not_elem_of_nil].
    rewrite set_stdin_app. apply buffer_ok_set; [exact Hw| |apply len_nonneg|done].
    intros E0. unfold buffer_ok in Hw. change (w_app (call_ _ w).2) with (w_app w) in E0. rewrite E0 in Hw.
    unfold STDIN_BUF_MAX in *. rewrite Hw in E2. done. }
  rewrite bind_eq. set (nc := Z.min _ _). destruct (alloc nc w) as [ok w1] eqn:Ea.
  assert (w_app w1 = w_app w) as Ew by (pose proof (keeps_alloc w_app nc w) as E; by rewrite Ea in E).
  cbn [fst snd]. destruct ok; cbn [negb]; [|split; [|done]; unfold input_ok; cbn [snd mret St_ret]; by rewrite Ew].
  rewrite bind_eq. match goal with |- context [(if as_stdin_buf _ then ?x else ?y) w1] =>
    assert (w_app ((if as_stdin_buf (w_app w) then x else y) w1).2 = w_app w) as Ew2
      by (destruct (as_stdin_buf (w_app w)); exact Ew); set (w2 := ((if as_stdin_buf (w_app w) then x else y) w1).2) in * end.
  rewrite !bind_eq. cbn [fst snd mret St_ret].
  match goal with |- context [(upd_app _ ?x).2] => set (w3 := x) end.
  set (a := w_app (upd_app _ w3).2).
  assert (stdin_bytes a = stdin_bytes (w_app w)) as Eb by done.
  assert (as_stdin_cap a = nc) as Ec by done.
  assert (forallb drawn (stdin_bytes (w_app w)) = true) as Hd by by apply buffer_drawn.
  assert ((exists k, nc = 512 * 2 ^ k /\ 0 <= k <= 7) /\ 511 <= nc - len (stdin_bytes (w_app w)) - 1) as [Hk Hr].
  { unfold nc. unfold buffer_ok in Hw. unfold stdin_bytes in *.
    destruct (as_stdin_buf (w_app w)) as [b|] eqn:Eb0.
    - destruct Hw as ((k & Ek & Hk) & Hl & _). change (default [] (Some b)) with b in *.
      rewrite Ek in *. assert (0 < 2 ^ k) by (apply Z.pow_pos_nonneg; lia).
      rewrite (proj2 (Z.eqb_neq (512 * 2 ^ k) 0)) by lia.
      assert (k <> 7) as Hk7 by (intros ->; by vm_compute in E2).
      assert (2 ^ k <= 2 ^ 6) by (apply Z.pow_le_mono_r; lia). change (2 ^ 6) with 64 in *.
      unfold STDIN_BUF_MAX. rewrite Z.min_l by lia. split; [|lia].
      exists (k + 1). rewrite Z.pow_add_r by lia. change (2 ^ 1) with 2. lia.
    - rewrite Hw. split; [by exists 0|by vm_compute]. }
  split; [|intros _; split_and!; [done|done|by rewrite Eb, Ec]].
  split; [|by rewrite <-Eb in Hn]. change (buffer_ok a). unfold buffer_ok. rewrite Ec.
  change (as_stdin_buf a) with (Some (stdin_bytes (w_app w))). split_and!; [done|lia|done].
Qed.

Lemma stdin_data_ok data w :
  input_ok w -> as_stdin_buf (w_app w) <> None ->
  len (stdin_bytes (w_app w)) + len data < as_stdin_cap (w_app w) -> input_ok (stdin_data h data w).2.
Proof.
  intros [Hw Hn] Hs Hl. unfold stdin_data. rewrite bind_eq. cbn [app gets fst snd].
  pose proof (absorb_length (stdin_bytes (w_app w)) data) as Ha.
  pose proof (strip_drawn (cstr (stdin_bytes (w_app w) ++ data))) as Hd. rewrite <-absorb_eq in Hd.
  destruct (absorb _ _) as [buf out]. cbn [fst] in Ha, Hd. rewrite !bind_eq.
  set (w2 := (_ (set_stdin buf w).2).2).
  assert (w_app w2 = w_app w <| as_stdin_buf := Some buf |>) as Ew by (unfold w2; by case_bool_decide).
  assert (buffer_ok (w_app w2)) as H2.
  { rewrite Ew. unfold buffer_ok in *. destruct (as_stdin_buf (w_app w)); [|done].
    destruct Hw as (Hk & _ & _). split_and!; [done| |done]. cbn [as_stdin_cap set_field]. 
    change (len buf < as_stdin_cap (w_app w)). lia. }
  assert (stdin_bytes (w_app w2) = buf) as Eb by by rewrite Ew.
  destruct (_ || _) eqn:E; [|apply stdin_lines_ok; [done|by rewrite Eb]].
  split; [exact H2|]. change (LF ∉ stdin_bytes (w_app w2)). rewrite Eb.
  destruct buf as [|c buf]; [apply not_elem_of_nil|exfalso].
  rewrite (bool_decide_eq_false_2 (c :: buf = [])) in E by done. cbn [orb] in E.
  apply drawn_no_nul in Hd. destruct (last (c :: buf)) as [x|] eqn:El; [|by apply last_None in El].
  change (default NUL (Some x)) with x in E. destruct (byte_eqb_spec x NUL) as [->|]; [|done]. apply Hd. by apply last_Some_elem_of in El.
Qed.

Lemma stdin_eof_ok w : input_ok w -> input_ok (stdin_eof h w).2.
Proof.
  intros [Hw Hn]. unfold stdin_eof. rewrite bind_eq. cbn [app gets fst snd id]. rewrite bind_eq.
  set (w1 := (_ w).2). assert (input_ok w1) as H1.
  { unfold w1. clear w1. unfold id. case_bool_decide as E; [by split|]. cbn [negb]. rewrite bind_eq.
    assert (line_ok (cstr (stdin_bytes (w_app w)))) as Hl.
    { pose proof (buffer_drawn _ Hw) as Hd. rewrite cstr_id by by apply drawn_no_nul.
      split_and!; [done|done|]. pose proof (cap_max _ Hw). unfold buffer_ok, stdin_bytes in *.
      destruct (as_stdin_buf (w_app w)); [|done]. destruct Hw as (_ & Hlt & _).
      eapply Z.lt_le_trans; [exact Hlt|lia]. }
    pose proof (Hh _ Hl w) as Ep. set (w2 := (h _ w).2) in *. rewrite bind_eq.
    split; [|apply not_elem_of_nil]. rewrite set_stdin_app.
    apply buffer_ok_set; [|  |apply len_nonneg|done].
    - apply (buffer_ok_part w); [exact Ep|done].
    - change (as_stdin_buf (w_app w2) <> None). injection Ep as -> _ _ _.
      intros E0. unfold stdin_bytes in E. by rewrite E0 in E. }
  clearbody w1. rewrite bind_eq. cbn [app gets fst snd id]. by destruct (negb _).
Qed.

Lemma stdin_pipe_ok reads w : reads_bounded -> input_ok w -> input_ok (stdin_pipe h reads w).2.
Proof.
  intros Hr. revert w. induction reads as [|reads IH]; intros w Hw; cbn [stdin_pipe]; [done|].
  rewrite bind_eq. destruct (stdin_room_ok w Hw) as [H1 Hroom].
  destruct (stdin_room w) as [room w1]. cbn [fst snd] in *. destruct room; cbn [negb]; [|done].
  destruct (Hroom eq_refl) as (Eb & Hs & Hfree). clear Hroom.
  unfold stdin_read. rewrite bind_eq. cbn [app gets fst snd]. unfold id. rewrite bind_eq. set (n := as_stdin_cap (w_app w1) - _ - 1) in *.
  change ((call (Read STDIN_FILENO n) w1).1) with (os_answer (w_tr w1) (Read STDIN_FILENO n)).
  set (r := os_answer (w_tr w1) (Read STDIN_FILENO n)). set (w2 := (call (Read STDIN_FILENO n) w1).2).
  assert (input_ok w2) as H2 by done.
  destruct (sr_ret r <? 0) eqn:E1; [destruct (sr_errno r =? EINTR); [by apply IH|done]|].
  destruct (sr_ret r =? 0) eqn:E2; [by apply stdin_eof_ok|].
  rewrite bind_eq. apply IH, stdin_data_ok; [done|done|].
  change (w_app w2) with (w_app w1). unfold len at 2. rewrite length_pad_to.
  pose proof (Hr (w_tr w1) n ltac:(lia)) as Hb. fold r in Hb. unfold n in *. lia.
Qed.

End Pipe.

Section Events.
Context `{HOS : OS} `{HC : Crypto}.

Lemma stdin_edit_ok w : input_ok w -> input_ok (stdin_edit process_line w).2.
Proof.
  set (π := fun w => (as_stdin_buf (w_app w), as_stdin_cap (w_app w))).
  assert (NoTrace π) by done.
  assert (forall l, keeps π (process_line l)) as Hp.
  { intros l w0. pose proof (input_process_line l w0) as E. injection E as E1 E2 _ _.
    unfold π. by rewrite E1, E2. }
  assert (keeps π ln_edit_deinit) as Hd by (unfold ln_edit_deinit, app; keep_code; done).
  assert (keeps π (stdin_edit process_line)) as He by (unfold stdin_edit, app; keep_code; done).
  specialize (He w). injection He as E1 E2. unfold input_ok, buffer_ok, stdin_bytes.
  by rewrite E1, E2.
Qed.

(** C30 The buffer of standard input stays well formed whatever is typed or
    piped in: there is none, or its capacity is a power of two from 512 to
    65536 bytes and the content, with its terminating NUL, fits; every byte in
    it can be shown, no escape sequence or control character among them; and no
    complete line is left waiting when the handler returns.  Whenever it reads,
    at least 511 bytes are free and it asks for exactly the free ones. *)
Theorem input_wellformed reads w :
  reads_bounded -> input_ok w ->
  input_ok (process_stdin_events reads w).2 /\
  ((stdin_room w).1 = true ->
    let a := w_app (stdin_room w).2 in 511 <= as_stdin_cap a - len (stdin_bytes a) - 1).
Proof.
  intros Hr Hw. split; [|intros E; by apply (stdin_room_ok w Hw)].
  unfold process_stdin_events, stdin_events. rewrite bind_eq. cbn [app gets fst snd].
  destruct (as_ln_active (w_app w)); [by apply stdin_edit_ok|].
  apply stdin_pipe_ok; [|done|done]. intros l _. apply input_process_line.
Qed.

End Events.

(** ** What is delivered *)

Section Delivery.
Context `{HOS : OS} (h : bytes -> St world unit).

(** Calls of the input handler itself: what it reads is not among them. *)
Definition input_call (c : syscall) : bool :=
  match c with
  | Malloc _ | Wipe _ | Write 2 _ | EpollDel _ 0 => true
  | _ => false
  end.

(** A step of the handler that is neither a successful read nor a line. *)
Definition own_step (w w' : world) : Prop :=
  w_db w' = w_db w /\
  (exists buf cap closed, w_app w' = w_app w <| as_stdin_buf := buf |> <| as_stdin_cap := cap |>
                                      <| as_stdin_closed := closed |>) /\
  (w_tr w' = w_tr w \/
   exists c, w_tr w' = c :: w_tr w /\
     (input_call c = true \/ exists n, c = Read STDIN_FILENO n /\ sr_ret (os_answer (w_tr w) c) <= 0)).

(** The run from [w] to [w'] read the pieces [ds] and ran the command handler on
    the lines [ls], in this order; everything else were steps of its own. *)
Inductive delivers : list bytes -> list bytes -> world -> world -> Prop :=
| dl_done w : delivers [] [] w w
| dl_own ds ls w w1 w' : own_step w w1 -> delivers ds ls w1 w' -> delivers ds ls w w'
| dl_read n ds ls w w' :
    let r := os_answer (w_tr w) (Read STDIN_FILENO n) in
    0 < sr_ret r ->
    delivers ds ls (w <| w_tr := Read STDIN_FILENO n :: w_tr w |>) w' ->
    delivers (pad_to (Z.to_nat (sr_ret r)) (sr_data r) :: ds) ls w w'
| dl_line l ds ls w w' : delivers ds ls (h l w).2 w' -> delivers ds (l :: ls) w w'.

Lemma delivers_trans ds1 ls1 ds2 ls2 w w1 w2 :
  delivers ds1 ls1 w w1 -> delivers ds2 ls2 w1 w2 -> delivers (ds1 ++ ds2) (ls1 ++ ls2) w w2.
Proof.
  intros H1 H2. induction H1; cbn [Datatypes.app]; [done|..].
  - eapply dl_own; eauto.
  - apply dl_read; auto.
  - apply dl_line; auto.
Qed.

Definition unlines (ls : list bytes) : bytes := concat ((fun l => l ++ [LF]) <$> ls).

Context (Hh : forall l, keeps input_part (h l)) (Hmem : mem_ok).

Lemma app_eta a :
  a = a <| as_stdin_buf := as_stdin_buf a |> <| as_stdin_cap := as_stdin_cap a |>
        <| as_stdin_closed := as_stdin_closed a |>.
Proof. by destruct a. Qed.

Lemma own_call c w : input_call c = true -> own_step w (call_ c w).2.
Proof.
  intros Hc. split; [done|]. split; [eexists _, _, _; apply app_eta|]. right. exists c. split; [done|by left].
Qed.
Lemma own_alloc n w : exists w', alloc n w = (true, w') /\ own_step w w' /\ w_app w' = w_app w.
Proof.
  unfold alloc, lift_tr. rewrite malloc_ok_true by done. eexists. split; [done|]. split; [|done].
  by apply (own_call (Malloc n) w).
Qed.
Lemma own_set b w : own_step w (set_stdin b w).2.
Proof.
  split; [done|]. split; [|by left]. exists (Some b), (as_stdin_cap (w_app w)), (as_stdin_closed (w_app w)).
  rewrite set_stdin_app. by destruct (w_app w).
Qed.

Lemma stdin_lines_delivers fuel w :
  forallb drawn (stdin_bytes (w_app w)) = true -> (length (stdin_bytes (w_app w)) <= fuel)%nat ->
  let w' := (stdin_lines h fuel w).2 in
  exists raw, delivers [] (drop_cr <$> raw) w w' /\
    stdin_bytes (w_app w) = unlines raw ++ stdin_bytes (w_app w') /\ Forall (fun l => LF ∉ l) raw.
Proof.
  revert w. induction fuel as [|fuel IH]; intros w Hd Hf; cbn [stdin_lines]; cbv zeta.
  { exists []. split_and!; [constructor|done|constructor]. }
  rewrite bind_eq. cbn [app gets fst snd]. pose proof (first_line_spec (stdin_bytes (w_app w))) as Hs.
  destruct (first_line _) as [[l rest]|]; [|exists []; split_and!; [constructor|done|constructor]].
  destruct Hs as [Es Hn]. destruct (own_alloc (len l + 1) w) as (w1 & Ea & H1 & Ew1).
  rewrite bind_eq, Ea. cbn [fst snd negb]. rewrite bind_eq.
  assert (existsb (Byte.eqb NUL) l = false) as ->.
  { apply not_true_is_false. intros (c & Hc & E)%existsb_exists. destruct (byte_eqb_spec NUL c) as [<-|]; [|done].
    apply (drawn_no_nul _ Hd). rewrite Es. apply elem_of_app. left. by apply list_elem_of_In. }
  set (w2 := (set_stdin rest w1).2). rewrite !bind_eq. set (w3 := (h (drop_cr l) w2).2).
  set (w4 := (call_ (Wipe "line") w3).2).
  assert (stdin_bytes (w_app w4) = rest) as Er by exact (bytes_part w2 w3 (Hh _ w2)).
  rewrite Es in Hd, Hf. rewrite drawn_app in Hd. rewrite length_app in Hf. cbn [forallb length] in Hd, Hf.
  apply andb_true_iff in Hd as [_ [_ Hd]%andb_true_iff].
  destruct (IH w4) as (raw & Hdel & Eraw & Hraw); [by rewrite Er|rewrite Er; lia|].
  exists (l :: raw). split_and!.
  - eapply dl_own; [exact H1|]. eapply dl_own; [apply own_set|]. fold w2. apply dl_line.
    eapply dl_own; [by apply (own_call (Wipe "line"))|]. exact Hdel.
  - rewrite Es, <-Er, Eraw at 1. cbn [unlines fmap list_fmap concat]. by rewrite <-!app_assoc.
  - by constructor.
Qed.

Lemma own_cap cap w : own_step w (upd_app (fun a => a <| as_stdin_cap := cap |>) w).2.
Proof.
  split; [done|]. split; [|by left]. exists (as_stdin_buf (w_app w)), cap, (as_stdin_closed (w_app w)).
  cbn. by destruct (w_app w).
Qed.
Lemma own_closed w : own_step w (upd_app (fun a => a <| as_stdin_closed := true |>) w).2.
Proof.
  split; [done|]. split; [|by left]. exists (as_stdin_buf (w_app w)), (as_stdin_cap (w_app w)), true.
  cbn. by destruct (w_app w).
Qed.

(** Without room the buffer was full of one line, and is given up. *)
Lemma stdin_room_delivers w :
  delivers [] [] w (stdin_room w).2 /\
  ((stdin_room w).1 = false -> stdin_bytes (w_app (stdin_room w).2) = [] /\
     STDIN_BUF_MAX - 512 <= len (stdin_bytes (w_app w))).
Proof.
  unfold stdin_room. rewrite bind_eq. cbn [app gets fst snd id]. unfold id.
  destruct (_ <? _) eqn:E1; [split; [constructor|done]|]. apply Z.ltb_ge in E1.
  destruct (_ && _) eqn:E2.
  { apply andb_true_iff in E2 as [_ E2]. apply Z.leb_le in E2. rewrite !bind_eq. split.
    - eapply dl_own; [by apply (own_call (Wipe "stdin_buf"))|]. eapply dl_own; [apply own_set|]. constructor.
    - intros _. split; [done|lia]. }
  rewrite bind_eq. set (nc := Z.min _ _). destruct (own_alloc nc w) as (w1 & Ea & H1 & _).
  rewrite Ea. cbn [fst snd negb]. split.
  - eapply dl_own; [exact H1|]. rewrite !bind_eq. destruct (as_stdin_buf (w_app w)).
    + eapply dl_own; [by apply (own_call (Wipe "stdin_buf"))|]. eapply dl_own; [apply own_set|].
      eapply dl_own; [apply own_cap|]. constructor.
    + eapply dl_own; [apply own_set|]. eapply dl_own; [apply own_cap|]. constructor.
  - by rewrite !bind_eq.
Qed.

Lemma stdin_data_delivers data w :
  forallb drawn (stdin_bytes (w_app w)) = true -> forallb drawn data = true ->
  let w' := (stdin_data h data w).2 in
  exists raw, delivers [] (drop_cr <$> raw) w w' /\
    stdin_bytes (w_app w) ++ data = unlines raw ++ stdin_bytes (w_app w') /\ Forall (fun l => LF ∉ l) raw.
Proof.
  intros Hb Hd. cbv zeta. unfold stdin_data. rewrite bind_eq. cbn [app gets fst snd].
  pose proof (absorb_text _ _ Hb Hd) as Ea. destruct (absorb _ _) as [buf out]. cbn [fst] in Ea. subst buf.
  set (buf := stdin_bytes (w_app w) ++ data) in *. rewrite !bind_eq.
  set (w2 := (_ (set_stdin buf w).2).2).
  assert (delivers [] [] w w2 /\ stdin_bytes (w_app w2) = buf) as [H2 Eb].
  { unfold w2. case_bool_decide; (split; [|done]); (eapply dl_own; [apply own_set|]); [constructor|].
    eapply dl_own; [by apply (own_call (Write 2 out))|]. constructor. }
  assert (forallb drawn buf = true) as Hd2 by (unfold buf; by rewrite drawn_app, Hb, Hd).
  destruct (stdin_lines_delivers (length buf) w2) as (raw & Hdel & Eraw & Hraw);
    [by rewrite Eb|by rewrite Eb|].
  destruct (_ || _) eqn:E.
  - exists []. split_and!; [exact H2|by rewrite <-Eb|constructor].
  - exists raw. split_and!; [|exact (eq_trans (eq_sym Eb) Eraw)|done]. by apply (delivers_trans [] [] [] _ w w2).
Qed.

(** The end of the input: what is left is the last line. *)
Lemma stdin_eof_delivers w :
  forallb drawn (stdin_bytes (w_app w)) = true ->
  let rest := stdin_bytes (w_app w) in let w' := (stdin_eof h w).2 in
  delivers [] (if bool_decide (rest = []) then [] else [rest]) w w' /\
  stdin_bytes (w_app w') = [] /\ as_stdin_closed (w_app w') = true.
Proof.
  intros Hd rest w'. unfold w', stdin_eof. rewrite bind_eq. cbn [app gets fst snd id]. rewrite bind_eq.
  unfold id. set (w1 := (_ w).2).
  assert (delivers [] (if bool_decide (rest = []) then [] else [rest]) w w1 /\ stdin_bytes (w_app w1) = [])
    as [H1 E1].
  { unfold w1. clear w1. fold rest. case_bool_decide as E; cbn [negb]; [split; [constructor|exact E]|].
    rewrite cstr_id by by apply drawn_no_nul. rewrite !bind_eq. split; [|done]. apply dl_line.
    eapply dl_own; [by apply (own_call (Wipe "stdin_buf"))|]. eapply dl_own; [apply own_set|]. constructor. }
  clearbody w1. rewrite bind_eq. cbn [app gets fst snd id].
  destruct (as_stdin_closed (w_app w1)) eqn:Ec; cbn [negb]; [by split_and!|]. rewrite bind_eq.
  split_and!; [|exact E1|done]. set (ls := if bool_decide (rest = []) then _ else _) in *. rewrite <-(app_nil_r ls).
  eapply (delivers_trans [] ls [] []); [exact H1|].
  eapply dl_own; [by apply (own_call (EpollDel (as_epoll_fd (w_app w1)) 0))|].
  eapply dl_own; [apply own_closed|]. constructor.
Qed.

(** What a run has made of the text [text]: complete lines [raw] and [rest]. *)
Definition accounted (text : bytes) (ls : list bytes) (w' : world) : Prop :=
  exists raw rest, text = unlines raw ++ rest /\ Forall (fun l => LF ∉ l) raw /\ LF ∉ rest /\
    (ls = drop_cr <$> raw /\ stdin_bytes (w_app w') = rest \/
     ls = (drop_cr <$> raw) ++ (if bool_decide (rest = []) then [] else [rest]) /\
       stdin_bytes (w_app w') = [] /\ as_stdin_closed (w_app w') = true \/
     ls = drop_cr <$> raw /\ stdin_bytes (w_app w') = [] /\ STDIN_BUF_MAX - 512 <= len rest).

Lemma accounted_more raw text ls w' :
  Forall (fun l => LF ∉ l) raw -> accounted text ls w' ->
  accounted (unlines raw ++ text) ((drop_cr <$> raw) ++ ls) w'.
Proof.
  intros Hraw (raw' & rest & -> & Hraw' & Hr & Hc). exists (raw ++ raw'), rest. split_and!; [|by apply Forall_app|done|].
  - unfold unlines. by rewrite fmap_app, concat_app, app_assoc.
  - rewrite fmap_app. destruct Hc as [[-> ?]|[(-> & ? & ?)|(-> & ? & ?)]]; rewrite ?app_assoc; auto.
Qed.

Context (Hread : reads_bounded).
(** What is typed or piped in is text: no NUL, escape or control character but
    TAB, CR and LF. *)
Context (Htext : forall tr n, let r := os_answer tr (Read STDIN_FILENO n) in
  forallb drawn (pad_to (Z.to_nat (sr_ret r)) (sr_data r)) = true).

Definition explained (w w' : world) : Prop :=
  exists ds ls, delivers ds ls w w' /\ accounted (stdin_bytes (w_app w) ++ concat ds) ls w'.

Lemma explained_stop w : input_ok w -> explained w w.
Proof.
  intros [_ Hn]. exists [], []. split; [constructor|]. exists [], (stdin_bytes (w_app w)).
  split_and!; [by cbn; rewrite app_nil_r|constructor|done|by left].
Qed.

Lemma explained_own w w1 w' :
  delivers [] [] w w1 -> stdin_bytes (w_app w1) = stdin_bytes (w_app w) -> explained w1 w' -> explained w w'.
Proof.
  intros H1 Eb (ds & ls & H2 & H3). exists ds, ls. rewrite <-Eb. split; [|done].
  by apply (delivers_trans [] [] ds ls w w1).
Qed.

Lemma explained_read n w w1 w' :
  let r := os_answer (w_tr w) (Read STDIN_FILENO n) in
  let data := pad_to (Z.to_nat (sr_ret r)) (sr_data r) in
  0 < sr_ret r -> forallb drawn (stdin_bytes (w_app w)) = true ->
  w1 = (stdin_data h data (w <| w_tr := Read STDIN_FILENO n :: w_tr w |>)).2 ->
  explained w1 w' -> explained w w'.
Proof.
  intros r data Hr Hb -> (ds & ls & H2 & H3).
  destruct (stdin_data_delivers data (w <| w_tr := Read STDIN_FILENO n :: w_tr w |>))
    as (raw & Hdel & Eraw & Hraw); [done|apply Htext|].
  exists (data :: ds), ((drop_cr <$> raw) ++ ls). split.
  - apply dl_read; [done|]. by eapply (delivers_trans [] _ ds ls).
  - cbn [concat]. rewrite app_assoc.
    change (stdin_bytes (w_app w)) with (stdin_bytes (w_app (w <| w_tr := Read STDIN_FILENO n :: w_tr w |>))).
    rewrite Eraw, <-app_assoc. by apply accounted_more.
Qed.

Lemma stdin_read_explained continue w :
  input_ok w -> as_stdin_buf (w_app w) <> None ->
  511 <= as_stdin_cap (w_app w) - len (stdin_bytes (w_app w)) - 1 ->
  (forall w1, input_ok w1 -> explained w1 (continue w1).2) ->
  explained w (stdin_read h continue w).2.
Proof.
  intros Hw Hs Hfree Hc. unfold stdin_read. rewrite bind_eq. cbn [app gets fst snd]. unfold id. rewrite bind_eq.
  set (n := as_stdin_cap (w_app w) - _ - 1) in *.
  change ((call (Read STDIN_FILENO n) w).1) with (os_answer (w_tr w) (Read STDIN_FILENO n)).
  set (r := os_answer (w_tr w) (Read STDIN_FILENO n)).
  change ((call (Read STDIN_FILENO n) w).2) with (w <| w_tr := Read STDIN_FILENO n :: w_tr w |>).
  set (w2 := w <| w_tr := _ |>). assert (input_ok w2) as H2 by done.
  pose proof (buffer_drawn _ (proj1 Hw)) as Hd.
  assert (sr_ret r <= 0 -> delivers [] [] w w2) as Hmiss.
  { intros Hr. eapply dl_own; [|constructor]. split; [done|]. split; [eexists _, _, _; apply app_eta|].
    right. eexists. split; [done|]. right. by exists n. }
  destruct (sr_ret r <? 0) eqn:E1.
  { apply Z.ltb_lt in E1. apply (explained_own w w2); [apply Hmiss; lia|done|].
    destruct (sr_errno r =? EINTR); [by apply Hc|by apply explained_stop]. }
  apply Z.ltb_ge in E1. destruct (sr_ret r =? 0) eqn:E2.
  { apply (explained_own w w2); [apply Hmiss; lia|done|].
    destruct (stdin_eof_delivers w2 Hd) as (H3 & E3 & Ec). eexists [], _. split; [exact H3|].
    exists [], (stdin_bytes (w_app w2)). split_and!; [by cbn; rewrite app_nil_r|constructor|apply Hw|].
    right. left. by split_and!. }
  rewrite bind_eq. eapply (explained_read n); [fold r; lia|done|done|]. apply Hc.
  apply stdin_data_ok; [intros l _; apply Hh|done|done|]. unfold len at 2. rewrite length_pad_to.
  pose proof (Hread (w_tr w) n ltac:(lia)) as Hb. fold r in Hb |- *.
  change (w_app w2) with (w_app w). unfold n in *. lia.
Qed.

(** C29 Text that is piped in reaches the command handler line by line.  A call
    of the handler reads some pieces, in cuts of any size, and the command
    handler is run on exactly the lines of the waiting text followed by these
    pieces, in order, each once and without its line break; the rest waits for
    the next call, or is the last line at the end of the input.  Only a line of
    more than 65024 bytes is given up.  Besides, the handler only allocates,
    echoes and erases. *)
Theorem stdin_lines_delivered reads w :
  input_ok w ->
  let w' := (stdin_pipe h reads w).2 in
  exists ds ls, delivers ds ls w w' /\ accounted (stdin_bytes (w_app w) ++ concat ds) ls w'.
Proof.
  cbv zeta. change (input_ok w -> explained w (stdin_pipe h reads w).2). revert w.
  induction reads as [|reads IH]; intros w Hw; cbn [stdin_pipe]; [by apply explained_stop|].
  rewrite bind_eq. destruct (stdin_room_ok w Hw) as [H1 Hroom].
  destruct (stdin_room_delivers w) as [Hdel Hfull].
  destruct (stdin_room w) as [room w1]. cbn [fst snd] in *. destruct room; cbn [negb].
  - destruct (Hroom eq_refl) as (Eb & Hs & Hfree). apply (explained_own w w1); [done|done|].
    by apply stdin_read_explained.
  - destruct (Hfull eq_refl) as [Eb Hl]. exists [], []. split; [exact Hdel|].
    exists [], (stdin_bytes (w_app w)).
    split_and!; [by cbn; rewrite app_nil_r|constructor|apply Hw|]. right. right. by split_and!.
Qed.

End Delivery.

(** ** A pipe that delivers a command and the beginning of another line in three
    cuts *)

Definition cuts : list bytes := [lit "/sta"; lit "tus" ++ CRLF ++ lit "he"; lit "l"].
Definition reads_made (tr : trace) : nat :=
  length (filter (fun c => match c with Read _ _ => true | _ => false end = true) tr).
Definition pipe_os : OS := fun tr c =>
  match c with
  | Read _ n =>
      match cuts !! reads_made tr with
      | Some d => if len d <=? n then SysRet (len d) 0 d else SysRet (-1) 5 []
      | None => SysRet (-1) EAGAIN []
      end
  | _ => kind_os tr c
  end.

Lemma pipe_bounded : @reads_bounded pipe_os.
Proof.
  intros tr n Hn. cbn. destruct (cuts !! _); [|cbn; lia]. destruct (_ <=? _) eqn:E; cbn; lia.
Qed.
Lemma pipe_text tr n : let r := @os_answer pipe_os tr (Read STDIN_FILENO n) in
  forallb drawn (pad_to (Z.to_nat (sr_ret r)) (sr_data r)) = true.
Proof.
  cbv zeta. change (@os_answer pipe_os tr (Read STDIN_FILENO n)) with
    (match cuts !! reads_made tr with
     | Some d => if len d <=? n then SysRet (len d) 0 d else SysRet (-1) 5 []
     | None => SysRet (-1) EAGAIN []
     end).
  destruct (reads_made tr) as [|[|[|k]]]; cbn [lookup list_lookup cuts]; try done;
    match goal with |- context [?x <=? n] => destruct (x <=? n) end; reflexivity.
Qed.
Lemma boot_input_ok : input_ok boot.
Proof. split; [done|apply not_elem_of_nil]. Qed.

Lemma input_wellformed_witness :
  let w' := (@process_stdin_events pipe_os toy_crypto 4 boot).2 in
  as_stdin_cap (w_app w') = 1024 /\ input_ok w'.
Proof.
  split; [vm_compute; reflexivity|].
  exact (proj1 (@input_wellformed pipe_os toy_crypto 4 boot pipe_bounded boot_input_ok)).
Defined.

Lemma stdin_lines_delivered_witness :
  let h := @process_line pipe_os toy_crypto in
  let w' := (@stdin_pipe pipe_os h 4 boot).2 in
  stdin_bytes (w_app w') = lit "hel" /\
  exists ds ls, @delivers pipe_os h ds ls boot w' /\
    accounted (stdin_bytes (w_app boot) ++ concat ds) ls w'.
Proof.
  split; [vm_compute; reflexivity|].
  exact (@stdin_lines_delivered pipe_os _ (@input_process_line pipe_os toy_crypto)
    (fun tr n => ltac:(discriminate)) pipe_bounded pipe_text 4 boot boot_input_ok).
Defined.

(** A byte NUL does not end the line it is in: what follows it in the same read
    is lost, and the line goes on with the next read. *)
Example nul_joins_lines :
  let buf := (absorb [] (lit "ab" ++ NUL :: lit "cd" ++ [LF])).1 in
  buf = lit "ab" /\ (absorb buf (lit "ef" ++ [LF])).1 = lit "abef" ++ [LF].
Proof. split; vm_compute; reflexivity. Qed.
