(* ===== verification/Partial.v ===== *)
(** * Code that can go wrong

    A computation on a state that would read or write outside an object, use a
    freed block or loop without end has no result.  That one has a result is
    what [tw] states, together with what holds of it. *)

From S2P Require Import Prelude.

Definition Pt (S A : Type) : Type := S -> option (A * S).
#[global] Instance Pt_ret {S} : MRet (Pt S) := fun A a s => Some (a, s).
#[global] Instance Pt_bind {S} : MBind (Pt S) :=
  fun A B k m s => match m s with Some (a, s') => k a s' | None => None end.

Definition undefined {S A} : Pt S A := fun _ => None.
Definition done_ {S} : Pt S unit := mret tt.
(** Without [b] the behaviour is undefined. *)
Definition defined {S} (b : bool) : Pt S unit := if b then done_ else undefined.

Definition in_range (i n : Z) : bool := (0 <=? i) && (i <? n).
(** An element of an array. *)
Definition at_ {S A} (l : list A) (i : Z) : Pt S A :=
  if in_range i (len l) then match l !! Z.to_nat i with Some x => mret x | None => undefined end
  else undefined.

(** ** Total correctness *)

Definition tw {S A} (m : Pt S A) (Q : A -> S -> Prop) (s : S) : Prop :=
  match m s with Some (a, s') => Q a s' | None => False end.

Section Rules.
Context {S A B : Type}.
Implicit Types (s : S) (Q : A -> S -> Prop).

Lemma tw_ret (a : A) Q s : Q a s -> tw (mret a) Q s.
Proof. done. Qed.
Lemma tw_bind (m : Pt S B) (k : B -> Pt S A) Q s :
  tw m (fun b => tw (k b) Q) s -> tw (mbind k m) Q s.
Proof. unfold tw, mbind, Pt_bind. by destruct (m s) as [[b s']|]. Qed.
Lemma tw_mono (m : Pt S A) (P Q : A -> S -> Prop) s :
  tw m P s -> (forall a s', P a s' -> Q a s') -> tw m Q s.
Proof. unfold tw. destruct (m s) as [[a s']|]; [intros; auto|done]. Qed.
Lemma tw_at (l : list A) i x Q s : 0 <= i -> l !! Z.to_nat i = Some x -> Q x s -> tw (at_ l i) Q s.
Proof.
  intros Hi Hx HQ. unfold at_, in_range. pose proof (lookup_lt_Some _ _ _ Hx) as Hl.
  rewrite (proj2 (Z.leb_le _ _) Hi), (proj2 (Z.ltb_lt i (len l))) by (unfold len; lia).
  cbn [andb]. by rewrite Hx.
Qed.

End Rules.

Lemma tw_defined {S} b (Q : unit -> S -> Prop) s : b = true -> Q tt s -> tw (defined b) Q s.
Proof. intros ->. done. Qed.
