(* ===== verification/Buffers.v ===== *)
(** * Editing inside a buffer

    What memmove and a store make of a buffer, shared by the two line editors. *)

From S2P Require Import Prelude Arena ArenaProofs.

(** Inserting [v] between [bef] and [aft] overwrites the start of [r]. *)
Lemma mem_insert bef v aft r : (length v <= length r)%nat ->
  let b := bef ++ aft ++ r in
  mem_write (len bef) v (mem_write (len bef + len v) (mem_read (len bef) (len aft) b) b)
  = bef ++ v ++ aft ++ drop (length v) r.
Proof.
  intros Hv b. assert (mem_read (len bef) (len aft) b = aft) as -> by (by apply mem_read_mid).
  set (z := aft ++ r).
  assert (z = take (length v) z ++ take (length aft) (drop (length v) z) ++ drop (length v) r) as Ez.
  { replace (drop (length v) r) with (drop (length aft) (drop (length v) z)); [by rewrite !take_drop|].
    rewrite drop_drop. unfold z. rewrite drop_app_ge by lia. f_equal. lia. }
  assert (b = (bef ++ take (length v) z) ++ take (length aft) (drop (length v) z)
              ++ drop (length v) r) as Eb.
  { unfold b. fold z. rewrite Ez at 1. by rewrite !app_assoc. }
  assert (length z = length aft + length r)%nat by (unfold z; by rewrite length_app).
  rewrite Eb at 1. rewrite (mem_write_mid (bef ++ take (length v) z)).
  - rewrite <-app_assoc. apply mem_write_mid; [done|]. unfold len. rewrite length_take. lia.
  - unfold len. rewrite length_app, length_take. lia.
  - unfold len. rewrite length_take, length_drop. lia.
Qed.

(** Moving [y] over [del]. *)
Lemma mem_cut x del y r :
  let b := x ++ del ++ y ++ r in
  mem_write (len x) (mem_read (len x + len del) (len y) b) b
  = x ++ y ++ drop (length y) (del ++ y) ++ r.
Proof.
  intros b.
  assert (mem_read (len x + len del) (len y) b = y) as ->.
  { unfold b. rewrite (app_assoc x del). apply mem_read_mid; [by rewrite len_app|done]. }
  set (z := del ++ y).
  replace b with (x ++ take (length y) z ++ drop (length y) z ++ r).
  - apply mem_write_mid; [done|]. unfold len, z. rewrite length_take, length_app. lia.
  - rewrite (app_assoc (take _ _)), take_drop. unfold b, z. by rewrite <-!app_assoc.
Qed.

Lemma mem_store_at x c d r : mem_write (len x) [c] (x ++ d :: r) = x ++ c :: r.
Proof. change (d :: r) with ([d] ++ r). by apply (mem_write_mid x [d]). Qed.
