(* ===== verification/Tui.v ===== *)
(** * The full-screen interface: src/tui.c, src/fe_tui.c, the dispatch of
      src/frontend.c and the key loop of src/stdin_handler.c (a build with TUI=1)

    The state is [g_tui] with its arrays at their size, the heap the chat lines
    are allocated from, and what was sent to termbox.  A computation that would
    read or write outside an array, use a freed line or free one twice has no
    result (Partial.v): that it has one is a theorem of TuiProofs.v.  termbox, the
    multibyte functions of libc and the allocator are parameters. *)

From stdpp Require Import gmap.
From S2P Require Import Prelude Partial Primitives Types World Arena StateMachine StdinHandler Control Frontend.

Definition TUI_SIDEBAR_WIDTH : Z := 22.
Definition TUI_INPUT_HEIGHT : Z := 3.
Definition TUI_CHAT_SCROLLBACK : Z := 512.
Definition TUI_MAX_CONTACTS : Z := 64.
Definition INPUT_BUF : Z := 4096.               (* sizeof(g_tui.input_buf) *)

Inductive tui_focus := TUI_FOCUS_INPUT | TUI_FOCUS_SIDEBAR.
#[global] Instance tui_focus_eq : EqDecision tui_focus.
Proof. solve_decision. Defined.

Record tui_contact := TuiContact { tc_name : bytes; tc_onion : bytes; tc_online : bool }.
#[global] Instance eta_tc : Eta tui_contact := fun r => TuiContact (tc_name r) (tc_onion r) (tc_online r).

(** [contacts] holds the first [contact_count] elements. *)
Record tui_state := TuiState {
  t_chat_lines : list (option nat);    (* pointers *)
  t_chat_line_colors : list Z;
  t_chat_line_count : Z;
  t_chat_scroll_offset : Z;
  t_input_buf : bytes;
  t_input_len : Z;
  t_input_cursor : Z;
  t_focus : tui_focus;
  t_contacts : list tui_contact;
  t_selected_idx : Z;
  t_cols : Z;
  t_rows : Z;
  t_active : bool }.

#[global] Instance eta_tui : Eta tui_state := fun r =>
  TuiState (t_chat_lines r) (t_chat_line_colors r) (t_chat_line_count r) (t_chat_scroll_offset r)
    (t_input_buf r) (t_input_len r) (t_input_cursor r) (t_focus r) (t_contacts r) (t_selected_idx r)
    (t_cols r) (t_rows r) (t_active r).

(** ** Events of the program: include/frontend.h *)

Inductive fe_event_type := FE_MSG_IN | FE_MSG_OUT | FE_SYSTEM | FE_ERROR | FE_PROGRESS.
Record fe_event := FeEvent { fe_type : fe_event_type; fe_text : bytes; fe_tm : tm }.

(** [clock_gettime(CLOCK_REALTIME)] and [localtime_r], each with its failure. *)
Record clock := Clock { realtime : option Z; localtime_r : Z -> option tm }.
Definition fe_now_tm (k : clock) : tm :=
  default (Tm 0 0 0) (localtime_r k (default 0 (realtime k))).
Definition fe_fill_event (ty : fe_event_type) (text : bytes) (k : clock) : fe_event :=
  FeEvent ty text (fe_now_tm k).

(** The event each function of the interface emits, if any. *)
Definition ui_print_incoming (msg : bytes) (k : clock) : option fe_event :=
  if bytes_eqb msg [] || forallb blank msg then None else Some (fe_fill_event FE_MSG_IN msg k).
Definition ui_print_outgoing (msg : bytes) (k : clock) : option fe_event :=
  Some (fe_fill_event FE_MSG_OUT msg k).
(** [msg[4096]]; the argument is the formatted text *)
Definition ui_print_system (text : bytes) (k : clock) : option fe_event :=
  Some (fe_fill_event FE_SYSTEM (take 4095 text) k).
Definition ui_print_error (text : bytes) (k : clock) : option fe_event :=
  Some (fe_fill_event FE_ERROR (take 4095 text) k).
Definition ui_print_progress (k : clock) : option fe_event :=
  Some (fe_fill_event FE_PROGRESS [] k).

(** [frontend_ops]: the two that exist; None is an unregistered NULL. *)
Inductive frontend_ops := fe_ansi_ops | fe_tui_ops.

(** ** termbox *)

Inductive draw :=
| SetCell (x y ch fg bg : Z)
| Print (x y fg bg : Z) (s : bytes)
| SetCursor (x y : Z)
| HideCursor
| Clear
| Present
| TbShutdown
| Ansi (ev : fe_event).               (* an event the other front end draws *)

Record screen := Screen {
  sc_g : tui_state;
  sc_heap : gmap nat bytes;
  sc_next : nat;                      (* allocations so far *)
  sc_out : list draw;                 (* in order *)
  sc_size : Z * Z;                    (* tb_width(), tb_height() *)
  sc_shutdown : bool;                 (* g_shutdown *)
  sc_ops : option frontend_ops }.

#[global] Instance eta_screen : Eta screen := fun r =>
  Screen (sc_g r) (sc_heap r) (sc_next r) (sc_out r) (sc_size r) (sc_shutdown r) (sc_ops r).

(** ** Code that can go wrong *)

Abbreviation T := (Pt screen).
Definition g {A} (f : tui_state -> A) : T A := fun s => Some (f (sc_g s), s).
Definition set_g (f : tui_state -> tui_state) : T unit :=
  fun s => Some (tt, s <| sc_g := f (sc_g s) |>).
Definition tell (l : list draw) : T unit :=
  fun s => Some (tt, s <| sc_out := sc_out s ++ l |>).

(** [memmove(&input_buf[dst], &input_buf[src], n)] and a store of [v] *)
Definition input_store (off : Z) (v : bytes) : T unit :=
  b ← g t_input_buf;
  _ ← defined ((0 <=? off) && (off + len v <=? len b));
  set_g (fun t => t <| t_input_buf := mem_write off v b |>).
Definition input_move (dst src n : Z) : T unit :=
  b ← g t_input_buf;
  _ ← defined ((0 <=? src) && (0 <=? n) && (src + n <=? len b));
  input_store dst (mem_read src n b).

(** [free]: NULL, or a live block. *)
Definition free (p : option nat) : T unit := fun s =>
  match p with
  | None => Some (tt, s)
  | Some p => match sc_heap s !! p with
              | Some _ => Some (tt, s <| sc_heap := delete p (sc_heap s) |>)
              | None => None
              end
  end.
Definition deref (p : nat) : T bytes := fun s =>
  match sc_heap s !! p with Some b => Some (b, s) | None => None end.

(** ** UTF-8 *)

Definition char_ (z : Z) : byte := byte.of_Z (u8 z).
Definition cont (cp shift : Z) : byte := char_ (Z.lor 0x80 (Z.land (Z.shiftr cp shift) 0x3F)).

Definition utf8_encode (cp : Z) : bytes :=
  if cp <? 0x80 then [char_ cp]
  else if cp <? 0x800 then [char_ (Z.lor 0xC0 (Z.shiftr cp 6)); cont cp 0]
  else if cp <? 0x10000 then [char_ (Z.lor 0xE0 (Z.shiftr cp 12)); cont cp 6; cont cp 0]
  else [char_ (Z.lor 0xF0 (Z.shiftr cp 18)); cont cp 12; cont cp 6; cont cp 0].

Definition utf8_char_bytes (byte_pos buf_len : Z) : T Z :=
  if buf_len <=? byte_pos then mret 0
  else
    buf ← g t_input_buf;
    c ← at_ buf byte_pos;
    let b := byte.unsigned c in
    let n := if b <? 0x80 then 1 else if b <? 0xE0 then 2 else if b <? 0xF0 then 3 else 4 in
    mret (if buf_len <? byte_pos + n then 1 else n).

(** [(buf[i] & 0xC0) == 0x80] *)
Definition continuation (c : byte) : bool := Z.land (byte.unsigned c) 0xC0 =? 0x80.

(** The loop of utf8_prev_char_bytes, from index [i]; the index it stops at. *)
Fixpoint back_to_lead (i : nat) : T nat :=
  match i with
  | O => mret O
  | S k =>
      buf ← g t_input_buf;
      c ← at_ buf (Z.of_nat i);
      if continuation c then back_to_lead k else mret i
  end.
Definition utf8_prev_char_bytes (byte_pos : Z) : T Z :=
  if byte_pos <=? 0 then mret 0
  else i ← back_to_lead (Z.to_nat (byte_pos - 1)); mret (byte_pos - Z.of_nat i).

(** ** Boxes *)

Definition TC_SELF : Z := 0x26A269.
Definition TC_PEER : Z := 0x853C99.
Definition TC_SYSTEM : Z := 0xC9970F.
Definition TC_ERROR : Z := 0xD21826.
Definition TC_SIDEBAR : Z := 0x226979.
Definition TC_ACTIVE_BG : Z := 0x226979.
Definition TB_BOLD : Z := 0x01000000.

Definition hline (x y n fg : Z) : list draw :=
  (fun i => SetCell (x + i) y 0x2500 fg 0) <$> seqZ 0 n.

Definition draw_box (x y w h fg : Z) : list draw :=
  if (w <? 2) || (h <? 2) then []
  else
    [SetCell x y 0x250C fg 0; SetCell (x + w - 1) y 0x2510 fg 0;
     SetCell x (y + h - 1) 0x2514 fg 0; SetCell (x + w - 1) (y + h - 1) 0x2518 fg 0]
    ++ mbind (fun i => [SetCell (x + i) y 0x2500 fg 0; SetCell (x + i) (y + h - 1) 0x2500 fg 0])
         (seqZ 1 (w - 2))
    ++ mbind (fun i => [SetCell x (y + i) 0x2502 fg 0; SetCell (x + w - 1) (y + i) 0x2502 fg 0])
         (seqZ 1 (h - 2)).

Definition draw_title (x y : Z) (title : bytes) (fg : Z) : list draw :=
  [Print (x + 2) y fg 0 title].

(** ** The address book *)

(** What the panel reads of the application: the state and the contacts
    db_list_contacts hands its visitor, (onion, name). *)
Record client := Client { cl_app : app_state; cl_book : list (bytes * bytes) }.

Definition contact_visitor (a : app_state) (l : list tui_contact) (c : bytes * bytes)
    : list tui_contact :=
  if len l <? TUI_MAX_CONTACTS then
    l ++ [{| tc_name := take (Z.to_nat NOX_CONTACT_NAME_LEN) c.2;
             tc_onion := take (Z.to_nat NOX_ONION_LEN) c.1;
             tc_online := existsb (fun p => (0 <=? ps_fd p) && bytes_eqb (ps_peer_onion p) c.1)
                            (take NOX_MAX_PEERS (as_peers a)) |}]
  else l.

Definition tui_load_contacts (c : client) : list tui_contact :=
  let a := cl_app c in
  let l := if as_ghost_mode a then [] else foldl (contact_visitor a) [] (cl_book c) in
  let onion := as_active_peer_onion a in
  match ACTIVE_PEER a with
  | Some _ =>
      if bytes_eqb onion [] then l
      else
        match list_find (fun t => tc_onion t = onion) l with
        | Some (i, t) => <[i := t <| tc_online := true |>]> l
        | None =>
            if len l <? TUI_MAX_CONTACTS then
              l ++ [{| tc_name := take 12 onion; tc_onion := take (Z.to_nat NOX_ONION_LEN) onion;
                       tc_online := true |}]
            else l
        end
  | None => l
  end.

(** ["%-*.*s"] and ["%-*s"]: padded on the right *)
Definition pad_right (n : Z) (s : bytes) : bytes := s ++ replicate (Z.to_nat (n - len s)) Byte.x20.

Definition display_name (t : tui_contact) : bytes :=
  if negb (bytes_eqb (tc_name t) []) then take 127 (tc_name t)
  else
    let olen := len (tc_onion t) in
    if 12 <=? olen then
      take 4 (tc_onion t) ++ lit ".." ++ take 4 (drop (Z.to_nat (olen - 10)) (tc_onion t))
    else take 127 (tc_onion t).

Definition sidebar_selected (t : tui_state) (i : Z) : bool :=
  bool_decide (t_focus t = TUI_FOCUS_SIDEBAR) && (t_selected_idx t =? i).

(** The row of contact [i], and the rows from [row] on while they fit. *)
Definition contact_row_draws (t : tui_state) (c : client) (tc : tui_contact) (row : Z) : list draw :=
  let name_w := TUI_SIDEBAR_WIDTH - 4 in
  let is_active_chat := bool_decide (is_Some (ACTIVE_PEER (cl_app c)))
                        && bytes_eqb (as_active_peer_onion (cl_app c)) (tc_onion tc) in
  let '(fg, bg) :=
    if sidebar_selected t row then (0xFFFFFF, TC_ACTIVE_BG)
    else if is_active_chat then (Z.lor TC_SIDEBAR TB_BOLD, 0) else (TC_SIDEBAR, 0) in
  Print 1 (1 + row) fg bg (pad_right name_w (take (Z.to_nat name_w) (display_name tc)))
  :: (if tc_online tc then [SetCell (1 + name_w) (1 + row) 0x25CF TC_SELF 0] else []).
Fixpoint contact_rows (t : tui_state) (c : client) (content_h : Z) (l : list tui_contact) (row : Z)
    : list draw * Z :=
  match l with
  | tc :: l =>
      if row <? content_h then
        let '(ds, row') := contact_rows t c content_h l (row + 1) in
        (contact_row_draws t c tc row ++ ds, row')
      else ([], row)
  | [] => ([], row)
  end.

Definition tui_draw_sidebar (c : client) : T unit :=
  active ← g t_active;
  if negb active then done_
  else
    _ ← set_g (fun t => t <| t_contacts := tui_load_contacts c |>);
    t ← g id;
    let content_w := TUI_SIDEBAR_WIDTH - 2 in
    let content_h := t_rows t - 2 in
    let '(ds, row) := contact_rows t c content_h (t_contacts t) 0 in
    let '(sep, row') :=
      if (0 <? row) && (row <? content_h) then (hline 1 (1 + row) content_w TC_SIDEBAR, row + 1)
      else ([], row) in
    let '(fg, bg) :=
      if sidebar_selected t (len (t_contacts t)) then (0xFFFFFF, TC_ACTIVE_BG)
      else (TC_SIDEBAR, 0) in
    tell (draw_box 0 0 TUI_SIDEBAR_WIDTH (t_rows t) TC_SIDEBAR
          ++ draw_title 0 0 (lit " Rehber ") TC_SIDEBAR
          ++ ds ++ sep
          ++ (if row' <? content_h
              then [Print 1 (1 + row') fg bg (pad_right content_w (lit "+ /connect"))] else [])).

(** ** The chat panel *)

(** [strstr(s, sub) != NULL] *)
Fixpoint has_sub (sub s : bytes) : bool :=
  starts_with sub s || match s with _ :: s => has_sub sub s | [] => false end.

(** The offset of the last ["] "] at or behind [pos], else [acc]. *)
Fixpoint last_bracket (pos : nat) (s : bytes) (acc : option nat) : option nat :=
  match s with
  | a :: s1 =>
      match s1 with
      | b :: s2 =>
          if Byte.eqb a Byte.x5d && Byte.eqb b Byte.x20
          then last_bracket (pos + 2) s2 (Some pos) else last_bracket (pos + 1) s1 acc
      | [] => acc
      end
  | [] => acc
  end.

Section Tui.
Context (oom : nat -> bool).                       (* the n-th allocation fails *)
Context (mbrtowc : bytes -> Z * Z).                (* the character and what it consumed *)
Context (wcwidth : Z -> Z).

Definition strdup (s : bytes) : T (option nat) := fun sc =>
  let p := sc_next sc in
  if oom p then Some (None, sc <| sc_next := S p |>)
  else Some (Some p, sc <| sc_next := S p |> <| sc_heap := <[p := s]> (sc_heap sc) |>).

(** [memmove(&l[0], &l[1], (TUI_CHAT_SCROLLBACK - 1) * sizeof(l[0]))] *)
Definition shift_down {A} (l : list A) : list A := take 511 (drop 1 l) ++ drop 511 l.

(** One line at the end of the scrollback; false: strdup failed. *)
Definition push_line (text : bytes) (fg : Z) : T bool :=
  count ← g t_chat_line_count;
  _ ← (if TUI_CHAT_SCROLLBACK <=? count then
         lines ← g t_chat_lines;
         p ← at_ lines 0;
         _ ← free p;
         set_g (fun t => t <| t_chat_lines := shift_down (t_chat_lines t) |>
                           <| t_chat_line_colors := shift_down (t_chat_line_colors t) |>
                           <| t_chat_line_count := TUI_CHAT_SCROLLBACK - 1 |>)
       else done_);
  count ← g t_chat_line_count;
  lines ← g t_chat_lines;
  colors ← g t_chat_line_colors;
  _ ← defined (in_range count (len lines) && in_range count (len colors));
  p ← strdup text;
  _ ← set_g (fun t => t <| t_chat_lines := <[Z.to_nat count := p]> lines |>);
  match p with
  | None => mret false
  | Some _ =>
      _ ← set_g (fun t => t <| t_chat_line_colors := <[Z.to_nat count := fg]> colors |>
                            <| t_chat_line_count := count + 1 |>);
      mret true
  end.

(** The row ends behind the last blank of the first [ws] bytes; 0: there is none. *)
Definition breaks (c : byte) : bool := Byte.eqb c Byte.x20 || Byte.eqb c LF.
Fixpoint break_point (ws : nat) (p : bytes) : nat :=
  match ws with
  | O => O
  | S k => if breaks (default NUL (p !! k)) then ws else break_point k p
  end.
Definition row_take (chunk : nat) (p : bytes) : nat :=
  let n := Nat.min chunk (length p) in
  if bool_decide (n < length p)%nat then
    let ws := break_point n p in if bool_decide (0 < ws)%nat then ws else n
  else n.

(** Where the next row starts: one space behind the row is left out. *)
Definition row_next (n : nat) (p : bytes) : nat :=
  match p !! n with
  | Some c => if Byte.eqb c Byte.x20 then S n else n
  | None => n
  end.

(** The message from [p] on; [head] is put before the first row and [indent]
    before the others.  False: strdup failed. *)
Fixpoint wrap_rows (fuel : nat) (head indent p : bytes) (chunk : nat) (fg : Z) : T bool :=
  if bytes_eqb p [] then mret true
  else
    match fuel with
    | O => undefined
    | S fuel =>
        let n := row_take chunk p in
        if bool_decide (n = 0)%nat then mret true
        else
          let row := take 1023 (head ++ take n p) in
          ok ← (if bytes_eqb row [] then mret true else push_line row fg);
          if negb ok then mret false
          else
            wrap_rows fuel indent indent (drop (row_next n p) p) chunk fg
    end.

(** The length of the prefix and the offset of the message. *)
Definition split_prefix (line : bytes) : nat * nat :=
  match last_bracket 0 line None with
  | Some b => (b + 2, b + 2)%nat
  | None => (length line, O)
  end.
Definition wrap_width (cols : Z) (prefix_len : nat) : nat :=
  let content_w := Z.max 10 (cols - TUI_SIDEBAR_WIDTH - 2) in
  let w := Z.to_nat (if 1 <? content_w then content_w - 1 else content_w) in
  if bool_decide (w <= prefix_len)%nat then S prefix_len else w.

Definition tui_chat_append_colored (line : bytes) (fg : Z) : T unit :=
  t ← g id;
  if negb (t_active t) || bytes_eqb line [] then done_
  else
    let '(prefix_len, start) := split_prefix line in
    let msg := drop start line in
    let width := wrap_width (t_cols t) prefix_len in
    if bool_decide (length msg = 0)%nat || bool_decide (prefix_len + length msg <= width)%nat
    then _ ← push_line line fg; done_
    else
      let indent := replicate (Nat.min prefix_len 63) Byte.x20 in
      let chunk := if bool_decide (prefix_len < width)%nat then (width - prefix_len)%nat else 1%nat in
      ok ← wrap_rows (length msg) (take prefix_len line) indent msg chunk fg;
      if ok : bool then set_g (fun t => t <| t_chat_scroll_offset := 0 |>) else done_.

Definition tui_chat_append (line : bytes) : T unit := tui_chat_append_colored line 0.

(** The colour of a line stored with colour 0 is found in its text. *)
Definition line_color (stored : Z) (line : bytes) : Z :=
  if stored =? 0 then
    if has_sub (lit "[Sen]") line then TC_SELF
    else if has_sub (lit "[Peer]") line then TC_PEER
    else if has_sub (lit "[!]") line then Z.lor TC_ERROR TB_BOLD
    else TC_SYSTEM
  else stored.

(** Lines [i], [i+1], ... of the scrollback in the rows from [row] on. *)
Fixpoint draw_lines (n : nat) (i row content_w : Z) : T unit :=
  match n with
  | O => done_
  | S n =>
      lines ← g t_chat_lines;
      p ← at_ lines i;
      _ ← match p with
          | None => done_
          | Some p =>
              line ← deref p;
              colors ← g t_chat_line_colors;
              stored ← at_ colors i;
              tell [Print (TUI_SIDEBAR_WIDTH + 1) (1 + row) (line_color stored line) 0
                      (take (Z.to_nat content_w) line)]
          end;
      draw_lines n (i + 1) (row + 1) content_w
  end.

Definition tui_draw_chat : T unit :=
  t ← g id;
  if negb (t_active t) then done_
  else
    let chat_w := Z.max 20 (t_cols t - TUI_SIDEBAR_WIDTH) in
    let chat_h := Z.max 5 (t_rows t - TUI_INPUT_HEIGHT) in
    _ ← tell (draw_box TUI_SIDEBAR_WIDTH 0 chat_w chat_h TC_SIDEBAR
              ++ draw_title TUI_SIDEBAR_WIDTH 0 (lit " Sohbet ") TC_SIDEBAR);
    let content_w := chat_w - 2 in
    let content_h := chat_h - 2 in
    let max_scroll := Z.max 0 (t_chat_line_count t - content_h) in
    let offset := Z.max 0 (Z.min (t_chat_scroll_offset t) max_scroll) in
    _ ← set_g (fun t => t <| t_chat_scroll_offset := offset |>);
    let start := Z.max 0 (t_chat_line_count t - content_h - offset) in
    let stop := Z.min (start + content_h) (t_chat_line_count t) in
    draw_lines (Z.to_nat (stop - start)) start 0 content_w.

(** ** The input panel *)

(** Columns of the first [remaining] bytes at [p]. *)
Fixpoint display_width (fuel : nat) (p : bytes) : Z :=
  match fuel, p with
  | S fuel, _ :: _ =>
      let '(wc, consumed) := mbrtowc p in
      if consumed <=? 0 then 0
      else
        let w := wcwidth wc in
        (if 0 <? w then w else 1) + display_width fuel (drop (Z.to_nat consumed) p)
  | _, _ => 0
  end.
Definition input_display_width_up_to (byte_pos : Z) : T Z :=
  buf ← g t_input_buf;
  _ ← defined (byte_pos <=? len buf);
  let p := take (Z.to_nat byte_pos) buf in
  mret (display_width (length p) p).

(** ["%.*s"] of a buffer: a NUL or the precision ends it inside the buffer. *)
Definition print_bounded (prec : Z) (buf : bytes) : T bytes :=
  _ ← defined (existsb (Byte.eqb NUL) buf || (prec <=? len buf));
  mret (take (Z.to_nat prec) (cstr buf)).

Definition tui_draw_input : T unit :=
  t ← g id;
  if negb (t_active t) then done_
  else
    let chat_w := Z.max 20 (t_cols t - TUI_SIDEBAR_WIDTH) in
    let chat_h := t_rows t - TUI_INPUT_HEIGHT in
    let px := TUI_SIDEBAR_WIDTH + 1 in
    let py := chat_h + 1 in
    let input_x := px + 2 in
    let max_input_w := chat_w - 4 in
    _ ← tell (draw_box TUI_SIDEBAR_WIDTH chat_h chat_w TUI_INPUT_HEIGHT TC_SIDEBAR
              ++ [SetCell px py 62 TC_SIDEBAR 0; SetCell (px + 1) py 32 TC_SIDEBAR 0]
              ++ ((fun i => SetCell (input_x + i) py 32 0 0) <$> seqZ 0 max_input_w));
    _ ← (if 0 <? t_input_len t then
           s ← print_bounded max_input_w (t_input_buf t);
           tell [Print input_x py 0xFFFFFF 0 s]
         else done_);
    if bool_decide (t_focus t = TUI_FOCUS_INPUT) then
      cursor_col ← input_display_width_up_to (t_input_cursor t);
      tell [SetCursor (input_x + cursor_col) py]
    else tell [HideCursor].

(** ** All panels *)

Definition take_size : T unit := fun s =>
  Some (tt, s <| sc_g := sc_g s <| t_cols := (sc_size s).1 |> <| t_rows := (sc_size s).2 |> |>).

Definition tui_refresh_all (c : client) : T unit :=
  active ← g t_active;
  if negb active then done_
  else
    _ ← take_size;
    _ ← tell [Clear];
    _ ← tui_draw_sidebar c;
    _ ← tui_draw_chat;
    _ ← tui_draw_input;
    tell [Present].

Definition tui_resize : T unit :=
  active ← g t_active;
  if negb active then done_ else _ ← take_size; tell [Clear].

(** [memset(&g_tui, 0, sizeof(g_tui))] *)
Definition tui_zero : tui_state := {|
  t_chat_lines := replicate 512 None; t_chat_line_colors := replicate 512 0;
  t_chat_line_count := 0; t_chat_scroll_offset := 0;
  t_input_buf := zeros (Z.to_nat INPUT_BUF); t_input_len := 0; t_input_cursor := 0;
  t_focus := TUI_FOCUS_INPUT; t_contacts := []; t_selected_idx := 0;
  t_cols := 0; t_rows := 0; t_active := false |}.

Definition tui_init (tb_init_ok : bool) : T unit :=
  _ ← set_g (fun _ => tui_zero);
  if negb tb_init_ok then done_
  else
    _ ← tell [SetCursor (-1) (-1)];
    _ ← take_size;
    _ ← set_g (fun t => t <| t_active := true |> <| t_focus := TUI_FOCUS_INPUT |>
                          <| t_selected_idx := 0 |>);
    _ ← tui_draw_chat;
    _ ← tui_draw_input;
    tell [Present].

(** The loop of tui_shutdown: entries [i], ..., [i + n - 1]. *)
Fixpoint free_lines (n : nat) (i : Z) : T unit :=
  match n with
  | O => done_
  | S n =>
      lines ← g t_chat_lines;
      p ← at_ lines i;
      _ ← free p;
      _ ← set_g (fun t => t <| t_chat_lines := <[Z.to_nat i := None]> lines |>);
      free_lines n (i + 1)
  end.

Definition tui_shutdown : T unit :=
  active ← g t_active;
  if negb active then done_
  else
    _ ← set_g (fun t => t <| t_active := false |>);
    _ ← free_lines (Z.to_nat TUI_CHAT_SCROLLBACK) 0;
    tell [TbShutdown].

(** ** Keys *)

Definition TB_KEY_CTRL_C : Z := 0x03.
Definition TB_KEY_BACKSPACE : Z := 0x08.
Definition TB_KEY_ENTER : Z := 0x0d.
Definition TB_KEY_CTRL_P : Z := 0x10.
Definition TB_KEY_DELETE : Z := 0xffff - 13.
Definition TB_KEY_HOME : Z := 0xffff - 14.
Definition TB_KEY_END : Z := 0xffff - 15.
Definition TB_KEY_PGUP : Z := 0xffff - 16.
Definition TB_KEY_PGDN : Z := 0xffff - 17.
Definition TB_KEY_ARROW_UP : Z := 0xffff - 18.
Definition TB_KEY_ARROW_DOWN : Z := 0xffff - 19.
Definition TB_KEY_ARROW_LEFT : Z := 0xffff - 20.
Definition TB_KEY_ARROW_RIGHT : Z := 0xffff - 21.
Definition TB_KEY_BACK_TAB : Z := 0xffff - 22.

(** How a case of the switch ends: with break, or with return and the string
    the returned pointer points to. *)
Inductive case_end := Break | Ret (line : option bytes).

Definition set_focus (f : tui_focus) : T unit :=
  _ ← set_g (fun t => t <| t_focus := f |>);
  t ← g id;
  tell [if bool_decide (f = TUI_FOCUS_INPUT) then SetCursor (t_cols t - 4) (t_rows t - 2)
        else HideCursor].

Definition key_tab : T case_end :=
  f ← g t_focus;
  _ ← set_focus (if bool_decide (f = TUI_FOCUS_INPUT) then TUI_FOCUS_SIDEBAR else TUI_FOCUS_INPUT);
  mret Break.

Definition scroll_up (n : Z) : T case_end :=
  _ ← set_g (fun t => t <| t_chat_scroll_offset ::= Z.add n |>);
  _ ← tui_draw_chat; mret Break.
Definition scroll_down (n : Z) : T case_end :=
  _ ← set_g (fun t => t <| t_chat_scroll_offset := Z.max 0 (t_chat_scroll_offset t - n) |>);
  _ ← tui_draw_chat; mret Break.

Definition key_up : T case_end :=
  t ← g id;
  if bool_decide (t_focus t = TUI_FOCUS_SIDEBAR) then
    _ ← set_g (fun t => t <| t_selected_idx :=
          if 0 <? t_selected_idx t then t_selected_idx t - 1 else len (t_contacts t) |>);
    mret Break
  else scroll_up 1.
Definition key_down : T case_end :=
  t ← g id;
  if bool_decide (t_focus t = TUI_FOCUS_SIDEBAR) then
    _ ← set_g (fun t => t <| t_selected_idx :=
          if t_selected_idx t <? len (t_contacts t) then t_selected_idx t + 1 else 0 |>);
    mret Break
  else scroll_down 1.

Definition key_left : T case_end :=
  t ← g id;
  if bool_decide (t_focus t = TUI_FOCUS_INPUT) then
    _ ← (if 0 <? t_input_cursor t
         then set_g (fun t => t <| t_input_cursor := t_input_cursor t - 1 |>)
         else set_focus TUI_FOCUS_SIDEBAR);
    mret Break
  else mret Break.
Definition key_right : T case_end :=
  t ← g id;
  if bool_decide (t_focus t = TUI_FOCUS_INPUT) then
    _ ← (if t_input_cursor t <? t_input_len t
         then set_g (fun t => t <| t_input_cursor := t_input_cursor t + 1 |>) else done_);
    mret Break
  else _ ← set_focus TUI_FOCUS_INPUT; mret Break.

(** [for (i = 0; i < chat_line_count; i++) { free(...); ... = NULL; }] is
    [free_lines] over the lines in use. *)
Definition clear_chat : T unit :=
  n ← g t_chat_line_count;
  _ ← free_lines (Z.to_nat n) 0;
  set_g (fun t => t <| t_chat_line_count := 0 |> <| t_chat_scroll_offset := 0 |>).

(** [snprintf(input_buf, sizeof(input_buf), ...)] *)
Definition input_print (s : bytes) : T unit :=
  input_store 0 (take (Z.to_nat (INPUT_BUF - 1)) s ++ [NUL]).

Definition key_enter : T case_end :=
  t ← g id;
  if bool_decide (t_focus t = TUI_FOCUS_SIDEBAR) then
    if t_selected_idx t <? len (t_contacts t) then
      _ ← clear_chat;
      tc ← at_ (t_contacts t) (t_selected_idx t);
      _ ← input_print (lit "/connect " ++ tc_onion tc);
      _ ← set_g (fun t => t <| t_input_len := 0 |> <| t_input_cursor := 0 |>);
      _ ← set_focus TUI_FOCUS_INPUT;
      b ← g t_input_buf;
      mret (Ret (Some (cstr b)))
    else
      _ ← input_print (lit "/connect ");
      b ← g t_input_buf;
      _ ← set_g (fun t => t <| t_input_len := len (cstr b) |> <| t_input_cursor := len (cstr b) |>);
      _ ← set_focus TUI_FOCUS_INPUT;
      _ ← tui_draw_input;
      mret Break
  else if t_input_len t =? 0 then mret (Ret None)
  else
    _ ← input_store (t_input_len t) [NUL];
    _ ← set_g (fun t => t <| t_input_len := 0 |> <| t_input_cursor := 0 |>
                          <| t_chat_scroll_offset := 0 |>);
    b ← g t_input_buf;
    mret (Ret (Some (cstr b))).

Definition key_backspace : T case_end :=
  t ← g id;
  if bool_decide (t_focus t = TUI_FOCUS_INPUT) && (0 <? t_input_cursor t) && (0 <? t_input_len t)
  then
    let cursor := t_input_cursor t in
    del ← utf8_prev_char_bytes cursor;
    _ ← input_move (cursor - del) cursor (t_input_len t - cursor);
    _ ← set_g (fun t => t <| t_input_len := t_input_len t - del |>
                          <| t_input_cursor := cursor - del |>);
    _ ← input_store (t_input_len t - del) [NUL];
    mret Break
  else mret Break.

Definition key_delete : T case_end :=
  t ← g id;
  if bool_decide (t_focus t = TUI_FOCUS_INPUT) && (t_input_cursor t <? t_input_len t) then
    let cursor := t_input_cursor t in
    del ← utf8_char_bytes cursor (t_input_len t);
    _ ← input_move cursor (cursor + del) (t_input_len t - cursor - del);
    _ ← set_g (fun t => t <| t_input_len := t_input_len t - del |>);
    _ ← input_store (t_input_len t - del) [NUL];
    mret Break
  else mret Break.

Definition key_home : T case_end :=
  f ← g t_focus;
  _ ← (if bool_decide (f = TUI_FOCUS_INPUT)
       then set_g (fun t => t <| t_input_cursor := 0 |>) else done_);
  mret Break.
Definition key_end : T case_end :=
  f ← g t_focus;
  _ ← (if bool_decide (f = TUI_FOCUS_INPUT)
       then set_g (fun t => t <| t_input_cursor := t_input_len t |>) else done_);
  mret Break.

(** The default case. *)
Definition printable (ch : Z) : bool :=
  (32 <=? ch) && (ch <? 127) || (127 <? ch) && (ch <? 0x110000).
Definition key_char (ch : Z) : T case_end :=
  t ← g id;
  if negb (bool_decide (t_focus t = TUI_FOCUS_INPUT)) then mret Break
  else if negb (printable ch) then mret (Ret None)
  else
    let utf8 := utf8_encode ch in
    let nbytes := len utf8 in
    if t_input_len t + nbytes <=? INPUT_BUF - 1 then
      let cursor := t_input_cursor t in
      _ ← input_move (cursor + nbytes) cursor (t_input_len t - cursor);
      _ ← input_store cursor utf8;
      _ ← set_g (fun t => t <| t_input_len := t_input_len t + nbytes |>
                            <| t_input_cursor := cursor + nbytes |>);
      mret Break
    else mret Break.

Definition request_shutdown : T case_end :=
  fun s => Some (Break, s <| sc_shutdown := true |>).

Definition key_case (ch : Z) : T case_end :=
  if (ch =? TB_KEY_CTRL_C) || (ch =? TB_KEY_CTRL_P) then request_shutdown
  else if (ch =? 9) || (ch =? TB_KEY_BACK_TAB) then key_tab
  else if ch =? TB_KEY_PGUP then scroll_up 10
  else if ch =? TB_KEY_PGDN then scroll_down 10
  else if ch =? TB_KEY_ARROW_UP then key_up
  else if ch =? TB_KEY_ARROW_DOWN then key_down
  else if ch =? TB_KEY_ARROW_LEFT then key_left
  else if ch =? TB_KEY_ARROW_RIGHT then key_right
  else if (ch =? 10) || (ch =? TB_KEY_ENTER) then key_enter
  else if (ch =? TB_KEY_BACKSPACE) || (ch =? 127) then key_backspace
  else if ch =? TB_KEY_DELETE then key_delete
  else if ch =? TB_KEY_HOME then key_home
  else if ch =? TB_KEY_END then key_end
  else key_char ch.

Definition tui_handle_input (c : client) (ch : Z) : T (option bytes) :=
  active ← g t_active;
  if negb active then mret None
  else
    r ← key_case ch;
    match r with
    | Ret line => mret line
    | Break =>
        _ ← tui_draw_input;
        _ ← tui_draw_sidebar c;
        _ ← tell [Present];
        mret None
    end.

(** ** The front end *)

Definition hms (t : tm) : bytes :=
  lit "[" ++ two_digits (tm_hour t) ++ lit ":" ++ two_digits (tm_min t) ++ lit ":"
    ++ two_digits (tm_sec t) ++ lit "] ".

Definition tui_append_line (c : client) (prefix text : bytes) (t : tm) : T unit :=
  _ ← tui_chat_append (take 8191 (hms t ++ prefix ++ text));
  tui_refresh_all c.

Definition fe_tui_emit (c : client) (ev : fe_event) : T unit :=
  match fe_type ev with
  | FE_MSG_IN => tui_append_line c (lit "Peer: ") (fe_text ev) (fe_tm ev)
  | FE_MSG_OUT => tui_append_line c (lit "Sen: ") (fe_text ev) (fe_tm ev)
  | FE_SYSTEM => tui_append_line c [] (fe_text ev) (fe_tm ev)
  | FE_ERROR => tui_append_line c (lit "[!] ") (fe_text ev) (fe_tm ev)
  | FE_PROGRESS => tui_refresh_all c
  end.

Definition frontend_register (ops : option frontend_ops) : T unit :=
  fun s => Some (tt, s <| sc_ops := ops |>).
Definition frontend_reset : T unit := frontend_register (Some fe_ansi_ops).

Definition frontend_emit (c : client) (ev : fe_event) : T unit := fun s =>
  match sc_ops s with
  | None => Some (tt, s)
  | Some fe_tui_ops => fe_tui_emit c ev s
  | Some fe_ansi_ops => tell [Ansi ev] s
  end.

Definition emit_opt (c : client) (ev : option fe_event) : T unit :=
  match ev with Some ev => frontend_emit c ev | None => done_ end.

Definition welcome_lines : list bytes := lit <$>
  ["╔══════════════════════════════════════╗"%string;
   "║       Noxtor — Anonymous Messenger   ║"%string;
   "╚══════════════════════════════════════╝"%string;
   ""%string;
   " Komutlar:"%string;
   "   /addr               — .onion adresini göster"%string;
   "   /connect <onion>    — peer'a bağlan"%string;
   "   /add <onion> <isim> — rehbere kişi ekle"%string;
   "   /msg <onion> <msj>  — kuyruklu mesaj gönder"%string;
   "   /file <dosya_yolu>  — dosya gönder"%string;
   "   /list               — rehberi listele"%string;
   "   /switch <isim>      — aktif sohbeti değiştir"%string;
   "   /disconnect         — bağlantıyı kes"%string;
   "   Ctrl+P              — çıkış"%string;
   ""%string;
   " Gezinti: Tab=panel geçişi  ↑↓=seçim  PgUp/PgDn=kaydır"%string].
Definition no_contact_lines : list bytes := lit <$>
  [""%string;
   " [!] Rehberinizde kayıtlı akran yok."%string;
   "     /add <onion> <isim> ile ilk akranınızı ekleyin."%string].

Fixpoint print_system_all (c : client) (k : clock) (l : list bytes) : T unit :=
  match l with
  | [] => done_
  | text :: l => _ ← emit_opt c (ui_print_system text k); print_system_all c k l
  end.
Definition tui_print_welcome (c : client) (k : clock) : T unit :=
  active ← g t_active;
  if negb active then done_
  else
    _ ← set_g (fun t => t <| t_contacts := tui_load_contacts c |>);
    _ ← print_system_all c k welcome_lines;
    l ← g t_contacts;
    if bool_decide (len l = 0) then print_system_all c k no_contact_lines else done_.

(** A line of the log while the panels are shown (src/log.c). *)
Definition tui_log (tag module msg : bytes) : T unit :=
  active ← g t_active;
  if negb active then done_
  else
    tui_chat_append (take 2199 (lit "[LOG] [" ++ tag ++ lit "] [" ++ module ++ lit "] "
                                ++ sanitize_log_newlines (take 2047 msg))).

(** The rest of the program, as the panels see it: what it shows and logs, each
    with the state it does so in. *)
Inductive output :=
| Shown (c : client) (ev : fe_event)
| Logged (tag module msg : bytes).
Definition show (o : output) : T unit :=
  match o with
  | Shown c ev => frontend_emit c ev
  | Logged tag module msg => tui_log tag module msg
  end.
Fixpoint show_all (l : list output) : T unit :=
  match l with [] => done_ | o :: l => _ ← show o; show_all l end.

(** ** The key loop of process_stdin_events *)

Inductive tb_event :=
| TB_EVENT_RESIZE (w h : Z)
| TB_EVENT_KEY (ch key : Z)
| TB_EVENT_MOUSE.

Context (process_line : client -> bytes -> list output * client).

Definition on_event (c : client) (e : tb_event) : T client :=
  match e with
  | TB_EVENT_RESIZE w h =>
      _ ← (fun s => Some (tt, s <| sc_size := (w, h) |>));   (* in tb_peek_event *)
      _ ← tui_resize;
      _ ← tui_refresh_all c;
      mret c
  | TB_EVENT_KEY ch key =>
      line ← tui_handle_input c (if ch =? 0 then key else ch);
      match line with
      | None => mret c
      | Some line =>
          let '(outs, c') := process_line c line in
          _ ← show_all outs;
          _ ← set_g (fun t => t <| t_input_buf := zeros (Z.to_nat INPUT_BUF) |>);
          mret c'
      end
  | TB_EVENT_MOUSE => mret c
  end.
Fixpoint tui_events (c : client) (l : list tb_event) : T client :=
  match l with [] => mret c | e :: l => c ← on_event c e; tui_events c l end.

(** ** From start to end (main.c) *)

Definition tui_start (tb_init_ok : bool) (c : client) : T unit :=
  _ ← tui_init tb_init_ok;
  _ ← tui_refresh_all c;
  active ← g t_active;
  if active : bool then frontend_register (Some fe_tui_ops) else done_.

Definition tui_stop : T unit := _ ← tui_shutdown; frontend_reset.

(** What happens in between: keys are polled, and the program shows and logs. *)
Inductive tui_action :=
| Welcome (c : client) (k : clock)
| Poll (c : client) (l : list tb_event)
| Output (o : output).
Definition tui_act (a : tui_action) : T unit :=
  match a with
  | Welcome c k => tui_print_welcome c k
  | Poll c l => _ ← tui_events c l; done_
  | Output o => show o
  end.
Fixpoint tui_acts (l : list tui_action) : T unit :=
  match l with [] => done_ | a :: l => _ ← tui_act a; tui_acts l end.

Definition tui_session (tb_init_ok : bool) (c : client) (l : list tui_action) : T unit :=
  _ ← tui_start tb_init_ok c; _ ← tui_acts l; tui_stop.

End Tui.

(** Before main: no line is allocated, the ANSI front end is registered. *)
Definition blank_screen (w h : Z) : screen := {|
  sc_g := tui_zero; sc_heap := ∅; sc_next := 0; sc_out := []; sc_size := (w, h);
  sc_shutdown := false; sc_ops := Some fe_ansi_ops |}.
