(* ===== verification/TuiProofs.v ===== *)
(** * Theorems on the full-screen interface

    Every run of the panels is free of undefined behaviour and leaves no line
    allocated; the input line is edited as a sequence of characters; a message
    is cut into rows without losing text; the chat panel shows a window of the
    scrollback. *)

From stdpp Require Import gmap fin_maps.
From S2P Require Import Prelude Partial Primitives Types World Arena ArenaProofs Buffers StateMachine StdinHandler.
From S2P Require Import Control Frontend Tui.

(** ** Rules *)

Lemma tw_g {A} (f : tui_state -> A) (Q : A -> screen -> Prop) s : Q (f (sc_g s)) s -> tw (g f) Q s.
Proof. done. Qed.
Lemma tw_set_g f (Q : unit -> screen -> Prop) s : Q tt (s <| sc_g := f (sc_g s) |>) -> tw (set_g f) Q s.
Proof. done. Qed.
Lemma tw_tell l (Q : unit -> screen -> Prop) s :
  Q tt (s <| sc_out := sc_out s ++ l |>) -> tw (tell l) Q s.
Proof. done. Qed.

(** Step through straight-line code. *)
Ltac tstep :=
  lazymatch goal with
  | |- tw (mbind _ _) _ _ => apply tw_bind
  | |- tw (mret _) _ _ => apply tw_ret
  | |- tw done_ _ _ => apply tw_ret
  | |- tw (g _) _ _ => apply tw_g
  | |- tw (set_g _) _ _ => apply tw_set_g
  | |- tw (tell _) _ _ => apply tw_tell
  end.
Ltac tsteps := repeat (tstep; cbv beta).

(** ** The invariant *)

(** [ls] are the lines in the scrollback, each with the block that holds it. *)
Record chat_rep (s : screen) (ls : list (nat * bytes)) : Prop := {
  cr_lines : t_chat_lines (sc_g s) = (Some <$> ls.*1) ++ replicate (512 - length ls) None;
  cr_room : (length ls <= 512)%nat;
  cr_heap : sc_heap s = list_to_map ls;
  cr_nodup : NoDup ls.*1;
  cr_fresh : Forall (fun p => (p < sc_next s)%nat) ls.*1;
  cr_count : t_chat_line_count (sc_g s) = len ls;
  cr_colors : length (t_chat_line_colors (sc_g s)) = 512%nat;
  cr_off : ls <> [] -> t_active (sc_g s) = true }.

Record line_ok (t : tui_state) : Prop := {
  lo_buf : len (t_input_buf t) = INPUT_BUF;
  lo_cursor : 0 <= t_input_cursor t <= t_input_len t;
  lo_len : t_input_len t <= INPUT_BUF - 1;
  lo_end : t_input_buf t !! 4095%nat = Some NUL }.

Record panel_ok (t : tui_state) : Prop := {
  po_contacts : len (t_contacts t) <= TUI_MAX_CONTACTS;
  po_selected : 0 <= t_selected_idx t <= TUI_MAX_CONTACTS;
  po_scroll : 0 <= t_chat_scroll_offset t <= TUI_CHAT_SCROLLBACK }.

Record tui_ok (s : screen) : Prop := {
  ok_chat : exists ls, chat_rep s ls;
  ok_line : line_ok (sc_g s);
  ok_panel : panel_ok (sc_g s) }.

(** What drawing changes: the output, the clamped offset, the address book and
    the size. *)
Definition redrawn (s : screen) (out : list draw) (off : Z) (l : list tui_contact) (w h : Z) : screen :=
  s <| sc_out := out |>
    <| sc_g := sc_g s <| t_chat_scroll_offset := off |> <| t_contacts := l |>
                      <| t_cols := w |> <| t_rows := h |> |>.
Definition drawn (s s' : screen) : Prop :=
  exists out off l w h, s' = redrawn s out off l w h /\
    0 <= off <= TUI_CHAT_SCROLLBACK /\ len l <= TUI_MAX_CONTACTS.

Lemma drawn_trans s1 s2 s3 : drawn s1 s2 -> drawn s2 s3 -> drawn s1 s3.
Proof.
  intros (o1 & f1 & l1 & w1 & h1 & -> & _) (o2 & f2 & l2 & w2 & h2 & -> & ? & ?).
  by exists o2, f2, l2, w2, h2.
Qed.
Lemma drawn_ok s s' : tui_ok s -> drawn s s' -> tui_ok s'.
Proof.
  intros [[ls [C1 C2 C3 C4 C5 C6 C7 C8]] [L1 L2 L3 L4] [P1 P2 P3]] (o & f & l & w & h & -> & ? & ?).
  constructor; [exists ls|..]; by constructor.
Qed.

Lemma drawn_out s o : panel_ok (sc_g s) -> drawn s (s <| sc_out := o |>).
Proof.
  intros []. exists o, (t_chat_scroll_offset (sc_g s)), (t_contacts (sc_g s)), (t_cols (sc_g s)),
    (t_rows (sc_g s)). by destruct s as [[]].
Qed.
Lemma drawn_refl s : panel_ok (sc_g s) -> drawn s s.
Proof. intros. replace s with (s <| sc_out := sc_out s |>) at 2 by (by destruct s). by apply drawn_out. Qed.

(** ** Drawing *)

Lemma contacts_bound c : len (tui_load_contacts c) <= TUI_MAX_CONTACTS.
Proof.
  assert (forall l acc, len acc <= TUI_MAX_CONTACTS ->
            len (foldl (contact_visitor (cl_app c)) acc l) <= TUI_MAX_CONTACTS) as Hf.
  { induction l as [|x l IH]; intros acc Ha; [done|]. cbn [foldl]. apply IH.
    unfold contact_visitor. case_match eqn:E; [|done]. rewrite len_app. unfold len in *. cbn.
    apply Z.ltb_lt in E. lia. }
  unfold tui_load_contacts. set (l0 := if as_ghost_mode _ then _ else _).
  assert (len l0 <= TUI_MAX_CONTACTS) by (subst l0; case_match; [done|by apply Hf]).
  repeat case_match; try done.
  - unfold len in *. by rewrite length_insert.
  - rewrite len_app. unfold len in *. cbn. rewrite Z.ltb_lt in *. lia.
Qed.

(** Lines with their colours as the panel prints them, in the rows from [row]. *)
Fixpoint printed (row w : Z) (l : list (bytes * Z)) : list draw :=
  match l with
  | [] => []
  | lc :: l =>
      Print (TUI_SIDEBAR_WIDTH + 1) (1 + row) (line_color lc.2 lc.1) 0 (take (Z.to_nat w) lc.1)
      :: printed (row + 1) w l
  end.
(** The scrollback: each line with its stored colour. *)
Definition scrollback (s : screen) (ls : list (nat * bytes)) : list (bytes * Z) :=
  zip ls.*2 (t_chat_line_colors (sc_g s)).

Lemma chat_rep_at s ls i p : chat_rep s ls -> ls !! i = Some p ->
  t_chat_lines (sc_g s) !! i = Some (Some p.1) /\ sc_heap s !! p.1 = Some p.2 /\
  exists fg, t_chat_line_colors (sc_g s) !! i = Some fg /\ scrollback s ls !! i = Some (p.2, fg).
Proof.
  intros [] Hp. pose proof (lookup_lt_Some _ _ _ Hp). split_and!.
  - rewrite cr_lines0, lookup_app_l by (by rewrite !length_fmap).
    by rewrite !list_lookup_fmap, Hp.
  - rewrite cr_heap0. apply elem_of_list_to_map_1; [done|]. apply list_elem_of_lookup. exists i.
    by destruct p.
  - destruct (lookup_lt_is_Some_2 (t_chat_line_colors (sc_g s)) i) as [fg Hfg]; [lia|].
    exists fg. split; [done|]. unfold scrollback. apply lookup_zip_with_Some.
    exists p.2, fg. by rewrite list_lookup_fmap, Hp.
Qed.

Lemma length_scrollback s ls : chat_rep s ls -> length (scrollback s ls) = length ls.
Proof. intros []. unfold scrollback. rewrite length_zip_with, length_fmap. lia. Qed.

Lemma draw_lines_spec ls n : forall s i row w, chat_rep s ls -> (i + n <= length ls)%nat ->
  tw (draw_lines n (Z.of_nat i) row w) (fun _ s' =>
    s' = s <| sc_out := sc_out s ++ printed row w (take n (drop i (scrollback s ls))) |>) s.
Proof.
  induction n as [|n IH]; intros s i row w Hc Hn.
  { cbn. rewrite app_nil_r. by destruct s. }
  destruct (lookup_lt_is_Some_2 ls i) as [p Hp]; [lia|].
  destruct (chat_rep_at s ls i p Hc Hp) as (Hl & Hh & fg & Hfg & Hz).
  rewrite (drop_S _ _ _ Hz). cbn [draw_lines take printed fst snd].
  tsteps. apply tw_at with (x := Some p.1); [lia|by rewrite Nat2Z.id|]. tsteps.
  unfold tw at 1, deref. rewrite Hh. tsteps.
  apply tw_at with (x := fg); [lia|by rewrite Nat2Z.id|]. tsteps.
  replace (Z.of_nat i + 1) with (Z.of_nat (S i)) by lia.
  eapply tw_mono; [apply (IH _ (S i)); [destruct Hc; by constructor|lia]|]. cbn beta. intros _ s' ->.
  unfold set_field. cbn. by rewrite <-app_assoc.
Qed.

(** The panel shows the last lines above the scroll offset. *)
Definition chat_h (t : tui_state) : Z := Z.max 5 (t_rows t - TUI_INPUT_HEIGHT) - 2.
Definition chat_w (t : tui_state) : Z := Z.max 20 (t_cols t - TUI_SIDEBAR_WIDTH) - 2.
Definition shown_offset (t : tui_state) : Z :=
  Z.max 0 (Z.min (t_chat_scroll_offset t) (Z.max 0 (t_chat_line_count t - chat_h t))).
Definition window {A} (h off : nat) (l : list A) : list A :=
  let top := (length l - off - h)%nat in take h (drop top l).

Lemma draw_chat_spec s ls : chat_rep s ls -> t_active (sc_g s) = true ->
  tw tui_draw_chat (fun _ s' => exists border,
    s' = s <| sc_g := sc_g s <| t_chat_scroll_offset := shown_offset (sc_g s) |> |>
           <| sc_out := sc_out s ++ border ++
                printed 0 (chat_w (sc_g s))
                  (window (Z.to_nat (chat_h (sc_g s))) (Z.to_nat (shown_offset (sc_g s)))
                     (scrollback s ls)) |>) s.
Proof.
  intros Hc Ha. pose proof (cr_count _ _ Hc) as Hn. unfold tui_draw_chat. tsteps.
  unfold id. rewrite Ha. cbn [negb]. tsteps. set (off := Z.max 0 (Z.min _ _)).
  assert (off = shown_offset (sc_g s)) as Eo by done.
  assert (0 <= off <= Z.max 0 (len ls - chat_h (sc_g s))) as Hoff.
  { rewrite Eo. unfold shown_offset. rewrite Hn. lia. }
  assert (3 <= chat_h (sc_g s)) by (unfold chat_h; lia).
  change (Z.max 5 (t_rows (sc_g s) - TUI_INPUT_HEIGHT) - 2) with (chat_h (sc_g s)).
  change (Z.max 20 (t_cols (sc_g s) - TUI_SIDEBAR_WIDTH) - 2) with (chat_w (sc_g s)).
  rewrite Hn. set (top := Z.max 0 _). unfold len in *.
  replace top with (Z.of_nat (Z.to_nat top)) by lia.
  eapply tw_mono; [apply (draw_lines_spec ls); [destruct Hc; by constructor|lia]|].
  cbn beta. intros _ s' ->. eexists. unfold set_field. cbn. rewrite <-app_assoc.
  unfold id. rewrite Eo. do 4 f_equal. unfold window, scrollback at 1. cbn.
  fold (scrollback s ls). rewrite (length_scrollback s ls Hc).
  replace (length ls - Z.to_nat (shown_offset (sc_g s)) - Z.to_nat (chat_h (sc_g s)))%nat
    with (Z.to_nat top) by lia.
  destruct (Z.le_gt_cases (Z.of_nat (length ls)) (top + chat_h (sc_g s))) as [Hle|Hgt].
  - rewrite !take_ge; [done|..]; rewrite length_drop, (length_scrollback s ls Hc); lia.
  - f_equal. lia.
Qed.

Lemma draw_chat_drawn s : tui_ok s -> tw tui_draw_chat (fun _ s' => drawn s s') s.
Proof.
  intros [[ls Hc] _ HP]. destruct (t_active (sc_g s)) eqn:Ha.
  - eapply tw_mono; [by apply (draw_chat_spec s ls)|]. cbn beta. intros _ s' (b & ->).
    eexists _, (shown_offset (sc_g s)), (t_contacts (sc_g s)), (t_cols (sc_g s)), (t_rows (sc_g s)).
    split; [|split; [|by destruct HP]].
    { unfold redrawn, set_field. by destruct s as [[]]. }
    pose proof (cr_count _ _ Hc). pose proof (cr_room _ _ Hc). destruct HP.
    unfold shown_offset, TUI_CHAT_SCROLLBACK in *. lia.
  - unfold tui_draw_chat. tsteps. unfold id. rewrite Ha. by apply drawn_refl.
Qed.

Lemma draw_sidebar_drawn c s : tui_ok s -> tw (tui_draw_sidebar c) (fun _ s' => drawn s s') s.
Proof.
  intros [_ _ HP]. unfold tui_draw_sidebar. tsteps. destruct (t_active (sc_g s)); cbn [negb]; tsteps.
  - assert (forall o, drawn s (s <| sc_g := sc_g s <| t_contacts := tui_load_contacts c |> |>
                                 <| sc_out := o |>)) as Hd.
    { intros o. exists o, (t_chat_scroll_offset (sc_g s)), (tui_load_contacts c), (t_cols (sc_g s)),
        (t_rows (sc_g s)). split; [unfold redrawn, set_field; by destruct s as [[]]|].
      split; [by destruct HP|apply contacts_bound]. }
    repeat case_match; tsteps; apply Hd.
  - by apply drawn_refl.
Qed.

Lemma has_nul t : line_ok t -> existsb (Byte.eqb NUL) (t_input_buf t) = true.
Proof.
  intros []. apply existsb_exists. exists NUL. split; [|done].
  apply list_elem_of_In, list_elem_of_lookup. eauto.
Qed.

Section Panels.
Context (mbrtowc : bytes -> Z * Z) (wcwidth : Z -> Z).
Abbreviation tui_draw_input := (tui_draw_input mbrtowc wcwidth).
Abbreviation tui_refresh_all := (tui_refresh_all mbrtowc wcwidth).

Lemma draw_input_drawn s : tui_ok s -> tw tui_draw_input (fun _ s' => drawn s s') s.
Proof.
  intros [_ HL HP]. unfold Tui.tui_draw_input. tsteps. unfold id.
  destruct (t_active (sc_g s)); cbn [negb]; tsteps; [|by apply drawn_refl].
  set (Q := fun (_ : unit) s' => exists o, s' = s <| sc_out := o |>).
  apply tw_mono with (P := Q).
  { case_match; [|by eexists]. unfold print_bounded. tsteps. apply tw_defined; [by rewrite has_nul|].
    tsteps. by eexists. }
  intros _ s' [o ->]. apply tw_mono with (P := Q).
  - case_match; tsteps; [|by eexists]. unfold input_display_width_up_to. tsteps.
    apply tw_defined; [destruct HL; cbn; unfold INPUT_BUF in *; lia|]. tsteps. by eexists.
  - intros _ s' [o' ->]. by apply drawn_out.
Qed.

Lemma drawn_size s : panel_ok (sc_g s) -> tw take_size (fun _ s' => drawn s s') s.
Proof.
  intros []. exists (sc_out s), (t_chat_scroll_offset (sc_g s)), (t_contacts (sc_g s)),
    (sc_size s).1, (sc_size s).2. by destruct s as [[]].
Qed.

(** A sequence of drawing operations draws. *)
Lemma drawn_seq {A} (m : T unit) (k : unit -> T A) s :
  tui_ok s -> tw m (fun _ s' => drawn s s') s ->
  (forall s', tui_ok s' -> tw (k tt) (fun _ s'' => drawn s' s'') s') ->
  tw (mbind k m) (fun _ s' => drawn s s') s.
Proof.
  intros Hok Hm Hk. apply tw_bind. eapply tw_mono; [exact Hm|]. intros [] s1 H1. cbn beta.
  eapply tw_mono; [apply Hk; by apply (drawn_ok s)|]. intros a s2 H2. by eapply drawn_trans.
Qed.
Lemma drawn_tell l s : tui_ok s -> tw (tell l) (fun _ s' => drawn s s') s.
Proof. intros []. by apply drawn_out. Qed.

Hint Resolve draw_chat_drawn draw_sidebar_drawn draw_input_drawn drawn_tell : tui.
Hint Extern 4 (tw take_size _ _) => apply drawn_size, ok_panel : tui.
Hint Extern 4 (tw done_ _ _) => apply drawn_refl, ok_panel : tui.

Ltac drawing := repeat (apply drawn_seq; [done|by auto with tui|clear; intros ? ?]); auto with tui.

Lemma refresh_drawn c s : tui_ok s -> tw (tui_refresh_all c) (fun _ s' => drawn s s') s.
Proof.
  intros Hok. unfold Tui.tui_refresh_all. apply tw_bind, tw_g.
  destruct (t_active (sc_g s)); cbn [negb]; drawing.
Qed.

End Panels.

(** ** The scrollback *)

Section Scrollback.
Context (oom : nat -> bool).

Definition lastn {A} (n : nat) (l : list A) : list A := drop (length l - n) l.

(** What adding lines changes. *)
Definition appended (s s' : screen) : Prop := exists lines colors count heap next,
  s' = s <| sc_heap := heap |> <| sc_next := next |>
         <| sc_g := sc_g s <| t_chat_lines := lines |> <| t_chat_line_colors := colors |>
                           <| t_chat_line_count := count |> |>.

Lemma appended_refl s : appended s s.
Proof.
  exists (t_chat_lines (sc_g s)), (t_chat_line_colors (sc_g s)), (t_chat_line_count (sc_g s)),
    (sc_heap s), (sc_next s). by destruct s as [[]].
Qed.
Lemma appended_trans s1 s2 s3 : appended s1 s2 -> appended s2 s3 -> appended s1 s3.
Proof.
  intros (l1 & c1 & n1 & h1 & x1 & ->) (l2 & c2 & n2 & h2 & x2 & ->).
  by exists l2, c2, n2, h2, x2.
Qed.
Lemma appended_active s s' : appended s s' -> t_active (sc_g s') = t_active (sc_g s).
Proof. by intros (? & ? & ? & ? & ? & ->). Qed.

(** The slot behind the lines [ls] is free to be written. *)
Record slot_rep (s : screen) (ls : list (nat * bytes)) : Prop := {
  sl_slot v : <[length ls := v]> (t_chat_lines (sc_g s))
              = (Some <$> ls.*1) ++ v :: replicate (511 - length ls) None;
  sl_len : length (t_chat_lines (sc_g s)) = 512%nat;
  sl_room : (length ls <= 511)%nat;
  sl_heap : sc_heap s = list_to_map ls;
  sl_nodup : NoDup ls.*1;
  sl_fresh : Forall (fun p => (p < sc_next s)%nat) ls.*1;
  sl_count : t_chat_line_count (sc_g s) = len ls;
  sl_colors : length (t_chat_line_colors (sc_g s)) = 512%nat }.

Lemma length_shift_down {A} (l : list A) : length l = 512%nat -> length (shift_down l) = 512%nat.
Proof. intros. unfold shift_down. rewrite length_app, length_take, !length_drop. lia. Qed.

Lemma insert_at_end {A} (l r : list A) x y : <[length l := y]> (l ++ x :: r) = l ++ y :: r.
Proof. rewrite insert_app_r_alt by lia. by rewrite Nat.sub_diag. Qed.

Lemma shift_down_insert {A} (x : A) l v :
  length l = 511%nat -> <[511%nat := v]> (shift_down (x :: l)) = l ++ [v].
Proof.
  intros Hl. unfold shift_down. change (drop 1 (x :: l)) with (drop 0 l). rewrite drop_0, take_ge by lia.
  destruct (drop 511 (x :: l)) as [|y [|]] eqn:E; apply (f_equal length) in E;
    rewrite length_drop in E; cbn [length] in E; try lia.
  rewrite <-Hl. apply insert_at_end.
Qed.

Lemma slot_of_rep s ls : chat_rep s ls -> (length ls < 512)%nat -> slot_rep s ls.
Proof.
  intros [] Hl. constructor; try done; try lia.
  - intros v. rewrite cr_lines0. replace (512 - length ls)%nat with (S (511 - length ls)) by lia.
    cbn [replicate]. rewrite <-(length_fmap fst ls), <-(length_fmap Some ls.*1) at 1.
    apply insert_at_end.
  - rewrite cr_lines0, length_app, length_replicate, !length_fmap. lia.
Qed.

(** The first half of push_line. *)
Definition make_room : T unit :=
  count ← g t_chat_line_count;
  if TUI_CHAT_SCROLLBACK <=? count then
    lines ← g t_chat_lines;
    p ← at_ lines 0;
    _ ← free p;
    set_g (fun t => t <| t_chat_lines := shift_down (t_chat_lines t) |>
                      <| t_chat_line_colors := shift_down (t_chat_line_colors t) |>
                      <| t_chat_line_count := TUI_CHAT_SCROLLBACK - 1 |>)
  else done_.

Lemma make_room_spec s ls : chat_rep s ls ->
  tw make_room (fun _ s' => slot_rep s' (lastn 511 ls) /\ appended s s') s.
Proof.
  intros Hc. pose proof (cr_room _ _ Hc). pose proof (cr_count _ _ Hc) as Hn. unfold make_room. tsteps.
  rewrite Hn. unfold TUI_CHAT_SCROLLBACK, len, lastn. case_match eqn:E.
  - apply Z.leb_le in E. assert (length ls = 512)%nat as Hl by lia. rewrite Hl. change (512 - 511)%nat with 1%nat.
    destruct ls as [|[p b] tl]; [done|]. cbn in Hl.
    change (drop 1 ((p, b) :: tl)) with (drop 0 tl). rewrite drop_0.
    destruct Hc as [Hlines _ Hheap Hnd Hfr _ Hcol _]. cbn in Hlines, Hnd, Hfr.
    tsteps. apply tw_at with (x := Some p); [done|by rewrite Hlines|]. tsteps.
    unfold tw, free. rewrite Hheap. cbn [list_to_map foldr fst snd]. rewrite lookup_insert_eq.
    apply NoDup_cons in Hnd as [Hp Hnd]. apply Forall_cons in Hfr as [_ Hfr]. split.
    + constructor; cbn [sc_g sc_heap sc_next].
      * intros v. change (t_chat_lines _) with (shift_down (t_chat_lines (sc_g s))).
        rewrite Hlines.
        replace (length tl) with 511%nat by lia. rewrite Nat.sub_diag. cbn [replicate].
        rewrite app_nil_r. apply shift_down_insert. rewrite !length_fmap. lia.
      * apply length_shift_down. cbn. rewrite Hlines. cbn.
        rewrite length_app, !length_fmap, length_replicate. lia.
      * cbn. lia.
      * cbn. rewrite delete_insert_id; [done|]. by apply not_elem_of_list_to_map_1.
      * done.
      * done.
      * cbn. unfold len. cbn. lia.
      * by apply length_shift_down.
    + by eexists (shift_down (t_chat_lines (sc_g s))), (shift_down (t_chat_line_colors (sc_g s))), _, _,
        (sc_next s).
  - apply Z.leb_gt in E. replace (length ls - 511)%nat with 0%nat by lia. rewrite drop_0. tsteps.
    split; [apply slot_of_rep; [done|lia]|apply appended_refl].
Qed.

Lemma push_line_eq text fg s :
  push_line oom text fg s =
  mbind (fun _ : unit =>
    count ← g t_chat_line_count;
    lines ← g t_chat_lines;
    colors ← g t_chat_line_colors;
    _ ← defined (in_range count (len lines) && in_range count (len colors));
    p ← strdup oom text;
    _ ← set_g (fun t => t <| t_chat_lines := <[Z.to_nat count := p]> lines |>);
    match p with
    | None => mret false
    | Some _ =>
        _ ← set_g (fun t => t <| t_chat_line_colors := <[Z.to_nat count := fg]> colors |>
                              <| t_chat_line_count := count + 1 |>);
        mret true
    end) make_room s.
Proof. unfold push_line, make_room, mbind, Pt_bind, g. by case_match. Qed.

(** The lines behind a successful or a failed push. *)
Definition pushed (ok : bool) (text : bytes) (l : list bytes) : list bytes :=
  if ok then lastn 512 (l ++ [text]) else lastn 511 l.

Lemma push_line_spec s ls text fg : chat_rep s ls -> t_active (sc_g s) = true ->
  tw (push_line oom text fg) (fun ok s' => appended s s' /\
    ((forall k, oom k = false) -> ok = true) /\
    exists ls', chat_rep s' ls' /\ ls'.*2 = pushed ok text ls.*2) s.
Proof.
  intros Hc Ha. unfold tw. rewrite push_line_eq. apply tw_bind.
  eapply tw_mono; [by apply make_room_spec|]. cbn beta. intros _ s1 [Hs H1].
  pose proof (appended_active _ _ H1) as Ha1. rewrite Ha in Ha1.
  set (l1 := lastn 511 ls) in *. pose proof Hs as [Hsl Hlen Hroom Hheap Hnd Hfr Hn Hcol].
  unfold len in *. tsteps. apply tw_defined.
  { unfold in_range, len. rewrite Hn, Hlen, Hcol, andb_diag. apply andb_true_intro.
    split; [apply Z.leb_le|apply Z.ltb_lt]; [apply Nat2Z.is_nonneg|].
    apply (proj1 (Nat2Z.inj_lt _ 512)), le_n_S, Hroom. }
  cbv beta. rewrite Hn, Nat2Z.id. apply tw_bind. unfold tw at 1, strdup.
  assert (sc_next s1 ∉ l1.*1) as Hnew.
  { intros Hin. rewrite Forall_forall in Hfr. specialize (Hfr _ Hin). lia. }
  destruct (oom (sc_next s1)) eqn:Eoom; tsteps.
  - split; [destruct H1 as (? & ? & ? & ? & ? & ->); by eexists _, _, _, _, _|].
    split; [intros Ho; by rewrite Ho in Eoom|].
    exists l1. split; [|unfold pushed, l1, lastn; by rewrite fmap_drop, length_fmap].
    constructor; cbn; try done; try lia.
    + rewrite Hsl. replace (512 - length l1)%nat with (S (511 - length l1)) by lia. done.
    + eapply Forall_impl; [exact Hfr|]. cbn. lia.
  - split; [destruct H1 as (? & ? & ? & ? & ? & ->); by eexists _, _, _, _, _|]. split; [done|].
    exists (l1 ++ [(sc_next s1, text)]). split.
    + constructor; cbn.
      * rewrite Hsl, !fmap_app, <-app_assoc, length_app. cbn. do 3 f_equal. lia.
      * rewrite length_app. cbn. lia.
      * rewrite Hheap. symmetry. apply list_to_map_snoc. done.
      * rewrite fmap_app. apply NoDup_app. split_and!; [done|set_solver|apply NoDup_singleton].
      * rewrite fmap_app. apply Forall_app. split; [eapply Forall_impl; [exact Hfr|]; cbn; lia|].
        constructor; [cbn; lia|constructor].
      * unfold len. rewrite length_app. cbn. lia.
      * by rewrite length_insert.
      * done.
    + unfold pushed, l1, lastn. rewrite fmap_app, fmap_drop, length_app, length_fmap. cbn.
      rewrite <-drop_app_le by (rewrite length_fmap; lia). f_equal. lia.
Qed.

(** ** Wrapping *)

Lemma bytes_eqb_ne a b : a <> b -> bytes_eqb a b = false.
Proof. intros. by apply bool_decide_false. Qed.

Lemma lastn_app_lastn {A} n (a b : list A) : lastn n (lastn n a ++ b) = lastn n (a ++ b).
Proof.
  unfold lastn. rewrite !length_app, !length_drop.
  destruct (decide (length b <= n)%nat) as [Hb|Hb].
  - rewrite <-(drop_app_le a b) by lia. rewrite drop_drop. f_equal. lia.
  - rewrite !drop_app_ge by (rewrite ?length_drop; lia). rewrite length_drop. f_equal. lia.
Qed.

Lemma break_point_le ws p : (break_point ws p <= ws)%nat.
Proof. induction ws; cbn; [lia|]. case_match; lia. Qed.
Lemma row_take_bounds chunk p : p <> [] -> (1 <= chunk)%nat ->
  (1 <= row_take chunk p <= chunk /\ row_take chunk p <= length p)%nat.
Proof.
  intros Hp Hc. destruct p as [|x p]; [done|]. unfold row_take.
  set (n := Nat.min chunk (length (x :: p))).
  assert (1 <= n <= chunk /\ n <= length (x :: p))%nat by (subst n; cbn [length]; lia).
  clearbody n. pose proof (break_point_le n (x :: p)).
  repeat case_bool_decide; lia.
Qed.

(** A message in pieces: what each row shows of it, and whether the space behind
    it was left out. *)
Definition unwrap (pieces : list (bytes * bool)) : bytes :=
  mbind (fun pc => pc.1 ++ if pc.2 : bool then [Byte.x20] else []) pieces.
Definition row_texts (head indent : bytes) (pieces : list (bytes * bool)) : list bytes :=
  match pieces.*1 with
  | [] => []
  | p :: ps => (head ++ p) :: ((fun p => indent ++ p) <$> ps)
  end.
Definition clip (l : list bytes) : list bytes := take 1023 <$> l.

Lemma row_texts_cons head indent pc pieces :
  row_texts head indent (pc :: pieces) = (head ++ pc.1) :: row_texts indent indent pieces.
Proof. unfold row_texts. cbn. by destruct pieces.*1. Qed.

Lemma wrap_rows_spec fuel : forall s ls head indent p chunk fg,
  chat_rep s ls -> t_active (sc_g s) = true -> (1 <= chunk)%nat -> (length p <= fuel)%nat ->
  tw (wrap_rows oom fuel head indent p chunk fg) (fun ok s' => appended s s' /\
    ((forall k, oom k = false) -> ok = true) /\
    exists ls', chat_rep s' ls' /\ (ok = true -> exists pieces, p = unwrap pieces /\
      Forall (fun pc => (1 <= length pc.1 <= chunk)%nat) pieces /\
      ls'.*2 = lastn 512 (ls.*2 ++ clip (row_texts head indent pieces)))) s.
Proof.
  induction fuel as [|fuel IH]; intros s ls head indent p chunk fg Hc Ha Hch Hf; cbn [wrap_rows].
  all: destruct p as [|x p]; cbn [bytes_eqb].
  1, 3: rewrite bytes_eqb_refl; tsteps; split; [apply appended_refl|]; split; [done|];
    exists ls; split; [done|]; intros _; exists []; split_and!; [done..|]; cbn; rewrite app_nil_r; unfold lastn;
    replace (length ls.*2 - 512)%nat with 0%nat by (rewrite length_fmap; destruct Hc; lia); done.
  { cbn in Hf. lia. }
  remember (x :: p) as q eqn:Eq. assert (q <> []) as Hq by (by subst).
  rewrite (bytes_eqb_ne q []) by done.
  destruct (row_take_bounds chunk q Hq Hch) as [[Hn1 Hn2] Hn3].
  set (n := row_take chunk q) in *. rewrite bool_decide_false by lia.
  rewrite (bytes_eqb_ne _ []); last first.
  { intros E. apply (f_equal length) in E.
    rewrite length_take, length_app, length_take in E. cbn [length] in E. lia. }
  apply tw_bind. eapply tw_mono; [by apply push_line_spec|]. cbn beta.
  intros ok s1 (H1 & Ho & l1 & Hc1 & E1).
  set (m := row_next n q).
  assert (exists b : bool, take m q = take n q ++ (if b then [Byte.x20] else []) /\ (1 <= m)%nat)
    as (b & Eb & Hm).
  { subst m. unfold row_next. destruct (q !! n) as [c|] eqn:Ec; [case_match eqn:Esp|].
    - exists true. destruct (byte_eqb_spec c Byte.x20) as [->|]; [|done].
      rewrite (take_S_r _ _ _ Ec). split; [done|lia].
    - exists false. by rewrite app_nil_r.
    - exists false. by rewrite app_nil_r. }
  assert (length (drop m q) <= fuel)%nat as Hf' by (rewrite length_drop; lia).
  destruct ok; cbn [negb].
  - eapply tw_mono; [apply (IH s1 l1); try done; by rewrite (appended_active _ _ H1)|]. cbn beta.
    intros ok s2 (H2 & Ho2 & ls2 & Hc2 & Hp). split; [by eapply appended_trans|].
    split; [done|]. exists ls2. split; [done|]. intros Hok.
    destruct (Hp Hok) as (pieces & Ep & Hall & El). exists ((take n q, b) :: pieces). split_and!.
    + cbn. fold (unwrap pieces). rewrite <-Ep, <-Eb. by rewrite take_drop.
    + constructor; [cbn; rewrite length_take; lia|done].
    + rewrite El, E1, row_texts_cons. cbn [pushed fst clip fmap list_fmap].
      rewrite lastn_app_lastn, <-app_assoc. done.
  - tsteps. split; [done|]. split; [done|]. by exists l1.
Qed.

(** What neither drawing nor adding lines changes. *)
Definition outer (s : screen) :=
  let t := sc_g s in
  (t_input_buf t, t_input_len t, t_input_cursor t, t_focus t, t_selected_idx t, t_active t,
   sc_ops s, sc_shutdown s).
(** Code that shows something. *)
Definition shows (s s' : screen) : Prop := tui_ok s' /\ outer s' = outer s.

Lemma shows_drawn s s' : tui_ok s -> drawn s s' -> shows s s'.
Proof.
  intros Hok Hd. split; [by eapply drawn_ok|]. by destruct Hd as (? & ? & ? & ? & ? & -> & _).
Qed.
Lemma shows_appended s s' ls : tui_ok s -> appended s s' -> chat_rep s' ls -> shows s s'.
Proof.
  intros [_ HL HP] Ha Hc. split; [|by destruct Ha as (? & ? & ? & ? & ? & ->)].
  destruct Ha as (? & ? & ? & ? & ? & ->).
  constructor; [by exists ls|destruct HL; by constructor|destruct HP; by constructor].
Qed.
Lemma shows_trans s1 s2 s3 : shows s1 s2 -> shows s2 s3 -> shows s1 s3.
Proof. intros [_ E1] [? E2]. split; congruence. Qed.
Lemma shows_offset s : tui_ok s -> shows s (s <| sc_g := sc_g s <| t_chat_scroll_offset := 0 |> |>).
Proof.
  intros [[ls []] [] []]. split; [|done]. constructor; [exists ls|..]; by constructor.
Qed.

Lemma width_over cols n : (n < wrap_width cols n)%nat.
Proof. unfold wrap_width. case_bool_decide; lia. Qed.

Lemma append_shows line fg s :
  tui_ok s -> tw (tui_chat_append_colored oom line fg) (fun _ s' => shows s s') s.
Proof.
  intros Hok. pose proof Hok as [[ls Hc] _ HP]. unfold tui_chat_append_colored. tsteps. unfold id.
  destruct (t_active (sc_g s)) eqn:Ha; cbn [negb orb]; [|by apply (shows_drawn s), drawn_refl].
  destruct (bytes_eqb line []); [by apply (shows_drawn s), drawn_refl|].
  destruct (split_prefix line) as [n start]. case_match.
  - apply tw_bind. eapply tw_mono; [by apply push_line_spec|]. cbn beta.
    intros ok s' (? & _ & ls' & ? & _). tsteps. by eapply shows_appended.
  - rewrite bool_decide_true by apply width_over. pose proof (width_over (t_cols (sc_g s)) n).
    apply tw_bind. eapply tw_mono; [apply (wrap_rows_spec _ s ls); [done..|lia|lia]|]. cbn beta.
    intros ok s' (? & _ & ls' & ? & _). assert (shows s s') as Hs by (by eapply shows_appended).
    destruct ok; tsteps; [|done]. eapply shows_trans; [exact Hs|]. apply shows_offset, Hs.
Qed.

(** The last bracket of a line is inside it. *)
Lemma last_bracket_bound (s : bytes) : forall pos acc b, last_bracket pos s acc = Some b ->
  (b + 2 <= pos + length s)%nat \/ acc = Some b.
Proof.
  induction s as [s IH] using (induction_ltof1 _ (@length _)); unfold ltof in IH.
  intros pos acc b. destruct s as [|x [|y s]]; [by right..|].
  change (last_bracket pos (x :: y :: s) acc) with
    (if Byte.eqb x Byte.x5d && Byte.eqb y Byte.x20 then last_bracket (pos + 2) s (Some pos)
     else last_bracket (pos + 1) (y :: s) acc).
  case_match; intros E; apply IH in E; cbn [length] in *; try lia.
  - destruct E as [?|[= ->]]; left; lia.
  - destruct E as [?|?]; [left; lia|by right].
Qed.


End Scrollback.

(** ** The input line *)

(** The line is [bef ++ aft] with the cursor between them; what follows it in the
    buffer is stale, but the last byte is NUL. *)
Record line_rep (t : tui_state) (bef aft : bytes) : Prop := {
  lr_buf : exists stale, t_input_buf t = bef ++ aft ++ stale ++ [NUL];
  lr_size : len (t_input_buf t) = INPUT_BUF;
  lr_cursor : t_input_cursor t = len bef;
  lr_len : t_input_len t = len bef + len aft }.

Lemma line_rep_ok t bef aft : line_rep t bef aft -> line_ok t.
Proof.
  intros [[stale E] Hs Hc Hl]. constructor; [done|..].
  - rewrite Hc, Hl. unfold len. lia.
  - rewrite Hl, <-Hs, E. unfold len. rewrite !length_app. cbn. lia.
  - rewrite E, !app_assoc. rewrite E in Hs. unfold len, INPUT_BUF in Hs. rewrite !app_assoc, length_app in Hs.
    cbn in Hs. rewrite lookup_app_r by lia.
    by replace (4095 - length ((bef ++ aft) ++ stale))%nat with 0%nat by lia.
Qed.

Lemma line_ok_rep t : line_ok t -> exists bef aft, line_rep t bef aft.
Proof.
  intros [Hb Hc Hl He]. set (b := t_input_buf t) in *. unfold INPUT_BUF, len in *.
  exists (take (Z.to_nat (t_input_cursor t)) b),
    (take (Z.to_nat (t_input_len t - t_input_cursor t)) (drop (Z.to_nat (t_input_cursor t)) b)).
  constructor; fold b; [|unfold len, INPUT_BUF; lia|..].
  - exists (take (4095 - Z.to_nat (t_input_len t)) (drop (Z.to_nat (t_input_len t)) b)).
    assert (b = take 4095 b ++ [NUL]) as Hb'.
    { rewrite <-(take_drop 4095 b) at 1. f_equal. rewrite (drop_S _ _ _ He). f_equal.
      apply nil_length_inv. rewrite length_drop. lia. }
    rewrite Hb' at 1. rewrite !app_assoc. f_equal.
    rewrite <-(take_drop (Z.to_nat (t_input_cursor t)) (take 4095 b)), take_take, Nat.min_l by lia.
    rewrite <-app_assoc. f_equal. rewrite skipn_firstn_comm.
    rewrite <-(take_drop (Z.to_nat (t_input_len t - t_input_cursor t)) (take _ (drop _ b))).
    rewrite take_take, Nat.min_l by lia. f_equal. rewrite skipn_firstn_comm, drop_drop.
    f_equal; [lia|]. f_equal. lia.
  - unfold len. rewrite length_take. lia.
  - unfold len. rewrite !length_take, length_drop. lia.
Qed.

Lemma tw_input_store off v (Q : unit -> screen -> Prop) s :
  0 <= off -> off + len v <= len (t_input_buf (sc_g s)) ->
  Q tt (s <| sc_g := sc_g s <| t_input_buf := mem_write off v (t_input_buf (sc_g s)) |> |>) ->
  tw (input_store off v) Q s.
Proof.
  intros H1 H2 HQ. unfold input_store. tsteps. apply tw_defined; [|done].
  apply andb_true_intro. split; by apply Z.leb_le.
Qed.
Lemma tw_input_move dst src n (Q : unit -> screen -> Prop) s :
  let b := t_input_buf (sc_g s) in
  0 <= src -> 0 <= n -> src + n <= len b -> 0 <= dst -> dst + n <= len b ->
  Q tt (s <| sc_g := sc_g s <| t_input_buf := mem_write dst (mem_read src n b) b |> |>) ->
  tw (input_move dst src n) Q s.
Proof.
  intros b H1 H2 H3 H4 H5 HQ. unfold input_move. tsteps. apply tw_defined.
  { fold b. rewrite !andb_true_iff. split_and!; by apply Z.leb_le. }
  apply tw_input_store; [done| |done]. fold b. unfold mem_read, len in *.
  rewrite length_take, length_drop. lia.
Qed.

(** Removing [del] between [x] and [y], and inserting [v] between them. *)
Lemma cut_buffer x del y stale : del <> [] ->
  let b := x ++ del ++ y ++ stale ++ [NUL] in
  exists stale', mem_write (len x + len y) [NUL]
    (mem_write (len x) (mem_read (len x + len del) (len y) b) b) = x ++ y ++ stale' ++ [NUL].
Proof.
  intros Hd b. unfold b. rewrite mem_cut, <-len_app, (app_assoc x y).
  destruct (drop (length y) (del ++ y)) as [|c r] eqn:E.
  { apply (f_equal length) in E. rewrite length_drop, length_app in E. destruct del; [done|cbn in E; lia]. }
  exists (NUL :: r ++ stale). cbn [Datatypes.app]. rewrite mem_store_at. by rewrite <-!app_assoc.
Qed.

Lemma insert_buffer bef v aft stale : (length v <= length stale)%nat ->
  let b := bef ++ aft ++ stale ++ [NUL] in
  exists stale', mem_write (len bef) v
    (mem_write (len bef + len v) (mem_read (len bef) (len aft) b) b) = bef ++ v ++ aft ++ stale' ++ [NUL].
Proof.
  intros Hv b. exists (drop (length v) stale). unfold b.
  rewrite mem_insert by (rewrite length_app; lia). by rewrite drop_app_le by lia.
Qed.

(** What editing changes. *)
Definition edited (s s' : screen) : Prop := exists buf n cursor,
  s' = s <| sc_g := sc_g s <| t_input_buf := buf |> <| t_input_len := n |>
                           <| t_input_cursor := cursor |> |>.

Lemma edited_refl s : edited s s.
Proof.
  exists (t_input_buf (sc_g s)), (t_input_len (sc_g s)), (t_input_cursor (sc_g s)). by destruct s as [[]].
Qed.

Lemma edited_ok s s' bef aft : tui_ok s -> edited s s' -> line_rep (sc_g s') bef aft -> tui_ok s'.
Proof.
  intros [[ls []] _ []] (? & ? & ? & ->) Hl. constructor; [exists ls; by constructor| |by constructor].
  by eapply line_rep_ok.
Qed.

(** [del] is the last character of [bef], as far as bytes tell. *)
Definition last_char (b0 del : bytes) : Prop := exists c cs,
  del = c :: cs /\ Forall (fun c => continuation c = true) cs /\ (b0 = [] \/ continuation c = false).

Lemma lead_spec t bef aft i : forall s, sc_g s = t -> line_rep t bef aft -> (i < length bef)%nat ->
  tw (back_to_lead i) (fun j s' => s' = s /\ (j <= i)%nat /\
    (forall c, bef !! j = Some c -> j = 0%nat \/ continuation c = false) /\
    (forall k c, (j < k <= i)%nat -> bef !! k = Some c -> continuation c = true)) s.
Proof.
  induction i as [|i IH]; intros s Ht Hr Hi; cbn [back_to_lead].
  { tsteps. split_and!; [done..| |]; [by left|intros; lia]. }
  destruct (lookup_lt_is_Some_2 bef (S i) Hi) as [c Hc]. tsteps.
  apply tw_at with (x := c); [lia| |].
  { rewrite Nat2Z.id, Ht. destruct Hr as [[stale ->] _ _ _]. by apply lookup_app_l_Some. }
  destruct (continuation c) eqn:Ec.
  - eapply tw_mono; [apply IH; [done..|lia]|]. cbn beta. intros j s' (-> & Hj & H1 & H2).
    split_and!; [done|lia|done|]. intros k c' Hk Hc'.
    destruct (decide (k = S i)) as [->|]; [congruence|]. apply (H2 k c'); [lia|done].
  - tsteps. split_and!; [done|lia| |intros; lia]. intros c' Hc'. right. congruence.
Qed.

Lemma prev_char_spec s bef aft : line_rep (sc_g s) bef aft -> bef <> [] ->
  tw (utf8_prev_char_bytes (len bef)) (fun d s' => s' = s /\ exists b0 del,
    bef = b0 ++ del /\ d = len del /\ last_char b0 del) s.
Proof.
  intros Hr Hb. assert (1 <= length bef)%nat by (destruct bef; [done|cbn; lia]).
  unfold utf8_prev_char_bytes, len. rewrite (proj2 (Z.leb_gt _ _)) by lia. apply tw_bind.
  eapply tw_mono; [apply (lead_spec (sc_g s) bef aft); [done..|lia]|]. cbn beta.
  intros j s' (-> & Hj & H1 & H2). tsteps. split; [done|].
  destruct (lookup_lt_is_Some_2 bef j) as [c Hc]; [lia|].
  exists (take j bef), (drop j bef). rewrite take_drop. split; [done|].
  split; [rewrite length_drop; lia|]. rewrite (drop_S _ _ _ Hc).
  exists c, (drop (S j) bef). split_and!; [done| |].
  - apply Forall_lookup_2. intros k c' Hk. rewrite lookup_drop in Hk.
    pose proof (lookup_lt_Some _ _ _ Hk). apply (H2 (S j + k)%nat c'); [lia|done].
  - destruct (H1 c Hc) as [->|]; [left; by rewrite take_0|by right].
Qed.

(** [n] bytes are the first character of [aft], as far as the first byte tells. *)
Definition char_len (c : byte) : nat :=
  let b := byte.unsigned c in
  if b <? 0x80 then 1%nat else if b <? 0xE0 then 2%nat else if b <? 0xF0 then 3%nat else 4%nat.
Definition first_char (aft : bytes) : nat :=
  match aft with
  | [] => 0%nat
  | c :: _ => if bool_decide (char_len c <= length aft)%nat then char_len c else 1%nat
  end.

Lemma char_len_pos c : (1 <= char_len c)%nat.
Proof. unfold char_len. repeat case_match; lia. Qed.
Lemma first_char_bound c aft : (1 <= first_char (c :: aft) <= length (c :: aft))%nat.
Proof. unfold first_char. pose proof (char_len_pos c). case_bool_decide; cbn [length] in *; lia. Qed.

Lemma next_char_spec s bef aft : line_rep (sc_g s) bef aft -> aft <> [] ->
  tw (utf8_char_bytes (len bef) (len bef + len aft)) (fun d s' =>
    s' = s /\ d = Z.of_nat (first_char aft)) s.
Proof.
  intros Hr Ha. destruct aft as [|c aft]; [done|]. unfold utf8_char_bytes.
  rewrite (proj2 (Z.leb_gt _ _)) by (unfold len; cbn; lia). tsteps.
  apply tw_at with (x := c); [unfold len; lia| |].
  { destruct Hr as [[stale ->] _ _ _]. unfold len. rewrite Nat2Z.id, lookup_app_r by lia.
    by rewrite Nat.sub_diag. }
  tsteps. split; [done|]. set (n := if byte.unsigned c <? 0x80 then _ else _).
  assert (n = Z.of_nat (char_len c)) as -> by (subst n; unfold char_len; by repeat case_match).
  unfold first_char, len. case_bool_decide; case_match eqn:E; rewrite ?Z.ltb_lt, ?Z.ltb_ge in E;
    cbn [length] in *; lia.
Qed.

Lemma utf8_length cp : (1 <= length (utf8_encode cp) <= 4)%nat.
Proof. unfold utf8_encode. repeat case_match; cbn; lia. Qed.

(** Whether [v] fits into the line. *)
Definition fits (bef aft v : bytes) : bool := len bef + len aft + len v <=? INPUT_BUF - 1.

Lemma key_char_spec s bef aft ch :
  line_rep (sc_g s) bef aft -> t_focus (sc_g s) = TUI_FOCUS_INPUT -> printable ch = true ->
  tw (key_char ch) (fun r s' => r = Break /\ edited s s' /\
    line_rep (sc_g s') (if fits bef aft (utf8_encode ch) then bef ++ utf8_encode ch else bef) aft) s.
Proof.
  intros Hr Hf Hp. unfold key_char. tsteps. unfold id. rewrite Hf, Hp. cbn [negb].
  pose proof Hr as [[stale E] Hs Hc Hl]. set (v := utf8_encode ch). rewrite Hl. fold (fits bef aft v).
  rewrite bool_decide_true by done. cbn [negb].
  destruct (fits bef aft v) eqn:Ef; [|tsteps; split_and!; [done|apply edited_refl|done]].
  unfold fits in Ef. apply Z.leb_le in Ef. rewrite Hc.
  destruct (insert_buffer bef v aft stale) as [stale' Ei].
  { rewrite E in Hs. unfold len, INPUT_BUF in *. rewrite !length_app in Hs. cbn in Hs. lia. }
  unfold len, INPUT_BUF in Ef, Hs. apply tw_bind, tw_input_move; try (unfold len; lia).
  replace (len bef + len aft - len bef) with (len aft) by lia. cbv beta.
  apply tw_bind, tw_input_store; [unfold len; lia| |].
  { cbn. rewrite len_mem_write; unfold len, mem_read; rewrite ?length_take, ?length_drop; lia. }
  tsteps. split_and!; [done|by eexists _, _, _|]. constructor; cbn.
  - exists stale'. rewrite E, Ei, <-!app_assoc. done.
  - rewrite E, Ei. rewrite E in Hs. unfold len, INPUT_BUF. rewrite !length_app in *. cbn in *.
    apply (f_equal length) in Ei. unfold mem_write, mem_read, len in Ei.
    rewrite !length_app, !length_take, !length_drop, !length_app, !length_take, !length_drop in Ei.
    rewrite !length_app in Ei. cbn in Ei. lia.
  - by rewrite len_app.
  - rewrite len_app, Hl. lia.
Qed.

(** Backspace and Delete share the code that removes [del]. *)
Lemma cut_spec s x del y stale f (Q : case_end -> screen -> Prop) :
  t_input_buf (sc_g s) = x ++ del ++ y ++ stale ++ [NUL] -> len (t_input_buf (sc_g s)) = INPUT_BUF ->
  del <> [] -> (forall t, t_input_buf (f t) = t_input_buf t) ->
  (forall b1 b2 stale', b2 = x ++ y ++ stale' ++ [NUL] -> len b2 = INPUT_BUF ->
     Q Break (s <| sc_g := f (sc_g s <| t_input_buf := b1 |>) <| t_input_buf := b2 |> |>)) ->
  tw (_ ← input_move (len x) (len x + len del) (len y); _ ← set_g f;
      _ ← input_store (len x + len y) [NUL]; mret Break) Q s.
Proof.
  intros E Hs Hd Hf HQ. destruct (cut_buffer x del y stale Hd) as [stale' Ec]. rewrite <-E in Ec.
  pose proof Hs as Hs'. rewrite E in Hs. unfold INPUT_BUF, len in Hs, Hs'. rewrite !length_app in Hs. cbn in Hs.
  assert (1 <= length del)%nat by (destruct del; [done|cbn; lia]).
  apply tw_bind, tw_input_move; try (unfold len; lia).
  set (b1 := mem_write (len x) _ _) in *.
  assert (len b1 = INPUT_BUF) as Hb1.
  { subst b1. rewrite len_mem_write; unfold len, INPUT_BUF, mem_read; [lia..|].
    rewrite length_take, length_drop. lia. }
  tsteps. apply tw_input_store; [unfold len; lia| |].
  { cbn. rewrite Hf. cbn. unfold len, INPUT_BUF in *. cbn. lia. }
  tsteps. cbn. rewrite Hf. cbn. rewrite Ec.
  apply (HQ b1 _ stale'); [done|]. rewrite <-Ec. rewrite len_mem_write; [done|..];
    unfold len, INPUT_BUF in *; cbn; lia.
Qed.

Lemma key_backspace_spec s bef aft :
  line_rep (sc_g s) bef aft -> t_focus (sc_g s) = TUI_FOCUS_INPUT ->
  tw key_backspace (fun r s' => r = Break /\ edited s s' /\ exists b0 del,
    bef = b0 ++ del /\ (bef <> [] -> last_char b0 del) /\ line_rep (sc_g s') b0 aft) s.
Proof.
  intros Hr Hf. pose proof Hr as [[stale E] Hs Hc Hl]. unfold key_backspace. tsteps. unfold id.
  rewrite Hf, bool_decide_true, Hc, Hl by done. cbn [andb].
  destruct (decide (bef = [])) as [->|Hb].
  { cbn. split_and!; [done|apply edited_refl|]. by exists [], []. }
  assert (1 <= length bef)%nat by (destruct bef; [done|cbn; lia]).
  rewrite !(proj2 (Z.ltb_lt _ _)) by (unfold len; lia). cbn [andb]. apply tw_bind.
  eapply tw_mono; [by apply (prev_char_spec s bef aft)|]. cbn beta.
  intros d s' (-> & b0 & del & -> & -> & Hlast). rewrite len_app.
  assert (del <> []) as Hd by (by destruct Hlast as (? & ? & -> & _)).
  replace (len b0 + len del - len del) with (len b0) by lia.
  replace (len b0 + len del + len aft - (len b0 + len del)) with (len aft) by lia.
  replace (len b0 + len del + len aft - len del) with (len b0 + len aft) by lia.
  rewrite <-app_assoc in E. apply cut_spec with (stale := stale); [done..|].
  intros b1 b2 stale' Eb Hb2. split_and!; [done|by eexists _, _, _|].
  exists b0, del. split_and!; [done..|]. constructor; cbn; [by eexists|done|done|].
  rewrite Hl, len_app. lia.
Qed.

Lemma key_delete_spec s bef aft :
  line_rep (sc_g s) bef aft -> t_focus (sc_g s) = TUI_FOCUS_INPUT ->
  tw key_delete (fun r s' => r = Break /\ edited s s' /\
    line_rep (sc_g s') bef (drop (first_char aft) aft)) s.
Proof.
  intros Hr Hf. pose proof Hr as [[stale E] Hs Hc Hl]. unfold key_delete. tsteps. unfold id.
  rewrite Hf, bool_decide_true, Hc, Hl by done. cbn [andb].
  destruct aft as [|c aft].
  { rewrite (proj2 (Z.ltb_ge _ _)) by (unfold len; cbn; lia). tsteps.
    split_and!; [done|apply edited_refl|done]. }
  remember (c :: aft) as a eqn:Ea. assert (1 <= first_char a <= length a)%nat as Hn.
  { subst a. apply first_char_bound. }
  rewrite (proj2 (Z.ltb_lt _ _)) by (unfold len; lia). apply tw_bind.
  eapply tw_mono; [apply (next_char_spec s bef a); [done|by subst]|]. cbn beta. intros d s' (-> & ->).
  set (n := first_char a) in *. set (del := take n a). set (y := drop n a).
  assert (len del = Z.of_nat n) as Hd by (unfold len, del; rewrite length_take; lia).
  assert (a = del ++ y) as Hay by (symmetry; apply take_drop).
  assert (len a = len del + len y) as Hla by (by rewrite Hay, len_app).
  rewrite <-Hd, Hla. replace (len bef + (len del + len y) - len bef - len del) with (len y) by lia.
  replace (len bef + (len del + len y) - len del) with (len bef + len y) by lia.
  rewrite Hay, <-app_assoc in E. apply cut_spec with (stale := stale); [done..| |done|].
  { intros Hd0. apply (f_equal len) in Hd0. rewrite Hd in Hd0. change (len []) with 0 in Hd0. lia. }
  intros b1 b2 stale' Eb Hb2. split_and!; [done|by eexists b2, _, (t_input_cursor (sc_g s))|].
  constructor; cbn; [by eexists|done|done|]. rewrite Hl. lia.
Qed.
