(* ===== verification/TuiSession.v ===== *)
(** * Whole runs of the full-screen interface

    From start to shutdown nothing is undefined and no line stays allocated, and
    the input line behaves as a sequence of characters. *)

From stdpp Require Import gmap fin_maps.
From S2P Require Import Prelude Partial Primitives Types World Arena ArenaProofs StateMachine StdinHandler.
From S2P Require Import Control Frontend Tui TuiProofs.

(** ** Freeing lines *)

Lemma replicate_shift {A} i (x : A) l : replicate i x ++ x :: l = x :: replicate i x ++ l.
Proof. induction i as [|i IH]; cbn; [done|]. by rewrite IH. Qed.

Lemma free_lines_spec n : forall s i m (rest : list (nat * bytes)),
  t_chat_lines (sc_g s) = replicate i None ++ (Some <$> rest.*1) ++ replicate m None ->
  sc_heap s = list_to_map rest -> NoDup rest.*1 -> (n <= length rest + m)%nat ->
  tw (free_lines n (Z.of_nat i)) (fun _ s' =>
    s' = s <| sc_heap := list_to_map (drop n rest) |>
           <| sc_g := sc_g s <| t_chat_lines :=
                replicate (i + n) None ++ (Some <$> (drop n rest).*1)
                ++ replicate (m - (n - length rest)) None |> |>) s.
Proof.
  induction n as [|n IH]; intros s i m rest Hl Hh Hnd Hn; cbn [free_lines].
  { tsteps. rewrite Nat.add_0_r, drop_0, Nat.sub_0_l, Nat.sub_0_r, <-Hl, <-Hh. by destruct s as [[]]. }
  tsteps. replace (Z.of_nat i + 1) with (Z.of_nat (S i)) by lia. destruct rest as [|[p b] rest].
  - cbn [length plus] in Hn. destruct m as [|m]; [lia|].
    apply tw_at with (x := None); [lia| |].
    { rewrite Nat2Z.id, Hl, lookup_app_r; rewrite length_replicate; [by rewrite Nat.sub_diag|lia]. }
    tsteps. unfold tw at 1. cbn [free]. tsteps. rewrite Hl, Nat2Z.id.
    eapply tw_mono; [apply (IH _ (S i) m [])|]; cbn [sc_g sc_heap]; [|done|done|cbn; lia|].
    + cbn. rewrite <-(length_replicate i (None : option nat)) at 1. rewrite insert_at_end.
      apply replicate_shift.
    + cbn beta. intros _ s' ->. rewrite !drop_nil. unfold set_field. cbn.
      rewrite Nat.sub_0_r. by replace (i + S n)%nat with (S (i + n)) by lia.
  - cbn in Hl. apply tw_at with (x := Some p); [lia| |].
    { rewrite Nat2Z.id, Hl, lookup_app_r; rewrite length_replicate; [by rewrite Nat.sub_diag|lia]. }
    tsteps. unfold tw at 1, free. rewrite Hh. cbn [list_to_map foldr fst snd].
    rewrite lookup_insert_eq. apply NoDup_cons in Hnd as [Hp Hnd].
    tsteps. rewrite Hl, Nat2Z.id.
    eapply tw_mono; [apply (IH _ (S i) m rest)|]; [|cbn|done|cbn in Hn; lia|].
    + cbn. rewrite <-(length_replicate i (None : option nat)) at 1. rewrite insert_at_end.
      apply replicate_shift.
    + apply delete_insert_id. by apply not_elem_of_list_to_map_1.
    + cbn beta. intros _ s' ->. unfold set_field. cbn.
      by replace (i + S n)%nat with (S (i + n)) by lia.
Qed.

(** All lines freed: by a change of conversation or by the shutdown. *)
Lemma free_all n s ls : chat_rep s ls -> (length ls <= n <= 512)%nat ->
  tw (free_lines n 0) (fun _ s' =>
    s' = s <| sc_heap := ∅ |> <| sc_g := sc_g s <| t_chat_lines := replicate 512 None |> |>) s.
Proof.
  intros [] Hn. eapply tw_mono.
  { apply (free_lines_spec n s 0 (512 - length ls) ls); [done..|]. lia. }
  cbn beta. intros _ s' ->. rewrite drop_ge by lia. cbn. rewrite <-replicate_add.
  by replace (n + (512 - length ls - (n - length ls)))%nat with 512%nat by lia.
Qed.

Lemma clear_chat_shows s : tui_ok s -> t_active (sc_g s) = true -> tw clear_chat (fun _ s' =>
  shows s s' /\ t_contacts (sc_g s') = t_contacts (sc_g s)) s.
Proof.
  intros [[ls Hc] HL HP] Ha. unfold clear_chat. tsteps. rewrite (cr_count _ _ Hc). unfold len.
  rewrite Nat2Z.id. pose proof (cr_room _ _ Hc).
  eapply tw_mono; [apply (free_all _ s ls Hc); lia|]. cbn beta. intros _ s' ->. tsteps.
  destruct Hc, HL, HP. split; [|done]. split; [|done].
  constructor; [exists []; constructor; cbn; try done; try lia; constructor|by constructor..].
Qed.

(** ** Every key *)

(** The invariant holds, and neither the activity nor the front end changed. *)
Definition steady (s s' : screen) : Prop :=
  tui_ok s' /\ t_active (sc_g s') = t_active (sc_g s) /\ sc_ops s' = sc_ops s.

Lemma steady_refl s : tui_ok s -> steady s s.
Proof. done. Qed.
Lemma steady_trans s1 s2 s3 : steady s1 s2 -> steady s2 s3 -> steady s1 s3.
Proof. intros (? & ? & ?) (? & ? & ?). split; [done|]. split; congruence. Qed.
Lemma shows_steady s s' : shows s s' -> steady s s'.
Proof. intros [? E]. unfold outer in E. split; [done|]. split; congruence. Qed.
Lemma edited_steady s s' bef aft :
  tui_ok s -> edited s s' -> line_rep (sc_g s') bef aft -> steady s s'.
Proof. intros ? He ?. split; [by eapply edited_ok|]. by destruct He as (? & ? & ? & ->). Qed.

(** A change outside the scrollback. *)
Lemma steady_change s o t sd : tui_ok s -> line_ok t -> panel_ok t ->
  t_chat_lines t = t_chat_lines (sc_g s) -> t_chat_line_colors t = t_chat_line_colors (sc_g s) ->
  t_chat_line_count t = t_chat_line_count (sc_g s) -> t_active t = t_active (sc_g s) ->
  steady s (s <| sc_out := o |> <| sc_shutdown := sd |> <| sc_g := t |>).
Proof.
  intros [[ls []] _ _] HL HP E1 E2 E3 E4. split; [|done]. constructor; [|done..].
  exists ls. constructor; cbn; rewrite ?E1, ?E2, ?E3, ?E4; done.
Qed.
Ltac changed s :=
  match goal with
  | H : tui_ok s |- steady s ?s' =>
      replace s' with (s <| sc_out := sc_out s' |> <| sc_shutdown := sc_shutdown s' |> <| sc_g := sc_g s' |>)
        by (by destruct s);
      apply steady_change; [exact H|pose proof H as [_ [] []]; constructor|
        pose proof H as [_ [] []]; constructor|..]; cbn; try done; try lia
  end.

Section Session.
Context (oom : nat -> bool) (mbrtowc : bytes -> Z * Z) (wcwidth : Z -> Z).
Abbreviation tui_draw_input := (tui_draw_input mbrtowc wcwidth).
Abbreviation tui_refresh_all := (tui_refresh_all mbrtowc wcwidth).

Lemma steady_seq {A B} (m : T B) (k : B -> T A) s :
  tw m (fun _ s' => steady s s') s ->
  (forall b s', tui_ok s' -> tw (k b) (fun _ s'' => steady s' s'') s') ->
  tw (mbind k m) (fun _ s' => steady s s') s.
Proof.
  intros Hm Hk. apply tw_bind. eapply tw_mono; [exact Hm|]. intros b s1 H1. cbn beta.
  eapply tw_mono; [apply Hk, H1|]. intros a s2 H2. exact (steady_trans _ _ _ H1 H2).
Qed.
Lemma steady_ret {A} (a : A) s : tui_ok s -> tw (mret a) (fun _ s' => steady s s') s.
Proof. done. Qed.
Lemma steady_of_drawn (m : T unit) s : tui_ok s -> tw m (fun _ s' => drawn s s') s ->
  tw m (fun _ s' => steady s s') s.
Proof. intros Hok Hm. eapply tw_mono; [exact Hm|]. intros a s' Hd.
  apply shows_steady, shows_drawn; [exact Hok|exact Hd].
Qed.

Lemma set_focus_steady f s : tui_ok s -> tw (set_focus f) (fun _ s' => steady s s') s.
Proof. intros Hok. unfold set_focus. tsteps. changed s. Qed.

(** The offset is only clamped when the panel is drawn. *)
Lemma scroll_steady off s : tui_ok s -> t_active (sc_g s) = true ->
  tw tui_draw_chat (fun _ s' => steady s s')
    (s <| sc_g := sc_g s <| t_chat_scroll_offset := off |> |>).
Proof.
  intros Hok Ha. pose proof Hok as [[ls Hc] _ _]. eapply tw_mono.
  { apply (draw_chat_spec _ ls); [destruct Hc; by constructor|done]. }
  cbn beta. intros _ s' (b & ->).
  assert (forall t, t_chat_line_count t = len ls -> 0 <= shown_offset t <= 512) as Hsh.
  { intros t E. unfold shown_offset. rewrite E. destruct Hc. unfold len, chat_h. lia. }
  pose proof (Hsh _ (cr_count _ _ Hc)). changed s. apply Hsh. destruct Hc. done.
Qed.

Lemma key_up_steady s : tui_ok s -> t_active (sc_g s) = true -> tw key_up (fun _ s' => steady s s') s.
Proof.
  intros Hok Ha. unfold key_up. tsteps. case_match.
  - tsteps. unfold id. changed s. case_match; unfold len in *; lia.
  - unfold scroll_up. tsteps. eapply tw_mono; [by apply scroll_steady|]. done.
Qed.
Lemma key_down_steady s : tui_ok s -> t_active (sc_g s) = true -> tw key_down (fun _ s' => steady s s') s.
Proof.
  intros Hok Ha. unfold key_down. tsteps. case_match.
  - tsteps. unfold id. changed s. case_match; unfold len in *; lia.
  - unfold scroll_down. tsteps. eapply tw_mono; [by apply scroll_steady|]. done.
Qed.
Lemma key_left_steady s : tui_ok s -> tw key_left (fun _ s' => steady s s') s.
Proof.
  intros Hok. unfold key_left. tsteps. unfold id. case_match; [|by apply steady_ret].
  apply steady_seq; [|intros; by apply steady_ret].
  case_match; [|by apply set_focus_steady]. tsteps. changed s.
Qed.
Lemma key_right_steady s : tui_ok s -> tw key_right (fun _ s' => steady s s') s.
Proof.
  intros Hok. unfold key_right. tsteps. unfold id. case_match; apply steady_seq; try (intros; by apply steady_ret).
  - case_match; tsteps; [|by apply steady_refl]. changed s.
  - by apply set_focus_steady.
Qed.
(** A string stored with its NUL leaves the last byte of the buffer NUL. *)
Lemma store_keeps_end off x b :
  len b = INPUT_BUF -> b !! 4095%nat = Some NUL -> 0 <= off -> off + len x + 1 <= INPUT_BUF ->
  mem_write off (x ++ [NUL]) b !! 4095%nat = Some NUL.
Proof.
  unfold INPUT_BUF, len, mem_write. intros Hb He Ho Hx.
  rewrite lookup_app_r; rewrite length_take; [|lia]. rewrite Nat.min_l by lia.
  destruct (decide (Z.to_nat off + length x = 4095)%nat) as [E|].
  - rewrite lookup_app_l by (rewrite length_app; cbn; lia). rewrite lookup_app_r by lia.
    by replace (4095 - Z.to_nat off - length x)%nat with 0%nat by lia.
  - rewrite lookup_app_r; rewrite length_app; cbn; [|lia]. rewrite lookup_drop, <-He. f_equal. lia.
Qed.

Lemma cstr_before_nul b : forall k, b !! k = Some NUL -> (length (cstr b) <= k)%nat.
Proof.
  induction b as [|c b IH]; intros k Hk; [done|]. destruct k as [|k]; cbn in *.
  - by injection Hk as ->.
  - case_match; cbn; [lia|]. apply IH in Hk. lia.
Qed.

Lemma input_print_spec str s : tui_ok s -> tw (input_print str) (fun _ s' => exists b,
  s' = s <| sc_g := sc_g s <| t_input_buf := b |> |> /\
  len b = INPUT_BUF /\ b !! 4095%nat = Some NUL) s.
Proof.
  intros [_ [Hb _ _ He] _]. set (x := take (Z.to_nat (INPUT_BUF - 1)) str).
  assert (len x <= INPUT_BUF - 1) by (unfold len, x, INPUT_BUF; rewrite length_take; lia).
  unfold input_print. fold x. apply tw_input_store; [done|rewrite len_app; unfold len in *; cbn; lia|].
  eexists. split; [done|]. split; [|apply store_keeps_end; [done..|lia]].
  rewrite len_mem_write; [done|done|rewrite len_app; unfold len in *; cbn; lia].
Qed.

(** A new line in the buffer. *)
Lemma new_line_steady b n s : tui_ok s -> len b = INPUT_BUF -> b !! 4095%nat = Some NUL ->
  0 <= n <= INPUT_BUF - 1 ->
  steady s (s <| sc_g := sc_g s <| t_input_buf := b |> <| t_input_len := n |>
                                <| t_input_cursor := n |> |>).
Proof. intros Hok Hb He Hn. changed s. Qed.

Lemma enter_contact s tc : tui_ok s ->
  tw (_ ← input_print (lit "/connect " ++ tc_onion tc);
      _ ← set_g (fun t => t <| t_input_len := 0 |> <| t_input_cursor := 0 |>);
      _ ← set_focus TUI_FOCUS_INPUT; b ← g t_input_buf; mret (Ret (Some (cstr b))))
    (fun _ s' => steady s s') s.
Proof.
  intros Hok. apply tw_bind. eapply tw_mono; [by apply input_print_spec|]. cbn beta.
  intros _ s2 (b & -> & Hb & He). apply tw_bind, tw_set_g.
  pose proof (new_line_steady b 0 s Hok Hb He ltac:(unfold INPUT_BUF; lia)) as H2.
  apply tw_bind. eapply tw_mono; [apply set_focus_steady, H2|]. intros ? s3 H3. tsteps.
  eapply steady_trans; [exact H2|exact H3].
Qed.

Lemma enter_connect s : tui_ok s ->
  tw (_ ← input_print (lit "/connect "); b ← g t_input_buf;
      _ ← set_g (fun t => t <| t_input_len := len (cstr b) |> <| t_input_cursor := len (cstr b) |>);
      _ ← set_focus TUI_FOCUS_INPUT; _ ← tui_draw_input; mret Break)
    (fun _ s' => steady s s') s.
Proof.
  intros Hok. apply tw_bind. eapply tw_mono; [by apply input_print_spec|]. cbn beta.
  intros _ s2 (b & -> & Hb & He). apply tw_bind, tw_g, tw_bind, tw_set_g. cbn [sc_g t_input_buf].
  pose proof (cstr_before_nul _ _ He).
  pose proof (new_line_steady b (len (cstr b)) s Hok Hb He ltac:(unfold INPUT_BUF, len; lia)) as H2.
  eapply tw_mono.
  { apply steady_seq; [apply set_focus_steady, H2|]. intros _ s3 H3.
    apply steady_seq; [by apply steady_of_drawn, draw_input_drawn|]. intros. by apply steady_ret. }
  intros r s3 H3. eapply steady_trans; [exact H2|exact H3].
Qed.

Lemma key_enter_steady s : tui_ok s -> t_active (sc_g s) = true ->
  tw (key_enter mbrtowc wcwidth) (fun _ s' => steady s s') s.
Proof.
  intros Hok Ha. pose proof Hok as [_ HL HP]. unfold key_enter. tsteps. unfold id.
  case_match; [case_match eqn:Esel|case_match eqn:El].
  - apply tw_bind. eapply tw_mono; [by apply clear_chat_shows|]. cbn beta. intros _ s1 [H1 E1].
    apply shows_steady in H1. destruct HP. apply Z.ltb_lt in Esel. unfold len in Esel.
    destruct (lookup_lt_is_Some_2 (t_contacts (sc_g s)) (Z.to_nat (t_selected_idx (sc_g s)))) as [tc Htc];
      [lia|]. apply tw_bind, (tw_at _ _ tc); [lia|done|].
    eapply tw_mono; [apply enter_contact, H1|]. intros r s2 H2. eapply steady_trans; [exact H1|exact H2].
  - by apply enter_connect.
  - tsteps. by apply steady_refl.
  - pose proof HL as [Hb Hc Hl He]. apply tw_bind, tw_input_store; [lia|unfold len in *; cbn; lia|].
    tsteps. changed s.
    + rewrite len_mem_write; [done|lia|unfold len in *; cbn; lia].
    + apply (store_keeps_end _ []); [done..|lia|unfold len; cbn; lia].
Qed.

Lemma key_backspace_steady s : tui_ok s -> tw key_backspace (fun _ s' => steady s s') s.
Proof.
  intros Hok. destruct (line_ok_rep _ (ok_line _ Hok)) as (bef & aft & Hr).
  destruct (decide (t_focus (sc_g s) = TUI_FOCUS_INPUT)) as [Hf|Hf].
  - eapply tw_mono; [by apply (key_backspace_spec s bef aft)|]. cbn beta.
    intros r s' (_ & He & b0 & del & _ & _ & Hr'). by eapply edited_steady.
  - unfold key_backspace. tsteps. unfold id. rewrite bool_decide_false by done. by apply steady_ret.
Qed.
Lemma key_delete_steady s : tui_ok s -> tw key_delete (fun _ s' => steady s s') s.
Proof.
  intros Hok. destruct (line_ok_rep _ (ok_line _ Hok)) as (bef & aft & Hr).
  destruct (decide (t_focus (sc_g s) = TUI_FOCUS_INPUT)) as [Hf|Hf].
  - eapply tw_mono; [by apply (key_delete_spec s bef aft)|]. cbn beta.
    intros r s' (_ & He & Hr'). by eapply edited_steady.
  - unfold key_delete. tsteps. unfold id. rewrite bool_decide_false by done. by apply steady_ret.
Qed.
Lemma key_char_steady ch s : tui_ok s -> tw (key_char ch) (fun _ s' => steady s s') s.
Proof.
  intros Hok. destruct (line_ok_rep _ (ok_line _ Hok)) as (bef & aft & Hr).
  destruct (decide (t_focus (sc_g s) = TUI_FOCUS_INPUT)) as [Hf|Hf];
    [destruct (printable ch) eqn:Hp|].
  - eapply tw_mono; [by apply (key_char_spec s bef aft)|]. cbn beta.
    intros r s' (_ & He & Hr'). by eapply edited_steady.
  - unfold key_char. tsteps. unfold id. rewrite bool_decide_true, Hp by done. by apply steady_ret.
  - unfold key_char. tsteps. unfold id. rewrite bool_decide_false by done. by apply steady_ret.
Qed.
Lemma key_home_steady s : tui_ok s -> tw key_home (fun _ s' => steady s s') s.
Proof. intros Hok. unfold key_home. tsteps. case_match; tsteps; [changed s|by apply steady_refl]. Qed.
Lemma key_end_steady s : tui_ok s -> tw key_end (fun _ s' => steady s s') s.
Proof. intros Hok. unfold key_end. tsteps. case_match; tsteps; [changed s|by apply steady_refl]. Qed.

Lemma key_case_steady ch s : tui_ok s -> t_active (sc_g s) = true ->
  tw (key_case mbrtowc wcwidth ch) (fun _ s' => steady s s') s.
Proof.
  intros Hok Ha. unfold key_case. repeat case_match; try (by auto using
    key_up_steady, key_down_steady, key_left_steady, key_right_steady, key_enter_steady,
    key_backspace_steady, key_delete_steady, key_home_steady, key_end_steady, key_char_steady).
  - change (steady s (s <| sc_shutdown := true |>)). changed s.
  - unfold key_tab. apply tw_bind, tw_g.
    apply steady_seq; [by apply set_focus_steady|intros; by apply steady_ret].
  - unfold scroll_up. tsteps. eapply tw_mono; [by apply scroll_steady|]. done.
  - unfold scroll_down. tsteps. eapply tw_mono; [by apply scroll_steady|]. done.
Qed.

Lemma refresh_steady c s : tui_ok s -> tw (tui_refresh_all c) (fun _ s' => steady s s') s.
Proof. intros Hok. apply steady_of_drawn; [done|by apply refresh_drawn]. Qed.

Lemma handle_input_steady c ch s : tui_ok s ->
  tw (tui_handle_input mbrtowc wcwidth c ch) (fun _ s' => steady s s') s.
Proof.
  intros Hok. unfold tui_handle_input. apply tw_bind, tw_g.
  destruct (t_active (sc_g s)) eqn:Ha; cbn [negb]; [|by apply steady_ret].
  apply steady_seq; [by apply key_case_steady|]. clear s Hok Ha. intros [|line] s Hok; [|by apply steady_ret].
  apply steady_seq; [by apply steady_of_drawn, draw_input_drawn|]. clear s Hok. intros _ s Hok.
  apply steady_seq; [by apply steady_of_drawn, draw_sidebar_drawn|]. clear s Hok. intros _ s Hok.
  apply steady_seq; [by apply steady_of_drawn, drawn_tell|]. intros; by apply steady_ret.
Qed.

(** ** The rest of the program *)

Lemma append_steady line s : tui_ok s -> tw (tui_chat_append oom line) (fun _ s' => steady s s') s.
Proof.
  intros Hok. unfold tui_chat_append. eapply tw_mono; [by apply append_shows|]. cbn beta.
  intros _ s'. apply shows_steady.
Qed.

Lemma emit_steady c ev s : tui_ok s ->
  tw (frontend_emit oom mbrtowc wcwidth c ev) (fun _ s' => steady s s') s.
Proof.
  intros Hok. unfold tw, frontend_emit.
  destruct (sc_ops s) as [[|]|]; [by apply steady_of_drawn, drawn_tell| |by apply steady_refl].
  change (tw (fe_tui_emit oom mbrtowc wcwidth c ev) (fun _ s' => steady s s') s).
  unfold fe_tui_emit, tui_append_line. destruct (fe_type ev);
    try (apply steady_seq; [by apply append_steady|]; intros; by apply refresh_steady).
  by apply refresh_steady.
Qed.

Lemma show_steady o s : tui_ok s -> tw (show oom mbrtowc wcwidth o) (fun _ s' => steady s s') s.
Proof.
  intros Hok. destruct o as [c ev|tag module msg]; [by apply emit_steady|].
  unfold show, tui_log. apply tw_bind, tw_g. case_match; [by apply steady_ret|by apply append_steady].
Qed.
Lemma show_all_steady l : forall s, tui_ok s ->
  tw (show_all oom mbrtowc wcwidth l) (fun _ s' => steady s s') s.
Proof.
  induction l as [|o l IH]; intros s Hok; [by apply steady_ret|].
  apply steady_seq; [by apply show_steady|auto].
Qed.

Lemma print_system_steady c k l : forall s, tui_ok s ->
  tw (print_system_all oom mbrtowc wcwidth c k l) (fun _ s' => steady s s') s.
Proof.
  induction l as [|x l IH]; intros s Hok; [by apply steady_ret|].
  apply steady_seq; [by apply emit_steady|auto].
Qed.

Context (process_line : client -> bytes -> list output * client).

Lemma on_event_steady c e s : tui_ok s ->
  tw (on_event oom mbrtowc wcwidth process_line c e) (fun _ s' => steady s s') s.
Proof.
  intros Hok. destruct e as [w h|ch key|]; [..|by apply steady_ret]; unfold on_event.
  - set (s1 := s <| sc_size := (w, h) |>).
    assert (tui_ok s1) as Hok1.
    { destruct Hok as [[ls []] [] []]. constructor; [exists ls|..]; by constructor. }
    apply tw_bind. change (tw (_ ← tui_resize; _ ← tui_refresh_all c; mret c) (fun _ s' => steady s s') s1).
    eapply tw_mono with (P := fun _ s' => steady s1 s'); [|done].
    apply steady_seq; [|intros; apply steady_seq; [by apply refresh_steady|intros; by apply steady_ret]].
    unfold tui_resize. apply tw_bind, tw_g. case_match; [by apply steady_ret|].
    apply steady_seq; [apply steady_of_drawn; [done|apply drawn_size, Hok1]|].
    intros. by apply steady_of_drawn, drawn_tell.
  - apply steady_seq; [by apply handle_input_steady|]. clear s Hok. intros [line|] s Hok; [|by apply steady_ret].
    destruct (process_line c line) as [outs c']. apply steady_seq; [by apply show_all_steady|].
    clear s Hok. intros _ s Hok. tsteps. changed s.
Qed.
Lemma tui_events_steady l : forall c s, tui_ok s ->
  tw (tui_events oom mbrtowc wcwidth process_line c l) (fun _ s' => steady s s') s.
Proof.
  induction l as [|e l IH]; intros c s Hok; [by apply steady_ret|].
  apply steady_seq; [by apply on_event_steady|auto].
Qed.

Lemma welcome_steady c k s : tui_ok s ->
  tw (tui_print_welcome oom mbrtowc wcwidth c k) (fun _ s' => steady s s') s.
Proof.
  intros Hok. unfold tui_print_welcome. apply tw_bind, tw_g. case_match; [by apply steady_ret|].
  apply steady_seq.
  { tsteps. pose proof (contacts_bound c). changed s. }
  clear s Hok H. intros _ s Hok. apply steady_seq; [by apply print_system_steady|].
  intros _ s' Hok'. apply tw_bind, tw_g. case_match; [by apply print_system_steady|by apply steady_ret].
Qed.

Lemma tui_acts_steady l : forall s, tui_ok s ->
  tw (tui_acts oom mbrtowc wcwidth process_line l) (fun _ s' => steady s s') s.
Proof.
  induction l as [|a l IH]; intros s Hok; [by apply steady_ret|].
  apply steady_seq; [|auto]. destruct a as [c k|c evs|o]; cbn [tui_act].
  - by apply welcome_steady.
  - apply steady_seq; [by apply tui_events_steady|]. intros; by apply steady_ret.
  - by apply show_steady.
Qed.

Lemma zero_ok s b w h : sc_heap s = ∅ ->
  tui_ok (s <| sc_g := tui_zero <| t_active := b |> <| t_cols := w |> <| t_rows := h |> |>).
Proof.
  intros Hh. constructor; [exists []|..]; constructor; cbn; try done; try lia; try constructor.
Qed.

Lemma tui_start_spec tb_init_ok c w h :
  tw (tui_start mbrtowc wcwidth tb_init_ok c) (fun _ s' => tui_ok s' /\
    t_active (sc_g s') = tb_init_ok /\
    sc_ops s' = Some (if tb_init_ok then fe_tui_ops else fe_ansi_ops)) (blank_screen w h).
Proof.
  unfold tui_start, tui_init. apply tw_bind. destruct tb_init_ok; cbn [negb].
  - set (s1 := blank_screen w h <| sc_out := [SetCursor (-1) (-1)] |>
                <| sc_g := tui_zero <| t_active := true |> <| t_cols := w |> <| t_rows := h |> |>).
    assert (tui_ok s1) as Hok by (by apply zero_ok).
    change (tw (_ ← tui_draw_chat; _ ← tui_draw_input; tell [Present]) (fun _ : unit =>
      tw (_ ← tui_refresh_all c; active ← g t_active;
          if active : bool then frontend_register (Some fe_tui_ops) else done_)
        (fun _ s' => tui_ok s' /\ t_active (sc_g s') = true /\ sc_ops s' = Some fe_tui_ops)) s1).
    eapply tw_mono with (P := fun _ s' => steady s1 s').
    { apply steady_seq; [by apply steady_of_drawn, draw_chat_drawn|]. intros _ s' Hs'.
      apply steady_seq; [by apply steady_of_drawn, draw_input_drawn|]. intros _ s'' Hs''.
      by apply steady_of_drawn, drawn_tell. }
    intros _ s2 (Hok2 & Ha2 & _). apply tw_bind. eapply tw_mono; [by apply refresh_steady|]. cbn beta.
    intros _ s3 (Hok3 & Ha3 & _). apply tw_bind, tw_g. rewrite Ha3, Ha2. cbn.
    split; [|split; [by rewrite Ha3, Ha2|done]].
    destruct Hok3 as [[ls []] [] []]. constructor; [exists ls|..]; by constructor.
  - change (tw done_ (fun _ : unit =>
      tw (_ ← tui_refresh_all c; active ← g t_active;
          if active : bool then frontend_register (Some fe_tui_ops) else done_)
        (fun _ s' => tui_ok s' /\ t_active (sc_g s') = false /\ sc_ops s' = Some fe_ansi_ops))
      (blank_screen w h)).
    tsteps. assert (tui_ok (blank_screen w h)) as Hok by (by apply (zero_ok (blank_screen w h) false 0 0)).
    eapply tw_mono; [by apply refresh_steady|]. cbn beta. intros _ s' (Hok' & Ha & Ho). tsteps.
    rewrite Ha. cbn. done.
Qed.

Lemma tui_stop_spec s : tui_ok s -> tw tui_stop (fun _ s' => sc_heap s' = ∅ /\
  t_active (sc_g s') = false /\ t_chat_lines (sc_g s') = replicate 512 None /\
  sc_ops s' = Some fe_ansi_ops) s.
Proof.
  intros [[ls Hc] _ _]. unfold tui_stop, tui_shutdown. apply tw_bind, tw_bind, tw_g.
  destruct (t_active (sc_g s)) eqn:Ha; cbn [negb].
  - apply tw_bind, tw_set_g, tw_bind.
    eapply tw_mono.
    { pose proof (cr_room _ _ Hc). destruct Hc.
      apply (free_lines_spec 512 _ 0 (512 - length ls) ls); [done..|lia]. }
    cbn beta. intros _ s' ->. tsteps. cbn. rewrite drop_ge by (destruct Hc; lia). cbn.
    pose proof (cr_room _ _ Hc). by replace (512 - length ls - (512 - length ls))%nat with 0%nat by lia.
  - tsteps. cbn. destruct (decide (ls = [])) as [->|Hn]; [|by rewrite (cr_off _ _ Hc Hn) in Ha].
    by rewrite (cr_heap _ _ Hc), (cr_lines _ _ Hc).
Qed.

(** C14 Whatever keys are pressed, however the terminal is resized, whatever the
    rest of the program shows, logs or answers to a line, and whichever
    allocations fail: from start to shutdown the panels never touch memory
    outside their arrays, never use or free a chat line twice, and end with
    every line freed, no dangling pointer and the ANSI front end back in
    charge. *)
Theorem tui_session_safe tb_init_ok c l w h :
  exists s', tui_session oom mbrtowc wcwidth process_line tb_init_ok c l (blank_screen w h) = Some (tt, s') /\
    sc_heap s' = ∅ /\ t_active (sc_g s') = false /\ t_chat_lines (sc_g s') = replicate 512 None /\
    sc_ops s' = Some fe_ansi_ops.
Proof.
  assert (tw (tui_session oom mbrtowc wcwidth process_line tb_init_ok c l) (fun _ s' =>
    sc_heap s' = ∅ /\ t_active (sc_g s') = false /\ t_chat_lines (sc_g s') = replicate 512 None /\
    sc_ops s' = Some fe_ansi_ops) (blank_screen w h)) as H.
  { unfold tui_session. apply tw_bind. eapply tw_mono; [apply tui_start_spec|]. cbn beta.
    intros _ s1 (Hok & _). apply tw_bind. eapply tw_mono; [by apply tui_acts_steady|]. cbn beta.
    intros _ s2 (Hok2 & _). by apply tui_stop_spec. }
  unfold tw in H. destruct (tui_session _ _ _ _ _ _ _ _) as [[[] s']|]; [|done]. by exists s'.
Qed.
End Session.
