(* ===== verification/TuiEdit.v ===== *)
(** * The input line of the full-screen interface is a line of characters

    [input_buf] holds bytes, [utf8_encode] stores one to four of them per key and
    Backspace and Delete find the character's bytes again.  Against a
    specification that edits a list of characters, every key but the two arrows
    does the same. *)

From stdpp Require Import gmap fin_maps.
From S2P Require Import Prelude Partial Primitives Types World Arena ArenaProofs StateMachine StdinHandler.
From S2P Require Import Control Frontend Tui TuiProofs TuiSession.

(** ** The bytes of a character *)

Lemma by_range (P : Z -> bool) n x : forallb P (seqZ 0 n) = true -> 0 <= x < n -> P x = true.
Proof.
  intros H Hx. rewrite forallb_forall in H. apply H, list_elem_of_In, elem_of_seqZ. lia.
Qed.
Lemma lor_high a n x : forallb (fun x => Z.lor a x =? a + x) (seqZ 0 n) = true -> 0 <= x < n ->
  Z.lor a x = a + x.
Proof. intros H Hx. by apply Z.eqb_eq, (by_range (fun x => Z.lor a x =? a + x) n). Qed.

Lemma char_unsigned z : 0 <= z < 256 -> byte.unsigned (char_ z) = z.
Proof.
  intros. unfold char_, u8. rewrite byte.unsigned_of_Z. unfold byte.wrap. by rewrite Z.mod_mod, Z.mod_small by lia.
Qed.
Lemma continuation_range c : continuation c = (0x80 <=? byte.unsigned c) && (byte.unsigned c <? 0xC0).
Proof. by destruct c. Qed.

Lemma cont_unsigned cp k : 0x80 <= byte.unsigned (cont cp k) < 0xC0.
Proof.
  unfold cont. assert (0 <= Z.land (Z.shiftr cp k) 0x3F < 64) as Hx.
  { change 0x3F with (Z.ones 6). rewrite Z.land_ones by lia. by apply Z.mod_pos_bound. }
  rewrite (lor_high 0x80 64) by done. rewrite char_unsigned; lia.
Qed.
Lemma cont_continues cp k : continuation (cont cp k) = true.
Proof. rewrite continuation_range. pose proof (cont_unsigned cp k). lia. Qed.

Lemma shiftr_bounds cp k n : 0 <= cp < n * 2 ^ k -> 0 <= k -> 0 <= Z.shiftr cp k < n.
Proof.
  intros. rewrite Z.shiftr_div_pow2 by done. split; [apply Z.div_pos; lia|].
  apply Z.div_lt_upper_bound; lia.
Qed.

(** The first byte tells the length, the others are continuation bytes, and none
    is NUL. *)
Lemma utf8_shape cp : 0 < cp < 0x110000 -> exists c cs, utf8_encode cp = c :: cs /\
  continuation c = false /\ Forall (fun c => continuation c = true) cs /\
  char_len c = length (utf8_encode cp) /\ c <> NUL.
Proof.
  intros Hcp.
  assert (forall c cs n, utf8_encode cp = c :: cs -> Forall (fun c => continuation c = true) cs ->
    n = length (c :: cs) -> 0 < byte.unsigned c < 0x80 \/ 0xC0 <= byte.unsigned c ->
    char_len c = n -> exists c cs, utf8_encode cp = c :: cs /\
      continuation c = false /\ Forall (fun c => continuation c = true) cs /\
      char_len c = length (utf8_encode cp) /\ c <> NUL) as Hmk.
  { intros c cs n E Hcs -> Hc Hn. exists c, cs. rewrite E, continuation_range. split_and!; try done; [lia|].
    intros ->. cbn in Hc. lia. }
  pose proof (cont_continues cp). unfold utf8_encode in *.
  destruct (Z.ltb_spec cp 0x80); [|destruct (Z.ltb_spec cp 0x800); [|destruct (Z.ltb_spec cp 0x10000)]].
  - eapply Hmk; [done|constructor|done|rewrite char_unsigned; lia|].
    unfold char_len. rewrite char_unsigned by lia. repeat case_match; cbn; lia.
  - assert (2 <= Z.shiftr cp 6 < 32) as Hx.
    { pose proof (shiftr_bounds cp 6 32). rewrite Z.shiftr_div_pow2 in * by lia.
      pose proof (Z.div_le_lower_bound cp (2 ^ 6) 2). lia. }
    rewrite (lor_high 0xC0 32) in * by (done || lia).
    eapply Hmk; [done|by repeat constructor|done|rewrite char_unsigned; lia|].
    unfold char_len. rewrite char_unsigned by lia. repeat case_match; cbn; lia.
  - assert (0 <= Z.shiftr cp 12 < 16) as Hx by (apply shiftr_bounds; lia).
    rewrite (lor_high 0xE0 16) in * by (done || lia).
    eapply Hmk; [done|by repeat constructor|done|rewrite char_unsigned; lia|].
    unfold char_len. rewrite char_unsigned by lia. repeat case_match; cbn; lia.
  - assert (0 <= Z.shiftr cp 18 < 5) as Hx by (apply shiftr_bounds; lia).
    rewrite (lor_high 0xF0 5) in * by (done || lia).
    eapply Hmk; [done|by repeat constructor|done|rewrite char_unsigned; lia|].
    unfold char_len. rewrite char_unsigned by lia. repeat case_match; cbn; lia.
Qed.

Lemma continuation_nul : continuation NUL = false.
Proof. done. Qed.
Lemma utf8_no_nul cp : 0 < cp < 0x110000 -> NUL ∉ utf8_encode cp.
Proof.
  intros Hcp. destruct (utf8_shape cp Hcp) as (c & cs & -> & _ & Hcs & _ & Hc).
  rewrite not_elem_of_cons. split; [done|]. intros Hin. rewrite Forall_forall in Hcs.
  by specialize (Hcs _ Hin).
Qed.

(** The last character is found from the bytes. *)
Lemma last_char_unique b0 del x c cs :
  b0 ++ del = x ++ c :: cs -> last_char b0 del ->
  continuation c = false -> Forall (fun c => continuation c = true) cs -> b0 = x.
Proof.
  intros E (d & ds & -> & Hds & Hd) Hc Hcs.
  destruct (Nat.lt_trichotomy (length b0) (length x)) as [Hlt|[Heq|Hgt]].
  - (* c is one of ds *) exfalso.
    assert ((b0 ++ d :: ds) !! length x = Some c) as H1.
    { rewrite E, lookup_app_r by lia. by rewrite Nat.sub_diag. }
    rewrite lookup_app_r, lookup_cons_ne_0 in H1 by lia.
    rewrite Forall_lookup in Hds. apply Hds in H1. congruence.
  - by apply app_inj_1 in E as [-> _].
  - (* d is one of cs *) exfalso.
    assert ((x ++ c :: cs) !! length b0 = Some d) as H1.
    { rewrite <-E, lookup_app_r by lia. by rewrite Nat.sub_diag. }
    rewrite lookup_app_r, lookup_cons_ne_0 in H1 by lia.
    rewrite Forall_lookup in Hcs. apply Hcs in H1. destruct Hd as [->|]; [cbn in Hgt; lia|congruence].
Qed.

(** ** The specification: a list of characters with a cursor *)

Definition encode (l : list Z) : bytes := mbind utf8_encode l.

Inductive edit_key := Ins (cp : Z) | Bs | Del | Home | End_.
(** A full line takes no more characters. *)
Definition edit_step (z : list Z * list Z) (k : edit_key) : list Z * list Z :=
  let '(l, r) := z in
  match k with
  | Ins cp => if fits (encode l) (encode r) (utf8_encode cp) then (l ++ [cp], r) else (l, r)
  | Bs => (take (length l - 1) l, r)
  | Del => (l, tail r)
  | Home => ([], l ++ r)
  | End_ => (l ++ r, [])
  end.

(** The codes termbox delivers the keys with. *)
Definition key_code (k : edit_key) : Z :=
  match k with
  | Ins cp => cp
  | Bs => TB_KEY_BACKSPACE
  | Del => TB_KEY_DELETE
  | Home => TB_KEY_HOME
  | End_ => TB_KEY_END
  end.
(** A character that is not the code of a key as well. *)
Definition special : list Z :=
  [TB_KEY_DELETE; TB_KEY_HOME; TB_KEY_END; TB_KEY_PGUP; TB_KEY_PGDN; TB_KEY_ARROW_UP;
   TB_KEY_ARROW_DOWN; TB_KEY_ARROW_LEFT; TB_KEY_ARROW_RIGHT; TB_KEY_BACK_TAB].
Definition ordinary (k : edit_key) : bool :=
  match k with
  | Ins cp => printable cp && forallb (fun c => negb (cp =? c)) special
  | _ => true
  end.

Lemma encode_app l r : encode (l ++ r) = encode l ++ encode r.
Proof. unfold encode. apply bind_app. Qed.
Lemma encode_one cp : encode [cp] = utf8_encode cp.
Proof. unfold encode. cbn. apply app_nil_r. Qed.

Definition typed (l : list Z) : Prop := Forall (fun cp => 0 < cp < 0x110000) l.
Lemma printable_range ch : printable ch = true -> 0 < ch < 0x110000.
Proof. unfold printable. lia. Qed.
Lemma encode_no_nul l : typed l -> NUL ∉ encode l.
Proof.
  induction 1 as [|cp l Hcp _ IH]; [apply not_elem_of_nil|]. change (encode (cp :: l)) with (utf8_encode cp ++ encode l).
  rewrite not_elem_of_app. split; [by apply utf8_no_nul|done].
Qed.

(** The first character of an encoded list. *)
Lemma first_char_encode cp l : 0 < cp < 0x110000 ->
  drop (first_char (encode (cp :: l))) (encode (cp :: l)) = encode l.
Proof.
  intros Hcp. destruct (utf8_shape cp Hcp) as (c & cs & E & _ & _ & Hn & _).
  change (encode (cp :: l)) with (utf8_encode cp ++ encode l). rewrite E in *. unfold first_char. cbn [Datatypes.app].
  rewrite Hn, bool_decide_true by (cbn; rewrite length_app; lia).
  change (c :: cs ++ encode l) with ((c :: cs) ++ encode l). apply drop_app_length.
Qed.

Lemma typed_step z k : ordinary k = true -> typed z.1 -> typed z.2 ->
  typed (edit_step z k).1 /\ typed (edit_step z k).2.
Proof.
  destruct z as [l r]. unfold typed. cbn [fst snd]. intros Ho Hl Hr.
  destruct k as [cp| | | |]; cbn [edit_step fst snd].
  - case_match; [|done]. split; [|done]. apply Forall_app. split; [done|]. constructor; [|constructor].
    apply andb_prop in Ho as [Ho _]. by apply printable_range.
  - split; [by apply Forall_take|done].
  - split; [done|]. destruct r; [done|]. by apply Forall_cons in Hr as [_ Hr].
  - split; [constructor|by apply Forall_app].
  - split; [by apply Forall_app|constructor].
Qed.

(** ** Each key *)

Lemma line_rep_outer s s' bef aft : outer s' = outer s ->
  line_rep (sc_g s) bef aft -> line_rep (sc_g s') bef aft.
Proof.
  intros E [[stale H1] H2 H3 H4]. unfold outer in E. injection E as E1 E2 E3 _ _ _ _ _.
  constructor; [exists stale|..]; congruence.
Qed.

Section Edit.
Context (mbrtowc : bytes -> Z * Z) (wcwidth : Z -> Z).

(** The line is [l] before and [r] behind the cursor, the keys go to it. *)
Record editing (s : screen) (l r : list Z) : Prop := {
  ed_ok : tui_ok s;
  ed_active : t_active (sc_g s) = true;
  ed_focus : t_focus (sc_g s) = TUI_FOCUS_INPUT;
  ed_line : line_rep (sc_g s) (encode l) (encode r) }.

Lemma editing_shows s s' l r : editing s l r -> shows s s' -> editing s' l r.
Proof.
  intros [] [? E]. constructor; [done|..|by eapply line_rep_outer]; unfold outer in E; congruence.
Qed.
Lemma editing_edited s s' l r l' r' : editing s l r -> edited s s' ->
  line_rep (sc_g s') (encode l') (encode r') -> editing s' l' r'.
Proof.
  intros [] He Hr. constructor; [by eapply edited_ok|..|done];
    by destruct He as (? & ? & ? & ->).
Qed.

Lemma ordinary_char cp : ordinary (Ins cp) = true -> key_case mbrtowc wcwidth cp = key_char cp.
Proof.
  cbn [ordinary special forallb]. intros Ho. unfold key_case.
  repeat match goal with
  | |- (if ?b then _ else _) = _ =>
      replace b with false
        by (unfold TB_KEY_CTRL_C, TB_KEY_CTRL_P, TB_KEY_ENTER, TB_KEY_BACKSPACE, printable in *; lia)
  end.
  done.
Qed.

Lemma edit_insert s l r cp : editing s l r -> ordinary (Ins cp) = true ->
  tw (key_case mbrtowc wcwidth cp) (fun e s' =>
    e = Break /\ editing s' (edit_step (l, r) (Ins cp)).1 (edit_step (l, r) (Ins cp)).2) s.
Proof.
  intros Hed Ho. pose proof Hed as [Hok Ha Hf Hlr]. rewrite ordinary_char by done.
  cbn [ordinary] in Ho. apply andb_prop in Ho as [Hp _].
  eapply tw_mono; [by apply (key_char_spec s (encode l) (encode r))|]. cbn beta.
  intros e s' (-> & He & Hr'). split; [done|]. cbn [edit_step].
  destruct (fits _ _ _); cbn [fst snd]; (eapply editing_edited; [exact Hed|exact He|]); [|done].
  by rewrite encode_app, encode_one.
Qed.

Lemma edit_backspace s l r : editing s l r -> typed l ->
  tw key_backspace (fun e s' => e = Break /\ editing s' (take (length l - 1) l) r) s.
Proof.
  intros Hed Hl. pose proof Hed as [Hok Ha Hf Hlr].
  eapply tw_mono; [by apply (key_backspace_spec s (encode l) (encode r))|]. cbn beta.
  intros e s' (-> & He & b0 & del & E & Hlast & Hr'). split; [done|]. eapply editing_edited; [done..|].
  destruct l as [|cp l _] using rev_ind.
  { cbn in E. symmetry in E. by apply app_eq_nil in E as [-> ->]. }
  apply Forall_app in Hl as [_ Hcp]. apply Forall_cons in Hcp as [Hcp _].
  rewrite length_app, Nat.add_sub, take_app_length. rewrite encode_app, encode_one in *.
  destruct (utf8_shape cp Hcp) as (c & cs & Ec & H1 & H2 & _ & _). rewrite Ec in *.
  assert (b0 = encode l) as <-; [|done].
  eapply last_char_unique; [by symmetry|apply Hlast; by destruct (encode l)|done..].
Qed.

Lemma edit_delete s l r : editing s l r -> typed r ->
  tw key_delete (fun e s' => e = Break /\ editing s' l (tail r)) s.
Proof.
  intros Hed Hr. pose proof Hed as [Hok Ha Hf Hlr].
  eapply tw_mono; [by apply (key_delete_spec s (encode l) (encode r))|]. cbn beta.
  intros e s' (-> & He & Hr'). split; [done|]. eapply editing_edited; [done..|].
  destruct r as [|cp r]; [done|]. apply Forall_cons in Hr as [Hcp _]. by rewrite first_char_encode in Hr'.
Qed.

Lemma edit_move s l r l' r' n : editing s l r -> l ++ r = l' ++ r' -> n = len (encode l') ->
  editing (s <| sc_g := sc_g s <| t_input_cursor := n |> |>) l' r'.
Proof.
  intros Hed E ->. pose proof Hed as [Hok Ha Hf [[stale E1] E2 E3 E4]].
  assert (encode l ++ encode r = encode l' ++ encode r') as E' by (by rewrite <-!encode_app, E).
  eapply editing_edited; [exact Hed|..].
  { exists (t_input_buf (sc_g s)), (t_input_len (sc_g s)), (len (encode l')). by destruct s as [[]]. }
  constructor; cbn; [|done|done|].
  - exists stale. by rewrite E1, app_assoc, E', <-app_assoc.
  - by rewrite E4, <-!len_app, E'.
Qed.

Lemma key_case_edits k s l r : editing s l r -> ordinary k = true -> typed l -> typed r ->
  tw (key_case mbrtowc wcwidth (key_code k)) (fun e s' =>
    e = Break /\ editing s' (edit_step (l, r) k).1 (edit_step (l, r) k).2) s.
Proof.
  intros Hed Ho Hl Hr. pose proof Hed as [_ _ Hf Hlr]. destruct k as [cp| | | |]; cbn [key_code].
  - by apply edit_insert.
  - by apply edit_backspace.
  - by apply edit_delete.
  - change (tw key_home (fun e s' => e = Break /\ editing s' [] (l ++ r)) s).
    unfold key_home. tsteps. rewrite bool_decide_true by done. tsteps.
    split; [done|]. by eapply edit_move.
  - change (tw key_end (fun e s' => e = Break /\ editing s' (l ++ r) []) s).
    unfold key_end. tsteps. rewrite bool_decide_true by done. tsteps.
    split; [done|]. eapply edit_move; [done|by rewrite app_nil_r|].
    destruct Hlr. by rewrite lr_len, encode_app, len_app.
Qed.

(** ** Sequences of keys *)

Lemma after_break c s : tui_ok s ->
  tw (_ ← tui_draw_input mbrtowc wcwidth; _ ← tui_draw_sidebar c; _ ← tell [Present]; mret (None : option bytes))
    (fun line s' => line = None /\ shows s s') s.
Proof.
  intros Hok. apply tw_bind. eapply tw_mono; [by apply draw_input_drawn|]. cbn beta. intros _ s1 H1.
  apply (shows_drawn _ _ Hok) in H1. apply tw_bind.
  eapply tw_mono; [apply draw_sidebar_drawn, H1|]. cbn beta. intros _ s2 H2.
  apply (shows_drawn _ _ (proj1 H1)) in H2. tsteps. split; [done|].
  pose proof (shows_trans _ _ _ H1 H2) as H3. eapply shows_trans; [exact H3|].
  apply shows_drawn; [apply H3|apply drawn_out, H3].
Qed.

Lemma handle_edits c k s l r : editing s l r -> ordinary k = true -> typed l -> typed r ->
  tw (tui_handle_input mbrtowc wcwidth c (key_code k)) (fun line s' =>
    line = None /\ editing s' (edit_step (l, r) k).1 (edit_step (l, r) k).2) s.
Proof.
  intros Hed Ho Hl Hr. unfold tui_handle_input. apply tw_bind, tw_g. rewrite (ed_active _ _ _ Hed).
  cbn [negb]. apply tw_bind. eapply tw_mono; [by apply (key_case_edits k s l r)|]. cbn beta.
  intros e s1 (-> & Hed1). eapply tw_mono; [apply after_break, (ed_ok _ _ _ Hed1)|]. cbn beta.
  intros line s2 (-> & Hs). split; [done|]. by eapply editing_shows.
Qed.

Fixpoint press (c : client) (keys : list Z) : T (list (option bytes)) :=
  match keys with
  | [] => mret []
  | ch :: keys =>
      line ← tui_handle_input mbrtowc wcwidth c ch; lines ← press c keys; mret (line :: lines)
  end.

Lemma press_edits c ks : forall s l r, editing s l r -> forallb ordinary ks = true -> typed l -> typed r ->
  tw (press c (key_code <$> ks)) (fun lines s' =>
    lines = replicate (length ks) None /\
    let z := foldl edit_step (l, r) ks in editing s' z.1 z.2 /\ typed z.1 /\ typed z.2) s.
Proof.
  induction ks as [|k ks IH]; intros s l r Hed Ho Hl Hr; [done|]. cbn [fmap list_fmap press foldl].
  cbn [forallb] in Ho. apply andb_prop in Ho as [Hk Ho]. apply tw_bind.
  eapply tw_mono; [by apply (handle_edits c k s l r)|]. cbn beta. intros line s1 (-> & Hed1).
  destruct (typed_step (l, r) k Hk Hl Hr) as [Hl1 Hr1]. destruct (edit_step (l, r) k) as [l1 r1].
  apply tw_bind. eapply tw_mono; [by apply (IH s1 l1 r1)|]. cbn beta. intros lines s2 (-> & Hz). done.
Qed.

Lemma enter_returns c s l r : editing s l r -> typed (l ++ r) ->
  tw (tui_handle_input mbrtowc wcwidth c TB_KEY_ENTER) (fun line s' =>
    line = (if decide (l ++ r = []) then None else Some (encode (l ++ r))) /\ t_input_len (sc_g s') = 0) s.
Proof.
  intros [Hok Ha Hf Hlr] Ht. pose proof Hlr as [[stale E] Hs Hc Hl]. unfold tui_handle_input.
  apply tw_bind, tw_g. rewrite Ha. cbn [negb]. apply tw_bind.
  change (key_case mbrtowc wcwidth TB_KEY_ENTER) with (key_enter mbrtowc wcwidth).
  unfold key_enter. tsteps. unfold id. rewrite bool_decide_false by (by rewrite Hf). rewrite Hl, <-len_app, <-encode_app.
  destruct (decide (l ++ r = [])) as [Enil|Hn].
  - rewrite Enil. cbn. tsteps. split; [done|]. by rewrite Hl, <-len_app, <-encode_app, Enil.
  - assert (encode (l ++ r) <> []) as Hne.
    { destruct (l ++ r) as [|cp m]; [done|]. pose proof (utf8_length cp). cbn. destruct (utf8_encode cp); [cbn in *; lia|done]. }
    rewrite (proj2 (Z.eqb_neq _ _)) by (destruct (encode (l ++ r)); [done|unfold len; cbn; lia]).
    assert (t_input_buf (sc_g s) = encode (l ++ r) ++ stale ++ [NUL]) as E' by (by rewrite E, encode_app, <-app_assoc).
    apply tw_bind, tw_input_store; [unfold len; lia| |].
    { rewrite E', !len_app. unfold len. cbn. lia. }
    tsteps. split; [|done]. do 2 f_equal. cbn. rewrite E'.
    destruct (stale ++ [NUL]) as [|x y] eqn:Ey; [by apply app_eq_nil in Ey as [_ ?]|].
    change (x :: y) with ([x] ++ y). rewrite mem_write_mid by done.
    apply cstr_app_nul. by apply encode_no_nul.
Qed.

(** C17 Typing on an empty line: whatever characters, Backspace, Delete, Home and
    End are pressed, no line is returned before Enter, and Enter returns exactly
    the UTF-8 encoding of the characters a list editor holds after the same keys
    (nothing for an empty line).  Characters of up to four bytes are inserted and
    removed as a whole, in the middle of the line too; a line that would exceed
    4095 bytes takes no more characters. *)
Theorem line_editor_refines c ks s :
  tui_ok s -> t_active (sc_g s) = true -> t_focus (sc_g s) = TUI_FOCUS_INPUT -> t_input_len (sc_g s) = 0 ->
  forallb ordinary ks = true ->
  let '(l, r) := foldl edit_step ([], []) ks in
  exists s1 s2,
    press c (key_code <$> ks) s = Some (replicate (length ks) None, s1) /\
    tui_handle_input mbrtowc wcwidth c TB_KEY_ENTER s1 =
      Some (if decide (l ++ r = []) then None else Some (encode (l ++ r)), s2) /\
    t_input_len (sc_g s2) = 0.
Proof.
  intros Hok Ha Hf H0 Ho. assert (editing s [] []) as Hed.
  { constructor; [done..|]. destruct (line_ok_rep _ (ok_line _ Hok)) as (bef & aft & Hr).
    pose proof (lr_len _ _ _ Hr) as Hl. rewrite H0 in Hl. destruct bef, aft; unfold len in Hl; cbn in Hl; try lia.
    done. }
  pose proof (press_edits c ks s [] [] Hed Ho (List.Forall_nil _) (List.Forall_nil _)) as Hp.
  destruct (foldl edit_step ([], []) ks) as [l r]. unfold tw in Hp.
  destruct (press _ _ _) as [[lines s1]|]; [|done]. cbn in Hp. destruct Hp as (-> & Hed1 & Hl & Hr).
  assert (typed (l ++ r)) as Ht by (by apply Forall_app).
  pose proof (enter_returns c s1 l r Hed1 Ht) as He. unfold tw in He.
  destruct (tui_handle_input _ _ _ _ _) as [[line s2]|] eqn:E; [|done]. destruct He as [-> H2].
  by exists s1, s2.
Qed.
End Edit.

(** ** Concrete runs *)

Definition demo_mbrtowc (p : bytes) : Z * Z :=
  match p with [] => (0, 0) | c :: _ => (byte.unsigned c, 1) end.
Definition demo_client : client := {| cl_app := w_app boot; cl_book := [] |}.
(** A terminal of 80 columns and 24 rows. *)
Definition demo_screen : screen :=
  blank_screen 80 24
    <| sc_g := tui_zero <| t_active := true |> <| t_cols := 80 |> <| t_rows := 24 |> |>.
Definition demo_press (keys : list Z) : option (list (option bytes) * screen) :=
  press demo_mbrtowc (fun _ => 1) demo_client keys demo_screen.
(** The text of the input panel as it was last drawn. *)
Fixpoint last_print (l : list draw) (acc : bytes) : bytes :=
  match l with
  | Print x y fg _ s :: l => last_print l (if fg =? 0xFFFFFF then s else acc)
  | _ :: l => last_print l acc
  | [] => acc
  end.
Definition drawn_input (r : option (list (option bytes) * screen)) : bytes :=
  match r with Some (_, s) => last_print (sc_out s) [] | None => [] end.

Lemma demo_ok : tui_ok demo_screen.
Proof. by apply zero_ok. Qed.
Lemma demo_rep : chat_rep demo_screen [].
Proof. constructor; cbn; try done; try lia; constructor. Qed.

(** "merhaba", with the h typed twice and one of them removed again, and a
    two-byte character inserted at the front. *)
Definition demo_keys : list edit_key :=
  [Ins 109; Ins 101; Ins 114; Ins 104; Ins 104; Bs; Ins 97; Ins 98; Ins 97; Home; Ins 0x131].
Lemma line_editor_refines_witness :
  tui_ok demo_screen /\ forallb ordinary demo_keys = true /\
  exists s1 s2,
    press demo_mbrtowc (fun _ => 1) demo_client (key_code <$> demo_keys) demo_screen
      = Some (replicate 11 None, s1) /\
    tui_handle_input demo_mbrtowc (fun _ => 1) demo_client TB_KEY_ENTER s1
      = Some (Some (encode [0x131; 109; 101; 114; 104; 97; 98; 97]), s2) /\
    t_input_len (sc_g s2) = 0.
Proof.
  split; [exact demo_ok|]. split; [reflexivity|].
  exact (line_editor_refines demo_mbrtowc (fun _ => 1) demo_client demo_keys demo_screen
           demo_ok eq_refl eq_refl eq_refl eq_refl).
Defined.

(** A message of three rows. *)
Definition demo_line : bytes :=
  lit "[12:00:00] Peer: the quick brown fox jumps over the lazy dog and runs away from the hunters who follow it".

(** The lines in the scrollback after one more line. *)
Definition append_demo (line : bytes) : list bytes :=
  match tui_chat_append (fun _ => false) line demo_screen with
  | Some (_, s) => omap (fun p => p ≫= fun p => sc_heap s !! p) (t_chat_lines (sc_g s))
  | None => []
  end.
Example demo_rows : append_demo demo_line =
  [lit "[12:00:00] Peer: the quick brown fox jumps over the ";
   lit "           lazy dog and runs away from the hunters who ";
   lit "           follow it"].
Proof. by vm_compute. Qed.

(** A bracket the peer writes is taken for the end of the prefix: the row holds
    everything up to it, and one byte of the rest goes into each further row. *)
Example peer_bracket_splits :
  append_demo (lit "[12:00:00] Peer: a text long enough for the panel of 80 columns] ok!") =
  [lit "[12:00:00] Peer: a text long enough for the panel of 80 columns] o";
   replicate 63 Byte.x20 ++ lit "k"; replicate 63 Byte.x20 ++ lit "!"].
Proof. by vm_compute. Qed.

(** Removing a two-byte character and typing a one-byte one shows its second byte
    again, until the buffer is cleared. *)
Example stale_byte_drawn : drawn_input (demo_press [0xE9; TB_KEY_BACKSPACE; 97]) = [Byte.x61; Byte.xa9].
Proof. by vm_compute. Qed.

(** F1 types the character U+FFFF. *)
Example function_key_types : drawn_input (demo_press [0xffff]) = [Byte.xef; Byte.xbf; Byte.xbf].
Proof. by vm_compute. Qed.

(** The arrow stops inside a two-byte character, and what is typed there tears it. *)
Example arrow_tears_character :
  drawn_input (demo_press [0xE9; TB_KEY_ARROW_LEFT; 97]) = [Byte.xc3; Byte.x61; Byte.xa9].
Proof. by vm_compute. Qed.

(** A message drawn by the front end is never in the colours of its sender. *)
Example sender_not_coloured :
  line_color 0 (hms (Tm 12 0 0) ++ lit "Sen: " ++ lit "hi") = TC_SYSTEM /\
  line_color 0 (hms (Tm 12 0 0) ++ lit "Peer: " ++ lit "[Sen] hi") = TC_SELF.
Proof. by vm_compute. Qed.
