(* ===== verification/LineEdit.v ===== *)
(** * The line editor: src/linenoise.c as this program uses it

    The multiplexed interface with a fixed buffer: linenoiseEditStart,
    linenoiseEditFeed, linenoiseEditStop.  No completion, hints, mask or
    multi-line mode is ever set, so these branches are left out, and the buffer
    never grows ([buflen_max] is 0).

    [ln_buf] is the whole buffer of [buflen + 1] bytes; a store outside it has no
    result.  What is read is a list of the results of read(2) and poll(2).
    Redrawing a line changes nothing but the terminal: it is an output that holds
    the state to draw, and [refreshSingleLine] computes the bytes written. *)

From S2P Require Import Prelude Partial Primitives Types Arena Keys Control Frontend.

Definition LINENOISE_MAX_FOLDS : Z := 16.
Definition PASTE_FOLD_THRESHOLD : Z := 200.
Definition PASTE_MAX_BYTES : Z := 1024 * 1024.

(** ** UTF-8: a character is decoded from the bytes that are left *)

Definition masked (c : byte) (mask : Z) : Z := Z.land (byte.unsigned c) mask.

Definition utf8ByteLen (c : byte) : nat :=
  if masked c 0x80 =? 0 then 1%nat
  else if masked c 0xE0 =? 0xC0 then 2%nat
  else if masked c 0xF0 =? 0xE0 then 3%nat
  else if masked c 0xF8 =? 0xF0 then 4%nat else 1%nat.

(** The code point and its length. *)
Definition utf8DecodeChar (s : bytes) : Z * nat :=
  match s with
  | [] => (0, O)
  | p :: s =>
      let truncated := (byte.unsigned p, 1%nat) in
      if masked p 0x80 =? 0 then (byte.unsigned p, 1%nat)
      else if masked p 0xE0 =? 0xC0 then
        match s with
        | p1 :: _ => (Z.lor (Z.shiftl (masked p 0x1F) 6) (masked p1 0x3F), 2%nat)
        | _ => truncated
        end
      else if masked p 0xF0 =? 0xE0 then
        match s with
        | p1 :: p2 :: _ =>
            (Z.lor (Z.lor (Z.shiftl (masked p 0x0F) 12) (Z.shiftl (masked p1 0x3F) 6))
                   (masked p2 0x3F), 3%nat)
        | _ => truncated
        end
      else if masked p 0xF8 =? 0xF0 then
        match s with
        | p1 :: p2 :: p3 :: _ =>
            (Z.lor (Z.lor (Z.lor (Z.shiftl (masked p 0x07) 18) (Z.shiftl (masked p1 0x3F) 12))
                          (Z.shiftl (masked p2 0x3F) 6)) (masked p3 0x3F), 4%nat)
        | _ => truncated
        end
      else truncated
  end.

Definition inside (lo hi cp : Z) : bool := (lo <=? cp) && (cp <=? hi).
Definition isVariationSelector (cp : Z) : bool := (cp =? 0xFE0E) || (cp =? 0xFE0F).
Definition isSkinToneModifier (cp : Z) : bool := inside 0x1F3FB 0x1F3FF cp.
Definition isZWJ (cp : Z) : bool := cp =? 0x200D.
Definition isRegionalIndicator (cp : Z) : bool := inside 0x1F1E6 0x1F1FF cp.
Definition isCombiningMark (cp : Z) : bool :=
  inside 0x0300 0x036F cp || inside 0x1AB0 0x1AFF cp || inside 0x1DC0 0x1DFF cp
  || inside 0x20D0 0x20FF cp || inside 0xFE20 0xFE2F cp.
Definition isGraphemeExtend (cp : Z) : bool :=
  isVariationSelector cp || isSkinToneModifier cp || isZWJ cp || isCombiningMark cp.

(** [do i--; while (...)]: where the character that ends [b] starts, at most
    [n] bytes from the end. *)
Fixpoint scan_back (n : nat) (b : bytes) (i : nat) : nat :=
  match n, i with
  | S n, S k =>
      if Z.land (byte.unsigned (default NUL (b !! k))) 0xC0 =? 0x80
      then if bool_decide (0 < k)%nat then scan_back n b k else k
      else k
  | _, _ => i
  end.
Definition utf8DecodePrev (b : bytes) : Z * nat :=
  match b with
  | [] => (0, O)
  | _ =>
      let i := scan_back 4 b (length b) in
      ((utf8DecodeChar (drop i b)).1, length b - i)%nat
  end.

(** The loop of utf8PrevCharLen: [b] is what precedes the part of [total] bytes,
    [cp] its first character. *)
Fixpoint prev_cluster (fuel : nat) (b : bytes) (cp : Z) (total : nat) : nat :=
  match fuel, b with
  | S fuel, _ :: _ =>
      let '(prevcp, prevlen) := utf8DecodePrev b in
      if bool_decide (prevlen = 0)%nat then total
      else
        let b1 := take (length b - prevlen) b in
        if isZWJ prevcp then
          let '(prevcp2, prevlen2) := utf8DecodePrev b1 in
          if bool_decide (prevlen2 = 0)%nat then (total + prevlen)%nat
          else prev_cluster fuel (take (length b1 - prevlen2) b1) prevcp2 (total + prevlen + prevlen2)
        else if isGraphemeExtend cp then prev_cluster fuel b1 prevcp (total + prevlen)
        else if isRegionalIndicator cp && isRegionalIndicator prevcp then (total + prevlen)%nat
        else total
  | _, _ => total
  end.
(** The cluster before the end of [b]. *)
Definition utf8PrevCharLen (b : bytes) : nat :=
  match b with
  | [] => O
  | _ =>
      let '(cp, cplen) := utf8DecodePrev b in
      if bool_decide (cplen = 0)%nat then O
      else prev_cluster (length b) (take (length b - cplen) b) cp cplen
  end.

Fixpoint next_cluster (fuel : nat) (s : bytes) (isRI : bool) (total : nat) : nat :=
  match fuel, s with
  | S fuel, _ :: _ =>
      let '(nextcp, nextlen) := utf8DecodeChar s in
      let s1 := drop nextlen s in
      if isZWJ nextcp && bool_decide (nextlen < length s)%nat then
        let '(_, nextlen2) := utf8DecodeChar s1 in
        next_cluster fuel (drop nextlen2 s1) isRI (total + nextlen + nextlen2)
      else if isGraphemeExtend nextcp then next_cluster fuel s1 isRI (total + nextlen)
      else if isRI && isRegionalIndicator nextcp then next_cluster fuel s1 false (total + nextlen)
      else total
  | _, _ => total
  end.
(** The cluster at the start of [s]. *)
Definition utf8NextCharLen (s : bytes) : nat :=
  match s with
  | [] => O
  | _ =>
      let '(cp, cplen) := utf8DecodeChar s in
      next_cluster (length s) (drop cplen s) (isRegionalIndicator cp) cplen
  end.

(** ** Width on the terminal *)

Definition wide : list (Z * Z) :=
  [(0x1100, 0x115F); (0x2329, 0x232A); (0x231A, 0x231B); (0x23E9, 0x23F3); (0x23F8, 0x23FA);
   (0x25AA, 0x25AB); (0x25B6, 0x25C0); (0x25FB, 0x25FE); (0x2600, 0x26FF); (0x2700, 0x27BF);
   (0x2934, 0x2935); (0x2B05, 0x2B07); (0x2B1B, 0x2B1C); (0x2B50, 0x2B50); (0x2B55, 0x2B55);
   (0x2E80, 0x303E); (0x3040, 0xA4CF); (0xAC00, 0xD7A3); (0xF900, 0xFAFF); (0xFE10, 0xFE1F);
   (0xFE30, 0xFE6F); (0xFF00, 0xFF60); (0xFFE0, 0xFFE6); (0x1F1E6, 0x1F1FF); (0x1F300, 0x1F64F);
   (0x1F680, 0x1F6FF); (0x1F900, 0x1F9FF); (0x1FA00, 0x1FAFF); (0x20000, 0x2FFFF)].
Definition utf8CharWidth (cp : Z) : Z :=
  if (cp <? 32) || inside 0x7F 0x9F cp then 0
  else if isCombiningMark cp then 0
  else if isVariationSelector cp then 0
  else if isSkinToneModifier cp then 0
  else if isZWJ cp then 0
  else if existsb (fun r => inside r.1 r.2 cp) wide then 2 else 1.

Fixpoint span (p : byte -> bool) (s : bytes) : nat :=
  match s with c :: s => if p c then S (span p s) else O | [] => O end.
Definition ansiEscapeLen (s : bytes) : nat :=
  match s with
  | _ :: c :: s =>
      if negb (Byte.eqb c Byte.x5b) then O
      else
        let i := span (between 0x30 0x3f) s in
        let j := (i + span (between 0x20 0x2f) (drop i s))%nat in
        match s !! j with
        | Some f => if between 0x40 0x7e f then (2 + j + 1)%nat else O
        | None => O
        end
  | _ => O
  end.

Fixpoint str_width (fuel : nat) (s : bytes) (after_zwj : bool) (width : Z) : Z :=
  match fuel, s with
  | S fuel, _ :: _ =>
      let '(cp, clen) := utf8DecodeChar s in
      let skip := if cp =? 0x1b then ansiEscapeLen s else O in
      if bool_decide (0 < skip)%nat then str_width fuel (drop skip s) after_zwj width
      else
        let width := if after_zwj then width else width + utf8CharWidth cp in
        str_width fuel (drop clen s) (isZWJ cp) width
  | _, _ => width
  end.
Definition utf8StrWidth (s : bytes) : Z := str_width (length s) s false 0.
Definition utf8SingleCharWidth (s : bytes) : Z :=
  match s with [] => 0 | _ => utf8CharWidth (utf8DecodeChar s).1 end.

(** ** State *)

Record ln_state := LnState {
  ln_buf : bytes;
  ln_buflen : Z;                       (* bytes without the one for the NUL *)
  ln_prompt : bytes;
  ln_pos : Z;
  ln_len : Z;
  ln_cols : Z;
  ln_folds : list (Z * Z);             (* the fold_count ranges [start, end) *)
  ln_status_warn : bool;
  ln_prompt_drawn : bool }.
#[global] Instance eta_ln : Eta ln_state := fun r =>
  LnState (ln_buf r) (ln_buflen r) (ln_prompt r) (ln_pos r) (ln_len r) (ln_cols r) (ln_folds r)
    (ln_status_warn r) (ln_prompt_drawn r).

(** read(2) of one byte; EAGAIN with the result of the poll that follows it
    (true: ready, false: timeout, None: an error). *)
Inductive rd := RdByte (c : byte) | RdEof | RdIntr | RdAgain (polled : option bool) | RdErr.
Inductive out_item :=
| OWrite (s : bytes)
| ODraw (l : ln_state)                 (* refreshSingleLine of this state *)
| OBeep.

Record ln_world := LnWorld {
  lw_l : ln_state;
  lw_in : list rd;
  lw_out : list out_item;
  lw_calls : nat }.                    (* calls that can fail, so far *)
#[global] Instance eta_lw : Eta ln_world := fun r =>
  LnWorld (lw_l r) (lw_in r) (lw_out r) (lw_calls r).

Abbreviation L := (Pt ln_world).
Definition ln {A} (f : ln_state -> A) : L A := fun w => Some (f (lw_l w), w).
Definition set_ln (f : ln_state -> ln_state) : L unit :=
  fun w => Some (tt, w <| lw_l := f (lw_l w) |>).
Definition put_out (o : out_item) : L unit := fun w => Some (tt, w <| lw_out := lw_out w ++ [o] |>).

(** Stores into [buf], and memmove inside it. *)
Definition buf_store (off : Z) (v : bytes) : L unit :=
  b ← ln ln_buf;
  _ ← defined ((0 <=? off) && (off + len v <=? len b));
  set_ln (fun l => l <| ln_buf := mem_write off v b |>).
Definition buf_move (dst src n : Z) : L unit :=
  b ← ln ln_buf;
  _ ← defined ((0 <=? src) && (0 <=? n) && (src + n <=? len b));
  buf_store dst (mem_read src n b).

(** The bytes of the line, before and behind the cursor. *)
Definition line_bytes (l : ln_state) : bytes := take (Z.to_nat (ln_len l)) (ln_buf l).
Definition before (l : ln_state) (pos : Z) : bytes := take (Z.to_nat pos) (ln_buf l).
Definition behind (l : ln_state) (pos : Z) : bytes := drop (Z.to_nat pos) (line_bytes l).

(** linenoiseReadByte *)
Inductive got := Got (c : byte) | GotEof | GotErr.
Fixpoint read_byte (l : list rd) : got * list rd :=
  match l with
  | RdByte c :: l => (Got c, l)
  | RdEof :: l => (GotEof, l)
  | RdIntr :: l => read_byte l
  | RdAgain (Some true) :: l => read_byte l
  | RdAgain _ :: l => (GotErr, l)
  | RdErr :: l => (GotErr, l)
  | [] => (GotErr, [])
  end.
Definition linenoiseReadByte : L got :=
  fun w => let '(r, l) := read_byte (lw_in w) in Some (r, w <| lw_in := l |>).

(** ** Folds: ranges of pasted text that are drawn as a short marker *)

Definition overlaps (pos n : Z) (f : Z * Z) : bool := (f.1 <? pos + n) && (pos <? f.2).
Definition linenoiseRangeOverlapsFold (l : ln_state) (pos n : Z) : bool :=
  existsb (overlaps pos n) (ln_folds l).

(** The folds drawn: those that are ranges of the line. *)
Definition render_folds (l : ln_state) : list (Z * Z) :=
  if ln_len l =? 0 then []
  else filter (fun f => (f.1 <? f.2) && (f.2 <=? ln_len l) = true) (ln_folds l).

Definition linenoiseEditNextLen (l : ln_state) (pos : Z) : Z :=
  match list_find (fun f => f.1 = pos) (render_folds l) with
  | Some (_, f) => f.2 - f.1
  | None => Z.of_nat (utf8NextCharLen (behind l pos))
  end.
Definition linenoiseEditPrevLen (l : ln_state) (pos : Z) : Z :=
  match list_find (fun f => f.2 = pos) (render_folds l) with
  | Some (_, f) => f.2 - f.1
  | None => Z.of_nat (utf8PrevCharLen (before l pos))
  end.

(** Behind the last fold that does not start later. *)
Fixpoint fold_insert (x : Z * Z) (l : list (Z * Z)) : list (Z * Z) :=
  match l with
  | [] => [x]
  | f :: r => if forallb (fun g => x.1 <? g.1) l then x :: l else f :: fold_insert x r
  end.
Definition linenoiseFoldAdd (start stop : Z) (l : list (Z * Z)) : list (Z * Z) :=
  if (stop <=? start) || (len l =? LINENOISE_MAX_FOLDS) then l else fold_insert (start, stop) l.

Definition linenoiseAdjustFoldsAfterInsert (pos n : Z) (l : list (Z * Z)) : list (Z * Z) :=
  omap (fun f => if pos <=? f.1 then Some (f.1 + n, f.2 + n)
                 else if pos <? f.2 then None else Some f) l.
Definition linenoiseAdjustFoldsAfterDelete (pos n : Z) (l : list (Z * Z)) : list (Z * Z) :=
  omap (fun f => if pos + n <=? f.1 then Some (f.1 - n, f.2 - n)
                 else if f.2 <=? pos then Some f else None) l.

(** ** Drawing *)

Definition count_lines (s : bytes) : Z := 1 + len (filter (fun c => c = LF) s).
Definition foldSetRenderedText (buf : bytes) (f : Z * Z) : bytes :=
  let hidden := f.2 - f.1 in
  let lines := count_lines (mem_read f.1 hidden buf) in
  take 63 (if 1 <? lines then lit "[... " ++ decimal 20 lines [] ++ lit " pasted lines ...]"
           else lit "[... " ++ decimal 20 hidden [] ++ lit " pasted chars ...]").

(** The loop of linenoiseRenderBuffer: the text drawn from [src] on with the
    folds [fs], [dst] bytes being drawn already, and where the cursor is in it.
    None: a gap of negative length would be copied. *)
Fixpoint render (l : ln_state) (fs : list (Z * Z)) (src dst : Z) (pos : option Z)
    : option (bytes * Z) :=
  match fs with
  | [] => Some (mem_read src (ln_len l - src) (ln_buf l), default (dst + (ln_pos l - src)) pos)
  | f :: fs =>
      let gap := f.1 - src in
      let display := foldSetRenderedText (ln_buf l) f in
      if gap <? 0 then None
      else
        let pos := match pos with
                   | Some p => Some p
                   | None =>
                       if ln_pos l <=? f.1 then Some (dst + (ln_pos l - src))
                       else if ln_pos l <=? f.2 then Some (dst + gap + len display)
                       else None
                   end in
        match render l fs f.2 (dst + gap + len display) pos with
        | Some (out, p) => Some (mem_read src gap (ln_buf l) ++ display ++ out, p)
        | None => None
        end
  end.
Definition linenoiseRenderBuffer (l : ln_state) : option (bytes * Z) :=
  match render_folds l with
  | [] => Some (line_bytes l, ln_pos l)
  | fs => render l fs 0 0 None
  end.

(** The bytes allocated for it, without the NUL. *)
Definition render_size (l : ln_state) : Z :=
  foldl (fun n f => n - (f.2 - f.1) + len (foldSetRenderedText (ln_buf l) f)) (ln_len l)
        (render_folds l).

(** The scroll loops of refreshSingleLine; widths are of type size_t.  None: the
    loop does not end within [fuel] rounds. *)
Fixpoint scroll (fuel : nat) (pwidth cols : Z) (s : bytes) (poscol lencol : Z)
    : option (bytes * Z * Z) :=
  if cols <=? pwidth + poscol then
    match fuel with
    | O => None
    | S fuel =>
        let clen := utf8NextCharLen s in
        let cwidth := utf8SingleCharWidth (take clen s) in
        if poscol <? cwidth then Some (s, poscol, lencol)
        else scroll fuel pwidth cols (drop clen s) (poscol - cwidth) (u64 (lencol - cwidth))
    end
  else Some (s, poscol, lencol).
Fixpoint trim (fuel : nat) (pwidth cols : Z) (s : bytes) (lencol : Z) : option bytes :=
  if cols <? u64 (pwidth + lencol) then
    match fuel with
    | O => None
    | S fuel =>
        let clen := utf8PrevCharLen s in
        let cwidth := utf8SingleCharWidth (drop (length s - clen) s) in
        if lencol <? cwidth then Some s
        else trim fuel pwidth cols (take (length s - clen) s) (lencol - cwidth)
    end
  else Some s.

(** The bytes written to draw the line. *)
Definition refreshSingleLine (fuel : nat) (l : ln_state) : option bytes :=
  match linenoiseRenderBuffer l with
  | None => None
  | Some (text, pos) =>
      let pwidth := utf8StrWidth (ln_prompt l) in
      let poscol := utf8StrWidth (take (Z.to_nat pos) text) in
      match scroll fuel pwidth (ln_cols l) text poscol (utf8StrWidth text) with
      | None => None
      | Some (s, poscol, lencol) =>
          match trim fuel pwidth (ln_cols l) s lencol with
          | None => None
          | Some s =>
              Some ([CR] ++ ln_prompt l ++ s ++ ESC :: lit "[0K"
                    ++ [CR] ++ ESC :: lit "[" ++ decimal 20 (poscol + pwidth) [] ++ lit "C")
          end
      end
  end.

(** [l->pos], drawn with a pending warning above it. *)
Definition edit_cap_msg : bytes := lit "Mesaj sınırına ulaşıldı — 4096 byte".
Definition refreshLine : L unit :=
  l ← ln id;
  _ ← (if ln_status_warn l then
         _ ← put_out (OWrite edit_cap_msg); _ ← put_out (OWrite CRLF);
         set_ln (fun l => l <| ln_status_warn := false |>)
       else done_);
  l ← ln id;
  put_out (ODraw l).
Definition linenoiseBeep : L unit := put_out OBeep.

Section Editor.
Context (fails : nat -> bool).           (* the n-th allocation or write fails *)

Definition try_call : L bool := fun w =>
  Some (negb (fails (lw_calls w)), w <| lw_calls := S (lw_calls w) |>).

(** ** Editing *)

(** False: the text does not fit. *)
Definition linenoiseEditInsertNoRefresh (c : bytes) : L bool :=
  l ← ln id;
  let pos := ln_pos l in
  if ln_buflen l <? ln_len l + len c then mret false
  else
    _ ← (if ln_len l =? pos then buf_store pos c
         else _ ← buf_move (pos + len c) pos (ln_len l - pos); buf_store pos c);
    _ ← buf_store (ln_len l + len c) [NUL];
    _ ← set_ln (fun l => l <| ln_pos := pos + len c |> <| ln_len := ln_len l + len c |>
                           <| ln_folds ::= linenoiseAdjustFoldsAfterInsert pos (len c) |>);
    mret true.

Definition warn_full : L unit :=
  _ ← linenoiseBeep;
  _ ← set_ln (fun l => l <| ln_status_warn := true |>);
  refreshLine.

(** False: the terminal could not be written to. *)
Definition linenoiseEditInsert (c : bytes) : L bool :=
  l ← ln id;
  let needs_refresh := existsb (fun x => Byte.eqb x LF || Byte.eqb x CR) c in
  ok ← linenoiseEditInsertNoRefresh c;
  if negb ok then _ ← warn_full; mret true
  else
    l' ← ln id;
    if (ln_len l =? ln_pos l) && negb needs_refresh && bool_decide (ln_folds l' = [])
       && (utf8StrWidth (ln_prompt l') + utf8StrWidth (line_bytes l') <? ln_cols l')
    then
      ok ← try_call;
      if negb ok then mret false else _ ← put_out (OWrite c); mret true
    else _ ← refreshLine; mret true.

Definition linenoiseEditMoveLeft : L unit :=
  l ← ln id;
  if 0 <? ln_pos l then
    _ ← set_ln (fun l => l <| ln_pos := ln_pos l - linenoiseEditPrevLen l (ln_pos l) |>);
    refreshLine
  else done_.
Definition linenoiseEditMoveRight : L unit :=
  l ← ln id;
  if negb (ln_pos l =? ln_len l) then
    _ ← set_ln (fun l => l <| ln_pos := ln_pos l + linenoiseEditNextLen l (ln_pos l) |>);
    refreshLine
  else done_.
Definition linenoiseEditMoveHome : L unit :=
  l ← ln id;
  if negb (ln_pos l =? 0) then _ ← set_ln (fun l => l <| ln_pos := 0 |>); refreshLine else done_.
Definition linenoiseEditMoveEnd : L unit :=
  l ← ln id;
  if negb (ln_pos l =? ln_len l) then
    _ ← set_ln (fun l => l <| ln_pos := ln_len l |>); refreshLine
  else done_.

Definition linenoiseEditDelete : L unit :=
  l ← ln id;
  let pos := ln_pos l in
  if (0 <? ln_len l) && (pos <? ln_len l) then
    let clen := linenoiseEditNextLen l pos in
    _ ← set_ln (fun l => l <| ln_folds ::= linenoiseAdjustFoldsAfterDelete pos clen |>);
    _ ← buf_move pos (pos + clen) (ln_len l - pos - clen);
    _ ← set_ln (fun l => l <| ln_len := ln_len l - clen |>);
    _ ← buf_store (ln_len l - clen) [NUL];
    refreshLine
  else done_.

Definition linenoiseEditBackspace : L unit :=
  l ← ln id;
  let pos := ln_pos l in
  if (0 <? pos) && (0 <? ln_len l) then
    let clen := linenoiseEditPrevLen l pos in
    _ ← set_ln (fun l => l <| ln_folds ::= linenoiseAdjustFoldsAfterDelete (pos - clen) clen |>);
    _ ← buf_move (pos - clen) pos (ln_len l - pos);
    _ ← set_ln (fun l => l <| ln_pos := pos - clen |> <| ln_len := ln_len l - clen |>);
    _ ← buf_store (ln_len l - clen) [NUL];
    refreshLine
  else done_.

(** Back over the characters whose last byte satisfies [p]. *)
Fixpoint skip_back (fuel : nat) (p : byte -> bool) (l : ln_state) (pos : Z) : option Z :=
  if (0 <? pos) && p (default NUL (ln_buf l !! Z.to_nat (pos - 1))) then
    match fuel with
    | O => None
    | S fuel => skip_back fuel p l (pos - linenoiseEditPrevLen l pos)
    end
  else Some pos.
Definition is_space (c : byte) : bool := Byte.eqb c Byte.x20.
Definition linenoiseEditDeletePrevWord : L unit :=
  l ← ln id;
  let old_pos := ln_pos l in
  let fuel := length (ln_buf l) in
  match skip_back fuel is_space l old_pos with
  | None => undefined
  | Some pos =>
      match skip_back fuel (fun c => negb (is_space c)) l pos with
      | None => undefined
      | Some pos =>
          let diff := old_pos - pos in
          _ ← set_ln (fun l => l <| ln_pos := pos |>
                                 <| ln_folds ::= linenoiseAdjustFoldsAfterDelete pos diff |>);
          _ ← buf_move pos old_pos (ln_len l - old_pos + 1);
          _ ← set_ln (fun l => l <| ln_len := ln_len l - diff |>);
          refreshLine
      end
  end.

(** Ctrl-T: the characters around the cursor change places. *)
Definition edit_transpose : L unit :=
  l ← ln id;
  let pos := ln_pos l in
  if (0 <? pos) && (pos <? ln_len l) then
    let prevlen := linenoiseEditPrevLen l pos in
    let currlen := linenoiseEditNextLen l pos in
    let prevstart := pos - prevlen in
    if (32 <? prevlen) || (32 <? currlen) then done_
    else if linenoiseRangeOverlapsFold l prevstart (prevlen + currlen) then linenoiseBeep
    else
      let tmp := mem_read pos currlen (ln_buf l) in
      _ ← buf_move (prevstart + currlen) prevstart prevlen;
      _ ← buf_store prevstart tmp;
      _ ← (if pos + currlen <=? ln_len l
           then set_ln (fun l => l <| ln_pos := pos + currlen |>) else done_);
      refreshLine
  else done_.

(** Ctrl-U and Ctrl-K. *)
Definition edit_kill_line : L unit :=
  _ ← buf_store 0 [NUL];
  _ ← set_ln (fun l => l <| ln_pos := 0 |> <| ln_len := 0 |> <| ln_folds := [] |>);
  refreshLine.
Definition edit_kill_right : L unit :=
  l ← ln id;
  _ ← set_ln (fun l => l <| ln_folds ::=
        linenoiseAdjustFoldsAfterDelete (ln_pos l) (ln_len l - ln_pos l) |>);
  _ ← buf_store (ln_pos l) [NUL];
  _ ← set_ln (fun l => l <| ln_len := ln_pos l |>);
  refreshLine.

(** ** Bracketed paste *)

(** The capacity pasteBufferReserve doubles to. *)
Fixpoint double_to (fuel : nat) (want needed : Z) : Z :=
  match fuel with
  | O => want
  | S fuel =>
      if want <? needed then
        if PASTE_MAX_BYTES <? want * 2 then PASTE_MAX_BYTES else double_to fuel (want * 2) needed
      else want
  end.

(** The paste buffer: None is NULL. *)
Record paste := Paste { pa_buf : option bytes; pa_cap : Z; pa_overflowed : bool }.
Definition pa_bytes (p : paste) : bytes := default [] (pa_buf p).

(** False: too large, or no memory. *)
Definition pasteBufferAppend (s : bytes) (maxlen : Z) (p : paste) : L (paste * bool) :=
  l ← ln id;
  let needed := len (pa_bytes p) + len s in
  if maxlen <? needed then mret (p, false)
  else if ln_buflen l <? ln_len l + needed then mret (p, false)
  else if needed <=? pa_cap p then mret (Paste (Some (pa_bytes p ++ s)) (pa_cap p) false, true)
  else
    let want := double_to 64 (if pa_cap p =? 0 then 64 else pa_cap p) needed in
    if want <? needed then mret (p, false)
    else
      ok ← try_call;
      if negb ok then mret (p, false)
      else mret (Paste (Some (pa_bytes p ++ s)) want false, true).
Definition paste_add (s : bytes) (maxlen : Z) (p : paste) : L paste :=
  if pa_overflowed p then mret p
  else
    '(p, ok) ← pasteBufferAppend s maxlen p;
    mret (if ok : bool then p else Paste (pa_buf p) (pa_cap p) true).

(** ESC [ 2 0 1 ~ *)
Definition PASTE_END : bytes := ESC :: lit "[201~".

(** Bytes are collected until the end mark, whose first [matched] bytes were
    seen; [fuel] bounds the bytes read. *)
Fixpoint paste_loop (fuel : nat) (maxlen : Z) (matched : nat) (p : paste) : L paste :=
  match fuel with
  | O => undefined
  | S fuel =>
      r ← linenoiseReadByte;
      match r with
      | Got c =>
          if Byte.eqb c (default NUL (PASTE_END !! matched)) then
            if bool_decide (S matched = length PASTE_END) then mret p
            else paste_loop fuel maxlen (S matched) p
          else
            p ← (if bool_decide (0 < matched)%nat
                 then paste_add (take matched PASTE_END) maxlen p else mret p);
            if bool_decide (0 < matched)%nat && Byte.eqb c ESC then paste_loop fuel maxlen 1 p
            else
              p ← paste_add [c] maxlen p;
              paste_loop fuel maxlen 0 p
      | _ => mret p
      end
  end.

(** CR and CR LF become LF. *)
Fixpoint normalize (s : bytes) : bytes :=
  match s with
  | [] => []
  | c :: r =>
      if Byte.eqb c CR then
        LF :: match r with d :: r' => if Byte.eqb d LF then normalize r' else normalize r | [] => [] end
      else c :: normalize r
  end.

Definition shouldFoldText (s : bytes) : bool :=
  existsb (Byte.eqb LF) s || (PASTE_FOLD_THRESHOLD <=? len s).

(** The line is not left by a paste that does not fit. *)
Definition linenoiseEditPaste : L unit :=
  l ← ln id;
  let room := if ln_len l <? ln_buflen l then ln_buflen l - ln_len l else 0 in
  let maxlen := if len (ln_folds l) =? LINENOISE_MAX_FOLDS then 0 else Z.min room PASTE_MAX_BYTES in
  n ← (fun w => Some (length (lw_in w), w));
  p ← paste_loop (S n) maxlen 0 (Paste None 0 false);
  if pa_overflowed p then warn_full
  else
    match pa_buf p with
    | None => done_
    | Some text =>
        let text := normalize text in
        if shouldFoldText text then
          let start := ln_pos l in
          ok ← linenoiseEditInsertNoRefresh text;
          if negb ok then warn_full
          else
            _ ← set_ln (fun l => l <| ln_folds ::= linenoiseFoldAdd start (start + len text) |>);
            refreshLine
        else _ ← linenoiseEditInsert text; done_
    end.

(** ** Keys *)

Definition digit_byte (c : byte) : bool := between 48 57 c.

(** The digits of a parameter after the first, at most [n], and the final byte. *)
Fixpoint read_param (n : nat) (param : bytes) : L (bytes * option byte) :=
  match n with
  | O => mret (param, None)
  | S n =>
      r ← linenoiseReadByte;
      match r with
      | Got c => if digit_byte c then read_param n (param ++ [c]) else mret (param, Some c)
      | _ => mret (param, None)
      end
  end.

(** ESC: what follows is read and acted on. *)
Definition edit_escape : L unit :=
  r0 ← linenoiseReadByte;
  match r0 with
  | Got s0 =>
      r1 ← linenoiseReadByte;
      match r1 with
      | Got s1 =>
          if Byte.eqb s0 Byte.x5b then                                        (* [ *)
            if digit_byte s1 then
              '(param, final) ← read_param 7 [s1];
              if bool_decide (final = Some Byte.x7e) then                     (* ~ *)
                if bytes_eqb param (lit "3") then linenoiseEditDelete
                else if bytes_eqb param (lit "200") then linenoiseEditPaste
                else done_
              else done_
            else if Byte.eqb s1 Byte.x43 then linenoiseEditMoveRight          (* C *)
            else if Byte.eqb s1 Byte.x44 then linenoiseEditMoveLeft           (* D *)
            else if Byte.eqb s1 Byte.x48 then linenoiseEditMoveHome           (* H *)
            else if Byte.eqb s1 Byte.x46 then linenoiseEditMoveEnd            (* F *)
            else done_
          else if Byte.eqb s0 Byte.x4f then                                   (* O *)
            if Byte.eqb s1 Byte.x48 then linenoiseEditMoveHome
            else if Byte.eqb s1 Byte.x46 then linenoiseEditMoveEnd
            else done_
          else done_
      | _ => done_
      end
  | _ => done_
  end.

(** The bytes of a character behind its first; None: an error, nothing is kept. *)
Fixpoint read_rest (n : nat) (acc : bytes) : L (option bytes) :=
  match n with
  | O => mret (Some acc)
  | S n =>
      r ← linenoiseReadByte;
      match r with
      | Got c => read_rest n (acc ++ [c])
      | GotEof => mret (Some acc)
      | GotErr => mret None
      end
  end.

Inductive feed := EditMore | EditLine (s : bytes) | EditFail (errno : Z).
Definition ECANCELED : Z := 125.
Definition ENOENT : Z := 2.

(** The default case; [e] is errno of a failed write. *)
Definition edit_char (e : Z) (c : byte) : L feed :=
  if (byte.unsigned c <? 32) && negb (Byte.eqb c TAB) then _ ← linenoiseBeep; mret EditMore
  else
    utf8 ← read_rest (utf8ByteLen c - 1) [c];
    match utf8 with
    | None => mret EditMore
    | Some utf8 =>
        ok ← linenoiseEditInsert utf8;
        mret (if ok : bool then EditMore else EditFail e)
    end.

Definition close_line : L unit := set_ln (fun l => l <| ln_prompt_drawn := false |>).
Definition more (m : L unit) : L feed := _ ← m; mret EditMore.

Definition edit_key (e : Z) (c : byte) : L feed :=
  let k := byte.unsigned c in
  if k =? 13 then
    _ ← close_line;
    l ← ln id;
    _ ← defined (existsb (Byte.eqb NUL) (ln_buf l));
    ok ← try_call;
    mret (if ok : bool then EditLine (cstr (ln_buf l)) else EditFail e)
  else if (k =? 3) || (k =? 16) then _ ← close_line; mret (EditFail ECANCELED)
  else if (k =? 127) || (k =? 8) then more linenoiseEditBackspace
  else if k =? 4 then
    l ← ln id;
    if 0 <? ln_len l then more linenoiseEditDelete
    else _ ← close_line; mret (EditFail ENOENT)
  else if k =? 20 then more edit_transpose
  else if k =? 2 then more linenoiseEditMoveLeft
  else if k =? 6 then more linenoiseEditMoveRight
  else if k =? 27 then more edit_escape
  else if k =? 21 then more edit_kill_line
  else if k =? 11 then more edit_kill_right
  else if k =? 1 then more linenoiseEditMoveHome
  else if k =? 5 then more linenoiseEditMoveEnd
  else if k =? 12 then
    _ ← put_out (OWrite (ESC :: lit "[H" ++ ESC :: lit "[2J")); more refreshLine
  else if k =? 23 then more linenoiseEditDeletePrevWord
  else edit_char e c.

(** One call; [e] is what errno holds when a call fails without setting it to
    one of the above. *)
Definition linenoiseEditFeed (e : Z) : L feed := fun w =>
  match lw_in w with
  | RdByte c :: r => edit_key e c (w <| lw_in := r |>)
  | RdAgain _ :: r => Some (EditMore, w <| lw_in := r |>)
  | [] => Some (EditMore, w)
  | _ :: r => Some (EditFail e, w <| lw_in := r |>)
  end.

(** ** Start and stop *)

Definition linenoiseEditStart (buf prompt : bytes) (raw_ok tty : bool) (cols : Z) : L bool :=
  if len buf <? 2 then mret false
  else
    _ ← set_ln (fun l => l <| ln_buf := buf |> <| ln_buflen := len buf |> <| ln_prompt := prompt |>
                           <| ln_pos := 0 |> <| ln_len := 0 |> <| ln_status_warn := false |>
                           <| ln_prompt_drawn := false |> <| ln_folds := [] |>);
    if negb raw_ok then mret false
    else
      _ ← set_ln (fun l => l <| ln_cols := if cols <? 2 then 80 else cols |>);
      _ ← buf_store 0 [NUL];
      _ ← set_ln (fun l => l <| ln_buflen := ln_buflen l - 1 |>);
      if negb tty then mret true
      else
        ok ← try_call;
        if negb ok then mret false
        else
          _ ← put_out (OWrite (CR :: ESC :: lit "[0K"));
          ok ← try_call;
          if negb ok then mret false
          else
            _ ← put_out (OWrite prompt);
            _ ← set_ln (fun l => l <| ln_prompt_drawn := true |>);
            mret true.

Definition linenoiseEditStop (tty : bool) : L unit :=
  l ← ln id;
  if negb tty then done_
  else if ln_prompt_drawn l then
    _ ← put_out (OWrite CRLF); close_line
  else done_.

(** Calls until the line is done, at most [n]. *)
Fixpoint edit_session (n : nat) (e : Z) : L feed :=
  match n with
  | O => mret EditMore
  | S n =>
      r ← linenoiseEditFeed e;
      match r with EditMore => edit_session n e | _ => mret r end
  end.

End Editor.
