(* ===== verification/LineEditProofs.v ===== *)
(** * The line editor never leaves its buffer

    Whatever is typed or pasted, and whichever allocations and writes fail, every
    store of the editor is inside the buffer, the folds stay disjoint ranges of
    the line in order, each line drawn fits the block allocated for it, and a
    line returned is shorter than the buffer. *)

From S2P Require Import Prelude Partial Primitives Types Arena ArenaProofs Buffers Keys Control.
From S2P Require Import Frontend LineEdit.

(** ** A character and a cluster have at least one byte *)

Lemma decode_bounds s : s <> [] -> (1 <= (utf8DecodeChar s).2 <= length s)%nat.
Proof. unfold utf8DecodeChar. intros. repeat case_match; cbn in *; try done; lia. Qed.

Lemma scan_back_bounds n b i : (0 < i)%nat -> (0 < n)%nat -> (scan_back n b i < i)%nat.
Proof.
  revert i. induction n as [|n IH]; [lia|]. intros [|k] Hi _; [lia|]. cbn.
  case_match; [|lia]. case_bool_decide; [|lia]. destruct n; [cbn; lia|].
  pose proof (IH k). lia.
Qed.

Lemma decode_prev_bounds b : b <> [] -> (1 <= (utf8DecodePrev b).2 <= length b)%nat.
Proof.
  destruct b as [|c b]; [done|]. intros _. set (d := c :: b). change (utf8DecodePrev d) with
    ((utf8DecodeChar (drop (scan_back 4 d (length d)) d)).1, length d - scan_back 4 d (length d))%nat.
  pose proof (scan_back_bounds 4 d (length d)). cbn [snd]. subst d. cbn [length] in *. lia.
Qed.

Lemma prev_cluster_bounds fuel : forall b cp total,
  (total <= prev_cluster fuel b cp total <= total + length b)%nat.
Proof.
  induction fuel as [|fuel IH]; intros b cp total; [cbn; lia|].
  destruct b as [|c b]; [cbn; lia|]. cbn [prev_cluster]. set (d := c :: b).
  assert (d <> []) as Hd by done. pose proof (decode_prev_bounds d Hd) as Hpl.
  destruct (utf8DecodePrev d) as [pcp pl]. cbn [snd] in *.
  set (b1 := take (length d - pl) d).
  assert (length b1 = length d - pl)%nat as Hb1 by (unfold b1; rewrite length_take; lia).
  clearbody b1.
  case_bool_decide; [lia|]. destruct (isZWJ pcp).
  - destruct (decide (b1 = [])) as [->|Hn]; [cbn in *; case_bool_decide; lia|].
    pose proof (decode_prev_bounds b1 Hn) as H2. destruct (utf8DecodePrev b1) as [pcp2 pl2]. cbn [snd] in *.
    case_bool_decide; [lia|]. specialize (IH (take (length b1 - pl2) b1) pcp2 (total + pl + pl2)%nat).
    rewrite length_take in IH. lia.
  - specialize (IH b1 pcp (total + pl)%nat). destruct (isGraphemeExtend cp); [lia|]. case_match; lia.
Qed.
Lemma prev_char_bounds b : b <> [] -> (1 <= utf8PrevCharLen b <= length b)%nat.
Proof.
  intros Hb. pose proof (decode_prev_bounds b Hb) as H. unfold utf8PrevCharLen. destruct b as [|c b]; [done|].
  destruct (utf8DecodePrev (c :: b)) as [cp n]. cbn [snd] in H. rewrite bool_decide_false by lia.
  pose proof (prev_cluster_bounds (length (c :: b)) (take (length (c :: b) - n) (c :: b)) cp n) as Hc.
  rewrite length_take in Hc. lia.
Qed.

Lemma next_cluster_bounds fuel : forall s ri total,
  (total <= next_cluster fuel s ri total <= total + length s)%nat.
Proof.
  induction fuel as [|fuel IH]; intros s ri total; [cbn; lia|].
  destruct s as [|c s]; [cbn; lia|]. cbn [next_cluster]. set (d := c :: s).
  assert (d <> []) as Hd by done. clearbody d. pose proof (decode_bounds d Hd).
  destruct (utf8DecodeChar d) as [ncp nl]. cbn [snd] in *.
  assert (length (drop nl d) = length d - nl)%nat as Hl by apply length_drop.
  pose proof (fun ri => IH (drop nl d) ri (total + nl)%nat) as Hnext. destruct (_ && _) eqn:E.
  - apply andb_prop in E as [_ E]. apply bool_decide_eq_true in E.
    assert (drop nl d <> []) as Hn by (intros E0; rewrite E0 in Hl; cbn in Hl; lia).
    pose proof (decode_bounds _ Hn). destruct (utf8DecodeChar (drop nl d)) as [c2 nl2]. cbn [snd] in *.
    specialize (IH (drop nl2 (drop nl d)) ri (total + nl + nl2)%nat). rewrite length_drop in IH. lia.
  - pose proof (Hnext ri). pose proof (Hnext false). repeat case_match; lia.
Qed.
Lemma next_char_bounds s : s <> [] -> (1 <= utf8NextCharLen s <= length s)%nat.
Proof.
  intros Hs. pose proof (decode_bounds s Hs) as H. unfold utf8NextCharLen. destruct s as [|c s]; [done|].
  destruct (utf8DecodeChar (c :: s)) as [cp n]. cbn [snd] in H.
  pose proof (next_cluster_bounds (length (c :: s)) (drop n (c :: s)) (isRegionalIndicator cp) n) as Hc.
  rewrite length_drop in Hc. lia.
Qed.

(** ** Folds *)

(** Disjoint ranges in order, between [lo] and [hi]. *)
Fixpoint folds_in (lo hi : Z) (fs : list (Z * Z)) : Prop :=
  match fs with
  | [] => True
  | f :: r => lo <= f.1 < f.2 /\ f.2 <= hi /\ folds_in f.2 hi r
  end.

Lemma folds_weaken fs : forall lo hi lo' hi', folds_in lo hi fs -> lo' <= lo -> hi <= hi' -> folds_in lo' hi' fs.
Proof.
  induction fs as [|f fs IH]; intros lo hi lo' hi'; cbn; [done|]. intros (H1 & H2 & H3) ??.
  split_and!; [lia..|]. eapply IH; [done|lia|done].
Qed.
Lemma folds_elem fs : forall lo hi f, folds_in lo hi fs -> f ∈ fs -> lo <= f.1 < f.2 /\ f.2 <= hi.
Proof.
  induction fs as [|g fs IH]; intros lo hi f; [by intros _ ?%elem_of_nil|].
  intros (H1 & H2 & H3) [->|Hf]%elem_of_cons; [lia|]. destruct (IH _ _ _ H3 Hf). lia.
Qed.

Lemma folds_shift fs n : forall lo hi, 0 <= n -> folds_in lo hi fs ->
  folds_in (lo + n) (hi + n) (map (fun f => (f.1 + n, f.2 + n)) fs).
Proof.
  induction fs as [|f fs IH]; intros lo hi Hn; cbn; [done|]. intros (H1 & H2 & H3).
  split_and!; [lia..|]. by apply IH.
Qed.
Lemma insert_behind pos n fs : forall lo hi, folds_in lo hi fs -> pos <= lo ->
  linenoiseAdjustFoldsAfterInsert pos n fs = map (fun f => (f.1 + n, f.2 + n)) fs.
Proof.
  induction fs as [|f fs IH]; intros lo hi; cbn; [done|]. intros (H1 & H2 & H3) ?.
  rewrite (proj2 (Z.leb_le _ _)) by lia. f_equal. eapply IH; [done|lia].
Qed.
Lemma folds_after_insert pos n fs : forall lo hi, 0 <= n -> lo <= pos -> folds_in lo hi fs ->
  folds_in lo (hi + n) (linenoiseAdjustFoldsAfterInsert pos n fs).
Proof.
  induction fs as [|f fs IH]; intros lo hi Hn Hp Hf; [done|].
  pose proof Hf as (H1 & H2 & H3). destruct (Z.leb_spec pos f.1).
  - rewrite (insert_behind _ _ _ f.1 hi); [|cbn; split_and!; (done || lia)|done].
    eapply folds_weaken; [apply (folds_shift _ n f.1 hi); [done|cbn; split_and!; (done || lia)]|lia|lia].
  - change (linenoiseAdjustFoldsAfterInsert pos n (f :: fs)) with
      (match (if pos <=? f.1 then Some (f.1 + n, f.2 + n) else if pos <? f.2 then None else Some f) with
       | Some y => y :: linenoiseAdjustFoldsAfterInsert pos n fs
       | None => linenoiseAdjustFoldsAfterInsert pos n fs end).
    rewrite (proj2 (Z.leb_gt _ _)) by done. destruct (Z.ltb_spec pos f.2).
    + rewrite (insert_behind _ _ _ f.2 hi) by (done || lia).
      eapply folds_weaken; [by apply folds_shift|lia|lia].
    + cbn. split_and!; [lia..|]. by apply IH.
Qed.

Lemma folds_after_delete pos n fs : forall lo hi, 0 <= n -> lo <= pos -> pos + n <= hi -> folds_in lo hi fs ->
  folds_in lo (hi - n) (linenoiseAdjustFoldsAfterDelete pos n fs).
Proof.
  assert (forall fs lo hi, folds_in lo hi fs -> 0 <= n -> pos + n <= lo ->
    folds_in (lo - n) (hi - n) (linenoiseAdjustFoldsAfterDelete pos n fs)) as Hbehind.
  { clear. induction fs as [|f fs IH]; intros lo hi; cbn; [done|]. intros (H1 & H2 & H3) ??.
    rewrite (proj2 (Z.leb_le _ _)) by lia. cbn. split_and!; [lia..|]. apply IH; [done|done|lia]. }
  induction fs as [|f fs IH]; intros lo hi Hn Hp Hh Hf; [done|]. pose proof Hf as (H1 & H2 & H3). cbn.
  destruct (Z.leb_spec (pos + n) f.1); cbn.
  - split_and!; [lia..|]. apply (Hbehind fs f.2 hi); [done|done|lia].
  - destruct (Z.leb_spec f.2 pos); cbn; [split_and!; [lia..|]; by apply IH|].
    destruct (Z.leb_spec (pos + n) f.2) as [Hle|Hgt].
    + eapply folds_weaken; [apply (Hbehind fs f.2 hi); [done|done|lia]|lia|lia].
    + apply IH; [done..|]. eapply folds_weaken; [done|lia|lia].
Qed.

Lemma fold_insert_front x fs : Forall (fun g => x.1 < g.1) fs -> fold_insert x fs = x :: fs.
Proof.
  destruct fs as [|f fs]; [done|]. intros H. unfold fold_insert; fold fold_insert.
  assert (forallb (fun g : Z * Z => x.1 <? g.1) (f :: fs) = true) as ->; [|done].
  apply forallb_forall. intros g Hg. rewrite Forall_forall in H. by apply Z.ltb_lt, H, list_elem_of_In.
Qed.
Lemma fold_insert_behind x f fs : f.1 <= x.1 -> fold_insert x (f :: fs) = f :: fold_insert x fs.
Proof. intros. unfold fold_insert; fold fold_insert. cbn [forallb]. by rewrite (proj2 (Z.ltb_ge _ _)). Qed.

(** Nothing is left around the cursor once text is inserted there. *)
Lemma fold_insert_ok pos n fs : forall lo hi, 0 < n -> lo <= pos -> pos <= hi -> folds_in lo hi fs ->
  folds_in lo (hi + n) (fold_insert (pos, pos + n) (linenoiseAdjustFoldsAfterInsert pos n fs)).
Proof.
  induction fs as [|f fs IH]; intros lo hi Hn Hp Hh Hf; [cbn; lia|].
  pose proof Hf as (H1 & H2 & H3).
  assert (forall gs lo', folds_in lo' (hi + n) gs -> pos + n <= lo' ->
    folds_in lo (hi + n) (fold_insert (pos, pos + n) gs)) as Hfront.
  { intros gs lo' Hg Hl. rewrite fold_insert_front.
    - split_and!; cbn; [lia..|]. eapply folds_weaken; [done|lia|lia].
    - rewrite Forall_forall. intros g Hi. apply (folds_elem _ _ _ _ Hg) in Hi. cbn. lia. }
  destruct (Z.leb_spec pos f.1).
  - apply (Hfront _ (f.1 + n)); [|lia]. rewrite (insert_behind _ _ _ f.1 hi); [|cbn; split_and!; (done || lia)|done].
    apply folds_shift; [lia|]. cbn; split_and!; (done || lia).
  - cbn [linenoiseAdjustFoldsAfterInsert omap list_omap]. rewrite (proj2 (Z.leb_gt _ _)) by done.
    fold (linenoiseAdjustFoldsAfterInsert pos n fs). destruct (Z.ltb_spec pos f.2).
    + apply (Hfront _ (f.2 + n)); [|lia]. rewrite (insert_behind _ _ _ f.2 hi) by (done || lia).
      apply folds_shift; [lia|done].
    + rewrite fold_insert_behind by (cbn; lia). split_and!; [lia..|]. apply IH; (done || lia).
Qed.

Lemma adjusted_count g (fs : list (Z * Z)) : len (omap g fs : list (Z * Z)) <= len fs.
Proof. unfold len. induction fs as [|f fs IH]; cbn; [lia|]. case_match; cbn; lia. Qed.
Lemma fold_insert_count x fs : len (fold_insert x fs) = len fs + 1.
Proof. unfold len. induction fs as [|f fs IH]; [done|]. unfold fold_insert; fold fold_insert. case_match; cbn [length] in *; lia. Qed.
Lemma fold_add_count a b fs : len fs <= LINENOISE_MAX_FOLDS -> len (linenoiseFoldAdd a b fs) <= LINENOISE_MAX_FOLDS.
Proof. intros. unfold linenoiseFoldAdd. case_match; [done|]. rewrite fold_insert_count. lia. Qed.

(** ** The line in its buffer *)

(** The line is [bef ++ aft] with the cursor between them, in a buffer of [cap]
    bytes and one for the NUL. *)
Record lrep (cap : Z) (l : ln_state) (bef aft : bytes) : Prop := {
  lr_buf : exists junk, ln_buf l = bef ++ aft ++ NUL :: junk;
  lr_size : len (ln_buf l) = cap + 1;
  lr_cap : ln_buflen l = cap;
  lr_pos : ln_pos l = len bef;
  lr_len : ln_len l = len bef + len aft;
  lr_folds : folds_in 0 (len bef + len aft) (ln_folds l);
  lr_count : len (ln_folds l) <= LINENOISE_MAX_FOLDS }.

Lemma lrep_fits cap l bef aft : lrep cap l bef aft -> len bef + len aft <= cap.
Proof. intros [[junk E] Hs _ _ _ _ _]. rewrite E in Hs. unfold len in *. rewrite !length_app in Hs. cbn in Hs. lia. Qed.

Lemma line_bytes_rep cap l bef aft : lrep cap l bef aft -> line_bytes l = bef ++ aft.
Proof.
  intros [[junk E] _ _ _ Hl _ _]. unfold line_bytes. rewrite E, Hl, app_assoc. unfold len.
  rewrite take_app_le by (rewrite length_app; lia). apply take_ge. rewrite length_app. lia.
Qed.
Lemma before_rep cap l x y r : lrep cap l (x ++ y) r -> before l (len x) = x.
Proof.
  intros [[junk E] _ _ _ _ _ _]. unfold before. rewrite E, <-app_assoc. unfold len. rewrite Nat2Z.id. apply take_app_length.
Qed.
Lemma behind_rep cap l bef aft : lrep cap l bef aft -> behind l (len bef) = aft.
Proof.
  intros H. unfold behind. rewrite (line_bytes_rep cap l bef aft H). unfold len. rewrite Nat2Z.id. apply drop_app_length.
Qed.

Lemma render_folds_rep cap l bef aft : lrep cap l bef aft -> render_folds l = ln_folds l.
Proof.
  intros [_ _ _ _ Hl Hf _]. unfold render_folds. rewrite Hl. destruct (Z.eqb_spec (len bef + len aft) 0) as [E|_].
  - rewrite E in Hf. destruct (ln_folds l); [done|]. cbn in Hf. lia.
  - assert (forall f, f ∈ ln_folds l -> (f.1 <? f.2) && (f.2 <=? len bef + len aft) = true) as H.
    { intros f Hi. apply (folds_elem _ _ _ _ Hf) in Hi. lia. }
    clear Hf. induction (ln_folds l) as [|f fs IH]; [done|]. rewrite filter_cons_True.
    + f_equal. apply IH. intros g Hg. apply H. by right.
    + apply H. by left.
Qed.

(** ** The cursor moves over whole characters or folds, inside the line *)

Lemma prev_len_bounds cap l bef aft x y : lrep cap l bef aft -> bef = x ++ y -> x <> [] ->
  1 <= linenoiseEditPrevLen l (len x) <= len x.
Proof.
  intros H -> Hx. unfold linenoiseEditPrevLen. rewrite (render_folds_rep _ _ _ _ H).
  destruct (list_find _ _) as [[i f]|] eqn:E.
  - apply list_find_Some in E as (Hi & E & _). apply list_elem_of_lookup_2 in Hi.
    apply (folds_elem _ _ _ _ (lr_folds _ _ _ _ H)) in Hi. lia.
  - rewrite (before_rep _ _ _ _ _ H). pose proof (prev_char_bounds x Hx). unfold len. lia.
Qed.
Lemma next_len_bounds cap l bef aft : lrep cap l bef aft -> aft <> [] ->
  1 <= linenoiseEditNextLen l (len bef) <= len aft.
Proof.
  intros H Ha. unfold linenoiseEditNextLen. rewrite (render_folds_rep _ _ _ _ H).
  destruct (list_find _ _) as [[i f]|] eqn:E.
  - apply list_find_Some in E as (Hi & E & _). apply list_elem_of_lookup_2 in Hi.
    apply (folds_elem _ _ _ _ (lr_folds _ _ _ _ H)) in Hi. lia.
  - rewrite (behind_rep _ _ _ _ H). pose proof (next_char_bounds aft Ha). unfold len. lia.
Qed.

(** ** Drawing stays inside the block allocated for it *)

Lemma render_size_shift buf fs : forall n k,
  foldl (fun n f => n - (f.2 - f.1) + len (foldSetRenderedText buf f)) (n + k) fs
  = foldl (fun n f => n - (f.2 - f.1) + len (foldSetRenderedText buf f)) n fs + k.
Proof.
  induction fs as [|f fs IH]; intros n k; [done|]. cbn [foldl]. rewrite <-IH. f_equal. lia.
Qed.
Lemma len_mem_read off n b : 0 <= off -> 0 <= n -> off + n <= len b -> len (mem_read off n b) = n.
Proof. intros. unfold mem_read, len in *. rewrite length_take, length_drop. lia. Qed.

Lemma render_spec l fs : ln_len l <= len (ln_buf l) -> forall src dst pos,
  folds_in src (ln_len l) fs -> 0 <= src <= ln_len l -> 0 <= dst ->
  match pos with Some p => 0 <= p <= dst | None => src <= ln_pos l <= ln_len l end ->
  exists out p, render l fs src dst pos = Some (out, p) /\ 0 <= p <= dst + len out /\
    len out = foldl (fun n f => n - (f.2 - f.1) + len (foldSetRenderedText (ln_buf l) f)) (ln_len l - src) fs.
Proof.
  intros Hb. induction fs as [|f fs IH]; intros src dst pos Hf Hs Hd Hp.
  - eexists _, _. cbn [render]. split; [done|]. rewrite len_mem_read by lia. split; [destruct pos; cbn; lia|done].
  - destruct Hf as (H1 & H2 & H3). cbn [render]. rewrite (proj2 (Z.ltb_ge _ _)) by lia.
    set (d := foldSetRenderedText (ln_buf l) f). pose proof (len_nonneg d).
    set (pos' := match pos with Some p => _ | None => _ end).
    destruct (IH f.2 (dst + (f.1 - src) + len d) pos') as (out & p & -> & Hp' & Hl); [done|lia|lia| |].
    { subst pos'. destruct pos as [p|]; [lia|]. destruct (Z.leb_spec (ln_pos l) f.1); [lia|].
      destruct (Z.leb_spec (ln_pos l) f.2); lia. }
    eexists _, _. split; [done|]. rewrite !len_app, len_mem_read by lia. split; [lia|].
    rewrite Hl. cbn [foldl]. fold d.
    replace (ln_len l - src - (f.2 - f.1) + len d) with (ln_len l - f.2 + (f.1 - src + len d)) by lia.
    rewrite render_size_shift. lia.
Qed.

(** The text drawn and the cursor in it. *)
Definition drawn_inside (l : ln_state) : Prop :=
  exists out p, linenoiseRenderBuffer l = Some (out, p) /\ 0 <= p <= len out /\ len out = render_size l.
Lemma renders cap l bef aft : lrep cap l bef aft -> drawn_inside l.
Proof.
  intros H. pose proof (lrep_fits _ _ _ _ H). pose proof (len_nonneg bef). pose proof (len_nonneg aft).
  unfold drawn_inside, linenoiseRenderBuffer, render_size. rewrite (render_folds_rep _ _ _ _ H).
  destruct (ln_folds l) as [|f fs] eqn:E.
  - eexists _, _. rewrite (line_bytes_rep _ _ _ _ H), (lr_pos _ _ _ _ H), len_app.
    split_and!; [done|lia..|cbn; by rewrite (lr_len _ _ _ _ H)].
  - destruct (render_spec l (f :: fs)) with (src := 0) (dst := 0) (pos := @None Z) as (out & p & Hr & Hp & Hl).
    + rewrite (lr_len _ _ _ _ H), (lr_size _ _ _ _ H). lia.
    + rewrite <-E, (lr_len _ _ _ _ H). apply (lr_folds _ _ _ _ H).
    + rewrite (lr_len _ _ _ _ H). lia.
    + done.
    + rewrite (lr_pos _ _ _ _ H), (lr_len _ _ _ _ H). lia.
    + exists out, p. rewrite Z.sub_0_r in Hl. split_and!; [done|lia..|done].
Qed.

(** ** Rules *)

Lemma tw_ln {A} (f : ln_state -> A) (Q : A -> ln_world -> Prop) w : Q (f (lw_l w)) w -> tw (ln f) Q w.
Proof. done. Qed.
Lemma tw_set_ln f (Q : unit -> ln_world -> Prop) w : Q tt (w <| lw_l := f (lw_l w) |>) -> tw (set_ln f) Q w.
Proof. done. Qed.
Lemma tw_put_out o (Q : unit -> ln_world -> Prop) w : Q tt (w <| lw_out := lw_out w ++ [o] |>) -> tw (put_out o) Q w.
Proof. done. Qed.

Ltac lstep :=
  lazymatch goal with
  | |- tw (mbind _ _) _ _ => apply tw_bind
  | |- tw (mret _) _ _ => apply tw_ret
  | |- tw done_ _ _ => apply tw_ret
  | |- tw (ln _) _ _ => apply tw_ln
  | |- tw (set_ln _) _ _ => apply tw_set_ln
  | |- tw (put_out _) _ _ => apply tw_put_out
  end.
Ltac lsteps := repeat (lstep; cbv beta).

Lemma tw_buf_store off v (Q : unit -> ln_world -> Prop) w :
  0 <= off -> off + len v <= len (ln_buf (lw_l w)) ->
  Q tt (w <| lw_l := lw_l w <| ln_buf := mem_write off v (ln_buf (lw_l w)) |> |>) -> tw (buf_store off v) Q w.
Proof.
  intros H1 H2 HQ. unfold buf_store. lsteps. apply tw_defined; [|done]. apply andb_true_intro. split; by apply Z.leb_le.
Qed.
Lemma tw_buf_move dst src n (Q : unit -> ln_world -> Prop) w :
  let b := ln_buf (lw_l w) in
  0 <= src -> 0 <= n -> src + n <= len b -> 0 <= dst -> dst + n <= len b ->
  Q tt (w <| lw_l := lw_l w <| ln_buf := mem_write dst (mem_read src n b) b |> |>) -> tw (buf_move dst src n) Q w.
Proof.
  intros b H1 H2 H3 H4 H5 HQ. unfold buf_move. lsteps. apply tw_defined.
  { fold b. rewrite !andb_true_iff. split_and!; by apply Z.leb_le. }
  apply tw_buf_store; [done| |done]. fold b. by rewrite len_mem_read by done.
Qed.

(** ** What an operation leaves *)

Definition drawable (o : out_item) : Prop := match o with ODraw l => drawn_inside l | _ => True end.

Record editing (cap : Z) (w : ln_world) (bef aft : bytes) : Prop := {
  ed_rep : lrep cap (lw_l w) bef aft;
  ed_out : Forall drawable (lw_out w) }.
(** From [w] to [w'] no input is read and no fold is made. *)
Record quiet (w w' : ln_world) : Prop := {
  qu_in : lw_in w' = lw_in w;
  qu_folds : ln_folds (lw_l w) = [] -> ln_folds (lw_l w') = [] }.
Definition edited (cap : Z) (w : ln_world) (bef aft : bytes) (w' : ln_world) : Prop :=
  editing cap w' bef aft /\ quiet w w'.
Definition sound (cap : Z) (w : ln_world) : Prop := exists bef aft, editing cap w bef aft.

Lemma edited_sound cap w bef aft w' : edited cap w bef aft w' -> sound cap w'.
Proof. intros [H _]. by exists bef, aft. Qed.
Lemma quiet_refl w : quiet w w.
Proof. done. Qed.
Lemma line_edited_refl cap w bef aft : editing cap w bef aft -> edited cap w bef aft w.
Proof. done. Qed.

Lemma draw_ok cap w bef aft s : lrep cap (lw_l w) bef aft -> Forall drawable s -> Forall drawable (s ++ [ODraw (lw_l w)]).
Proof. intros H Hs. apply Forall_app. split; [done|]. constructor; [|done]. by eapply renders. Qed.
Lemma Forall_snoc_I (s : list out_item) o : Forall drawable s -> drawable o -> Forall drawable (s ++ [o]).
Proof. intros. apply Forall_app. split; [done|by constructor]. Qed.

Lemma refresh_spec cap w0 w bef aft :
  lrep cap (lw_l w) bef aft -> Forall drawable (lw_out w) -> quiet w0 w ->
  tw refreshLine (fun _ w' => edited cap w0 bef aft w') w.
Proof.
  intros H Ho Hq. assert (lrep cap (lw_l w <| ln_status_warn := false |>) bef aft) as H' by (by destruct H).
  unfold refreshLine. lsteps. unfold id. destruct (ln_status_warn (lw_l w)); lsteps; split.
  - constructor; [done|]. cbn. apply Forall_snoc_I; [|by eapply renders]. by repeat apply Forall_snoc_I.
  - destruct Hq. by constructor.
  - constructor; [done|]. cbn. apply Forall_snoc_I; [done|by eapply renders].
  - destruct Hq. by constructor.
Qed.

(** *** Text is taken out *)

Lemma cut_rep cap l l' bef aft x del y : lrep cap l bef aft -> bef ++ aft = x ++ del ++ y ->
  (exists junk, ln_buf l' = x ++ y ++ NUL :: junk) -> len (ln_buf l') = cap + 1 -> ln_buflen l' = cap ->
  ln_pos l' = len x -> ln_len l' = len x + len y ->
  ln_folds l' = linenoiseAdjustFoldsAfterDelete (len x) (len del) (ln_folds l) ->
  lrep cap l' x y.
Proof.
  intros [_ _ _ _ _ Hf Hc] E Hb Hs Hcap Hp Hl Ef. constructor; try done; rewrite Ef.
  - apply (f_equal len) in E. rewrite !len_app in E. rewrite E in Hf.
    pose proof (len_nonneg x). pose proof (len_nonneg del). pose proof (len_nonneg y).
    replace (len x + len y) with (len x + (len del + len y) - len del) by lia.
    apply folds_after_delete; [done|lia|lia|done].
  - etransitivity; [apply adjusted_count|done].
Qed.

Lemma line_cut_buffer x del y junk : del <> [] ->
  let b := x ++ del ++ y ++ NUL :: junk in
  exists junk', mem_write (len x + len y) [NUL]
    (mem_write (len x) (mem_read (len x + len del) (len y) b) b) = x ++ y ++ NUL :: junk'.
Proof.
  intros Hd b. unfold b. rewrite mem_cut, <-len_app, (app_assoc x y).
  destruct (drop (length y) (del ++ y)) as [|c r] eqn:E.
  { apply (f_equal length) in E. rewrite length_drop, length_app in E. destruct del; [done|cbn in E; lia]. }
  exists (r ++ NUL :: junk). cbn [Datatypes.app]. rewrite mem_store_at. by rewrite <-!app_assoc.
Qed.

(** Moving [y] over [del] and ending the line behind it. *)
Lemma line_cut_spec cap w x del y f k (Q : unit -> ln_world -> Prop) :
  (exists junk, ln_buf (lw_l w) = x ++ del ++ y ++ NUL :: junk) -> len (ln_buf (lw_l w)) = cap + 1 -> del <> [] ->
  (forall l, ln_buf (f l) = ln_buf l) ->
  (forall m b, (exists junk, b = x ++ y ++ NUL :: junk) -> len b = cap + 1 ->
    tw (k tt) Q (w <| lw_l := f (lw_l w <| ln_buf := m |>) <| ln_buf := b |> |>)) ->
  tw (buf_move (len x) (len x + len del) (len y))
     (fun _ => tw (set_ln f ≫= fun _ => buf_store (len x + len y) [NUL] ≫= k) Q) w.
Proof.
  intros [junk Eb] Hs Hd Hfr HQ. pose proof Hs as Hfit. rewrite Eb, !len_app in Hfit.
  pose proof (len_nonneg x). pose proof (len_nonneg y). pose proof (len_nonneg del).
  assert (1 <= len (NUL :: junk)) by (unfold len; cbn; lia).
  apply tw_buf_move; rewrite ?Hs; try lia. lsteps. rewrite Eb in *.
  destruct (line_cut_buffer x del y junk Hd) as [junk' Ej].
  set (b0 := x ++ del ++ y ++ NUL :: junk) in *.
  assert (len (mem_write (len x) (mem_read (len x + len del) (len y) b0) b0) = cap + 1) as Hs1.
  { rewrite len_mem_write; rewrite ?len_mem_read; lia. }
  apply tw_buf_store; [lia| |]; cbn -[len mem_write mem_read]; rewrite Hfr; cbn -[len mem_write mem_read].
  - rewrite Hs1. change (len [NUL]) with 1. lia.
  - rewrite Ej. apply HQ; [by eexists|].
    rewrite <-Ej, len_mem_write; [done|lia|]. rewrite Hs1. change (len [NUL]) with 1. lia.
Qed.

Lemma len_pos (s : bytes) : s <> [] -> 0 < len s.
Proof. destruct s; [done|]. unfold len. cbn. lia. Qed.

Lemma delete_spec cap w bef del aft : editing cap w bef (del ++ aft) -> del <> [] ->
  linenoiseEditNextLen (lw_l w) (len bef) = len del ->
  tw linenoiseEditDelete (fun _ w' => edited cap w bef aft w') w.
Proof.
  intros [H Ho] Hd En. pose proof H as [[junk Eb] Hs Hcap Hp Hl Hf Hc]. rewrite len_app in *.
  pose proof (len_pos del Hd). pose proof (len_nonneg bef). pose proof (len_nonneg aft).
  unfold linenoiseEditDelete. lsteps. unfold id. rewrite Hp, Hl, En.
  rewrite !(proj2 (Z.ltb_lt _ _)) by lia. cbn [andb]. lsteps.
  replace (len bef + (len del + len aft) - len bef - len del) with (len aft) by lia.
  replace (len bef + (len del + len aft) - len del) with (len bef + len aft) by lia.
  apply (line_cut_spec cap); [exists junk; cbn; by rewrite Eb, <-app_assoc|done|done|done|].
  intros m b Hb Hsb. apply refresh_spec; [|done|constructor; [done|by cbn; intros ->]].
  eapply (cut_rep cap _ _ _ _ bef del aft H); cbn -[len]; try done; lia.
Qed.

Lemma backspace_spec cap w bef del aft : editing cap w (bef ++ del) aft -> del <> [] ->
  linenoiseEditPrevLen (lw_l w) (len (bef ++ del)) = len del ->
  tw linenoiseEditBackspace (fun _ w' => edited cap w bef aft w') w.
Proof.
  intros [H Ho] Hd En. pose proof H as [[junk Eb] Hs Hcap Hp Hl Hf Hc]. rewrite len_app in *.
  pose proof (len_pos del Hd). pose proof (len_nonneg bef). pose proof (len_nonneg aft).
  unfold linenoiseEditBackspace. lsteps. unfold id. rewrite Hp, Hl, En.
  rewrite !(proj2 (Z.ltb_lt _ _)) by lia. cbn [andb]. lsteps.
  replace (len bef + len del - len del) with (len bef) by lia.
  replace (len bef + len del + len aft - (len bef + len del)) with (len aft) by lia.
  replace (len bef + len del + len aft - len del) with (len bef + len aft) by lia.
  apply (line_cut_spec cap); [exists junk; cbn; by rewrite Eb, <-app_assoc|done|done|done|].
  intros m b Hb Hsb. apply refresh_spec; [|done|constructor; [done|by cbn; intros ->]].
  eapply (cut_rep cap _ _ _ _ bef del aft H); cbn -[len]; rewrite <-?app_assoc; try done; lia.
Qed.

(** *** The cursor moves *)

Lemma lrep_move cap l bef aft bef' aft' : lrep cap l bef aft -> bef ++ aft = bef' ++ aft' ->
  lrep cap (l <| ln_pos := len bef' |>) bef' aft'.
Proof.
  intros [[junk E] Hs Hc Hp Hl Hf Hn] Eq. rewrite app_assoc, Eq, <-app_assoc in E. rewrite <-len_app, Eq, len_app in Hl, Hf.
  constructor; try done. by exists junk.
Qed.
Lemma move_refresh cap w bef aft bef' aft' n : editing cap w bef aft -> bef ++ aft = bef' ++ aft' -> n = len bef' ->
  tw (_ ← set_ln (fun l => l <| ln_pos := n |>); refreshLine) (fun _ w' => edited cap w bef' aft' w') w.
Proof.
  intros [H Ho] E ->. lsteps. apply refresh_spec; [by eapply lrep_move|done|constructor; [done|by cbn; intros ->]].
Qed.

Lemma move_left_spec cap w bef c aft : editing cap w (bef ++ c) aft -> c <> [] ->
  linenoiseEditPrevLen (lw_l w) (len (bef ++ c)) = len c ->
  tw linenoiseEditMoveLeft (fun _ w' => edited cap w bef (c ++ aft) w') w.
Proof.
  intros H Hc En. pose proof H as [[_ _ _ Hp _ _ _] _]. pose proof (len_pos c Hc). pose proof (len_nonneg bef).
  unfold linenoiseEditMoveLeft. apply tw_bind, tw_ln. unfold id. rewrite (proj2 (Z.ltb_lt _ _)) by (rewrite Hp, len_app; lia).
  lsteps. rewrite Hp, En. replace (len (bef ++ c) - len c) with (len bef) by (rewrite len_app; lia).
  apply (move_refresh cap w (bef ++ c) aft bef (c ++ aft) (len bef) H); [by rewrite app_assoc|done].
Qed.
Lemma move_right_spec cap w bef c aft : editing cap w bef (c ++ aft) -> c <> [] ->
  linenoiseEditNextLen (lw_l w) (len bef) = len c ->
  tw linenoiseEditMoveRight (fun _ w' => edited cap w (bef ++ c) aft w') w.
Proof.
  intros H Hc En. pose proof H as [[_ _ _ Hp Hl _ _] _]. rewrite len_app in Hl.
  pose proof (len_pos c Hc). pose proof (len_nonneg aft).
  unfold linenoiseEditMoveRight. apply tw_bind, tw_ln. unfold id. rewrite (proj2 (Z.eqb_neq _ _)) by (rewrite Hp, Hl; lia).
  cbn [negb]. lsteps. rewrite Hp, En.
  replace (len bef + len c) with (len (bef ++ c)) by (by rewrite len_app).
  apply (move_refresh cap w bef (c ++ aft) (bef ++ c) aft (len (bef ++ c)) H); [by rewrite app_assoc|done].
Qed.
Lemma move_home_spec cap w bef aft : editing cap w bef aft ->
  tw linenoiseEditMoveHome (fun _ w' => edited cap w [] (bef ++ aft) w') w.
Proof.
  intros H. unfold linenoiseEditMoveHome. apply tw_bind, tw_ln. unfold id.
  destruct (Z.eqb_spec (ln_pos (lw_l w)) 0) as [E|E]; cbn [negb].
  - apply tw_ret, line_edited_refl. rewrite (lr_pos _ _ _ _ (ed_rep _ _ _ _ H)) in E.
    destruct bef; [done|unfold len in E; cbn in E; lia].
  - by apply (move_refresh cap w bef aft).
Qed.
Lemma move_end_spec cap w bef aft : editing cap w bef aft ->
  tw linenoiseEditMoveEnd (fun _ w' => edited cap w (bef ++ aft) [] w') w.
Proof.
  intros H. pose proof (ed_rep _ _ _ _ H) as Hr. unfold linenoiseEditMoveEnd. apply tw_bind, tw_ln. unfold id.
  destruct (Z.eqb_spec (ln_pos (lw_l w)) (ln_len (lw_l w))) as [E|E]; cbn [negb].
  - apply tw_ret, line_edited_refl. rewrite (lr_pos _ _ _ _ Hr), (lr_len _ _ _ _ Hr) in E.
    destruct aft; [by rewrite app_nil_r|unfold len in E; cbn in E; lia].
  - lsteps. rewrite (lr_len _ _ _ _ Hr), <-len_app.
    apply (move_refresh cap w bef aft (bef ++ aft) [] (len (bef ++ aft)) H); [by rewrite app_nil_r|done].
Qed.

(** *** Text is put in *)

Lemma mem_write_nil off b : mem_write off [] b = b.
Proof. unfold mem_write. cbn. by rewrite Nat.add_0_r, take_drop. Qed.

Lemma line_insert_buffer bef c aft junk : (length c <= length junk)%nat ->
  let b := bef ++ aft ++ NUL :: junk in
  exists junk', mem_write (len (bef ++ c ++ aft)) [NUL] (mem_write (len bef) c
    (mem_write (len bef + len c) (mem_read (len bef) (len aft) b) b)) = (bef ++ c) ++ aft ++ NUL :: junk'.
Proof.
  intros Hc b. unfold b. rewrite mem_insert by (cbn; lia).
  destruct (drop (length c) (NUL :: junk)) as [|d r] eqn:E.
  { apply (f_equal length) in E. rewrite length_drop in E. cbn in E. lia. }
  exists r. rewrite (app_assoc c aft), (app_assoc bef (c ++ aft)), mem_store_at. by rewrite <-!app_assoc.
Qed.

Definition fits (cap : Z) (bef aft c : bytes) : bool := len bef + len aft + len c <=? cap.

Lemma insert_rep cap l l' bef aft c : lrep cap l bef aft ->
  (exists junk, ln_buf l' = (bef ++ c) ++ aft ++ NUL :: junk) -> len (ln_buf l') = cap + 1 -> ln_buflen l' = cap ->
  ln_pos l' = len bef + len c -> ln_len l' = len bef + len aft + len c ->
  ln_folds l' = linenoiseAdjustFoldsAfterInsert (len bef) (len c) (ln_folds l) -> lrep cap l' (bef ++ c) aft.
Proof.
  intros [_ _ _ _ _ Hf Hc] Hb Hs Hcap Hp Hl Ef. pose proof (len_nonneg bef). pose proof (len_nonneg c).
  constructor; rewrite ?len_app; try done; [lia|..]; rewrite Ef.
  - replace (len bef + len c + len aft) with (len bef + len aft + len c) by lia. by apply folds_after_insert.
  - etransitivity; [apply adjusted_count|done].
Qed.

Lemma insert_no_refresh cap w bef aft c : lrep cap (lw_l w) bef aft ->
  tw (linenoiseEditInsertNoRefresh c) (fun ok w' => ok = fits cap bef aft c /\
    if ok then exists l', w' = w <| lw_l := l' |> /\ lrep cap l' (bef ++ c) aft /\
      ln_folds l' = linenoiseAdjustFoldsAfterInsert (len bef) (len c) (ln_folds (lw_l w))
    else w' = w) w.
Proof.
  intros H. pose proof H as [[junk Eb] Hs Hcap Hp Hl _ _]. unfold linenoiseEditInsertNoRefresh, fits.
  apply tw_bind, tw_ln. unfold id. rewrite Hcap, Hl. destruct (Z.ltb_spec cap (len bef + len aft + len c)).
  { apply tw_ret. rewrite (proj2 (Z.leb_gt _ _)) by done. done. }
  rewrite (proj2 (Z.leb_le _ _)) by done. pose proof (len_nonneg bef). pose proof (len_nonneg aft). pose proof (len_nonneg c).
  assert (length c <= length junk)%nat as Hj.
  { rewrite Eb in Hs. unfold len in *. rewrite !length_app in Hs. cbn in Hs. lia. }
  destruct (line_insert_buffer bef c aft junk Hj) as [junk' Ej]. rewrite <-Eb in Ej.
  set (b := ln_buf (lw_l w)) in *. rewrite Hp.
  set (b2 := mem_write (len bef) c (mem_write (len bef + len c) (mem_read (len bef) (len aft) b) b)) in *.
  assert (len (mem_write (len bef + len c) (mem_read (len bef) (len aft) b) b) = cap + 1) as Hs1
    by (rewrite len_mem_write; rewrite ?len_mem_read; lia).
  assert (len b2 = cap + 1) as Hs2 by (unfold b2; rewrite len_mem_write; lia).
  apply tw_bind, (tw_mono _ (fun _ w' => w' = w <| lw_l := lw_l w <| ln_buf := b2 |> |>)).
  { destruct (Z.eqb_spec (len bef + len aft) (len bef)) as [E|E].
    - apply tw_buf_store; fold b; [lia..|]. unfold b2. assert (aft = []) as -> by (destruct aft; [done|unfold len in E; cbn in E; lia]).
      by rewrite mem_write_nil.
    - apply tw_bind, tw_buf_move; fold b; [lia..|].
      apply tw_buf_store; cbn -[len mem_write mem_read]; fold b; [lia| |].
      + replace (len bef + len aft - len bef) with (len aft) by lia. lia.
      + by replace (len bef + len aft - len bef) with (len aft) by lia. }
  intros _ w' ->. replace (len bef + len aft + len c) with (len (bef ++ c ++ aft)) by (rewrite !len_app; lia).
  apply tw_bind, tw_buf_store; cbn -[len mem_write mem_read]; [apply len_nonneg|rewrite !len_app, Hs2; change (len [NUL]) with 1; lia|].
  lsteps. split; [done|]. rewrite Ej. eexists. split; [done|]. split; [|done].
  eapply (insert_rep cap _ _ _ _ c H); cbn -[len]; try done; [by eexists| |rewrite ?Hl, ?len_app; lia].
  rewrite <-Ej, len_mem_write; [done|apply len_nonneg|]. rewrite !len_app, Hs2. change (len [NUL]) with 1. lia.
Qed.

Section Oracle.
Context (fails : nat -> bool).

Lemma tw_try_call (Q : bool -> ln_world -> Prop) w :
  Q (negb (fails (lw_calls w))) (w <| lw_calls := S (lw_calls w) |>) -> tw (try_call fails) Q w.
Proof. done. Qed.

Lemma warn_full_spec cap w bef aft : editing cap w bef aft -> tw warn_full (fun _ w' => edited cap w bef aft w') w.
Proof.
  intros [H Ho]. unfold warn_full, linenoiseBeep. lsteps. apply refresh_spec; [by destruct H|by apply Forall_snoc_I|done].
Qed.

(** A full line takes no more. *)
Definition inserted (cap : Z) (bef aft c : bytes) : bytes := if fits cap bef aft c then bef ++ c else bef.
Lemma insert_spec cap w bef aft c : editing cap w bef aft ->
  tw (linenoiseEditInsert fails c) (fun ok w' => edited cap w (inserted cap bef aft c) aft w' /\
    ((forall n, fails n = false) -> ok = true)) w.
Proof.
  intros [H Ho]. unfold linenoiseEditInsert, inserted. apply tw_bind, tw_ln, tw_bind.
  eapply tw_mono; [by apply insert_no_refresh|]. intros ok w' [Hok Hw]. rewrite <-Hok. destruct ok; cbn [negb].
  - destruct Hw as (l' & -> & Hl' & Ef). apply tw_bind, tw_ln.
    assert (quiet w (w <| lw_l := l' |>)) as Hq by (constructor; [done|cbn; intros E; by rewrite Ef, E]).
    destruct (_ && _).
    + apply tw_bind, tw_try_call. destruct (fails (lw_calls _)) eqn:Ec; cbn [negb]; lsteps.
      * split; [by split; [constructor|destruct Hq; constructor]|]. intros Hf. by rewrite Hf in Ec.
      * split; [|done]. split; [constructor; [done|by apply Forall_snoc_I]|destruct Hq; by constructor].
    + apply tw_bind. eapply tw_mono; [by apply (refresh_spec cap w _ (bef ++ c) aft)|]. intros [] w1 Hw1. by apply tw_ret.
  - subst w'. apply tw_bind. eapply tw_mono; [by apply warn_full_spec|]. intros ? w1 Hw1. by apply tw_ret.
Qed.

(** *** Killing text *)

Lemma kill_line_spec cap w bef aft : editing cap w bef aft -> tw edit_kill_line (fun _ w' => edited cap w [] [] w') w.
Proof.
  intros [H Ho]. pose proof H as [[junk Eb] Hs Hcap Hp Hl Hf Hc].
  assert (exists c r, ln_buf (lw_l w) = c :: r) as (c & r & E).
  { rewrite Eb. destruct bef; [destruct aft|]; by eexists _, _. }
  unfold edit_kill_line. apply tw_bind, tw_buf_store; [done|rewrite E; unfold len; cbn; lia|]. lsteps.
  apply refresh_spec; [|done|by constructor]. rewrite E in Hs |- *.
  constructor; cbn -[len]; try done. by exists r.
Qed.
Lemma kill_right_spec cap w bef aft : editing cap w bef aft -> tw edit_kill_right (fun _ w' => edited cap w bef [] w') w.
Proof.
  intros [H Ho]. pose proof H as [[junk Eb] Hs Hcap Hp Hl Hf Hc]. pose proof (len_nonneg bef). pose proof (len_nonneg aft).
  pose proof (lrep_fits _ _ _ _ H). assert (exists c r, aft ++ NUL :: junk = c :: r) as (c & r & E) by (destruct aft; by eexists _, _).
  unfold edit_kill_right. lsteps. unfold id. rewrite Hp, Hl. apply tw_buf_store; cbn -[len]; [done|change (len [NUL]) with 1; lia|].
  lsteps. rewrite Eb, E, mem_store_at. replace (len bef + len aft - len bef) with (len aft) by lia.
  apply refresh_spec; [|done|constructor; [done|cbn; by intros ->]].
  eapply (cut_rep cap _ _ _ _ bef aft []); [done| |..]; cbn -[len]; rewrite ?app_nil_r; try done.
  - by exists r.
  - rewrite Eb, E in Hs. rewrite <-Hs. unfold len. rewrite !length_app. done.
  - rewrite Hp. unfold len. cbn. lia.
Qed.

Lemma skip_back_bounds cap l bef aft q fuel : lrep cap l bef aft -> forall x y, bef = x ++ y -> (length x <= fuel)%nat ->
  exists x' y', skip_back fuel q l (len x) = Some (len x') /\ x = x' ++ y'.
Proof.
  intros H. induction fuel as [|fuel IH]; intros x y E Hx.
  - exists [], []. destruct x; [|cbn in Hx; lia]. done.
  - cbn [skip_back]. destruct (_ && _) eqn:Ec; [|exists x, []; by rewrite app_nil_r].
    assert (x <> []) as Hn by (intros ->; done).
    destruct (prev_len_bounds _ _ _ _ _ _ H E Hn) as [H1 H2].
    set (n := linenoiseEditPrevLen l (len x)) in *. set (x1 := take (Z.to_nat (len x - n)) x).
    assert (len x1 = len x - n) as Hl1 by (unfold x1, len in *; rewrite length_take; lia).
    destruct (IH x1 (drop (Z.to_nat (len x - n)) x ++ y)) as (x' & y' & Es & Ex).
    + unfold x1. by rewrite E, app_assoc, take_drop.
    + unfold len in *. lia.
    + exists x', (y' ++ drop (Z.to_nat (len x - n)) x). rewrite Hl1 in Es. split; [done|].
      unfold x1 in Ex. by rewrite app_assoc, <-Ex, take_drop.
Qed.

Lemma prev_word_spec cap w x del aft p1 : editing cap w (x ++ del) aft ->
  let fuel := length (ln_buf (lw_l w)) in
  skip_back fuel is_space (lw_l w) (len (x ++ del)) = Some p1 ->
  skip_back fuel (fun c => negb (is_space c)) (lw_l w) p1 = Some (len x) ->
  tw linenoiseEditDeletePrevWord (fun _ w' => edited cap w x aft w') w.
Proof.
  intros [H Ho] fuel E1 E2. pose proof H as [[junk Eb] Hs Hcap Hp Hl Hf Hc]. pose proof (lrep_fits _ _ _ _ H) as Hfit.
  pose proof (len_nonneg x). pose proof (len_nonneg del). pose proof (len_nonneg aft).
  unfold linenoiseEditDeletePrevWord. apply tw_bind, tw_ln. unfold id. rewrite Hp, Hl. fold fuel. rewrite E1, E2.
  lsteps. rewrite len_app in *. replace (len x + len del - len x) with (len del) by lia.
  assert (len (aft ++ [NUL]) = len aft + 1) as Hla by (by rewrite len_app).
  replace (len x + len del + len aft - (len x + len del) + 1) with (len (aft ++ [NUL])) by lia.
  apply tw_buf_move; [cbn -[len]; lia..|]. lsteps.
  assert (ln_buf (lw_l w) = x ++ del ++ (aft ++ [NUL]) ++ junk) as Eb' by (rewrite Eb, <-!app_assoc; done).
  apply refresh_spec; [|done|constructor; [done|by cbn; intros ->]].
  eapply (cut_rep cap _ _ _ _ x del aft H); cbn -[len mem_write mem_read]; rewrite ?Eb', ?mem_cut; rewrite <-?app_assoc;
    try done; [by eexists| |lia].
  rewrite <-Hs, Eb'. unfold len. rewrite !length_app, length_drop, !length_app. cbn. lia.
Qed.

Lemma transpose_spec cap w x p c y : editing cap w (x ++ p) (c ++ y) -> p <> [] -> c <> [] ->
  linenoiseEditPrevLen (lw_l w) (len (x ++ p)) = len p -> linenoiseEditNextLen (lw_l w) (len (x ++ p)) = len c ->
  tw edit_transpose (fun _ w' =>
    if (len p <=? 32) && (len c <=? 32) && negb (linenoiseRangeOverlapsFold (lw_l w) (len x) (len p + len c))
    then edited cap w (x ++ c ++ p) y w' else edited cap w (x ++ p) (c ++ y) w') w.
Proof.
  intros He Hp0 Hc0 Ep Ec. pose proof He as [H Ho]. pose proof H as [[junk Eb] Hs Hcap Hp Hl Hf Hc].
  pose proof (lrep_fits _ _ _ _ H) as Hfit. pose proof (len_pos p Hp0). pose proof (len_pos c Hc0).
  pose proof (len_nonneg x). pose proof (len_nonneg y). rewrite !len_app in Hfit.
  unfold edit_transpose. apply tw_bind, tw_ln. unfold id. rewrite Hp, Ep, Ec, Hl, !len_app.
  rewrite !(proj2 (Z.ltb_lt _ _)) by lia. cbn [andb]. rewrite !Z.ltb_antisym.
  replace (len x + len p - len p) with (len x) by lia.
  destruct (len p <=? 32); [|by apply tw_ret]. destruct (len c <=? 32); [|by apply tw_ret]. cbn [negb orb andb].
  destruct (linenoiseRangeOverlapsFold _ _ _); cbn [negb].
  { unfold linenoiseBeep. lsteps. split; [constructor; [done|by apply Forall_snoc_I]|done]. }
  apply tw_bind, tw_buf_move; [lia..|]. apply tw_bind.
  replace (mem_read (len x + len p) (len c) (ln_buf (lw_l w))) with c.
  2: { rewrite Eb, <-!app_assoc, (app_assoc x p). symmetry. apply mem_read_mid; [by rewrite len_app|done]. }
  apply tw_buf_store; cbn -[len mem_write mem_read]; [lia|rewrite len_mem_write; rewrite ?len_mem_read; lia|].
  assert (ln_buf (lw_l w) = x ++ p ++ (c ++ y ++ NUL :: junk)) as Eb' by (rewrite Eb, <-!app_assoc; done).
  rewrite Eb', mem_insert by (rewrite length_app; lia). rewrite drop_app_length, (proj2 (Z.leb_le _ _)) by lia. lsteps.
  apply refresh_spec; [|done|by constructor].
  constructor; cbn -[len].
  - exists junk. by rewrite <-!app_assoc.
  - rewrite <-Hs, Eb', !len_app. lia.
  - done.
  - rewrite !len_app. lia.
  - rewrite !len_app in *. lia.
  - rewrite !len_app in *. by replace (len x + (len c + len p) + len y) with (len x + len p + (len c + len y)) by lia.
  - done.
Qed.

(** *** A paste *)

(** Only the input and the count of calls change. *)
Definition reads (w w' : ln_world) : Prop := lw_l w' = lw_l w /\ lw_out w' = lw_out w.
Lemma reads_editing cap w w' bef aft : reads w w' -> editing cap w bef aft -> editing cap w' bef aft.
Proof. intros [E1 E2] [H Ho]. constructor; by rewrite ?E1, ?E2. Qed.

Lemma read_byte_length l : (length (read_byte l).2 <= length l)%nat /\
  (forall c, (read_byte l).1 = Got c -> length (read_byte l).2 < length l)%nat.
Proof.
  induction l as [|r l IH]; [done|]. cbn [read_byte]. repeat case_match; cbn in *; split; intros; try done; try lia;
    destruct IH as [IH1 IH2]; try lia; specialize (IH2 _ ltac:(eassumption)); lia.
Qed.
Lemma read_byte_spec (Q : got -> ln_world -> Prop) w :
  (forall r w', reads w w' -> (length (lw_in w') <= length (lw_in w))%nat ->
    (forall c, r = Got c -> length (lw_in w') < length (lw_in w))%nat -> Q r w') -> tw linenoiseReadByte Q w.
Proof.
  intros H. unfold tw, linenoiseReadByte. pose proof (read_byte_length (lw_in w)) as [H1 H2].
  destruct (read_byte (lw_in w)) as [r l]. by apply H.
Qed.

Lemma paste_add_spec s m p w :
  tw (paste_add fails s m p) (fun _ w' => reads w w' /\ lw_in w' = lw_in w) w.
Proof.
  unfold paste_add. destruct (pa_overflowed p); [by apply tw_ret|]. apply tw_bind.
  apply (tw_mono _ (fun _ w' => reads w w' /\ lw_in w' = lw_in w)); [|intros [p' ok] w' Hw; by apply tw_ret].
  unfold pasteBufferAppend. apply tw_bind, tw_ln.
  do 3 (case_match; [by apply tw_ret|]). destruct (double_to _ _ _ <? _); [by apply tw_ret|].
  apply tw_bind, tw_try_call. case_match; by apply tw_ret.
Qed.

Lemma reads_trans w1 w2 w3 : reads w1 w2 -> reads w2 w3 -> reads w1 w3.
Proof. intros [] []. split; congruence. Qed.

Lemma paste_loop_spec fuel m : forall k p w, (length (lw_in w) < fuel)%nat ->
  tw (paste_loop fails fuel m k p) (fun _ w' => reads w w') w.
Proof.
  induction fuel as [|fuel IH]; [lia|]. intros k p w Hw. cbn [paste_loop].
  apply tw_bind, read_byte_spec. intros r w1 Hr1 Hle Hlt. destruct r as [c| |]; [|by apply tw_ret..].
  assert (forall k p w', reads w1 w' -> lw_in w' = lw_in w1 -> tw (paste_loop fails fuel m k p) (fun _ w' => reads w w') w') as Hgo.
  { intros k' p' w' Hr' E. eapply tw_mono; [apply IH; rewrite E; specialize (Hlt c eq_refl); lia|].
    intros ? w2 H2. eapply reads_trans; [done|]. by eapply reads_trans. }
  case_match; [case_match; [by apply tw_ret|by apply Hgo]|]. apply tw_bind.
  apply (tw_mono _ (fun _ w' => reads w1 w' /\ lw_in w' = lw_in w1)).
  { case_match; [apply paste_add_spec|by apply tw_ret]. }
  intros p' w2 [H2 E2]. case_match; [by apply Hgo|]. apply tw_bind.
  eapply tw_mono; [apply paste_add_spec|]. intros p'' w3 [H3 E3]. apply Hgo; [by eapply reads_trans|congruence].
Qed.

Lemma fold_add_rep cap l bef text aft fs : lrep cap l (bef ++ text) aft ->
  folds_in 0 (len bef + len aft) fs -> ln_folds l = linenoiseAdjustFoldsAfterInsert (len bef) (len text) fs ->
  lrep cap (l <| ln_folds ::= linenoiseFoldAdd (len bef) (len bef + len text) |>) (bef ++ text) aft.
Proof.
  intros H Hfs Ef. pose proof H as [Hb Hs Hcap Hp Hl Hf Hc]. constructor; try done; [|by apply fold_add_count].
  cbn -[len linenoiseFoldAdd]. unfold linenoiseFoldAdd. destruct (_ || _) eqn:E; [done|].
  apply orb_false_elim in E as [E%Z.leb_gt _]. rewrite Ef.
  replace (len (bef ++ text) + len aft) with (len bef + len aft + len text) by (rewrite len_app; lia).
  pose proof (len_nonneg bef). pose proof (len_nonneg aft). apply fold_insert_ok; (done || lia).
Qed.

Lemma paste_sound cap w : sound cap w -> tw (linenoiseEditPaste fails) (fun _ w' => sound cap w') w.
Proof.
  intros (bef & aft & He). unfold linenoiseEditPaste. apply tw_bind, tw_ln, tw_bind.
  apply (tw_mono _ (fun n w' => n = length (lw_in w) /\ w' = w)); [done|]. intros n ? [-> ->]. apply tw_bind.
  eapply tw_mono; [apply paste_loop_spec; lia|]. intros p w1 Hr. apply (reads_editing _ _ _ _ _ Hr) in He.
  rewrite <-(proj1 Hr). clear w Hr. unfold id. pose proof He as [H Ho].
  case_match; [by eapply tw_mono; [apply warn_full_spec|intros ? ?; apply edited_sound]|].
  case_match; [|apply tw_ret; by exists bef, aft]. case_match.
  - apply tw_bind. eapply tw_mono; [by apply insert_no_refresh|]. intros ok w2 [_ Hw]. destruct ok; cbn [negb].
    + destruct Hw as (l' & -> & Hl' & Ef). rewrite (lr_pos _ _ _ _ H). lsteps.
      eapply tw_mono; [eapply (refresh_spec cap); [|done|apply quiet_refl]|intros ? ?; apply edited_sound].
      eapply fold_add_rep; [done|apply (lr_folds _ _ _ _ H)|done].
    + subst w2. eapply tw_mono; [by apply warn_full_spec|intros ? ?; apply edited_sound].
  - apply tw_bind. eapply tw_mono; [by apply insert_spec|]. intros ok w2 [Hw _]. apply tw_ret. by eapply edited_sound.
Qed.

(** *** Every key *)

Lemma split_at (n : Z) (s : bytes) : 1 <= n <= len s -> exists a b, s = a ++ b /\ len a = n /\ a <> [].
Proof.
  intros Hn. exists (take (Z.to_nat n) s), (drop (Z.to_nat n) s). rewrite take_drop. unfold len in *. rewrite length_take.
  split_and!; [done|lia|]. intros E%(f_equal length). rewrite length_take in E. cbn in E. lia.
Qed.
Lemma split_next cap l bef aft : lrep cap l bef aft -> aft <> [] ->
  exists c aft', aft = c ++ aft' /\ c <> [] /\ linenoiseEditNextLen l (len bef) = len c.
Proof.
  intros H Ha. destruct (split_at (linenoiseEditNextLen l (len bef)) aft) as (c & a' & E & El & Hc).
  - by eapply next_len_bounds.
  - by exists c, a'.
Qed.
Lemma split_prev cap l bef aft : lrep cap l bef aft -> bef <> [] ->
  exists bef' c, bef = bef' ++ c /\ c <> [] /\ linenoiseEditPrevLen l (len bef) = len c.
Proof.
  intros H Hb. pose proof (prev_len_bounds _ _ _ _ bef [] H (eq_sym (app_nil_r _)) Hb) as Hn.
  set (n := linenoiseEditPrevLen l (len bef)) in *.
  exists (take (Z.to_nat (len bef - n)) bef), (drop (Z.to_nat (len bef - n)) bef). unfold len in *.
  rewrite take_drop, length_drop. split_and!; [done| |lia].
  intros E%(f_equal length). rewrite length_drop in E. cbn in E. lia.
Qed.

(** An operation that needs a character finds the cursor at the end without one. *)
Lemma at_end cap l bef : lrep cap l bef [] -> ln_pos l = ln_len l.
Proof. intros [_ _ _ Hp Hl _ _]. rewrite Hp, Hl. unfold len. cbn. lia. Qed.
Lemma at_start cap l aft : lrep cap l [] aft -> ln_pos l = 0.
Proof. by intros [_ _ _ Hp _ _ _]. Qed.

Lemma delete_at_end cap w bef : editing cap w bef [] ->
  tw linenoiseEditDelete (fun _ w' => edited cap w bef [] w') w.
Proof.
  intros H. unfold linenoiseEditDelete. apply tw_bind, tw_ln. unfold id.
  rewrite (at_end _ _ _ (ed_rep _ _ _ _ H)), Z.ltb_irrefl, andb_false_r. by apply tw_ret.
Qed.
Lemma backspace_at_start cap w aft : editing cap w [] aft ->
  tw linenoiseEditBackspace (fun _ w' => edited cap w [] aft w') w.
Proof.
  intros H. unfold linenoiseEditBackspace. apply tw_bind, tw_ln. unfold id. rewrite (at_start _ _ _ (ed_rep _ _ _ _ H)).
  by apply tw_ret.
Qed.
Lemma left_at_start cap w aft : editing cap w [] aft -> tw linenoiseEditMoveLeft (fun _ w' => edited cap w [] aft w') w.
Proof.
  intros H. unfold linenoiseEditMoveLeft. apply tw_bind, tw_ln. unfold id. rewrite (at_start _ _ _ (ed_rep _ _ _ _ H)).
  by apply tw_ret.
Qed.
Lemma right_at_end cap w bef : editing cap w bef [] -> tw linenoiseEditMoveRight (fun _ w' => edited cap w bef [] w') w.
Proof.
  intros H. unfold linenoiseEditMoveRight. apply tw_bind, tw_ln. unfold id.
  rewrite (at_end _ _ _ (ed_rep _ _ _ _ H)), Z.eqb_refl. by apply tw_ret.
Qed.
Lemma transpose_at_edge cap w bef aft : editing cap w bef aft -> bef = [] \/ aft = [] ->
  tw edit_transpose (fun _ w' => edited cap w bef aft w') w.
Proof.
  intros H [->| ->]; unfold edit_transpose; apply tw_bind, tw_ln; unfold id.
  - rewrite (at_start _ _ _ (ed_rep _ _ _ _ H)). by apply tw_ret.
  - rewrite (at_end _ _ _ (ed_rep _ _ _ _ H)), Z.ltb_irrefl, andb_false_r. by apply tw_ret.
Qed.

Definition keeps (cap : Z) (m : L unit) : Prop := forall w, sound cap w -> tw m (fun _ w' => sound cap w') w.

Lemma edited_keeps cap w (m : L unit) bef aft : tw m (fun _ w' => edited cap w bef aft w') w -> tw m (fun _ w' => sound cap w') w.
Proof. intros H. eapply tw_mono; [done|]. intros ? ?. apply edited_sound. Qed.

Lemma keeps_at cap m w : keeps cap m -> sound cap w -> tw m (fun _ w' => sound cap w') w.
Proof. intros H Hw. by apply H. Qed.
Lemma done_sound cap : keeps cap done_.
Proof. intros w H. by apply tw_ret. Qed.
Lemma delete_sound cap : keeps cap linenoiseEditDelete.
Proof.
  intros w (bef & aft & H). destruct (decide (aft = [])) as [->|Ha]; [by eapply edited_keeps, delete_at_end|].
  destruct (split_next _ _ _ _ (ed_rep _ _ _ _ H) Ha) as (c & a & -> & Hc & En). by eapply edited_keeps, delete_spec.
Qed.
Lemma backspace_sound cap : keeps cap linenoiseEditBackspace.
Proof.
  intros w (bef & aft & H). destruct (decide (bef = [])) as [->|Ha]; [by eapply edited_keeps, backspace_at_start|].
  destruct (split_prev _ _ _ _ (ed_rep _ _ _ _ H) Ha) as (b & c & -> & Hc & En). by eapply edited_keeps, backspace_spec.
Qed.
Lemma left_sound cap : keeps cap linenoiseEditMoveLeft.
Proof.
  intros w (bef & aft & H). destruct (decide (bef = [])) as [->|Ha]; [by eapply edited_keeps, left_at_start|].
  destruct (split_prev _ _ _ _ (ed_rep _ _ _ _ H) Ha) as (b & c & -> & Hc & En). by eapply edited_keeps, move_left_spec.
Qed.
Lemma right_sound cap : keeps cap linenoiseEditMoveRight.
Proof.
  intros w (bef & aft & H). destruct (decide (aft = [])) as [->|Ha]; [by eapply edited_keeps, right_at_end|].
  destruct (split_next _ _ _ _ (ed_rep _ _ _ _ H) Ha) as (c & a & -> & Hc & En). by eapply edited_keeps, move_right_spec.
Qed.
Lemma home_sound cap : keeps cap linenoiseEditMoveHome.
Proof. intros w (bef & aft & H). by eapply edited_keeps, move_home_spec. Qed.
Lemma end_sound cap : keeps cap linenoiseEditMoveEnd.
Proof. intros w (bef & aft & H). by eapply edited_keeps, move_end_spec. Qed.
Lemma kill_line_sound cap : keeps cap edit_kill_line.
Proof. intros w (bef & aft & H). by eapply edited_keeps, kill_line_spec. Qed.
Lemma kill_right_sound cap : keeps cap edit_kill_right.
Proof. intros w (bef & aft & H). by eapply edited_keeps, kill_right_spec. Qed.
Lemma refresh_sound cap : keeps cap refreshLine.
Proof. intros w (bef & aft & [H Ho]). by eapply edited_keeps, (refresh_spec cap w). Qed.
Lemma transpose_sound cap : keeps cap edit_transpose.
Proof.
  intros w (bef & aft & H). destruct (decide (bef = [])) as [Hb|Hb]; [eapply edited_keeps, transpose_at_edge; by eauto|].
  destruct (decide (aft = [])) as [Ha|Ha]; [eapply edited_keeps, transpose_at_edge; by eauto|].
  destruct (split_prev _ _ _ _ (ed_rep _ _ _ _ H) Hb) as (b & p & -> & Hp & Ep).
  destruct (split_next _ _ _ _ (ed_rep _ _ _ _ H) Ha) as (c & a & -> & Hc & Ec).
  eapply tw_mono; [by apply transpose_spec|]. intros ? w' Hw. cbn in Hw. destruct (_ && _); by eapply edited_sound.
Qed.
Lemma prev_word_sound cap : keeps cap linenoiseEditDeletePrevWord.
Proof.
  intros w (bef & aft & H). pose proof (ed_rep _ _ _ _ H) as Hr.
  assert (length bef <= length (ln_buf (lw_l w)))%nat as Hl.
  { destruct (lr_buf _ _ _ _ Hr) as [junk ->]. rewrite length_app. lia. }
  destruct (skip_back_bounds _ _ _ _ is_space _ Hr bef [] (eq_sym (app_nil_r _)) Hl) as (x & y & E1 & Ex).
  destruct (skip_back_bounds _ _ _ _ (fun c => negb (is_space c)) (length (ln_buf (lw_l w))) Hr x y Ex) as (x' & y' & E2 & Ex').
  { rewrite Ex, length_app in Hl. lia. }
  eapply edited_keeps, (prev_word_spec cap w x' (y' ++ y)); [|by rewrite app_assoc, <-Ex', <-Ex|done].
  by rewrite app_assoc, <-Ex', <-Ex.
Qed.

Lemma paste_keeps cap : keeps cap (linenoiseEditPaste fails).
Proof. intros w. apply paste_sound. Qed.

Create HintDb keeps.
#[local] Hint Resolve done_sound delete_sound backspace_sound left_sound right_sound home_sound end_sound
  kill_line_sound kill_right_sound refresh_sound transpose_sound prev_word_sound paste_keeps : keeps.
#[local] Hint Resolve keeps_at | 10 : keeps.

Lemma reads_sound cap w w' : reads w w' -> sound cap w -> sound cap w'.
Proof. intros Hr (bef & aft & H). exists bef, aft. by eapply reads_editing. Qed.

Lemma read_param_reads n : forall param w, tw (read_param n param) (fun _ w' => reads w w') w.
Proof.
  induction n as [|n IH]; intros param w; [by apply tw_ret|]. cbn [read_param]. apply tw_bind, read_byte_spec.
  intros r w1 Hr _ _. repeat case_match; try by apply tw_ret. eapply tw_mono; [apply IH|]. intros ? ?. by apply reads_trans.
Qed.
Lemma read_rest_reads n : forall acc w, tw (read_rest n acc) (fun _ w' => reads w w') w.
Proof.
  induction n as [|n IH]; intros acc w; [by apply tw_ret|]. cbn [read_rest]. apply tw_bind, read_byte_spec.
  intros r w1 Hr _ _. repeat case_match; try by apply tw_ret. eapply tw_mono; [apply IH|]. intros ? ?. by apply reads_trans.
Qed.

Lemma escape_sound cap : keeps cap (edit_escape fails).
Proof.
  intros w H. unfold edit_escape. apply tw_bind, read_byte_spec. intros r0 w0 Hr0 _ _.
  apply (reads_sound _ _ _ Hr0) in H. destruct r0; [|by apply tw_ret..].
  apply tw_bind, read_byte_spec. intros r1 w1 Hr1 _ _. apply (reads_sound _ _ _ Hr1) in H. destruct r1; [|by apply tw_ret..].
  case_match.
  - case_match; [|repeat case_match; by auto with keeps].
    apply tw_bind. eapply tw_mono; [apply read_param_reads|]. intros [param final] w2 Hr2.
    apply (reads_sound _ _ _ Hr2) in H. repeat case_match; by auto with keeps.
  - repeat case_match; by auto with keeps.
Qed.
#[local] Hint Resolve escape_sound : keeps.

(** What a call returns. *)
Definition feed_ok (cap : Z) (r : feed) : Prop :=
  match r with EditLine s => len s <= cap /\ NUL ∉ s | _ => True end.

Lemma more_sound cap m w : keeps cap m -> sound cap w -> tw (more m) (fun r w' => sound cap w' /\ feed_ok cap r) w.
Proof. intros Hm H. unfold more. apply tw_bind. eapply tw_mono; [by apply Hm|]. intros ? w' H'. by apply tw_ret. Qed.

Lemma close_rep cap l bef aft : lrep cap l bef aft -> lrep cap (l <| ln_prompt_drawn := false |>) bef aft.
Proof. by intros []. Qed.
Lemma close_sound cap : keeps cap close_line.
Proof. intros w (bef & aft & [H Ho]). unfold close_line. lsteps. exists bef, aft. constructor; [by apply close_rep|done]. Qed.

Lemma cstr_bound a r : (length (cstr (a ++ NUL :: r)) <= length a)%nat.
Proof. induction a as [|c a IH]; cbn; [done|]. case_match; cbn; lia. Qed.

Lemma enter_spec cap e w bef aft : editing cap w bef aft ->
  tw (edit_key fails e CR) (fun r w' => sound cap w' /\ feed_ok cap r /\
    (r = EditLine (cstr (bef ++ aft ++ [NUL])) \/ r = EditFail e) /\
    ((forall n, fails n = false) -> r <> EditFail e)) w.
Proof.
  intros [H Ho]. pose proof (lrep_fits _ _ _ _ H) as Hfit. apply close_rep in H. pose proof H as [[junk Eb] _ _ _ _ _ _].
  cbn in Eb. assert (cstr (ln_buf (lw_l w)) = cstr (bef ++ aft ++ [NUL])) as Ec.
  { rewrite Eb, (app_assoc bef), (app_assoc bef). induction (bef ++ aft) as [|c s IH]; cbn; [done|]. by rewrite IH. }
  unfold edit_key, close_line. change (byte.unsigned CR =? 13) with true. cbn [orb]. lsteps. apply tw_defined.
  { cbn. rewrite Eb. rewrite app_assoc, existsb_app. cbn. by rewrite orb_true_r. }
  apply tw_bind, tw_try_call, tw_ret. cbn -[cstr len feed_ok]. split; [exists bef, aft; by constructor|].
  destruct (fails (lw_calls w)) eqn:Ef; cbn [negb].
  - split_and!; [done|by right|]. intros Hn. by rewrite Hn in Ef.
  - rewrite Ec. split_and!; [|by left|done]. split; [|apply cstr_no_nul].
    rewrite (app_assoc bef). pose proof (cstr_bound (bef ++ aft) []) as Hb. unfold len in *. rewrite length_app in Hb. lia.
Qed.

Lemma char_sound cap e c w : sound cap w -> tw (edit_char fails e c) (fun r w' => sound cap w' /\ feed_ok cap r) w.
Proof.
  intros H. unfold edit_char. case_match.
  - unfold linenoiseBeep. lsteps. split; [|done]. destruct H as (bef & aft & [H Ho]). exists bef, aft.
    constructor; [done|by apply Forall_snoc_I].
  - apply tw_bind. eapply tw_mono; [apply read_rest_reads|]. intros u w1 Hr. apply (reads_sound _ _ _ Hr) in H.
    destruct u as [u|]; [|by apply tw_ret]. destruct H as (bef & aft & H). apply tw_bind.
    eapply tw_mono; [by apply insert_spec|]. intros ok w2 [Hw _]. apply tw_ret.
    split; [by eapply edited_sound|by destruct ok].
Qed.

Lemma key_sound cap e c w : sound cap w -> tw (edit_key fails e c) (fun r w' => sound cap w' /\ feed_ok cap r) w.
Proof.
  intros H. destruct (decide (c = CR)) as [->|Hc].
  { destruct H as (bef & aft & H). eapply tw_mono; [by apply enter_spec|]. intros r w' (H1 & H2 & _). done. }
  unfold edit_key. destruct (byte.unsigned c =? 13) eqn:E; [by destruct c|].
  assert (forall r, feed_ok cap r -> tw (_ ← close_line; mret r) (fun r w' => sound cap w' /\ feed_ok cap r) w) as Hclose.
  { intros r Hr. apply tw_bind. eapply tw_mono; [by apply close_sound|]. intros ? w' H'. by apply tw_ret. }
  repeat lazymatch goal with
  | |- tw (more _) _ _ => apply more_sound; by auto with keeps
  | |- tw (edit_char _ _ _) _ _ => by apply char_sound
  | |- tw (mbind _ (ln _)) _ _ => apply tw_bind, tw_ln
  | |- tw (mbind _ close_line) _ _ => by apply Hclose
  | |- tw (mbind _ (put_out _)) _ _ => apply tw_bind, tw_put_out, more_sound; [by auto with keeps|]
  | |- tw (if ?b then _ else _) _ _ => destruct b
  end.
  destruct H as (bef & aft & [H Ho]). exists bef, aft. constructor; [done|by apply Forall_snoc_I].
Qed.

Lemma feed_sound cap e w : sound cap w -> tw (linenoiseEditFeed fails e) (fun r w' => sound cap w' /\ feed_ok cap r) w.
Proof.
  intros H. unfold linenoiseEditFeed, tw. assert (forall r, sound cap (w <| lw_in := r |>)) as Hr.
  { intros r. by apply (reads_sound _ w). }
  destruct (lw_in w) as [|[c| | | |] r]; try done. by apply key_sound.
Qed.

Lemma session_sound cap e n : forall w, sound cap w ->
  tw (edit_session fails n e) (fun r w' => sound cap w' /\ feed_ok cap r) w.
Proof.
  induction n as [|n IH]; intros w H; [by apply tw_ret|]. cbn [edit_session]. apply tw_bind.
  eapply tw_mono; [by apply feed_sound|]. intros r w' [H' Hr]. destruct r; [by apply IH|by apply tw_ret..].
Qed.

Lemma edit_start_spec buf prompt raw_ok tty cols w : Forall drawable (lw_out w) ->
  tw (linenoiseEditStart fails buf prompt raw_ok tty cols)
     (fun ok w' => Forall drawable (lw_out w') /\ (ok = true -> 2 <= len buf /\ editing (len buf - 1) w' [] [] /\
        ln_folds (lw_l w') = [] /\ lw_in w' = lw_in w) /\
        ((forall n, fails n = false) -> raw_ok = true -> 2 <= len buf -> ok = true)) w.
Proof.
  intros Ho. unfold linenoiseEditStart. destruct (Z.ltb_spec (len buf) 2); [apply tw_ret; split_and!; (done || lia)|]. lsteps.
  destruct raw_ok; cbn [negb]; [|by apply tw_ret]. destruct buf as [|c r]; [done|].
  assert (mem_write 0 [NUL] (c :: r) = NUL :: r) as Eb by done. lsteps.
  apply tw_buf_store; cbn -[len mem_write]; [done|change (len [NUL]) with 1; lia|]. lsteps.
  assert (forall w', lw_l w' = LnState (NUL :: r) (len (c :: r) - 1) prompt 0 0 (if cols <? 2 then 80 else cols) [] false
            (ln_prompt_drawn (lw_l w')) -> Forall drawable (lw_out w') -> lw_in w' = lw_in w ->
    Forall drawable (lw_out w') /\ (true = true -> 2 <= len (c :: r) /\ editing (len (c :: r) - 1) w' [] [] /\
      ln_folds (lw_l w') = [] /\ lw_in w' = lw_in w) /\
      ((forall n, fails n = false) -> true = true -> 2 <= len (c :: r) -> true = true)) as Hdone.
  { intros w' E Hw Hi. split; [done|]. split; [|done]. intros _. split_and!; [done| |by rewrite E|done]. constructor; [|done]. rewrite E.
    constructor; cbn -[len]; try done; [by exists r|]. unfold len. cbn [length]. lia. }
  cbn -[len mem_write]. destruct tty; cbn [negb]; [|by apply Hdone].
  apply tw_bind. do 2 (apply tw_try_call; destruct (fails _) eqn:Ef; cbn [negb];
    [apply tw_ret; split_and!; [cbn; by repeat apply Forall_snoc_I|done|intros Hn; by rewrite Hn in Ef]|clear Ef]; lsteps).
  apply Hdone; cbn; [done|by repeat apply Forall_snoc_I|done].
Qed.

(** The life of a line: start, then [n] calls. *)
Definition line_life (buf prompt : bytes) (raw_ok tty : bool) (cols : Z) (n : nat) (e : Z) : L (option feed) :=
  ok ← linenoiseEditStart fails buf prompt raw_ok tty cols;
  if ok : bool then r ← edit_session fails n e; _ ← linenoiseEditStop tty; mret (Some r) else mret None.


End Oracle.
