(* ===== verification/LineEditText.v ===== *)
(** * The line editor edits characters

    linenoise keeps bytes and finds characters, and clusters of characters such
    as flags and emoji joined by U+200D, from the bytes around the cursor.
    Against a specification that edits a line of code points it is the same
    editor: no key ever splits a character. *)

From S2P Require Import Prelude Partial Primitives Types Arena ArenaProofs Buffers Keys Control Frontend.
From S2P Require Import Tui TuiProofs TuiEdit LineEdit LineEditProofs.

(** ** Decoding undoes encoding *)

Lemma join_low x k : 0 <= k -> Z.lor (Z.shiftl (Z.shiftr x k) k) (Z.land x (Z.ones k)) = x.
Proof.
  intros Hk. apply Z.bits_inj'. intros n Hn. rewrite Z.lor_spec, Z.land_spec, Z.shiftl_spec by done.
  rewrite Z.testbit_ones_nonneg by lia. destruct (Z.ltb_spec n k).
  - rewrite Z.testbit_neg_r by lia. by rewrite andb_true_r.
  - rewrite Z.shiftr_spec by lia. rewrite andb_false_r, orb_false_r. f_equal. lia.
Qed.
Lemma join_mid x j k : 0 <= j -> 0 <= k ->
  Z.lor (Z.shiftl (Z.shiftr x (j + k)) (j + k)) (Z.shiftl (Z.land (Z.shiftr x k) (Z.ones j)) k)
  = Z.shiftl (Z.shiftr x k) k.
Proof.
  intros. rewrite <-(join_low (Z.shiftr x k) j) at 2 by done. rewrite Z.shiftl_lor, Z.shiftl_shiftl, Z.shiftr_shiftr by done.
  by rewrite (Z.add_comm k j).
Qed.

(** The bits a mask takes out of a byte [a | x]. *)
Lemma masked_high a n m v x : forallb (fun x => masked (char_ (Z.lor a x)) m =? (v x)) (seqZ 0 n) = true ->
  0 <= x < n -> masked (char_ (Z.lor a x)) m = v x.
Proof. intros H Hx. apply Z.eqb_eq. by apply (by_range (fun x => masked (char_ (Z.lor a x)) m =? v x) n). Qed.
Lemma masked_cont cp k : masked (cont cp k) 0x3F = Z.land (Z.shiftr cp k) 0x3F.
Proof.
  unfold cont. apply (masked_high 0x80 64 0x3F (fun x => x)); [by vm_compute|].
  change 0x3F with (Z.ones 6). rewrite Z.land_ones by lia. by apply Z.mod_pos_bound.
Qed.

Lemma utf8_decode_encode cp s : 0 < cp < 0x110000 ->
  utf8DecodeChar (utf8_encode cp ++ s) = (cp, length (utf8_encode cp)).
Proof.
  intros Hcp. unfold utf8_encode.
  destruct (Z.ltb_spec cp 0x80); [|destruct (Z.ltb_spec cp 0x800); [|destruct (Z.ltb_spec cp 0x10000)]];
    cbn [utf8DecodeChar Datatypes.app length].
  - replace (masked (char_ cp) 0x80) with 0; [cbn [Z.eqb]; by rewrite char_unsigned by lia|].
    rewrite <-(Z.lor_0_l cp). symmetry. apply (masked_high 0 128 0x80 (fun _ => 0)); [by vm_compute|lia].
  - assert (0 <= Z.shiftr cp 6 < 32) as Hx by (apply shiftr_bounds; lia).
    rewrite (masked_high 0xC0 32 0x80 (fun _ => 0x80)), (masked_high 0xC0 32 0xE0 (fun _ => 0xC0)),
      (masked_high 0xC0 32 0x1F (fun x => x)) by first [lia|by vm_compute].
    cbn [Z.eqb Pos.eqb]. rewrite masked_cont, Z.shiftr_0_r. f_equal. by apply (join_low cp 6).
  - assert (0 <= Z.shiftr cp 12 < 16) as Hx by (apply shiftr_bounds; lia).
    rewrite (masked_high 0xE0 16 0x80 (fun _ => 0x80)), (masked_high 0xE0 16 0xE0 (fun _ => 0xE0)),
      (masked_high 0xE0 16 0xF0 (fun _ => 0xE0)), (masked_high 0xE0 16 0x0F (fun x => x)) by first [lia|by vm_compute].
    cbn [Z.eqb Pos.eqb]. rewrite !masked_cont, Z.shiftr_0_r. f_equal.
    rewrite (join_mid cp 6 6 : _ -> _ -> Z.lor (Z.shiftl (Z.shiftr cp 12) 12)
      (Z.shiftl (Z.land (Z.shiftr cp 6) 0x3F) 6) = _) by done. by apply (join_low cp 6).
  - assert (0 <= Z.shiftr cp 18 < 5) as Hx by (apply shiftr_bounds; lia).
    rewrite (masked_high 0xF0 5 0x80 (fun _ => 0x80)), (masked_high 0xF0 5 0xE0 (fun _ => 0xE0)),
      (masked_high 0xF0 5 0xF0 (fun _ => 0xF0)), (masked_high 0xF0 5 0xF8 (fun _ => 0xF0)),
      (masked_high 0xF0 5 0x07 (fun x => x)) by first [lia|by vm_compute].
    cbn [Z.eqb Pos.eqb]. rewrite !masked_cont, Z.shiftr_0_r. f_equal.
    rewrite (join_mid cp 6 12 : _ -> _ -> Z.lor (Z.shiftl (Z.shiftr cp 18) 18)
      (Z.shiftl (Z.land (Z.shiftr cp 12) 0x3F) 12) = _) by done.
    rewrite (join_mid cp 6 6 : _ -> _ -> Z.lor (Z.shiftl (Z.shiftr cp 12) 12)
      (Z.shiftl (Z.land (Z.shiftr cp 6) 0x3F) 6) = _) by done. by apply (join_low cp 6).
Qed.

Lemma byte_len_encode cp c cs : 0 < cp < 0x110000 -> utf8_encode cp = c :: cs -> utf8ByteLen c = length (utf8_encode cp).
Proof.
  intros Hcp E. pose proof (utf8_decode_encode cp (replicate 3 NUL) Hcp) as H. pose proof (utf8_length cp) as Hl. rewrite E in *.
  apply (f_equal snd) in H. unfold utf8ByteLen. destruct cs as [|c1 [|c2 [|c3 [|]]]]; cbn in Hl; try lia;
    cbn in H; by repeat case_match.
Qed.

Lemma scan_back_encode x c cs n j : continuation c = false -> Forall (fun c => continuation c = true) cs ->
  (j <= length cs)%nat -> (j < n)%nat -> scan_back n (x ++ c :: cs) (length x + 1 + j) = length x.
Proof.
  intros Hc Hcs. revert j. induction n as [|n IH]; intros j Hj Hn; [lia|].
  replace (length x + 1 + j)%nat with (S (length x + j)) by lia. cbn [scan_back].
  fold (continuation (default NUL ((x ++ c :: cs) !! (length x + j)%nat))).
  rewrite lookup_app_r by lia. replace (length x + j - length x)%nat with j by lia. destruct j as [|j].
  - change ((c :: cs) !! 0%nat) with (Some c). cbn [default]. unfold id. rewrite Hc. lia.
  - change ((c :: cs) !! S j) with (cs !! j). destruct (lookup_lt_is_Some_2 cs j ltac:(lia)) as [d Hd].
    rewrite Hd. cbn [default]. unfold id. rewrite Forall_lookup in Hcs. rewrite (Hcs _ _ Hd), bool_decide_true by lia.
    replace (length x + S j)%nat with (length x + 1 + j)%nat by lia. apply IH; lia.
Qed.
Lemma decode_prev_encode x cp : 0 < cp < 0x110000 ->
  utf8DecodePrev (x ++ utf8_encode cp) = (cp, length (utf8_encode cp)).
Proof.
  intros Hcp. destruct (utf8_shape cp Hcp) as (c & cs & E & Hc & Hcs & _ & _). pose proof (utf8_length cp) as Hl.
  assert (utf8DecodePrev (x ++ utf8_encode cp) = let b := x ++ utf8_encode cp in let i := scan_back 4 b (length b) in
    ((utf8DecodeChar (drop i b)).1, (length b - i)%nat)) as ->.
  { rewrite E. by destruct x. }
  cbn zeta. assert (scan_back 4 (x ++ utf8_encode cp) (length (x ++ utf8_encode cp)) = length x) as ->.
  { rewrite E in *. rewrite length_app. cbn [length]. replace (length x + S (length cs))%nat with (length x + 1 + length cs)%nat by lia.
    apply scan_back_encode; try done. cbn in Hl. lia. }
  rewrite drop_app_length, length_app. rewrite <-(app_nil_r (utf8_encode cp)) at 1. rewrite utf8_decode_encode by done.
  cbn [fst]. f_equal. lia.
Qed.

(** ** The specification: a line of code points *)

(** What precedes the cluster that [cp] starts so far; [rl] is the text before
    it, last character first. *)
Fixpoint cl_prev (cp : Z) (rl : list Z) : list Z :=
  match rl with
  | [] => []
  | p :: r1 =>
      if isZWJ p then match r1 with [] => [] | p2 :: r2 => cl_prev p2 r2 end
      else if isGraphemeExtend cp then cl_prev p r1
      else if isRegionalIndicator cp && isRegionalIndicator p then r1
      else rl
  end.
Definition prev_rest (rl : list Z) : list Z := match rl with [] => [] | cp :: r => cl_prev cp r end.

(** What follows the cluster; [ri]: it is half a flag. *)
Fixpoint cl_next (ri : bool) (l : list Z) : list Z :=
  match l with
  | [] => []
  | p :: l1 =>
      match l1 with
      | _ :: l2 =>
          if isZWJ p then cl_next ri l2
          else if isGraphemeExtend p then cl_next ri l1
          else if ri && isRegionalIndicator p then cl_next false l1 else l
      | [] =>
          if isGraphemeExtend p then []
          else if ri && isRegionalIndicator p then [] else l
      end
  end.
Definition next_rest (l : list Z) : list Z :=
  match l with [] => [] | cp :: l => cl_next (isRegionalIndicator cp) l end.

Lemma encode_snoc rl cp : encode (reverse (cp :: rl)) = encode (reverse rl) ++ utf8_encode cp.
Proof. by rewrite reverse_cons, encode_app, encode_one. Qed.
Lemma encode_cons cp l : encode (cp :: l) = utf8_encode cp ++ encode l.
Proof. done. Qed.
Lemma encode_pos cp : (1 <= length (utf8_encode cp))%nat.
Proof. pose proof (utf8_length cp). lia. Qed.
Lemma take_encode rl cp : let b := encode (reverse (cp :: rl)) in
  take (length b - length (utf8_encode cp)) b = encode (reverse rl).
Proof.
  cbn zeta. rewrite encode_snoc, length_app.
  replace (_ + _ - _)%nat with (length (encode (reverse rl))) by lia. apply take_app_length.
Qed.
Lemma decode_prev_line rl cp : 0 < cp < 0x110000 ->
  utf8DecodePrev (encode (reverse (cp :: rl))) = (cp, length (utf8_encode cp)).
Proof. intros. rewrite encode_snoc. by apply decode_prev_encode. Qed.
Lemma encode_not_nil rl cp : exists d ds, encode (reverse (cp :: rl)) = d :: ds.
Proof.
  destruct (encode (reverse (cp :: rl))) as [|d ds] eqn:E; [|by exists d, ds].
  apply (f_equal length) in E. rewrite encode_snoc, length_app in E. pose proof (encode_pos cp). cbn in E. lia.
Qed.

Lemma prev_cluster_encode fuel : forall rl cp total, typed rl -> (length rl <= fuel)%nat ->
  (prev_cluster fuel (encode (reverse rl)) cp total + length (encode (reverse (cl_prev cp rl)))
   = total + length (encode (reverse rl)))%nat.
Proof.
  induction fuel as [|fuel IH]; intros rl cp total Ht Hf.
  { destruct rl; [done|cbn in Hf; lia]. }
  destruct rl as [|p r1]; [done|]. inversion_clear Ht as [|?? Hp Ht1]. cbn [length] in Hf.
  pose proof (encode_pos p) as Hlp. cbn [cl_prev prev_cluster].
  rewrite decode_prev_line by done. destruct (encode_not_nil r1 p) as (d & ds & Ed). rewrite Ed at 1.
  rewrite bool_decide_false by lia. rewrite take_encode, (encode_snoc r1 p), length_app. destruct (isZWJ p).
  - destruct r1 as [|p2 r2].
    { change (encode (reverse [])) with (@nil byte). cbn [utf8DecodePrev length]. rewrite bool_decide_true by done. lia. }
    inversion_clear Ht1 as [|?? Hp2 Ht2]. rewrite decode_prev_line by done. pose proof (encode_pos p2).
    rewrite bool_decide_false by lia. rewrite take_encode.
    assert (length r2 <= fuel)%nat as Hf2 by (cbn in Hf; lia).
    pose proof (IH r2 p2 (total + length (utf8_encode p) + length (utf8_encode p2))%nat Ht2 Hf2).
    rewrite (encode_snoc r2 p2), length_app. lia.
  - destruct (isGraphemeExtend cp).
    { pose proof (IH r1 p (total + length (utf8_encode p))%nat Ht1). lia. }
    destruct (_ && _); [lia|]. rewrite (encode_snoc r1 p), length_app. lia.
Qed.

Lemma length_encode_le l : (length l <= length (encode l))%nat.
Proof. induction l as [|c l IH]; [done|]. rewrite encode_cons, length_app. pose proof (encode_pos c). cbn. lia. Qed.

Lemma prev_len_encode rl : typed rl ->
  (utf8PrevCharLen (encode (reverse rl)) + length (encode (reverse (prev_rest rl))) = length (encode (reverse rl)))%nat.
Proof.
  intros Ht. destruct rl as [|cp r]; [done|]. inversion_clear Ht as [|?? Hcp Hr]. pose proof (encode_pos cp).
  unfold utf8PrevCharLen. rewrite decode_prev_line by done. destruct (encode_not_nil r cp) as (d & ds & Ed). rewrite Ed at 1.
  rewrite bool_decide_false by lia. rewrite take_encode.
  pose proof (length_encode_le (reverse r)) as Hl. rewrite length_reverse in Hl.
  rewrite encode_snoc, length_app. cbn [prev_rest].
  pose proof (prev_cluster_encode (length (encode (reverse r)) + length (utf8_encode cp)) r cp (length (utf8_encode cp)) Hr). lia.
Qed.

Lemma next_cluster_encode fuel : forall l ri total, typed l -> (length l <= fuel)%nat ->
  (next_cluster fuel (encode l) ri total + length (encode (cl_next ri l)) = total + length (encode l))%nat.
Proof.
  induction fuel as [|fuel IH]; intros l ri total Ht Hf.
  { destruct l; [done|cbn in Hf; lia]. }
  destruct l as [|p l1]; [done|]. inversion_clear Ht as [|?? Hp Ht1]. cbn [length] in Hf.
  pose proof (encode_pos p) as Hlp. cbn [next_cluster].
  rewrite (encode_cons p l1). destruct (utf8_encode p ++ encode l1) as [|d ds] eqn:Ed.
  { apply (f_equal length) in Ed. rewrite length_app in Ed. cbn in Ed. lia. }
  rewrite <-Ed, utf8_decode_encode, drop_app_length, length_app by done.
  destruct l1 as [|p2 l2].
  - rewrite bool_decide_false by (cbn; lia). rewrite andb_false_r. cbn [cl_next]. cbn [encode mbind list_bind length].
    destruct (isGraphemeExtend p); [destruct fuel; cbn; lia|].
    destruct (_ && _); [destruct fuel; cbn; lia|]. rewrite encode_one. lia.
  - inversion_clear Ht1 as [|?? Hp2 Ht2]. pose proof (encode_pos p2). cbn [cl_next].
    rewrite bool_decide_true by (rewrite (encode_cons p2), length_app; lia). rewrite andb_true_r.
    assert (length (p2 :: l2) <= fuel)%nat as Hf1 by lia. assert (length l2 <= fuel)%nat as Hf2 by (cbn in Hf1; lia).
    assert (typed (p2 :: l2)) as Ht1 by (by constructor).
    destruct (isZWJ p).
    + rewrite (encode_cons p2), utf8_decode_encode, drop_app_length, length_app by done.
      pose proof (IH l2 ri (total + length (utf8_encode p) + length (utf8_encode p2))%nat Ht2 Hf2). lia.
    + destruct (isGraphemeExtend p).
      { pose proof (IH (p2 :: l2) ri (total + length (utf8_encode p))%nat Ht1 Hf1) as HI. cbn [cl_next] in HI. lia. }
      destruct (_ && _).
      { pose proof (IH (p2 :: l2) false (total + length (utf8_encode p))%nat Ht1 Hf1) as HI. cbn [cl_next] in HI. lia. }
      rewrite (encode_cons p), length_app. lia.
Qed.
Lemma next_len_encode l : typed l ->
  (utf8NextCharLen (encode l) + length (encode (next_rest l)) = length (encode l))%nat.
Proof.
  intros Ht. destruct l as [|cp l]; [done|]. inversion_clear Ht as [|?? Hcp Hl]. pose proof (encode_pos cp).
  rewrite (encode_cons cp l). unfold utf8NextCharLen. destruct (utf8_encode cp ++ encode l) as [|d ds] eqn:Ed.
  { apply (f_equal length) in Ed. rewrite length_app in Ed. cbn in Ed. lia. }
  rewrite <-Ed, utf8_decode_encode, drop_app_length, length_app by done. cbn [next_rest].
  pose proof (length_encode_le l).
  pose proof (next_cluster_encode (length (utf8_encode cp) + length (encode l)) l (isRegionalIndicator cp) (length (utf8_encode cp)) Hl).
  lia.
Qed.

(** The cluster before the cursor, last character first, and the one behind it. *)
Definition prev_cl (rl : list Z) : list Z := take (length rl - length (prev_rest rl)) rl.
Definition next_cl (l : list Z) : list Z := take (length l - length (next_rest l)) l.

Lemma cl_prev_suffix n : forall cp rl, (length rl <= n)%nat -> exists m, rl = m ++ cl_prev cp rl.
Proof.
  induction n as [|n IH]; intros cp rl Hn; [destruct rl; [by exists []|cbn in Hn; lia]|].
  destruct rl as [|p r1]; [by exists []|]. cbn [cl_prev length] in *. destruct (isZWJ p).
  - destruct r1 as [|p2 r2]; [by exists [p]|]. destruct (IH p2 r2) as [m Em]; [cbn in Hn; lia|].
    exists (p :: p2 :: m). cbn. by rewrite <-Em.
  - destruct (isGraphemeExtend cp).
    { destruct (IH p r1) as [m Em]; [lia|]. exists (p :: m). cbn. by rewrite <-Em. }
    destruct (_ && _); [by exists [p]|by exists []].
Qed.
Lemma cl_next_suffix n : forall ri l, (length l <= n)%nat -> exists m, l = m ++ cl_next ri l.
Proof.
  induction n as [|n IH]; intros ri l Hn; [destruct l; [by exists []|cbn in Hn; lia]|].
  destruct l as [|p l1]; [by exists []|]. cbn [cl_next length] in *. destruct l1 as [|p2 l2].
  { destruct (isGraphemeExtend p); [by exists [p]|]. destruct (_ && _); [by exists [p]|by exists []]. }
  destruct (isZWJ p).
  - destruct (IH ri l2) as [m Em]; [cbn in Hn; lia|]. exists (p :: p2 :: m). cbn. by rewrite <-Em.
  - destruct (isGraphemeExtend p).
    { destruct (IH ri (p2 :: l2)) as [m Em]; [lia|]. exists (p :: m). cbn [Datatypes.app]. by rewrite <-Em. }
    destruct (_ && _); [|by exists []].
    destruct (IH false (p2 :: l2)) as [m Em]; [lia|]. exists (p :: m). cbn [Datatypes.app]. by rewrite <-Em.
Qed.

Lemma take_prefix {A} (m r l : list A) : l = m ++ r -> take (length l - length r) l = m.
Proof. intros ->. rewrite length_app. replace (_ + _ - _)%nat with (length m) by lia. apply take_app_length. Qed.
Lemma prev_split rl : rl = prev_cl rl ++ prev_rest rl /\ (rl <> [] -> prev_cl rl <> []).
Proof.
  destruct rl as [|cp r]; [done|]. destruct (cl_prev_suffix (length r) cp r) as [m Em]; [done|].
  assert (cp :: r = (cp :: m) ++ prev_rest (cp :: r)) as E by (cbn; by rewrite <-Em).
  unfold prev_cl. rewrite (take_prefix _ _ _ E). by split.
Qed.
Lemma next_split l : l = next_cl l ++ next_rest l /\ (l <> [] -> next_cl l <> []).
Proof.
  destruct l as [|cp r]; [done|]. destruct (cl_next_suffix (length r) (isRegionalIndicator cp) r) as [m Em]; [done|].
  assert (cp :: r = (cp :: m) ++ next_rest (cp :: r)) as E by (cbn; by rewrite <-Em).
  unfold next_cl. rewrite (take_prefix _ _ _ E). by split.
Qed.

(** Back over the clusters whose last character satisfies [q]. *)
Fixpoint skip_word (n : nat) (q : Z -> bool) (rl : list Z) : list Z :=
  match n, rl with
  | S n, c :: _ => if q c then skip_word n q (prev_rest rl) else rl
  | _, _ => rl
  end.
Definition skip_clusters (q : Z -> bool) (rl : list Z) : list Z := skip_word (length rl) q rl.

Inductive lkey :=
| KChar (cp : Z) | KBackspace | KDelete | KLeft | KRight | KHome | KEnd
| KKillLine | KKillRight | KKillWord | KTranspose.

(** The line is the characters before the cursor, last first, and those behind it. *)
Definition zstep (cap : Z) (z : list Z * list Z) (k : lkey) : list Z * list Z :=
  let '(rl, r) := z in
  match k with
  | KChar cp => if len (encode (reverse rl)) + len (encode r) + len (utf8_encode cp) <=? cap then (cp :: rl, r) else z
  | KBackspace => (prev_rest rl, r)
  | KDelete => (rl, next_rest r)
  | KLeft => (prev_rest rl, reverse (prev_cl rl) ++ r)
  | KRight => (reverse (next_cl r) ++ rl, next_rest r)
  | KHome => ([], reverse rl ++ r)
  | KEnd => (reverse r ++ rl, [])
  | KKillLine => ([], [])
  | KKillRight => (rl, [])
  | KKillWord => (skip_clusters (fun c => negb (c =? 32)) (skip_clusters (fun c => c =? 32) rl), r)
  | KTranspose =>
      let p := prev_cl rl in
      let c := next_cl r in
      if bool_decide (rl = []) || bool_decide (r = []) || (32 <? len (encode (reverse p))) || (32 <? len (encode c)) then z
      else (p ++ reverse c ++ prev_rest rl, next_rest r)
  end.

(** What the terminal sends. *)
Definition key_bytes (k : lkey) : bytes :=
  match k with
  | KChar cp => utf8_encode cp
  | KBackspace => [Byte.x7f]
  | KDelete => ESC :: lit "[3~"
  | KLeft => ESC :: lit "[D"
  | KRight => ESC :: lit "[C"
  | KHome => [Byte.x01]
  | KEnd => [Byte.x05]
  | KKillLine => [Byte.x15]
  | KKillRight => [Byte.x0b]
  | KKillWord => [Byte.x17]
  | KTranspose => [Byte.x14]
  end.
Definition typeable (k : lkey) : bool :=
  match k with
  | KChar cp => ((32 <=? cp) || (cp =? 9)) && negb (cp =? 127) && (cp <? 0x110000)
  | _ => true
  end.

(** ** The cursor finds the clusters *)

Record on_line (cap : Z) (w : ln_world) (rl r : list Z) : Prop := {
  ol_ed : editing cap w (encode (reverse rl)) (encode r);
  ol_folds : ln_folds (lw_l w) = [];
  ol_left : typed rl;
  ol_right : typed r }.

Lemma encode_split rl : encode (reverse rl) = encode (reverse (prev_rest rl)) ++ encode (reverse (prev_cl rl)).
Proof. rewrite (proj1 (prev_split rl)) at 1. by rewrite reverse_app, encode_app. Qed.
Lemma encode_next l : encode l = encode (next_cl l) ++ encode (next_rest l).
Proof. rewrite (proj1 (next_split l)) at 1. by rewrite encode_app. Qed.
Lemma typed_prev rl : typed rl -> typed (prev_cl rl) /\ typed (prev_rest rl).
Proof. intros H. rewrite (proj1 (prev_split rl)) in H. by apply Forall_app in H. Qed.
Lemma typed_next l : typed l -> typed (next_cl l) /\ typed (next_rest l).
Proof. intros H. rewrite (proj1 (next_split l)) in H. by apply Forall_app in H. Qed.
Lemma typed_reverse l : typed l -> typed (reverse l).
Proof. intros H. by apply Forall_reverse. Qed.
Lemma encode_not_empty l : l <> [] -> encode l <> [].
Proof. destruct l as [|c l]; [done|]. intros _ E%(f_equal length). rewrite encode_cons, length_app in E. pose proof (encode_pos c). cbn in E. lia. Qed.
Lemma encode_nil_inv l : encode l = [] -> l = [].
Proof. intros E. destruct (decide (l = [])) as [|H]; [done|]. by apply encode_not_empty in H. Qed.

Lemma no_fold_prev l pos : ln_folds l = [] -> linenoiseEditPrevLen l pos = Z.of_nat (utf8PrevCharLen (before l pos)).
Proof. intros E. unfold linenoiseEditPrevLen, render_folds. rewrite E. by destruct (ln_len l =? 0). Qed.
Lemma no_fold_next l pos : ln_folds l = [] -> linenoiseEditNextLen l pos = Z.of_nat (utf8NextCharLen (behind l pos)).
Proof. intros E. unfold linenoiseEditNextLen, render_folds. rewrite E. by destruct (ln_len l =? 0). Qed.

Lemma line_prev_len cap l x aft rl y : lrep cap l x aft -> ln_folds l = [] -> typed rl -> x = encode (reverse rl) ++ y ->
  linenoiseEditPrevLen l (len (encode (reverse rl))) = len (encode (reverse (prev_cl rl))).
Proof.
  intros H Hf Ht ->. rewrite no_fold_prev, (before_rep _ _ _ _ _ H) by done. pose proof (prev_len_encode rl Ht) as E.
  rewrite (encode_split rl), length_app in E. unfold len. rewrite (encode_split rl). lia.
Qed.
Lemma line_next_len cap l x r : lrep cap l x (encode r) -> ln_folds l = [] -> typed r ->
  linenoiseEditNextLen l (len x) = len (encode (next_cl r)).
Proof.
  intros H Hf Ht. rewrite no_fold_next, (behind_rep _ _ _ _ H) by done. pose proof (next_len_encode r Ht) as E.
  pose proof (f_equal length (encode_next r)) as En. rewrite length_app in En. unfold len. lia.
Qed.

(** ** Each operation does what the specification says *)

Lemma on_line_edited cap w w' rl r rl' r' : on_line cap w rl r ->
  edited cap w (encode (reverse rl')) (encode r') w' -> typed rl' -> typed r' -> on_line cap w' rl' r' /\ lw_in w' = lw_in w.
Proof. intros [_ Hf _ _] [He Hq] Hl Hr. split; [|by destruct Hq]. constructor; try done. by apply (qu_folds _ _ Hq). Qed.

Lemma prev_not_empty rl : rl <> [] -> encode (reverse (prev_cl rl)) <> [].
Proof.
  intros Hn. apply encode_not_empty. intros E%(f_equal reverse). rewrite reverse_involutive in E.
  by apply (proj2 (prev_split rl)) in Hn.
Qed.
Lemma next_not_empty l : l <> [] -> encode (next_cl l) <> [].
Proof. intros Hn. by apply encode_not_empty, (proj2 (next_split l)). Qed.

(** [m] does [k] without reading input. *)
Definition does (m : L unit) (k : lkey) : Prop := forall cap w rl r, on_line cap w rl r ->
  tw m (fun _ w' => on_line cap w' (zstep cap (rl, r) k).1 (zstep cap (rl, r) k).2 /\ lw_in w' = lw_in w) w.

Lemma does_backspace : does linenoiseEditBackspace KBackspace.
Proof.
  intros cap w rl r H. pose proof H as [He Hf Hl Hr]. destruct (typed_prev rl Hl). cbn [zstep fst snd].
  destruct (decide (rl = [])) as [->|Hn].
  - eapply tw_mono; [by apply backspace_at_start|]. intros ? w' Hw. by eapply on_line_edited.
  - pose proof (line_prev_len cap _ _ _ rl [] (ed_rep _ _ _ _ He) Hf Hl (eq_sym (app_nil_r _))) as Ep.
    rewrite (encode_split rl) in He, Ep at 1. eapply tw_mono; [apply (backspace_spec cap _ _ _ _ He); [|done]|].
    + by apply prev_not_empty.
    + intros ? w' Hw. by eapply on_line_edited.
Qed.

Lemma does_left : does linenoiseEditMoveLeft KLeft.
Proof.
  intros cap w rl r H. pose proof H as [He Hf Hl Hr]. destruct (typed_prev rl Hl). cbn [zstep fst snd].
  destruct (decide (rl = [])) as [->|Hn].
  - eapply tw_mono; [by apply left_at_start|]. intros ? w' Hw. by eapply on_line_edited.
  - pose proof (line_prev_len cap _ _ _ rl [] (ed_rep _ _ _ _ He) Hf Hl (eq_sym (app_nil_r _))) as Ep.
    rewrite (encode_split rl) in He, Ep at 1.
    eapply tw_mono; [apply (move_left_spec cap _ _ _ _ He); [by apply prev_not_empty|done]|].
    intros ? w' Hw. rewrite <-encode_app in Hw. eapply on_line_edited; try done.
    apply Forall_app. split; [by apply typed_reverse|done].
Qed.
Lemma does_delete : does linenoiseEditDelete KDelete.
Proof.
  intros cap w rl r H. pose proof H as [He Hf Hl Hr]. destruct (typed_next r Hr). cbn [zstep fst snd].
  destruct (decide (r = [])) as [->|Hn].
  - eapply tw_mono; [by apply delete_at_end|]. intros ? w' Hw. by eapply on_line_edited.
  - pose proof (line_next_len cap _ _ _ (ed_rep _ _ _ _ He) Hf Hr) as Ep. rewrite (encode_next r) in He.
    eapply tw_mono; [apply (delete_spec cap _ _ _ _ He); [by apply next_not_empty|done]|].
    intros ? w' Hw. by eapply on_line_edited.
Qed.
Lemma does_right : does linenoiseEditMoveRight KRight.
Proof.
  intros cap w rl r H. pose proof H as [He Hf Hl Hr]. destruct (typed_next r Hr). cbn [zstep fst snd].
  destruct (decide (r = [])) as [->|Hn].
  - eapply tw_mono; [by apply right_at_end|]. intros ? w' Hw. by eapply on_line_edited.
  - pose proof (line_next_len cap _ _ _ (ed_rep _ _ _ _ He) Hf Hr) as Ep. rewrite (encode_next r) in He.
    eapply tw_mono; [apply (move_right_spec cap _ _ _ _ He); [by apply next_not_empty|done]|].
    intros ? w' Hw. rewrite <-encode_app in Hw. eapply on_line_edited; [done| |by apply Forall_app; split; [apply typed_reverse|]|done].
    by rewrite reverse_app, reverse_involutive.
Qed.
Lemma does_home : does linenoiseEditMoveHome KHome.
Proof.
  intros cap w rl r H. pose proof H as [He Hf Hl Hr]. cbn [zstep fst snd].
  eapply tw_mono; [by apply move_home_spec|]. intros ? w' Hw. rewrite <-encode_app in Hw.
  eapply on_line_edited; [done|done|constructor|]. apply Forall_app. split; [by apply typed_reverse|done].
Qed.
Lemma does_end : does linenoiseEditMoveEnd KEnd.
Proof.
  intros cap w rl r H. pose proof H as [He Hf Hl Hr]. cbn [zstep fst snd].
  eapply tw_mono; [by apply move_end_spec|]. intros ? w' Hw. rewrite <-encode_app in Hw.
  eapply on_line_edited; [done| |by apply Forall_app; split; [apply typed_reverse|]|constructor].
  by rewrite reverse_app, reverse_involutive.
Qed.
Lemma does_kill_line : does edit_kill_line KKillLine.
Proof.
  intros cap w rl r H. pose proof H as [He Hf Hl Hr]. eapply tw_mono; [by eapply kill_line_spec|].
  intros ? w' Hw. eapply on_line_edited; [done|done|constructor..].
Qed.
Lemma does_kill_right : does edit_kill_right KKillRight.
Proof.
  intros cap w rl r H. pose proof H as [He Hf Hl Hr]. eapply tw_mono; [by eapply kill_right_spec|].
  intros ? w' Hw. eapply on_line_edited; [done|done|done|constructor].
Qed.
Lemma does_transpose : does edit_transpose KTranspose.
Proof.
  intros cap w rl r H. pose proof H as [He Hf Hl Hr]. unfold zstep. destruct (typed_prev rl Hl), (typed_next r Hr).
  destruct (decide (rl = [] \/ r = [])) as [Hn|[Hn1 Hn2]%Decidable.not_or].
  - assert (bool_decide (rl = []) || bool_decide (r = []) = true) as ->.
    { destruct Hn; [by rewrite bool_decide_true|rewrite (bool_decide_true (r = [])) by done; apply orb_true_r]. }
    eapply tw_mono; [apply (transpose_at_edge _ _ _ _ He); destruct Hn as [-> | ->]; [by left|by right]|].
    intros ? w' Hw. by eapply on_line_edited.
  - rewrite !bool_decide_false by done. cbn [orb].
    pose proof (line_prev_len cap _ _ _ rl [] (ed_rep _ _ _ _ He) Hf Hl (eq_sym (app_nil_r _))) as Ep.
    pose proof (line_next_len cap _ _ _ (ed_rep _ _ _ _ He) Hf Hr) as En.
    rewrite (encode_split rl), (encode_next r) in He. rewrite (encode_split rl) in Ep at 1. rewrite (encode_split rl) in En.
    eapply tw_mono; [apply (transpose_spec cap _ _ _ _ _ He); [by apply prev_not_empty|by apply next_not_empty|done|done]|].
    unfold linenoiseRangeOverlapsFold. rewrite Hf. cbn [existsb negb]. rewrite andb_true_r.
    intros ? w' Hw. cbn beta in Hw. rewrite !Z.leb_antisym, <-negb_orb in Hw.
    destruct (_ || _); cbn [negb fst snd] in *.
    + rewrite <-(encode_split rl), <-encode_next in Hw. by eapply on_line_edited.
    + rewrite <-!encode_app in Hw. eapply on_line_edited; [done| |repeat (apply Forall_app; split); [done|by apply typed_reverse|done]|done].
      by rewrite !reverse_app, reverse_involutive, <-app_assoc.
Qed.

(** *** Words *)

Lemma last_byte_space c : 0 < c < 0x110000 ->
  is_space (default NUL (utf8_encode c !! (length (utf8_encode c) - 1)%nat)) = (c =? 32).
Proof.
  intros Hc. assert (forall k, is_space (cont c k) = false) as Hcont.
  { intros k. pose proof (cont_unsigned c k). unfold is_space. destruct (byte_eqb_spec (cont c k) Byte.x20) as [E|]; [|done].
    rewrite E in *. cbn in *. lia. }
  unfold utf8_encode. destruct (Z.ltb_spec c 0x80).
  - cbn. unfold is_space. destruct (byte_eqb_spec (char_ c) Byte.x20) as [E|E].
    + symmetry. apply Z.eqb_eq. rewrite <-(char_unsigned c), E by lia. done.
    + symmetry. apply Z.eqb_neq. intros ->. by destruct E.
  - assert ((c =? 32) = false) as -> by lia. repeat case_match; apply Hcont.
Qed.

Lemma skip_word_encode cap l aft (p : byte -> bool) (q : Z -> bool) :
  (forall c, 0 < c < 0x110000 -> p (default NUL (utf8_encode c !! (length (utf8_encode c) - 1)%nat)) = q c) ->
  ln_folds l = [] -> forall n rl y fuel, (length rl <= n)%nat -> lrep cap l (encode (reverse rl) ++ y) aft -> typed rl ->
  (length (encode (reverse rl)) <= fuel)%nat ->
  skip_back fuel p l (len (encode (reverse rl))) = Some (len (encode (reverse (skip_word n q rl)))).
Proof.
  intros Hpq Hf. induction n as [|n IH]; intros rl y fuel Hn H Ht Hfu.
  { destruct rl; [|cbn in Hn; lia]. by destruct fuel. }
  destruct rl as [|c rl]; [by destruct fuel|]. inversion_clear Ht as [|?? Hc Ht1]. pose proof (encode_pos c).
  assert (typed (c :: rl)) as Ht by (by constructor).
  assert (p (default NUL (ln_buf l !! Z.to_nat (len (encode (reverse (c :: rl))) - 1))) = q c) as Eq.
  { rewrite <-(Hpq c Hc). do 2 f_equal. destruct H as [[junk ->] _ _ _ _ _ _]. rewrite encode_snoc. unfold len.
    rewrite length_app, <-!app_assoc, lookup_app_r by lia. rewrite lookup_app_l by lia. f_equal. lia. }
  assert (0 < len (encode (reverse (c :: rl)))) as Hpos by (rewrite encode_snoc; unfold len; rewrite length_app; lia).
  destruct fuel as [|fuel]; [unfold len in Hpos; lia|]. cbn [skip_back skip_word]. rewrite Eq, (proj2 (Z.ltb_lt _ _)) by done.
  cbn [andb]. destruct (q c); [|done].
  rewrite (line_prev_len cap l _ aft (c :: rl) y H Hf Ht eq_refl).
  destruct (prev_split (c :: rl)) as [Es Hne]. specialize (Hne ltac:(done)).
  pose proof (len_pos _ (prev_not_empty (c :: rl) ltac:(done))) as Hp1. pose proof (encode_split (c :: rl)) as Ee.
  replace (len (encode (reverse (c :: rl))) - len (encode (reverse (prev_cl (c :: rl)))))
    with (len (encode (reverse (prev_rest (c :: rl))))) by (rewrite Ee, len_app; lia).
  apply (IH _ (encode (reverse (prev_cl (c :: rl))) ++ y)).
  - apply (f_equal length) in Es. rewrite length_app in Es. destruct (prev_cl (c :: rl)); [done|]. cbn [length] in *. lia.
  - by rewrite app_assoc, <-Ee.
  - by apply typed_prev.
  - rewrite Ee, length_app in Hfu. unfold len in Hp1. lia.
Qed.

Lemma skip_word_suffix q n : forall rl, exists m, rl = m ++ skip_word n q rl.
Proof.
  induction n as [|n IH]; intros rl; [by exists []|]. destruct rl as [|c rl]; [by exists []|]. cbn [skip_word].
  destruct (q c); [|by exists []]. destruct (IH (prev_rest (c :: rl))) as [m Em]. exists (prev_cl (c :: rl) ++ m).
  rewrite <-app_assoc, <-Em. apply prev_split.
Qed.

Lemma does_kill_word : does linenoiseEditDeletePrevWord KKillWord.
Proof.
  intros cap w rl r H. pose proof H as [He Hf Hl Hr]. pose proof (ed_rep _ _ _ _ He) as Hrep. unfold zstep, skip_clusters. cbn [fst snd].
  set (r1 := skip_word (length rl) (fun c => c =? 32) rl).
  set (r2 := skip_word (length r1) (fun c => negb (c =? 32)) r1).
  destruct (skip_word_suffix (fun c => c =? 32) (length rl) rl) as [m1 E1]. fold r1 in E1.
  destruct (skip_word_suffix (fun c => negb (c =? 32)) (length r1) r1) as [m2 E2]. fold r2 in E2.
  assert (typed r1) as Ht1 by (rewrite E1 in Hl; by apply Forall_app in Hl as [_ ?]).
  assert (typed r2) as Ht2 by (rewrite E2 in Ht1; by apply Forall_app in Ht1 as [_ ?]).
  assert (encode (reverse rl) = encode (reverse r1) ++ encode (reverse m1)) as F1 by (rewrite E1 at 1; by rewrite reverse_app, encode_app).
  assert (encode (reverse r1) = encode (reverse r2) ++ encode (reverse m2)) as F2 by (rewrite E2 at 1; by rewrite reverse_app, encode_app).
  assert (length (encode (reverse rl)) <= length (ln_buf (lw_l w)))%nat as Hb.
  { destruct (lr_buf _ _ _ _ Hrep) as [junk ->]. rewrite length_app. lia. }
  assert (skip_back (length (ln_buf (lw_l w))) is_space (lw_l w) (len (encode (reverse rl))) = Some (len (encode (reverse r1)))) as S1.
  { eapply (skip_word_encode cap _ _ _ _ last_byte_space Hf _ _ []); [done|by rewrite app_nil_r|done|done]. }
  assert (skip_back (length (ln_buf (lw_l w))) (fun c => negb (is_space c)) (lw_l w) (len (encode (reverse r1)))
          = Some (len (encode (reverse r2)))) as S2.
  { eapply (skip_word_encode cap _ _ (fun c => negb (is_space c)) (fun c => negb (c =? 32)));
      [intros c Hc; f_equal; by apply last_byte_space|done|done|by rewrite <-F1|done|].
    rewrite F1, length_app in Hb. lia. }
  assert (encode (reverse rl) = encode (reverse r2) ++ encode (reverse m2) ++ encode (reverse m1)) as F by (by rewrite F1, F2, <-app_assoc).
  rewrite F in He, S1. eapply tw_mono; [by apply (prev_word_spec cap w _ _ _ _ He S1 S2)|].
  intros ? w' Hw. by eapply on_line_edited.
Qed.

(** ** Keys *)

Definition never (n : nat) : bool := false.

Lemma on_line_reads cap w w' rl r : reads w w' -> on_line cap w rl r -> on_line cap w' rl r.
Proof. intros Hr [He Hf Hl Hrt]. constructor; try done; [by eapply reads_editing|]. by rewrite (proj1 Hr). Qed.

(** One call for the key [k], with [rest] behind its bytes. *)
Definition feeds (k : lkey) : Prop := forall cap e w rl r rest, on_line cap w rl r ->
  lw_in w = (RdByte <$> key_bytes k) ++ rest ->
  tw (linenoiseEditFeed never e) (fun res w' => res = EditMore /\ lw_in w' = rest /\
    on_line cap w' (zstep cap (rl, r) k).1 (zstep cap (rl, r) k).2) w.

Lemma more_does m k cap w rl r : does m k -> on_line cap w rl r ->
  tw (more m) (fun res w' => res = EditMore /\ lw_in w' = lw_in w /\
    on_line cap w' (zstep cap (rl, r) k).1 (zstep cap (rl, r) k).2) w.
Proof.
  intros Hm H. unfold more. apply tw_bind. eapply tw_mono; [by apply Hm|]. intros ? w' [Hw Hi]. by apply tw_ret.
Qed.

Lemma tw_feed e c rest (Q : feed -> ln_world -> Prop) w : lw_in w = RdByte c :: rest ->
  tw (edit_key never e c) Q (w <| lw_in := rest |>) -> tw (linenoiseEditFeed never e) Q w.
Proof. intros Hi H. unfold tw, linenoiseEditFeed. by rewrite Hi. Qed.
Lemma tw_read c (Q : got -> ln_world -> Prop) w rest : lw_in w = RdByte c :: rest ->
  Q (Got c) (w <| lw_in := rest |>) -> tw linenoiseReadByte Q w.
Proof. intros Hi HQ. unfold tw, linenoiseReadByte. by rewrite Hi. Qed.

(** A key of one byte. *)
Lemma feeds_control c m k : key_bytes k = [c] -> (forall e, edit_key never e c = more m) -> does m k -> feeds k.
Proof.
  intros Ek Ec Hm cap e w rl r rest H Hi. rewrite Ek in Hi. eapply tw_feed; [exact Hi|]. rewrite Ec.
  eapply tw_mono; [apply (more_does m k cap _ rl r Hm); by apply (on_line_reads _ w)|].
  intros res w' (-> & Hi' & Hw). by rewrite Hi'.
Qed.

(** A key sent as an escape sequence, once the sequence is read. *)
Lemma feeds_escape s m k : key_bytes k = ESC :: s -> does m k ->
  (forall w rest (Q : unit -> ln_world -> Prop), lw_in w = (RdByte <$> s) ++ rest ->
    (forall w', reads w w' -> lw_in w' = rest -> tw m Q w') -> tw (edit_escape never) Q w) -> feeds k.
Proof.
  intros Ek Hm Hesc cap e w rl r rest H Hi. rewrite Ek in Hi. eapply tw_feed; [exact Hi|].
  change (edit_key never e ESC) with (more (edit_escape never)). unfold more. apply tw_bind.
  eapply Hesc; [done|]. intros w' Hr Hi'. eapply tw_mono; [apply (Hm cap _ rl r); by apply (on_line_reads _ w)|].
  intros ? w2 [Hw2 Hi2]. apply tw_ret. by rewrite Hi2.
Qed.
Ltac escapes := intros w rest Q Hi HQ; unfold edit_escape; apply tw_bind; eapply tw_read; [exact Hi|]; apply tw_bind;
  eapply tw_read; [reflexivity|].
Lemma feeds_left : feeds KLeft.
Proof. apply (feeds_escape (lit "[D") linenoiseEditMoveLeft); [done|apply does_left|]. escapes. by apply HQ. Qed.
Lemma feeds_right : feeds KRight.
Proof. apply (feeds_escape (lit "[C") linenoiseEditMoveRight); [done|apply does_right|]. escapes. by apply HQ. Qed.
Lemma feeds_delete : feeds KDelete.
Proof.
  apply (feeds_escape (lit "[3~") linenoiseEditDelete); [done|apply does_delete|]. escapes.
  change (tw ('(param, final) ← read_param 7 [Byte.x33];
              if bool_decide (final = Some Byte.x7e) then
                if bytes_eqb param (lit "3") then linenoiseEditDelete
                else if bytes_eqb param (lit "200") then linenoiseEditPaste never else done_
              else done_) Q (w <| lw_in := RdByte Byte.x7e :: rest |>)).
  apply tw_bind. cbn [read_param]. apply tw_bind. eapply tw_read; [done|]. by apply HQ.
Qed.

(** A character: its bytes are read and inserted together. *)
Lemma read_rest_spec s : forall acc w rest (Q : option bytes -> ln_world -> Prop), lw_in w = (RdByte <$> s) ++ rest ->
  Q (Some (acc ++ s)) (w <| lw_in := rest |>) -> tw (read_rest (length s) acc) Q w.
Proof.
  induction s as [|c s IH]; intros acc w rest Q Hi HQ.
  - apply tw_ret. rewrite app_nil_r in HQ. cbn in Hi. subst rest. by destruct w.
  - cbn [length read_rest]. apply tw_bind. eapply tw_read; [exact Hi|]. apply (IH _ _ rest); [done|]. by rewrite <-app_assoc.
Qed.
Lemma typeable_range cp : typeable (KChar cp) = true -> 0 < cp < 0x110000.
Proof. cbn. lia. Qed.
Lemma char_key e cp c cs : typeable (KChar cp) = true -> utf8_encode cp = c :: cs ->
  edit_key never e c = edit_char never e c /\ (byte.unsigned c <? 32) && negb (Byte.eqb c TAB) = false.
Proof.
  intros Ht E. pose proof (typeable_range cp Ht) as Hcp. cbn in Ht.
  assert (byte.unsigned c = cp /\ cp < 0x80 \/ 0xC0 <= byte.unsigned c) as Hc.
  { unfold utf8_encode in E. destruct (Z.ltb_spec cp 0x80); [left|right].
    - injection E as <- <-. rewrite char_unsigned; lia.
    - destruct (utf8_shape cp Hcp) as (c' & cs' & E' & Hn & _). unfold utf8_encode in E'.
      rewrite (proj2 (Z.ltb_ge _ _)) in E' by done. rewrite E in E'. injection E' as <- <-.
      rewrite continuation_range in Hn. assert (0x80 <= byte.unsigned c); [|lia].
      assert (forall a n x, forallb (fun x => 0x80 <=? byte.unsigned (char_ (Z.lor a x))) (seqZ 0 n) = true -> 0 <= x < n ->
        0x80 <= byte.unsigned (char_ (Z.lor a x))) as Hb.
      { intros a n x Hf Hx. apply Z.leb_le. by apply (by_range (fun x => 0x80 <=? byte.unsigned (char_ (Z.lor a x))) n). }
      repeat case_match; injection E as <- <-; [apply (Hb _ 32)|apply (Hb _ 16)|apply (Hb _ 5)];
        try (by vm_compute); apply shiftr_bounds; lia. }
  split.
  - unfold edit_key. repeat (rewrite (proj2 (Z.eqb_neq (byte.unsigned c) _)) by lia). done.
  - destruct (Z.ltb_spec (byte.unsigned c) 32); [|done]. cbn [andb].
    assert (byte.unsigned c = 9) as E9 by lia. by destruct c.
Qed.
Lemma feeds_char cp : typeable (KChar cp) = true -> feeds (KChar cp).
Proof.
  intros Ht cap e w rl r rest H Hi. pose proof (typeable_range cp Ht) as Hcp. cbn [key_bytes] in Hi.
  destruct (utf8_encode cp) as [|c cs] eqn:E; [pose proof (encode_pos cp) as Hp; rewrite E in Hp; cbn in Hp; lia|].
  eapply tw_feed; [exact Hi|]. destruct (char_key e cp c cs Ht E) as [-> Hprint]. unfold edit_char. rewrite Hprint.
  rewrite (byte_len_encode cp c cs Hcp E), E. replace (length (c :: cs) - 1)%nat with (length cs) by (cbn; lia).
  apply tw_bind. eapply read_rest_spec; [done|]. cbn [Datatypes.app]. set (w1 := _ <| lw_in := rest |>).
  assert (on_line cap w1 rl r) as [He Hf Hl Hr] by (by apply (on_line_reads _ w)).
  apply tw_bind. eapply tw_mono; [by apply insert_spec|]. intros ok w2 [Hw Hok]. rewrite (Hok ltac:(done)). apply tw_ret.
  assert (on_line cap w1 rl r) as H1 by (by constructor). split; [done|]. unfold inserted, fits in Hw. cbn [zstep]. rewrite E.
  destruct (_ <=? cap).
  - destruct (on_line_edited cap w1 w2 rl r (cp :: rl) r H1) as [? ?]; [by rewrite encode_snoc, E|by constructor|done|done].
  - by destruct (on_line_edited cap w1 w2 rl r rl r H1).
Qed.

Lemma feeds_all k : typeable k = true -> feeds k.
Proof.
  destruct k; intros Ht.
  - by apply feeds_char.
  - apply (feeds_control _ linenoiseEditBackspace KBackspace eq_refl (fun _ => eq_refl)), does_backspace.
  - apply feeds_delete.
  - apply feeds_left.
  - apply feeds_right.
  - apply (feeds_control _ linenoiseEditMoveHome KHome eq_refl (fun _ => eq_refl)), does_home.
  - apply (feeds_control _ linenoiseEditMoveEnd KEnd eq_refl (fun _ => eq_refl)), does_end.
  - apply (feeds_control _ edit_kill_line KKillLine eq_refl (fun _ => eq_refl)), does_kill_line.
  - apply (feeds_control _ edit_kill_right KKillRight eq_refl (fun _ => eq_refl)), does_kill_right.
  - apply (feeds_control _ linenoiseEditDeletePrevWord KKillWord eq_refl (fun _ => eq_refl)), does_kill_word.
  - apply (feeds_control _ edit_transpose KTranspose eq_refl (fun _ => eq_refl)), does_transpose.
Qed.

Lemma session_line cap e ks : forall w rl r, on_line cap w rl r -> forallb typeable ks = true ->
  lw_in w = RdByte <$> (mbind key_bytes ks ++ [CR]) ->
  tw (edit_session never (S (length ks)) e) (fun res w' =>
    let '(rl', r') := foldl (zstep cap) (rl, r) ks in res = EditLine (encode (reverse rl' ++ r'))) w.
Proof.
  induction ks as [|k ks IH]; intros w rl r H Hk Hi.
  - cbn [length edit_session]. apply tw_bind. eapply tw_feed; [exact Hi|].
    assert (on_line cap (w <| lw_in := [] |>) rl r) as H1 by (by apply (on_line_reads _ w)). pose proof H1 as [He _ Hl Hr].
    eapply tw_mono; [by apply (enter_spec never cap e _ _ _ He)|]. intros res w' (_ & _ & [-> | ->] & Hn).
    + apply tw_ret. cbn [foldl]. f_equal. rewrite app_assoc, <-encode_app. change [NUL] with (NUL :: []). apply cstr_app_nul.
      apply encode_no_nul, Forall_app. split; [by apply typed_reverse|done].
    + by destruct (Hn ltac:(done)).
  - cbn [forallb] in Hk. apply andb_prop in Hk as [Hk Hks]. cbn [length]. change (edit_session never (S (S (length ks))) e) with
      (r ← linenoiseEditFeed never e; match r with EditMore => edit_session never (S (length ks)) e | _ => mret r end).
    apply tw_bind. eapply tw_mono; [eapply (feeds_all k Hk cap e w rl r); [done|]|].
    + rewrite Hi. cbn [mbind list_bind]. by rewrite <-app_assoc, fmap_app.
    + intros res w' (-> & Hi' & H'). cbn [foldl]. destruct (zstep cap (rl, r) k) as [rl' r']. by apply IH.
Qed.


