(* ===== verification/LineEditDraw.v ===== *)
(** * Drawing the line, and where the editor's input checks end

    A line of plain characters is always drawn, as a window that holds the
    cursor.  With other characters, or on a terminal no wider than the prompt,
    the scroll loop does not end; and bytes the editor refuses when typed enter
    the line by a paste or behind the first byte of a character. *)

From S2P Require Import Prelude Partial Primitives Types Arena ArenaProofs Buffers Keys Control Frontend.
From S2P Require Import Tui TuiProofs TuiEdit LineEdit LineEditProofs LineEditText.

(** ** Plain text *)

Definition plain (cp : Z) : bool := (32 <=? cp) && (cp <? 127).

Definition plain_line (l : list Z) : Prop := Forall (fun c => plain c = true) l.

Lemma plain_facts c : plain c = true ->
  utf8_encode c = [char_ c] /\ utf8CharWidth c = 1 /\ isZWJ c = false /\ isGraphemeExtend c = false /\
  isRegionalIndicator c = false /\ (c =? 0x1b) = false /\ 0 < c < 0x110000.
Proof.
  intros H. pose proof H as H'. unfold plain in H'. assert (c = (c - 32) + 32) as E by lia.
  assert (forallb (fun x => let c := x + 32 in (utf8CharWidth c =? 1) && negb (isZWJ c) && negb (isGraphemeExtend c)
    && negb (isRegionalIndicator c) && negb (c =? 0x1b)) (seqZ 0 95) = true) as Hall by (by vm_compute).
  pose proof (by_range _ 95 (c - 32) Hall ltac:(lia)) as Hc. cbv beta zeta in Hc. rewrite <-E in Hc.
  rewrite !andb_true_iff, !negb_true_iff in Hc. destruct Hc as ((((H1 & H2) & H3) & H4) & H5).
  unfold utf8_encode. rewrite (proj2 (Z.ltb_lt _ _)) by lia. split_and!; try done; lia.
Qed.
Lemma plain_typed l : plain_line l -> typed l.
Proof. intros H. eapply Forall_impl; [done|]. intros c Hc. by destruct (plain_facts c Hc) as (_ & _ & _ & _ & _ & _ & ?). Qed.
Lemma plain_length l : plain_line l -> length (encode l) = length l.
Proof.
  induction 1 as [|c l Hc _ IH]; [done|]. rewrite encode_cons, length_app, IH. by destruct (plain_facts c Hc) as (-> & _).
Qed.

Lemma plain_single c : plain c = true -> utf8SingleCharWidth [char_ c] = 1.
Proof.
  intros Hc. destruct (plain_facts c Hc) as (Ee & Hw & _ & _ & _ & _ & Hr). pose proof (utf8_decode_encode c [] Hr) as Ed.
  rewrite Ee in Ed. change ([char_ c] ++ []) with [char_ c] in Ed. unfold utf8SingleCharWidth. by rewrite Ed.
Qed.

(** Each character is its own cluster, one column wide. *)
Lemma plain_next c l : plain_line (c :: l) ->
  utf8NextCharLen (encode (c :: l)) = 1%nat /\ utf8SingleCharWidth (take 1 (encode (c :: l))) = 1 /\
  drop 1 (encode (c :: l)) = encode l.
Proof.
  intros H. pose proof (next_len_encode _ (plain_typed _ H)) as En. inversion_clear H as [|?? Hc Hl].
  destruct (plain_facts c Hc) as (Ee & Hw & _ & _ & Hri & _ & Hr).
  assert (next_rest (c :: l) = l) as Er.
  { cbn [next_rest]. rewrite Hri. destruct Hl as [|p l Hp Hl]; [done|].
    destruct (plain_facts p Hp) as (_ & _ & Hz & Hx & _). cbn [cl_next]. rewrite Hz, Hx. by destruct l. }
  rewrite Er, encode_cons, length_app, Ee in En. cbn [length] in En. rewrite encode_cons, Ee in *. split_and!; [lia| |done].
  change (take 1 ([char_ c] ++ encode l)) with [char_ c]. by apply plain_single.
Qed.
Lemma plain_prev c rl : plain_line (c :: rl) -> let s := encode (reverse (c :: rl)) in
  utf8PrevCharLen s = 1%nat /\ utf8SingleCharWidth (drop (length s - 1) s) = 1 /\
  take (length s - 1) s = encode (reverse rl).
Proof.
  intros H s. subst s. pose proof (prev_len_encode _ (plain_typed _ H)) as En. inversion_clear H as [|?? Hc Hl].
  destruct (plain_facts c Hc) as (Ee & Hw & _ & Hx & Hri & _ & Hr).
  assert (prev_rest (c :: rl) = rl) as Er.
  { cbn [prev_rest]. destruct Hl as [|p l Hp Hl]; [done|]. destruct (plain_facts p Hp) as (_ & _ & Hz & _).
    cbn [cl_prev]. by rewrite Hz, Hx, Hri. }
  rewrite Er, encode_snoc, length_app, Ee in En. cbn [length] in En. rewrite encode_snoc, Ee in *.
  rewrite length_app. cbn [length]. replace (length (encode (reverse rl)) + 1 - 1)%nat with (length (encode (reverse rl))) by lia.
  rewrite drop_app_length, take_app_length. split_and!; [lia| |done].
  by apply plain_single.
Qed.

Lemma plain_width l : plain_line l -> utf8StrWidth (encode l) = len l.
Proof.
  intros H. unfold utf8StrWidth. assert (forall fuel w, (length l <= fuel)%nat -> str_width fuel (encode l) false w = w + len l) as Hgo.
  { induction H as [|c l Hc Hl IH]; intros fuel w Hf; [destruct fuel; cbn; unfold len; cbn; lia|].
    destruct fuel as [|fuel]; [cbn in Hf; lia|]. destruct (plain_facts c Hc) as (Ee & Hw & Hz & _ & _ & Hesc & Hr).
    pose proof (utf8_decode_encode c (encode l) Hr) as Ed. rewrite encode_cons. rewrite Ee in *. cbn [Datatypes.app length] in *.
    cbn [str_width]. rewrite Ed, Hesc. rewrite bool_decide_false by lia. cbn [drop]. rewrite Hz, Hw, IH by lia. unfold len. cbn. lia. }
  rewrite Hgo by (rewrite plain_length by done; lia). lia.
Qed.

Lemma width_nonneg s : 0 <= utf8StrWidth s.
Proof.
  unfold utf8StrWidth. assert (forall fuel s z w, 0 <= w -> 0 <= str_width fuel s z w) as Hgo; [|by apply Hgo].
  clear s. induction fuel as [|fuel IH]; intros s z w Hw; [done|]. cbn [str_width]. destruct s; [done|].
  case_match. case_bool_decide; apply IH; [done|]. destruct z; [done|].
  unfold utf8CharWidth. repeat case_match; lia.
Qed.
Lemma reverse_drop_reverse {A} j (s : list A) : reverse (drop j (reverse s)) = take (length s - j) s.
Proof.
  destruct (Nat.le_gt_cases j (length s)).
  - rewrite <-(take_drop (length s - j) s) at 1. rewrite reverse_app, drop_app_ge; rewrite length_reverse, length_drop; [|lia].
    replace (j - _)%nat with 0%nat by lia. by rewrite drop_0, reverse_involutive.
  - rewrite drop_ge by (rewrite length_reverse; lia). by replace (length s - j)%nat with 0%nat by lia.
Qed.

Section Plain.
Context (pwidth cols : Z).
Hypothesis Hprompt : 0 <= pwidth < cols.
Hypothesis Hcols : cols < 2 ^ 31.

Lemma scroll_plain l : plain_line l -> len l < 2 ^ 31 -> forall poscol fuel, 0 <= poscol <= len l -> (length l <= fuel)%nat ->
  exists k, scroll fuel pwidth cols (encode l) poscol (len l) = Some (encode (drop k l), poscol - Z.of_nat k, len l - Z.of_nat k)
    /\ Z.of_nat k <= poscol /\ pwidth + (poscol - Z.of_nat k) < cols.
Proof.
  induction l as [|c l IH]; intros Hl Hlen poscol fuel Hp Hf.
  - exists O. assert (poscol = 0) as -> by (unfold len in Hp; cbn in Hp; lia).
    split; [|lia]. destruct fuel; cbn [scroll]; by rewrite (proj2 (Z.leb_gt _ _)) by lia.
  - destruct fuel as [|fuel]; [cbn in Hf; lia|]. cbn [scroll]. destruct (Z.leb_spec cols (pwidth + poscol)).
    + destruct (plain_next c l Hl) as (-> & -> & ->). rewrite (proj2 (Z.ltb_ge _ _)) by lia.
      inversion_clear Hl. assert (len (c :: l) = len l + 1) as El by (unfold len; cbn; lia).
      rewrite El. replace (u64 (len l + 1 - 1)) with (len l).
      2: { unfold u64. rewrite Z.mod_small; [lia|]. pose proof (len_nonneg l). lia. }
      destruct (IH ltac:(done) ltac:(lia) (poscol - 1) fuel ltac:(lia) ltac:(cbn in Hf; lia)) as (k & -> & Hk & Hc).
      exists (S k). split; [|lia]. cbn [drop]. apply (f_equal Some), f_equal2; [apply f_equal2; [done|]|]; lia.
    + exists O. split; [|lia]. cbn [drop]. apply (f_equal Some), f_equal2; [apply f_equal2; [done|]|]; lia.
Qed.

Lemma trim_plain rl : plain_line rl -> len rl < 2 ^ 31 -> forall fuel, (length rl <= fuel)%nat ->
  exists j, trim fuel pwidth cols (encode (reverse rl)) (len rl) = Some (encode (reverse (drop j rl)))
    /\ len rl - Z.of_nat j = Z.min (len rl) (cols - pwidth).
Proof.
  induction rl as [|c rl IH]; intros Hl Hlen fuel Hf.
  - exists O. split; [|unfold len; cbn; lia].
    destruct fuel; cbn [trim]; rewrite (proj2 (Z.ltb_ge _ _)); try done; unfold u64; rewrite Z.mod_small; unfold len; cbn; lia.
  - destruct fuel as [|fuel]; [cbn in Hf; lia|]. cbn [trim]. assert (len (c :: rl) = len rl + 1) as El by (unfold len; cbn; lia).
    pose proof (len_nonneg rl). replace (u64 (pwidth + len (c :: rl))) with (pwidth + len (c :: rl))
      by (unfold u64; rewrite Z.mod_small; lia).
    destruct (Z.ltb_spec cols (pwidth + len (c :: rl))); [|exists O; split; [done|lia]].
    destruct (plain_prev c rl Hl) as (-> & -> & ->). rewrite (proj2 (Z.ltb_ge _ _)) by lia.
    inversion_clear Hl. replace (len (c :: rl) - 1) with (len rl) by lia.
    destruct (IH ltac:(done) ltac:(lia) fuel ltac:(cbn in Hf; lia)) as (j & -> & Hj). exists (S j). split; [done|]. lia.
Qed.

End Plain.

(** C38 A line of plain characters is drawn on every terminal wider than the prompt,
    whatever the line's length and the cursor's place: the scroll loops end, what
    is drawn is a part of the line that fits the terminal and reaches the cursor,
    and the cursor is put at its column, left of the right edge. *)
Theorem plain_line_drawn cap l lb la fuel :
  lrep cap l (encode lb) (encode la) -> ln_folds l = [] -> plain_line lb -> plain_line la ->
  utf8StrWidth (ln_prompt l) < ln_cols l < 2 ^ 31 -> cap < 2 ^ 31 ->
  (length (lb ++ la) <= fuel)%nat ->
  exists k n : nat,
    let column := utf8StrWidth (ln_prompt l) + (len lb - Z.of_nat k) in
    refreshSingleLine fuel l = Some ([CR] ++ ln_prompt l ++ encode (take n (drop k (lb ++ la))) ++ ESC :: lit "[0K"
      ++ [CR] ++ ESC :: lit "[" ++ decimal 20 column [] ++ lit "C") /\
    Z.of_nat k <= len lb <= Z.of_nat k + Z.of_nat n /\ column < ln_cols l /\
    utf8StrWidth (ln_prompt l) + Z.of_nat n <= ln_cols l.
Proof.
  intros H Hfo Hb Ha Hpw Hcap Hfuel. pose proof (width_nonneg (ln_prompt l)) as Hp0. set (pw := utf8StrWidth (ln_prompt l)) in *.
  assert (plain_line (lb ++ la)) as Hl by (by apply Forall_app). pose proof (lrep_fits _ _ _ _ H) as Hfit.
  unfold len in Hfit. rewrite !plain_length in Hfit by done.
  assert (len (lb ++ la) < 2 ^ 31) as Hlen by (unfold len; rewrite length_app; lia).
  unfold refreshSingleLine, linenoiseRenderBuffer. rewrite (render_folds_rep _ _ _ _ H), Hfo.
  rewrite (line_bytes_rep _ _ _ _ H), (lr_pos _ _ _ _ H), <-encode_app. fold pw.
  assert (take (Z.to_nat (len (encode lb))) (encode (lb ++ la)) = encode lb) as ->.
  { unfold len. rewrite Nat2Z.id, encode_app. apply take_app_length. }
  rewrite !plain_width by done.
  destruct (scroll_plain pw (ln_cols l) ltac:(lia) (lb ++ la) Hl Hlen (len lb) fuel) as (k & -> & Hk & Hcol).
  { unfold len. rewrite length_app. lia. }
  { done. }
  assert (plain_line (reverse (drop k (lb ++ la)))) as Hr by (by apply Forall_reverse, Forall_drop).
  assert (len (reverse (drop k (lb ++ la))) = len (lb ++ la) - Z.of_nat k) as Hlr.
  { unfold len in *. rewrite length_reverse, length_drop, length_app. lia. }
  destruct (trim_plain pw (ln_cols l) ltac:(lia) ltac:(lia) _ Hr ltac:(lia) fuel) as (j & Ht & Hj).
  { rewrite length_reverse, length_drop. lia. }
  rewrite reverse_involutive, Hlr in Ht. rewrite Ht. exists k, (length (drop k (lb ++ la)) - j)%nat.
  rewrite reverse_drop_reverse. cbv zeta. split; [by rewrite (Z.add_comm pw)|].
  unfold len in *. rewrite length_reverse, length_drop, length_app in *. lia.
Qed.

Lemma plain_line_drawn_witness :
  let lb := replicate 200 0x61 in
  let st := LnState (encode lb ++ encode [0x62] ++ zeros 3895) 4095 (lit "> ") 200 201 80 [] false true in
  exists k n : nat,
    refreshSingleLine 201 st = Some ([CR] ++ lit "> " ++ encode (take n (drop k (lb ++ [0x62]))) ++ ESC :: lit "[0K"
      ++ [CR] ++ ESC :: lit "[" ++ decimal 20 (2 + (200 - Z.of_nat k)) [] ++ lit "C") /\
    Z.of_nat k <= 200 <= Z.of_nat k + Z.of_nat n.
Proof.
  intros lb st.
  assert (lrep 4095 st (encode lb) (encode [0x62])) as H.
  { constructor; [by exists (zeros 3894)|by vm_compute..]. }
  destruct (plain_line_drawn 4095 st lb [0x62] 201 H) as (k & n & E & Hk & _).
  - reflexivity.
  - by apply Forall_replicate.
  - by repeat constructor.
  - by vm_compute.
  - done.
  - reflexivity.
  - exists k, n. split; [exact E|exact Hk].
Defined.

(** ** Where the scroll loop does not end *)

(** Without characters left to drop, a cursor still past the edge stays there. *)
Lemma scroll_stuck fuel pw cols poscol lencol : 0 <= poscol -> cols <= pw + poscol ->
  scroll fuel pw cols [] poscol lencol = None.
Proof.
  revert lencol. induction fuel as [|fuel IH]; intros lencol Hp Hc; cbn [scroll]; rewrite (proj2 (Z.leb_le _ _)) by done; [done|].
  cbn [utf8NextCharLen take drop utf8SingleCharWidth]. rewrite (proj2 (Z.ltb_ge _ _)), Z.sub_0_r by done. by apply IH.
Qed.

Definition shown (cols : Z) (text : bytes) : ln_state :=
  LnState (text ++ zeros (Z.to_nat (4096 - len text))) 4095 (lit "> ") (len text) (len text) cols [] false true.

(** A terminal of two columns, which EditStart takes: the empty line is never drawn. *)
Theorem two_columns_hang fuel : refreshSingleLine fuel (shown 2 []) = None.
Proof.
  unfold refreshSingleLine. change (linenoiseRenderBuffer (shown 2 [])) with (Some ([] : bytes, 0)).
  cbv iota beta. by rewrite scroll_stuck by (by vm_compute).
Qed.

(** [n] rounds of the loop. *)
Fixpoint rounds (n : nat) (pw cols : Z) (s : bytes) (poscol lencol : Z) : option (bytes * Z * Z) :=
  match n with
  | O => Some (s, poscol, lencol)
  | S n =>
      let cwidth := utf8SingleCharWidth (take (utf8NextCharLen s) s) in
      if (cols <=? pw + poscol) && negb (poscol <? cwidth)
      then rounds n pw cols (drop (utf8NextCharLen s) s) (poscol - cwidth) (u64 (lencol - cwidth)) else None
  end.
Lemma scroll_rounds n k pw cols : forall s poscol lencol s' p' l',
  rounds n pw cols s poscol lencol = Some (s', p', l') ->
  scroll (n + k) pw cols s poscol lencol = scroll k pw cols s' p' l'.
Proof.
  induction n as [|n IH]; intros s poscol lencol s' p' l' H; [by injection H as -> -> ->|].
  cbn [rounds] in H. cbn [Nat.add scroll]. destruct (cols <=? pw + poscol); [|done].
  destruct (poscol <? _); [done|]. by apply IH.
Qed.

(** A flag is one cluster that is measured four columns wide and dropped as two:
    39 of them on 80 columns leave the cursor past the edge of an empty line. *)
Definition flag : bytes := utf8_encode 0x1F1F9 ++ utf8_encode 0x1F1F7.
Theorem flags_hang fuel : refreshSingleLine fuel (shown 80 (mjoin (repeat flag 39))) = None.
Proof.
  destruct (Nat.le_gt_cases 39 fuel) as [Hf|Hf].
  - replace fuel with (39 + (fuel - 39))%nat by lia. generalize (fuel - 39)%nat as k. clear. intros k.
    unfold refreshSingleLine.
    replace (linenoiseRenderBuffer (shown 80 (mjoin (repeat flag 39)))) with (Some (mjoin (repeat flag 39), 312)) by (by vm_compute).
    cbv iota beta.
    erewrite (scroll_rounds 39 k) by (by vm_compute). by rewrite scroll_stuck.
  - assert (forallb (fun n => bool_decide (refreshSingleLine n (shown 80 (mjoin (repeat flag 39))) = None)) (seq 0 39) = true) as H
      by (by vm_compute).
    rewrite forallb_forall in H. specialize (H fuel). rewrite bool_decide_eq_true in H. apply H, in_seq. lia.
Qed.

(** ** Bytes that enter the line unchecked *)

(** What is returned when [s] and Enter are sent. *)
Definition types (s : bytes) (r : feed) : Prop :=
  exists w, line_life never (zeros 4097) (lit "> ") true true 80 2 0
    (LnWorld (shown 80 []) (RdByte <$> (s ++ [CR])) [] 0) = Some (Some r, w).
Definition pasted (s : bytes) : bytes := ESC :: lit "[200~" ++ s ++ PASTE_END.

(** Typed, a NUL or a control byte is refused; pasted, a NUL ends the line early
    and an escape sequence is part of it. *)
Theorem paste_unchecked :
  types (pasted (lit "ab" ++ NUL :: lit "cd")) (EditLine (lit "ab")) /\
  types (pasted (ESC :: lit "[2J")) (EditLine (ESC :: lit "[2J")).
Proof. split; eexists; vm_compute; reflexivity. Qed.

(** The bytes behind the first byte of a character are taken as they come: here
    Ctrl-C becomes part of the line. *)
Theorem lead_byte_swallows : types [Byte.xc3; Byte.x03] (EditLine [Byte.xc3; Byte.x03]).
Proof. eexists. vm_compute. reflexivity. Qed.
