(* ===== verification/Ansi.v ===== *)
(** * The ANSI front end and the log: src/fe_ansi.c, src/log.c

    What the terminal is sent, as tokens: text that takes columns, colours, and
    the few cursor movements the code uses; [tok_bytes] are their bytes.  The
    state is the application state with the fields only the front end has, the
    label of the last message and what was written.  The line editor hides and
    shows its line (LineEdit.v). *)

From S2P Require Import Prelude Primitives Types World Keys Control Frontend StateMachine Tui.

Inductive tok :=
| Put (s : bytes)                        (* text, a column for each byte *)
| Glyph (s : bytes)                      (* one character of several bytes *)
| Sgr (s : bytes)                        (* a colour *)
| Newline
| Return                                 (* \r *)
| Up (n : Z)                             (* ESC [ n A *)
| Column1                                (* ESC [ 1 G *)
| ClearBelow                             (* ESC [ J *)
| ClearLine                              (* ESC [ K *)
| CursorShown (b : bool)                 (* ESC [ ? 25 h, l *)
| LineHide | LineShow.                   (* linenoiseHide, linenoiseShow *)

Definition tok_bytes (t : tok) : bytes :=
  match t with
  | Put s | Glyph s | Sgr s => s
  | Newline => [LF]
  | Return => [CR]
  | Up n => ESC :: lit "[" ++ decimal 10 n [] ++ lit "A"
  | Column1 => ESC :: lit "[1G"
  | ClearBelow => ESC :: lit "[J"
  | ClearLine => ESC :: lit "[K"
  | CursorShown b => ESC :: lit "[?25" ++ (if b then lit "h" else lit "l")
  | LineHide | LineShow => []
  end.

Record ansi := AnsiState {
  an_app : app_state;
  an_prompt_display_len : Z;
  an_suspend_depth : Z;                  (* ln_suspend_depth *)
  an_theme : nox_theme;                  (* g_ansi *)
  an_last_label : ui_label;
  an_tui : bool;                         (* tui_is_active() *)
  an_winsize : option Z;                 (* ws_col, if the ioctl works *)
  an_out : list tok }.
#[global] Instance eta_ansi : Eta ansi := fun r =>
  AnsiState (an_app r) (an_prompt_display_len r) (an_suspend_depth r) (an_theme r) (an_last_label r)
    (an_tui r) (an_winsize r) (an_out r).

Abbreviation A := (St ansi).
Definition an {X} (f : ansi -> X) : A X := gets f.
Definition out (l : list tok) : A unit := modify (fun s => s <| an_out := an_out s ++ l |>).

(** [fprintf] of text: its line feeds move to the next line, its carriage returns
    back. *)
Fixpoint text (s : bytes) : list tok :=
  match s with
  | [] => []
  | c :: s => (if Byte.eqb c LF then Newline else if Byte.eqb c CR then Return else Put [c]) :: text s
  end.

Definition ui_init (theme : option nox_theme) : A unit :=
  modify (fun s => s <| an_theme := default nox_theme_default theme |>).

Definition get_terminal_cols (winsize : option Z) : Z :=
  match winsize with Some c => if 0 <? c then c else 80 | None => 80 end.

(** ACTIVE_PEER *)
Definition the_peer (a : app_state) : option peer_session :=
  match ACTIVE_PEER a with Some i => as_peers a !! i | None => None end.

Definition ends_in_onion (s : bytes) : bool := bytes_eqb (drop (length s - 6) s) (lit ".onion").
Definition sending (ps : peer_session) : bool := tx_active (ps_tx_file ps) && (0 <? tx_total_size (ps_tx_file ps)).
Definition receiving (ps : peer_session) : bool := rx_active (ps_rx_file ps) && (0 <? rx_expected_size (ps_rx_file ps)).

Definition calc_prompt_display_len (a : app_state) : Z :=
  let onion := as_active_peer_onion a in
  match the_peer a with
  | Some ps =>
      if bool_decide (onion = []) then 5
      else
        let olen := len onion in
        let id_len :=
          if 10 <? olen then
            let hash_len := if ends_in_onion onion then olen - 6 else olen in
            if 8 <=? hash_len then 10 else hash_len
          else olen in
        let base := 1 + id_len + 1 + 3 in
        if sending ps || receiving ps then base + 7 else base
  | None => 5
  end.

Definition stdin_len (a : app_state) : Z := len (default [] (as_stdin_buf a)).
Definition calc_input_lines (s : ansi) : Z :=
  let cols := get_terminal_cols (an_winsize s) in
  let total := an_prompt_display_len s + stdin_len (an_app s) in
  if total =? 0 then 1 else (total + cols - 1) / cols.

Definition tofu_pending (a : app_state) : bool :=
  match the_peer a with Some ps => ps_tofu_pending ps | None => false end.

Definition clear_prompt_area : A unit :=
  s ← an id;
  if an_tui s || tofu_pending (an_app s) || as_ln_active (an_app s) then skip
  else out [Up (Z.max 1 (calc_input_lines s)); ClearBelow].

Definition clear_prompt_area_lines (lines : Z) : A unit :=
  s ← an id;
  if an_tui s then skip
  else
    let lines := Z.max 1 lines in
    out ((if 1 <? lines then [Up (lines - 1)] else []) ++ [Column1; ClearBelow]).

(** ** Who owns the line: [ln_suspend_depth] counts the suspensions *)

Definition ui_line_suspend : A unit :=
  s ← an id;
  if negb (as_ln_active (an_app s)) then skip
  else
    _ ← modify (fun s => s <| an_suspend_depth ::= Z.add 1 |>);
    if an_suspend_depth s =? 0 then out [LineHide] else skip.
Definition ui_line_resume : A unit :=
  s ← an id;
  if negb (as_ln_active (an_app s)) then skip
  else if an_suspend_depth s =? 0 then skip
  else
    _ ← modify (fun s => s <| an_suspend_depth ::= Z.pred |>);
    if an_suspend_depth s - 1 =? 0 then out [LineShow] else skip.
Definition ui_line_force_resume : A unit :=
  s ← an id;
  if negb (as_ln_active (an_app s)) then skip
  else if 0 <? an_suspend_depth s then
    _ ← modify (fun s => s <| an_suspend_depth := 0 |>); out [LineShow]
  else skip.

(** ** The prompt *)

Definition SHORT_ID_SIZE : nat := 12.
Definition short_id (onion : bytes) : bytes :=
  take (SHORT_ID_SIZE - 1)
    (let olen := len onion in
     if 10 <? olen then
       let hash_len := if (6 <? olen) && ends_in_onion onion then olen - 6 else olen in
       if 8 <=? hash_len
       then take 4 onion ++ lit ".." ++ take 4 (drop (Z.to_nat (hash_len - 4)) onion)
       else take (Z.to_nat hash_len) onion
     else take 11 onion).

Definition UP_ARROW : bytes := [Byte.xe2; Byte.xac; Byte.x86].
Definition DOWN_ARROW : bytes := [Byte.xe2; Byte.xac; Byte.x87].

(** The prompt without its colours. *)
Definition prompt_toks (a : app_state) : list tok :=
  match the_peer a with
  | Some ps =>
      if bool_decide (as_active_peer_onion a = []) then [Put (lit "nox> ")]
      else
        let id := short_id (as_active_peer_onion a) in
        let transfer := fun arrow done_bytes total =>
          [Put (lit "[" ++ id ++ lit " "); Glyph arrow;
           Put (decimal 10 (percent done_bytes total) [] ++ lit "%]")] in
        (if sending ps then transfer UP_ARROW (tx_sent_bytes (ps_tx_file ps)) (tx_total_size (ps_tx_file ps))
         else if receiving ps
         then transfer DOWN_ARROW (rx_received_bytes (ps_rx_file ps)) (rx_expected_size (ps_rx_file ps))
         else [Put (lit "[" ++ id ++ lit "]")])
        ++ [Put (lit " > ")]
  | None => [Put (lit "nox> ")]
  end.

Definition ui_print_prompt : A unit :=
  s ← an id;
  if an_tui s then skip
  else
    _ ← modify (fun s => s <| an_prompt_display_len := calc_prompt_display_len (an_app s) |>);
    out ([Sgr (clr_prompt (an_theme s))] ++ prompt_toks (an_app s) ++ [Sgr (clr_reset (an_theme s))]).

Definition redraw_input : A unit :=
  s ← an id;
  if an_tui s || tofu_pending (an_app s) then skip
  else
    _ ← out [ClearBelow];
    _ ← ui_print_prompt;
    out (text (default [] (as_stdin_buf (an_app s)))).

Definition ui_reset_sender : A unit := modify (fun s => s <| an_last_label := UI_LABEL_NONE |>).

(** ** Messages *)

Definition timestamp_toks (th : nox_theme) (t : tm) : list tok :=
  [Sgr (clr_timestamp th);
   Put (lit "[" ++ two_digits (tm_hour t) ++ lit ":" ++ two_digits (tm_min t) ++ lit ":" ++ two_digits (tm_sec t) ++ lit "]");
   Sgr (clr_reset th); Put (lit " ")].
Definition label_toks (th : nox_theme) (l : ui_label) : list tok :=
  match l with
  | UI_LABEL_SELF => [Sgr (clr_self th); Put (lit "Sen:"); Sgr (clr_reset th)]
  | UI_LABEL_PEER => [Sgr (clr_peer th); Put (lit "Peer:"); Sgr (clr_reset th)]
  | UI_LABEL_ERROR => [Sgr (clr_error th); Put (lit "!:"); Sgr (clr_reset th)]
  | UI_LABEL_NONE => []
  end.

(** The line editor owns the line: only [content] is written.  Otherwise the
    prompt is taken away for it and drawn again below it. *)
Definition around (content : list tok) : A unit :=
  s ← an id;
  if as_ln_active (an_app s) then out content
  else
    _ ← out [CursorShown false];
    _ ← clear_prompt_area_lines (calc_input_lines s);
    _ ← out content;
    _ ← redraw_input;
    out [CursorShown true].

(** [memory]: the copy of the message could be allocated. *)
Definition atomic_message (memory : bool) (label : ui_label) (msg : bytes) (t : tm) : A unit :=
  if negb memory then skip
  else
    s ← an id;
    let last := an_last_label s in
    _ ← around ((if negb (bool_decide (last = UI_LABEL_NONE)) && negb (bool_decide (last = label)) then [Newline] else [])
                ++ timestamp_toks (an_theme s) t ++ label_toks (an_theme s) label
                ++ [Put (lit " ")] ++ text (ui_strip_ansi msg) ++ [Newline]);
    modify (fun s => s <| an_last_label := label |>).

Definition block_message (t : tm) (color tag msg : bytes) : A unit :=
  s ← an id;
  around (timestamp_toks (an_theme s) t ++ [Put (lit "  "); Sgr color] ++ text (tag ++ msg)
          ++ [Sgr (clr_reset (an_theme s)); Newline]).

(** ** Progress *)

(** The nearest integer to a / b, to the even one in the middle. *)
Definition nearest (a b : Z) : Z :=
  let q := a / b in
  let r := a mod b in
  if 2 * r <? b then q else if b <? 2 * r then q + 1 else if Z.even q then q else q + 1.
(** [(double)bytes]: 53 bits. *)
Definition to_double (z : Z) : Z :=
  if z <? 2 ^ 53 then z else let e := Z.log2 z - 52 in nearest z (2 ^ e) * 2 ^ e.
(** ["%.1f"] of [z / unit], [unit] a power of two. *)
Definition one_decimal (z unit : Z) : bytes :=
  let tenths := nearest (10 * to_double z) unit in
  decimal 20 (tenths / 10) [] ++ lit "." ++ decimal 1 (tenths mod 10) [].
Definition format_size (n : Z) : bytes :=
  if 1073741824 <=? n then one_decimal n 1073741824 ++ lit " GB"
  else if 1048576 <=? n then one_decimal n 1048576 ++ lit " MB"
  else if 1024 <=? n then one_decimal n 1024 ++ lit " KB"
  else decimal 20 n [] ++ lit " B".

Definition render_progress (memory : bool) (filename : bytes) (done_bytes total : Z) (is_upload : bool) (clr : bytes) : A unit :=
  if total =? 0 then skip
  else if negb memory then skip
  else
    s ← an id;
    let pct := percent done_bytes total in
    out ([Return; ClearLine; Put (lit "  "); Sgr clr; Glyph (if is_upload then UP_ARROW else DOWN_ARROW); Put (lit " ")]
         ++ text (ui_strip_ansi filename)
         ++ [Put (lit " [" ++ bar pct ++ lit "] " ++ decimal 10 pct [] ++ lit "% " ++ format_size done_bytes ++ lit "/"
                  ++ format_size total); Sgr (clr_reset (an_theme s))]).

(** The other fields of [struct fe_event]. *)
Record fe_transfer := FeTransfer { ft_filename : bytes; ft_done : Z; ft_total : Z; ft_is_upload : bool }.
Definition fe_ansi_emit (memory : bool) (ev : fe_event) (tr : fe_transfer) : A unit :=
  s ← an id;
  let theme := an_theme s in
  match fe_type ev with
  | FE_MSG_IN => atomic_message memory UI_LABEL_PEER (fe_text ev) (fe_tm ev)
  | FE_MSG_OUT => atomic_message memory UI_LABEL_SELF (fe_text ev) (fe_tm ev)
  | FE_SYSTEM => block_message (fe_tm ev) (clr_system theme) [] (fe_text ev)
  | FE_ERROR => block_message (fe_tm ev) (clr_error theme) (lit "[!] ") (fe_text ev)
  | FE_PROGRESS => render_progress memory (ft_filename tr) (ft_done tr) (ft_total tr) (ft_is_upload tr) (clr_progress theme)
  end.

(** ** The log *)

Definition CLR_RESET : bytes := sgr "[0m".
Definition CLR_BOLD : bytes := sgr "[1m".
Definition CLR_DIM : bytes := sgr "[2m".
Definition CLR_RED : bytes := sgr "[31m".
Definition CLR_GREEN : bytes := sgr "[32m".
Definition CLR_YELLOW : bytes := sgr "[33m".
Definition CLR_BLUE : bytes := sgr "[34m".
Definition CLR_MAGENTA : bytes := sgr "[35m".
Definition CLR_CYAN : bytes := sgr "[36m".
Definition CLR_WHITE : bytes := sgr "[37m".

(** Name and colour, by the number of the enum. *)
Definition modules : list (bytes * bytes) :=
  [(lit "MAIN ", CLR_WHITE); (lit "NOISE", CLR_CYAN); (lit "CRYPT", CLR_CYAN ++ CLR_BOLD);
   (lit "TOR  ", CLR_YELLOW); (lit "NET  ", CLR_BLUE); (lit "DB   ", CLR_MAGENTA);
   (lit "HARD ", CLR_RED); (lit "UI   ", CLR_GREEN); (lit "FRAME", CLR_DIM ++ CLR_WHITE);
   (lit "ARENA", CLR_DIM ++ CLR_CYAN)].
Definition levels : list (bytes * bytes) :=
  [(lit "DBG", CLR_DIM); (lit "INF", CLR_WHITE); (lit "WRN", CLR_YELLOW); (lit "ERR", CLR_RED);
   (lit "FTL", CLR_BOLD ++ CLR_RED)].
Definition LOG_MOD_COUNT : Z := 10.
Definition LOG_LEVEL_INFO : Z := 1.
Definition LOG_LEVEL_FATAL : Z := 4.

(** ["%03ld"] *)
Definition three_digits (z : Z) : bytes :=
  if z <? 10 then lit "00" ++ decimal 10 z [] else if z <? 100 then lit "0" ++ decimal 10 z [] else decimal 10 z [].
(** [now]: seconds and nanoseconds, if the clock works. *)
Definition print_timestamp (now : option (Z * Z)) (localtime : Z -> option tm) : list tok :=
  let unknown := [Sgr CLR_DIM; Put (lit "??:??:??.???"); Sgr CLR_RESET] in
  match now with
  | None => unknown
  | Some (sec, nsec) =>
      match localtime sec with
      | None => unknown
      | Some t =>
          [Sgr CLR_DIM; Put (two_digits (tm_hour t) ++ lit ":" ++ two_digits (tm_min t) ++ lit ":" ++ two_digits (tm_sec t)
                             ++ lit "." ++ three_digits (nsec / 1000000)); Sgr CLR_RESET]
      end
  end.

(** The release build, with the terminal; [msg] is the formatted text.  Numbers
    outside the enums are replaced. *)
Definition nox_log_impl (level mod_ : Z) (msg : bytes) (now : option (Z * Z)) (localtime : Z -> option tm) : list tok :=
  let mod_ := if (0 <=? mod_) && (mod_ <? LOG_MOD_COUNT) then mod_ else 0 in
  let level := if (0 <=? level) && (level <=? LOG_LEVEL_FATAL) then level else LOG_LEVEL_INFO in
  let '(tag, lcolor) := default ([], []) (levels !! Z.to_nat level) in
  let '(name, mcolor) := default ([], []) (modules !! Z.to_nat mod_) in
  [Put (lit "[")] ++ print_timestamp now localtime ++ [Put (lit "] ")]
  ++ [Put (lit "["); Sgr lcolor; Put tag; Sgr CLR_RESET; Put (lit "] ")]
  ++ [Put (lit "["); Sgr mcolor; Put name; Sgr CLR_RESET; Put (lit "] ")]
  ++ text (sanitize_log_newlines (take 2047 msg)) ++ [Newline].

Definition nox_strerror (e : nox_err) : bytes :=
  match e with
  | NOX_OK => lit "başarılı"
  | NOX_ERR_ALLOC => lit "bellek ayırma hatası"
  | NOX_ERR_CRYPTO => lit "kriptografi hatası"
  | NOX_ERR_IO => lit "I/O hatası"
  | NOX_ERR_PROTO => lit "protokol hatası"
  | NOX_ERR_AUTH => lit "MAC doğrulama başarısız"
  | NOX_ERR_LOCKED => lit "bellek kilitleme başarısız"
  | NOX_ERR_PIN => lit "geçersiz PIN"
  | NOX_ERR_CONFIG => lit "yapılandırma hatası"
  | NOX_ERR_TOR => lit "Tor hatası"
  | NOX_ERR_NET => lit "ağ hatası"
  | NOX_ERR_DB => lit "veritabanı hatası"
  | NOX_ERR_OVERFLOW => lit "taşma hatası"
  | NOX_ERR_STATE => lit "geçersiz durum geçişi"
  | NOX_ERR_NOT_FOUND => lit "öğe bulunamadı"
  | NOX_ERR_LANDLOCK_UNSUPPORTED => lit "Landlock desteklenmiyor (kernel 5.13+ gerekli)"
  end.
