(* ===== verification/AnsiProofs.v ===== *)
(** * What the user sees of the ANSI front end

    A terminal of a given width: rows, a cursor, and what each token does to
    them.  On it a message appears above the prompt, the prompt and what is being
    typed below it stay as they were, and nothing above them is touched; the
    prompt is as wide as the code thinks, but for the percentage of a transfer;
    the line editor's line is hidden exactly while it is suspended. *)

From S2P Require Import Prelude Primitives Types World Keys Control Frontend StateMachine Tui Ansi.

(** ** A terminal *)

(** The cursor may wait behind the last column of a row: the next character then
    goes to the next row. *)
Record grid := Grid { g_rows : list bytes; g_row : nat; g_col : nat }.

Definition SPACE : byte := Byte.x20.
(** [l] with at least [n] elements. *)
Definition grown {X} (x : X) (n : nat) (l : list X) : list X := l ++ replicate (n - length l) x.
Definition write_cell (r c : nat) (ch : byte) (rows : list bytes) : list bytes :=
  let rows := grown [] (S r) rows in
  alter (fun row => take c (grown SPACE c row) ++ ch :: drop (S c) row) r rows.

(** A character of several bytes takes one cell. *)
Definition glyph_cell (s : bytes) : byte := default SPACE (head s).

Section Terminal.
Context (cols : nat).

Definition put (ch : byte) (g : grid) : grid :=
  let '(r, c) := if bool_decide (g_col g = cols) then (S (g_row g), O) else (g_row g, g_col g) in
  Grid (write_cell r c ch (g_rows g)) r (S c).
Definition tok_effect (g : grid) (t : tok) : grid :=
  match t with
  | Put s => foldl (fun g ch => put ch g) g s
  | Glyph s => put (glyph_cell s) g
  | Newline => Grid (grown [] (S (g_row g)) (g_rows g)) (S (g_row g)) 0
  | Return | Column1 => Grid (g_rows g) (g_row g) 0
  | Up n => Grid (g_rows g) (g_row g - Z.to_nat n) (Nat.min (g_col g) (cols - 1))
  | ClearBelow =>
      Grid (take (g_row g) (g_rows g) ++ (if bool_decide (g_col g = 0%nat) then [] else [take (g_col g) (default [] (g_rows g !! g_row g))]))
           (g_row g) (g_col g)
  | ClearLine => Grid (alter (take (g_col g)) (g_row g) (g_rows g)) (g_row g) (g_col g)
  | Sgr _ | CursorShown _ | LineHide | LineShow => g
  end.
Definition shows_as (l : list tok) (g : grid) : grid := foldl tok_effect g l.

Hypothesis Hcols : (0 < cols)%nat.

(** ** Text at the end of the screen *)

(** The full rows of a text and the row the cursor is in. *)
Definition wrap_step (z : list bytes * bytes) (ch : byte) : list bytes * bytes :=
  if bool_decide (length z.2 = cols) then (z.1 ++ [z.2], [ch]) else (z.1, z.2 ++ [ch]).
Definition wrap (s : bytes) : list bytes * bytes := foldl wrap_step ([], []) s.
Definition wrapped (s : bytes) : list bytes := (wrap s).1 ++ [(wrap s).2].

(** Nothing follows [s], which starts a row below the rows [above]. *)
Definition ends_with (above : list bytes) (s : bytes) (g : grid) : Prop :=
  g_rows g = above ++ (wrap s).1 ++ (if bool_decide (s = []) then [] else [(wrap s).2]) /\
  g_row g = (length above + length (wrap s).1)%nat /\ g_col g = length (wrap s).2.

Lemma wrap_snoc s ch : wrap (s ++ [ch]) = wrap_step (wrap s) ch.
Proof. unfold wrap. by rewrite foldl_app. Qed.
Lemma wrap_sizes s : Forall (fun r => length r = cols) (wrap s).1 /\ (length (wrap s).2 <= cols)%nat /\
  (s <> [] -> (wrap s).2 <> []) /\ length s = (length (wrap s).1 * cols + length (wrap s).2)%nat /\
  concat (wrapped s) = s.
Proof.
  induction s as [|ch s (H1 & H2 & H3 & H4 & H5)] using rev_ind; [split_and!; try done; cbn; lia|].
  unfold wrapped in *. rewrite wrap_snoc. unfold wrap_step. rewrite length_app. cbn [length].
  destruct (wrap s) as [full cur]. cbn [fst snd] in *. rewrite concat_app in H5. cbn in H5. rewrite app_nil_r in H5.
  case_bool_decide as E; cbn [fst snd].
  - split_and!; [apply Forall_app; by split; [|constructor]|cbn; lia|done|rewrite length_app; cbn; lia|].
    rewrite !concat_app. cbn. by rewrite !app_nil_r, H5.
  - rewrite length_app. cbn [length]. split_and!; [done|lia|by destruct cur|lia|].
    rewrite concat_app. cbn. by rewrite app_nil_r, app_assoc, H5.
Qed.

Lemma grown_length {X} (x : X) n l : (n <= length l)%nat -> grown x n l = l.
Proof. intros. unfold grown. replace (n - length l)%nat with O by lia. cbn. apply app_nil_r. Qed.
Lemma alter_last {X} (f : X -> X) l x : alter f (length l) (l ++ [x]) = l ++ [f x].
Proof. induction l as [|y l IH]; [done|]. cbn. f_equal. apply IH. Qed.

Lemma put_end above s g ch : ends_with above s g -> ends_with above (s ++ [ch]) (put ch g).
Proof.
  intros (Hr & Hrow & Hcol). destruct (wrap_sizes s) as (_ & Hle & Hne & Hlen & _).
  unfold ends_with. rewrite wrap_snoc, bool_decide_false by (by destruct s).
  destruct g as [rows r c]. cbn [g_rows g_row g_col] in *. subst r c. unfold put, wrap_step. cbn [g_rows g_row g_col].
  destruct (bool_decide_reflect (length (wrap s).2 = cols)) as [E|E]; cbn [fst snd g_rows g_row g_col].
  - assert (s <> []) as Hs by (intros ->; cbn in E; lia). rewrite bool_decide_false in Hr by done. subst rows.
    split_and!; [|rewrite length_app; cbn; lia|done]. unfold write_cell.
    unfold grown at 2. set (R := above ++ (wrap s).1 ++ [(wrap s).2]).
    assert (length R = S (length above + length (wrap s).1)) as HR by (unfold R; rewrite !length_app; cbn; lia).
    rewrite HR. replace (S (S _) - S _)%nat with 1%nat by lia. cbn [replicate]. rewrite <-HR, alter_last.
    unfold R. by rewrite <-!app_assoc.
  - split_and!; [|done|rewrite length_app; cbn; lia]. unfold write_cell. set (R := above ++ (wrap s).1).
    replace (length above + length (wrap s).1)%nat with (length R) by (unfold R; by rewrite length_app).
    destruct (bool_decide_reflect (s = [])) as [Es|Es].
    + subst s. cbn in *. rewrite app_nil_r in *. subst rows. unfold R. cbn. rewrite app_nil_r in *.
      unfold grown at 2. replace (S (length above) - length above)%nat with 1%nat by lia. cbn [replicate]. by rewrite alter_last.
    + subst rows. rewrite app_assoc. fold R. rewrite (grown_length _ (S (length R))) by (rewrite length_app; cbn; lia).
      rewrite alter_last. rewrite app_assoc. fold R. do 2 f_equal. rewrite grown_length by done.
      rewrite take_ge, drop_ge by lia. done.
Qed.
Lemma put_text above s t g : ends_with above s g -> ends_with above (s ++ t) (tok_effect g (Put t)).
Proof.
  revert s g. induction t as [|ch t IH]; intros s g H; cbn [tok_effect foldl]; [by rewrite app_nil_r|].
  change (ch :: t) with ([ch] ++ t). rewrite app_assoc. apply (IH (s ++ [ch])). by apply put_end.
Qed.
Lemma newline_end above s g : s <> [] -> ends_with above s g -> ends_with (above ++ wrapped s) [] (tok_effect g Newline).
Proof.
  intros Hs (Hr & Hrow & Hcol). rewrite bool_decide_false in Hr by done. unfold ends_with, wrapped. cbn [tok_effect g_rows g_row g_col].
  rewrite Hr, Hrow, grown_length by (rewrite !length_app; cbn; lia). cbn. rewrite !app_nil_r, !length_app. cbn. split_and!; [done|lia|done].
Qed.
Lemma blank_end above g : ends_with above [] g -> ends_with (above ++ [[]]) [] (tok_effect g Newline).
Proof.
  intros (Hr & Hrow & Hcol). cbn in *. rewrite app_nil_r in Hr. unfold ends_with. cbn [tok_effect g_rows g_row g_col].
  rewrite Hr, Hrow. unfold grown. replace (S (length above + 0) - length above)%nat with 1%nat by lia. cbn.
  rewrite app_nil_r, length_app. cbn. split_and!; [done|lia|done].
Qed.

Lemma below_end above g : ends_with above [] g -> ends_with above [] (tok_effect g ClearBelow).
Proof.
  intros (Hr & Hrow & Hcol). cbn in *. rewrite app_nil_r in *. rewrite Nat.add_0_r in Hrow. unfold ends_with. cbn [tok_effect g_rows g_row g_col].
  rewrite bool_decide_true by done. rewrite Hr, Hrow, take_ge by lia. cbn. split_and!; [done|lia|done].
Qed.

(** The code's count of rows takes the cursor back to the start of the text. *)
Definition row_count (n : Z) : Z := if n =? 0 then 1 else (n + Z.of_nat cols - 1) / Z.of_nat cols.
Lemma row_count_wrap s : row_count (len s) = Z.of_nat (length (wrap s).1) + 1.
Proof.
  destruct (wrap_sizes s) as (_ & Hle & Hne & Hlen & _). unfold row_count, len. destruct s as [|c s0] eqn:E; [done|].
  rewrite <-E in *. assert ((wrap s).2 <> []) as Hn by (apply Hne; by rewrite E).
  rewrite (proj2 (Z.eqb_neq _ _)) by (rewrite E; cbn; lia). rewrite Hlen.
  assert (1 <= length (wrap s).2)%nat by (destruct ((wrap s).2); [done|cbn; lia]).
  symmetry. apply (Z.div_unique _ _ _ (Z.of_nat (length (wrap s).2) - 1)); lia.
Qed.
Lemma cleared above s g : ends_with above s g ->
  ends_with above [] (shows_as ((if 1 <? Z.max 1 (row_count (len s)) then [Up (Z.max 1 (row_count (len s)) - 1)] else [])
    ++ [Column1; ClearBelow]) g).
Proof.
  intros (Hr & Hrow & Hcol). rewrite row_count_wrap. rewrite Z.max_r by lia.
  set (k := length (wrap s).1) in *. assert (shows_as ((if 1 <? Z.of_nat k + 1 then [Up (Z.of_nat k + 1 - 1)] else []) ++ [Column1; ClearBelow]) g
    = Grid (take (length above) (g_rows g) ++ []) (length above) 0) as ->.
  { destruct (Z.ltb_spec 1 (Z.of_nat k + 1)); cbn; rewrite Hrow.
    - replace (length above + k - Z.to_nat (Z.of_nat k + 1 - 1))%nat with (length above) by lia. done.
    - replace (length above + k)%nat with (length above) by lia. done. }
  unfold ends_with. cbn [g_rows g_row g_col]. rewrite Hr, take_app_length. cbn. rewrite app_nil_r. split_and!; [done|lia|done].
Qed.

(** Text without line ends. *)
Definition flat (c : byte) : bool := negb (Byte.eqb c LF) && negb (Byte.eqb c CR).
Lemma text_end above s t g : forallb flat t = true -> ends_with above s g -> ends_with above (s ++ t) (shows_as (text t) g).
Proof.
  revert s g. induction t as [|c t IH]; intros s g Ht H; [by rewrite app_nil_r|]. cbn [forallb] in Ht.
  apply andb_prop in Ht as [Hc Ht]. unfold flat in Hc. apply andb_prop in Hc as [H1 H2].
  cbn [text]. destruct (Byte.eqb c LF), (Byte.eqb c CR); try done. cbn [shows_as foldl].
  change (c :: t) with ([c] ++ t). rewrite app_assoc. apply IH; [done|]. by apply put_text.
Qed.
Lemma shows_app l1 l2 g : shows_as (l1 ++ l2) g = shows_as l2 (shows_as l1 g).
Proof. apply foldl_app. Qed.

(** What a list of tokens without movements writes. *)
Definition cells (l : list tok) : bytes := mbind (fun t => match t with Put s => s | Glyph s => [glyph_cell s] | _ => [] end) l.
Definition still (t : tok) : bool := match t with Put _ | Glyph _ | Sgr _ => true | _ => false end.
Lemma cells_end l above s g : forallb still l = true -> ends_with above s g -> ends_with above (s ++ cells l) (shows_as l g).
Proof.
  revert s g. induction l as [|t l IH]; intros s g Hl H; [by rewrite app_nil_r|]. cbn [forallb] in Hl.
  apply andb_prop in Hl as [Ht Hl]. destruct t; try done; cbn [shows_as foldl].
  - change (cells (Put s0 :: l)) with (s0 ++ cells l). rewrite app_assoc. apply IH; [done|]. by apply put_text.
  - change (cells (Glyph s0 :: l)) with ([glyph_cell s0] ++ cells l). rewrite app_assoc. apply IH; [done|]. by apply put_end.
  - by apply (IH s).
Qed.

(** ** Events *)

Definition stamp (t : tm) : bytes :=
  lit "[" ++ two_digits (tm_hour t) ++ lit ":" ++ two_digits (tm_min t) ++ lit ":" ++ two_digits (tm_sec t) ++ lit "] ".
Definition label_of (ty : fe_event_type) : option ui_label :=
  match ty with FE_MSG_IN => Some UI_LABEL_PEER | FE_MSG_OUT => Some UI_LABEL_SELF | _ => None end.
(** The line of an event. *)
Definition event_line (ev : fe_event) : bytes :=
  stamp (fe_tm ev) ++
  match fe_type ev with
  | FE_MSG_IN => lit "Peer: " ++ ui_strip_ansi (fe_text ev)
  | FE_MSG_OUT => lit "Sen: " ++ ui_strip_ansi (fe_text ev)
  | FE_SYSTEM => lit "  " ++ fe_text ev
  | FE_ERROR => lit "  [!] " ++ fe_text ev
  | FE_PROGRESS => []
  end.
(** A blank line where the sender changes. *)
Definition event_rows (last : ui_label) (ev : fe_event) : list bytes :=
  match label_of (fe_type ev) with
  | Some l => if negb (bool_decide (last = UI_LABEL_NONE)) && negb (bool_decide (last = l)) then [[]] else []
  | None => []
  end ++ wrapped (event_line ev).
Definition next_label (last : ui_label) (ev : fe_event) : ui_label := default last (label_of (fe_type ev)).
Fixpoint chat_rows (last : ui_label) (evs : list fe_event) : list bytes :=
  match evs with [] => [] | ev :: evs => event_rows last ev ++ chat_rows (next_label last ev) evs end.

Definition ordinary_event (ev : fe_event) : bool :=
  match fe_type ev with
  | FE_MSG_IN | FE_MSG_OUT => forallb flat (ui_strip_ansi (fe_text ev))
  | FE_SYSTEM | FE_ERROR => forallb flat (fe_text ev)
  | FE_PROGRESS => false
  end.

(** The prompt and what is typed, as they are drawn. *)
Definition input_line (a : app_state) : bytes := cells (prompt_toks a) ++ default [] (as_stdin_buf a).

(** A piped or plain terminal, without a prompt for a key and without a transfer. *)
Record idle_terminal (s : ansi) : Prop := {
  it_tui : an_tui s = false;
  it_ln : as_ln_active (an_app s) = false;
  it_tofu : tofu_pending (an_app s) = false;
  it_cols : get_terminal_cols (an_winsize s) = Z.of_nat cols;
  it_input : forallb flat (default [] (as_stdin_buf (an_app s))) = true }.
End Terminal.

(** ** The prompt is as wide as the code takes it to be *)

Definition transfer_percent (a : app_state) : option Z :=
  match the_peer a with
  | Some ps =>
      if bool_decide (as_active_peer_onion a = []) then None
      else if sending ps then Some (percent (tx_sent_bytes (ps_tx_file ps)) (tx_total_size (ps_tx_file ps)))
      else if receiving ps then Some (percent (rx_received_bytes (ps_rx_file ps)) (rx_expected_size (ps_rx_file ps)))
      else None
  | None => None
  end.

Lemma length_short_id onion : onion <> [] ->
  len (short_id onion) = if 10 <? len onion then
    let h := if ends_in_onion onion then len onion - 6 else len onion in if 8 <=? h then 10 else h else len onion.
Proof.
  intros Hn. unfold short_id, SHORT_ID_SIZE. cbn zeta. destruct (Z.ltb_spec 10 (len onion)).
  - rewrite (proj2 (Z.ltb_lt 6 _)) by lia. cbn [andb]. set (h := if ends_in_onion onion then _ else _).
    assert (len onion - 6 <= h <= len onion) as Hh by (unfold h; destruct (ends_in_onion onion); lia).
    clearbody h. assert (length (lit "..") = 2%nat) as Hl by done.
    destruct (Z.leb_spec 8 h); unfold len in *; rewrite length_take; rewrite ?length_app, ?length_take, ?length_drop, ?Hl; lia.
  - unfold len in *. rewrite !length_take. lia.
Qed.

(** The width the code saves is the width of the prompt, plus one to three columns
    while the percentage of a transfer is shown. *)
Theorem prompt_width a :
  calc_prompt_display_len a = len (cells (prompt_toks a)) +
    match transfer_percent a with Some pct => 4 - len (decimal 10 pct []) | None => 0 end.
Proof.
  unfold calc_prompt_display_len, prompt_toks, transfer_percent. destruct (the_peer a) as [ps|]; [|done].
  case_bool_decide as En; [done|]. cbn zeta. pose proof (length_short_id _ En) as Hs. cbn zeta in Hs. rewrite <-Hs.
  set (id := short_id (as_active_peer_onion a)) in *.
  clearbody id. destruct (sending ps); cbn [orb]; [|destruct (receiving ps)];
    try (generalize (decimal 10 (percent _ _) []); intros d); unfold cells, len; cbn; rewrite ?length_app; cbn;
    rewrite ?length_app; cbn; lia.
Qed.

(** ** The chat is displayed *)

Section Chat.
Context (cols : nat) (Hcols : (0 < cols)%nat).

Lemma input_lines_count s p0 : get_terminal_cols (an_winsize s) = Z.of_nat cols -> an_prompt_display_len s = len p0 ->
  calc_input_lines s = row_count cols (len (p0 ++ default [] (as_stdin_buf (an_app s)))).
Proof.
  intros Hc Hp. unfold calc_input_lines, row_count, stdin_len. rewrite Hc, Hp. unfold len. rewrite length_app, Nat2Z.inj_add. done.
Qed.
Lemma prompt_still a : forallb still (prompt_toks a) = true.
Proof. unfold prompt_toks. repeat case_match; done. Qed.

(** What [around] writes. *)
Definition around_toks (s : ansi) (content : list tok) : list tok :=
  [CursorShown false]
  ++ ((if 1 <? Z.max 1 (calc_input_lines s) then [Up (Z.max 1 (calc_input_lines s) - 1)] else []) ++ [Column1; ClearBelow])
  ++ content ++ [ClearBelow] ++ ([Sgr (clr_prompt (an_theme s))] ++ prompt_toks (an_app s) ++ [Sgr (clr_reset (an_theme s))])
  ++ text (default [] (as_stdin_buf (an_app s))) ++ [CursorShown true].
Lemma ansi_ext s1 s2 : an_app s1 = an_app s2 -> an_prompt_display_len s1 = an_prompt_display_len s2 ->
  an_suspend_depth s1 = an_suspend_depth s2 -> an_theme s1 = an_theme s2 -> an_last_label s1 = an_last_label s2 ->
  an_tui s1 = an_tui s2 -> an_winsize s1 = an_winsize s2 -> an_out s1 = an_out s2 -> s1 = s2.
Proof. destruct s1, s2. cbn. intros. by subst. Qed.
Lemma around_eq s content : idle_terminal cols s ->
  (around content s).2 = s <| an_prompt_display_len := calc_prompt_display_len (an_app s) |>
                           <| an_out := an_out s ++ around_toks s content |>.
Proof.
  intros [Ht Hl Hp _ _]. unfold around, clear_prompt_area_lines, redraw_input, ui_print_prompt, an, out, around_toks.
  run_st. unfold id. rewrite Hl. run_st. cbn. rewrite Ht. cbn. rewrite Ht, Hp. cbn. rewrite Ht. cbn.
  apply ansi_ext; try reflexivity. cbn. rewrite <-!app_assoc. cbn. by rewrite <-?app_assoc.
Qed.

Lemma around_shows s g above p0 content rows :
  idle_terminal cols s -> an_prompt_display_len s = len p0 ->
  ends_with cols above (p0 ++ default [] (as_stdin_buf (an_app s))) g ->
  (forall g, ends_with cols above [] g -> ends_with cols (above ++ rows) [] (shows_as cols content g)) ->
  ends_with cols (above ++ rows) (input_line (an_app s)) (shows_as cols (around_toks s content) g).
Proof.
  intros Hi Hp H Hc. pose proof Hi as [_ _ _ Hco Hin]. unfold around_toks. rewrite (input_lines_count s p0 Hco Hp).
  rewrite !shows_app.
  apply (cleared cols Hcols above _ g), Hc, (below_end cols Hcols) in H. rewrite shows_app in H.
  apply (cells_end cols Hcols (prompt_toks (an_app s))) in H; [|apply prompt_still].
  apply (text_end cols Hcols _ _ _ _ Hin) in H.
  exact H.
Qed.

Lemma stamp_toks th t : forallb still (timestamp_toks th t) = true /\ cells (timestamp_toks th t) = stamp t.
Proof.
  split; [done|]. unfold cells, timestamp_toks, stamp. cbn [mbind list_bind Datatypes.app].
  generalize (two_digits (tm_hour t)) (two_digits (tm_min t)) (two_digits (tm_sec t)). intros a b c.
  repeat (cbn; rewrite <-?app_assoc). done.
Qed.

(** What an event writes between the prompt's removal and its return. *)
Definition event_toks (th : nox_theme) (last : ui_label) (ev : fe_event) : list tok :=
  match label_of (fe_type ev) with
  | Some l =>
      (if negb (bool_decide (last = UI_LABEL_NONE)) && negb (bool_decide (last = l)) then [Newline] else [])
      ++ timestamp_toks th (fe_tm ev) ++ label_toks th l ++ [Put (lit " ")] ++ text (ui_strip_ansi (fe_text ev)) ++ [Newline]
  | None =>
      timestamp_toks th (fe_tm ev)
      ++ [Put (lit "  "); Sgr (match fe_type ev with FE_ERROR => clr_error th | _ => clr_system th end)]
      ++ text ((match fe_type ev with FE_ERROR => lit "[!] " | _ => [] end) ++ fe_text ev) ++ [Sgr (clr_reset th); Newline]
  end.

Lemma cells_app l1 l2 : cells (l1 ++ l2) = cells l1 ++ cells l2.
Proof. apply bind_app. Qed.

(** A line written in one go: [l], then [t], then colours, then the line end. *)
Lemma line_shows above g l t post : forallb still l = true -> forallb flat t = true -> cells l <> [] ->
  forallb still post = true -> cells post = [] -> ends_with cols above [] g ->
  ends_with cols (above ++ wrapped cols (cells l ++ t)) [] (shows_as cols (l ++ text t ++ post ++ [Newline]) g).
Proof.
  intros Hl Ht Hn Hp Ep H. rewrite !shows_app.
  apply (cells_end cols Hcols l _ _ _ Hl), (text_end cols Hcols _ _ _ _ Ht), (cells_end cols Hcols post _ _ _ Hp) in H.
  rewrite Ep, app_nil_r in H. apply (newline_end cols Hcols) in H; [exact H|]. cbn. by destruct (cells l).
Qed.
Lemma stamp_not_nil t s : stamp t ++ s <> [].
Proof. done. Qed.

Lemma event_shows th last ev above g : ordinary_event ev = true -> ends_with cols above [] g ->
  ends_with cols (above ++ event_rows cols last ev) [] (shows_as cols (event_toks th last ev) g).
Proof.
  intros Ho H. unfold event_rows, event_toks, ordinary_event, event_line in *. destruct (stamp_toks th (fe_tm ev)) as [Hst Ec].
  assert (forall l t post above g, forallb flat t = true -> forallb still l = true -> forallb still post = true -> cells post = [] ->
    ends_with cols above [] g ->
    ends_with cols (above ++ wrapped cols (stamp (fe_tm ev) ++ cells l ++ t)) []
      (shows_as cols (timestamp_toks th (fe_tm ev) ++ l ++ text t ++ post ++ [Newline]) g)) as Hline.
  { clear above g H. intros l t post above g Ht Hl Hp Ep H.
    pose proof (line_shows above g (timestamp_toks th (fe_tm ev) ++ l) t post) as HH.
    rewrite cells_app, Ec, forallb_app, Hst, <-!app_assoc in HH. by apply HH. }
  assert (forall (lb : bool) above g, ends_with cols above [] g ->
    ends_with cols (above ++ (if lb then [[]] else [])) [] (shows_as cols (if lb then [Newline] else []) g)) as Hblank.
  { intros lb above' g' H'. destruct lb; [by apply (blank_end cols Hcols)|by rewrite app_nil_r]. }
  destruct (fe_type ev); cbn [label_of] in *; try done.
  - rewrite shows_app, app_assoc. set (lb := negb _ && negb _). apply (Hblank lb) in H.
    by apply (Hline (label_toks th UI_LABEL_PEER ++ [Put (lit " ")]) (ui_strip_ansi (fe_text ev)) []) in H.
  - rewrite shows_app, app_assoc. set (lb := negb _ && negb _). apply (Hblank lb) in H.
    by apply (Hline (label_toks th UI_LABEL_SELF ++ [Put (lit " ")]) (ui_strip_ansi (fe_text ev)) []) in H.
  - by apply (Hline [Put (lit "  "); Sgr (clr_system th)] (fe_text ev) [Sgr (clr_reset th)]) in H.
  - by apply (Hline [Put (lit "  "); Sgr (clr_error th)] (lit "[!] " ++ fe_text ev) [Sgr (clr_reset th)]) in H.
Qed.

Lemma emit_eq ev tr s : idle_terminal cols s -> ordinary_event ev = true ->
  (fe_ansi_emit true ev tr s).2 = s <| an_prompt_display_len := calc_prompt_display_len (an_app s) |>
    <| an_out := an_out s ++ around_toks s (event_toks (an_theme s) (an_last_label s) ev) |>
    <| an_last_label := next_label (an_last_label s) ev |>.
Proof.
  intros Hi Ho. unfold fe_ansi_emit. rewrite bind_eq. change (an id s).1 with s. change (an id s).2 with s.
  assert (forall label, label_of (fe_type ev) = Some label ->
    (atomic_message true label (fe_text ev) (fe_tm ev) s).2 = (around (event_toks (an_theme s) (an_last_label s) ev) s).2
      <| an_last_label := label |>) as Hmsg.
  { intros label El. unfold atomic_message, event_toks. cbn [negb]. rewrite El, !bind_eq. done. }
  assert (label_of (fe_type ev) = None -> fe_type ev <> FE_PROGRESS ->
    (match fe_type ev with
     | FE_SYSTEM => block_message (fe_tm ev) (clr_system (an_theme s)) [] (fe_text ev)
     | _ => block_message (fe_tm ev) (clr_error (an_theme s)) (lit "[!] ") (fe_text ev) end s).2
    = (around (event_toks (an_theme s) (an_last_label s) ev) s).2) as Hblock.
  { intros El Hn. unfold block_message, event_toks. rewrite El. destruct (fe_type ev); try done; rewrite !bind_eq; done. }
  unfold next_label, ordinary_event in *. destruct (fe_type ev); cbn [label_of default] in *; try done.
  - rewrite (Hmsg _ eq_refl), around_eq by done. done.
  - rewrite (Hmsg _ eq_refl), around_eq by done. done.
  - rewrite (Hblock eq_refl ltac:(done)), around_eq by done. apply ansi_ext; reflexivity.
  - rewrite (Hblock eq_refl ltac:(done)), around_eq by done. apply ansi_ext; reflexivity.
Qed.

(** One event after the other. *)
Definition emit_all (evs : list fe_event) (tr : fe_transfer) (s : ansi) : ansi :=
  foldl (fun s ev => (fe_ansi_emit true ev tr s).2) s evs.

End Chat.

(** ** With the line editor *)

Definition out_bytes (l : list tok) : bytes := mbind tok_bytes l.
Lemma out_bytes_app l1 l2 : out_bytes (l1 ++ l2) = out_bytes l1 ++ out_bytes l2.
Proof. apply bind_app. Qed.
Lemma text_bytes t : out_bytes (text t) = t.
Proof.
  induction t as [|c t IH]; [done|]. change (out_bytes (text (c :: t))) with
    (tok_bytes (if Byte.eqb c LF then Newline else if Byte.eqb c CR then Return else Put [c]) ++ out_bytes (text t)).
  rewrite IH. destruct (byte_eqb_spec c LF) as [->|]; [done|]. by destruct (byte_eqb_spec c CR) as [->|].
Qed.

(** Hiding and showing alternate; whether the line is hidden. *)
Fixpoint hidden_after (hidden : bool) (l : list tok) : option bool :=
  match l with
  | [] => Some hidden
  | LineHide :: l => if hidden then None else hidden_after true l
  | LineShow :: l => if hidden then hidden_after false l else None
  | _ :: l => hidden_after hidden l
  end.
Lemma hidden_app l1 l2 b : hidden_after b (l1 ++ l2) = match hidden_after b l1 with Some b' => hidden_after b' l2 | None => None end.
Proof. revert b. induction l1 as [|t l IH]; intros b; [done|]. cbn. destruct t, b; try apply IH; done. Qed.
Lemma hidden_text t b : hidden_after b (text t) = Some b.
Proof. induction t as [|c t IH]; [done|]. cbn. by destruct (Byte.eqb c LF), (Byte.eqb c CR). Qed.

(** A message is then exactly the line of [Frontend.atomic_message]. *)
Lemma editor_message s label msg t : as_ln_active (an_app s) = true ->
  exists toks, (atomic_message true label msg t s).2
    = s <| an_out := an_out s ++ toks |> <| an_last_label := label |> /\
    out_bytes toks = (Frontend.atomic_message (an_theme s) (an_last_label s) label msg t).1 /\
    forall b, hidden_after b toks = Some b.
Proof.
  intros Hl. unfold atomic_message, Frontend.atomic_message. cbn [negb]. rewrite !bind_eq. change (an id s).1 with s. change (an id s).2 with s.
  unfold around. rewrite !bind_eq. change (an id s).1 with s. change (an id s).2 with s. rewrite Hl.
  eexists. split; [done|]. split.
  2: { intros b. rewrite !hidden_app. destruct (_ && _); cbn; rewrite ?hidden_app; destruct label; cbn; by rewrite hidden_app, hidden_text. }
  rewrite !out_bytes_app, text_bytes. cbn [fst]. f_equal; [by destruct (_ && _)|].
  assert (out_bytes (timestamp_toks (an_theme s) t) = print_timestamp_short (an_theme s) t) as ->.
  { unfold out_bytes, timestamp_toks, print_timestamp_short. cbn [mbind list_bind tok_bytes]. rewrite app_nil_r, <-!app_assoc. done. }
  assert (out_bytes (label_toks (an_theme s) label) = print_label (an_theme s) label) as ->.
  { destruct label; [done|..]; unfold out_bytes, label_toks, print_label; cbn [mbind list_bind tok_bytes]; by rewrite app_nil_r. }
  done.
Qed.

(** *** Who owns the line *)

Inductive line_op := Suspend | Resume | ForceResume | Message (label : ui_label) (msg : bytes) (t : tm).
Definition line_step (s : ansi) (o : line_op) : ansi :=
  match o with
  | Suspend => (ui_line_suspend s).2
  | Resume => (ui_line_resume s).2
  | ForceResume => (ui_line_force_resume s).2
  | Message label msg t => (atomic_message true label msg t s).2
  end.
Definition owned (s : ansi) : Prop :=
  as_ln_active (an_app s) = true /\ 0 <= an_suspend_depth s /\ hidden_after false (an_out s) = Some (0 <? an_suspend_depth s).

(** The editor's line is hidden exactly while it is suspended, however suspensions
    are nested: it is never hidden twice and never shown twice. *)
Lemma line_step_owned s o : owned s -> owned (line_step s o).
Proof.
  intros (Hl & Hd & Hh). unfold owned. destruct o; cbn [line_step].
  - unfold ui_line_suspend. rewrite !bind_eq. change (an id s).1 with s. change (an id s).2 with s. rewrite Hl. cbn [negb].
    rewrite !bind_eq. cbn. destruct (Z.eqb_spec (an_suspend_depth s) 0) as [E|E]; cbn; rewrite ?hidden_app, Hh.
    + rewrite E. done.
    + split_and!; [done|lia|]. apply (f_equal Some). lia.
  - unfold ui_line_resume. rewrite !bind_eq. change (an id s).1 with s. change (an id s).2 with s. rewrite Hl. cbn [negb].
    destruct (Z.eqb_spec (an_suspend_depth s) 0) as [E|E]; [done|]. rewrite !bind_eq. cbn.
    destruct (Z.eqb_spec (an_suspend_depth s - 1) 0) as [E1|E1]; cbn; rewrite ?hidden_app, Hh.
    + replace (an_suspend_depth s) with 1 by lia. done.
    + split_and!; [done|lia|]. apply (f_equal Some). by rewrite !(proj2 (Z.ltb_lt 0 _)) by lia.
  - unfold ui_line_force_resume. rewrite !bind_eq. change (an id s).1 with s. change (an id s).2 with s. rewrite Hl. cbn [negb].
    destruct (0 <? an_suspend_depth s) eqn:Ez; [|by cbn; rewrite Ez]. rewrite !bind_eq. cbn. by rewrite hidden_app, Hh.
  - destruct (editor_message s label msg t Hl) as (toks & -> & _ & Ht). cbn. split_and!; [done|done|].
    by rewrite hidden_app, Hh, Ht.
Qed.
Theorem line_ownership ops s : owned s -> owned (foldl line_step s ops).
Proof. revert s. induction ops as [|o ops IH]; intros s H; [done|]. by apply IH, line_step_owned. Qed.

(** ** On a small terminal *)

Definition at_ten : tm := Tm 10 0 0.
Definition demo_ansi : ansi :=
  AnsiState (boot_app <| as_stdin_buf := Some (lit "sel") |>) 5 0 nox_theme_default UI_LABEL_NONE false (Some 20) [].
Definition demo_grid : grid := Grid [lit "earlier"; lit "nox> sel"] 1 8.
Definition no_transfer : fe_transfer := FeTransfer [] 0 0 false.


(** A carriage return survives the sanitiser: a message of the peer can look like
    one of the user's own. *)
Theorem peer_forges_own_line :
  let shown ev := g_rows (shows_as 80 (an_out (emit_all [ev] no_transfer demo_ansi)) demo_grid) in
  shown (FeEvent FE_MSG_IN (CR :: lit "[10:00:00] Sen: tamam, gonder") at_ten)
  = shown (FeEvent FE_MSG_OUT (lit "tamam, gonder") at_ten).
Proof. vm_compute. reflexivity. Qed.
