(* ===== verification/Sandbox.v ===== *)
(** * The sandbox: src/landlock_sandbox.c and the head of event_loop

    The Landlock ruleset with its rights as the bits of the kernel's ABI, and
    the decision of event_loop to run. *)

From S2P Require Import Prelude Primitives Types World Seccomp EventLoop Input.

(** ** Access rights of linux/landlock.h *)

Definition FS_EXECUTE : Z := 1.
Definition FS_WRITE_FILE : Z := 2.
Definition FS_READ_FILE : Z := 4.
Definition FS_READ_DIR : Z := 8.
Definition FS_REMOVE_DIR : Z := 16.
Definition FS_REMOVE_FILE : Z := 32.
Definition FS_MAKE_CHAR : Z := 64.
Definition FS_MAKE_DIR : Z := 128.
Definition FS_MAKE_REG : Z := 256.
Definition FS_MAKE_SOCK : Z := 512.
Definition FS_MAKE_FIFO : Z := 1024.
Definition FS_MAKE_BLOCK : Z := 2048.
Definition FS_MAKE_SYM : Z := 4096.
Definition FS_REFER : Z := 8192.
Definition FS_TRUNCATE : Z := 16384.
Definition FS_IOCTL_DEV : Z := 32768.

Definition rights (l : list Z) : Z := foldr Z.lor 0 l.

Definition NOX_LL_BASE_RIGHTS : Z :=
  rights [FS_EXECUTE; FS_WRITE_FILE; FS_READ_FILE; FS_READ_DIR; FS_REMOVE_DIR; FS_REMOVE_FILE;
          FS_MAKE_CHAR; FS_MAKE_DIR; FS_MAKE_REG; FS_MAKE_SOCK; FS_MAKE_FIFO; FS_MAKE_BLOCK;
          FS_MAKE_SYM].

Definition nox_ll_compute_rule_rights (wanted handled : Z) : Z := Z.land wanted handled.

(** The rights the ruleset handles.  [ioctl_dev]: the build's header knows
    LANDLOCK_ACCESS_FS_IOCTL_DEV. *)
Definition handled_access (ioctl_dev : bool) (abi : Z) : Z :=
  let h := NOX_LL_BASE_RIGHTS in
  let h := if 2 <=? abi then Z.lor h FS_REFER else h in
  let h := if 3 <=? abi then Z.lor h FS_TRUNCATE else h in
  if ioctl_dev && (5 <=? abi) then Z.lor h FS_IOCTL_DEV else h.

Definition downloads_wanted : Z :=
  rights [FS_READ_FILE; FS_WRITE_FILE; FS_READ_DIR; FS_REMOVE_FILE; FS_MAKE_REG; FS_TRUNCATE].
Definition config_rights : Z := rights [FS_READ_FILE; FS_READ_DIR; FS_REMOVE_FILE].

Definition EOPNOTSUPP : Z := 95.

Section Sandbox.
Context `{OS}.
(** What the header of the build declares. *)
Context (ioctl_dev scope : bool).
(** The build, for the seccomp policy. *)
Context (ndebug : bool) (headers : String.string -> bool).

(** The error, and s_landlock_active after the call. *)
Definition landlock_sandbox_init (config_dir_fd downloads_dir_fd : Z) : St world (nox_err * bool) :=
  if (config_dir_fd <? 0) || (downloads_dir_fd <? 0) then mret (NOX_ERR_CONFIG, false)
  else
    v ← call LandlockVersion;
    let abi := sr_ret v in
    if abi <? 0 then mret (NOX_ERR_CONFIG, false)
    else if abi <? 1 then mret (NOX_ERR_CONFIG, false)
    else
      let handled := handled_access ioctl_dev abi in
      r ← call (LandlockCreate handled (scope && (6 <=? abi)));
      let ruleset_fd := sr_ret r in
      if ruleset_fd <? 0 then
        if sr_errno r =? EOPNOTSUPP then mret (NOX_ERR_LANDLOCK_UNSUPPORTED, false)
        else mret (NOX_ERR_CONFIG, false)
      else
        let abandon := _ ← call_ (Close ruleset_fd); mret (NOX_ERR_CONFIG, false) in
        r ← call (LandlockAddRule ruleset_fd
                    (nox_ll_compute_rule_rights downloads_wanted handled) downloads_dir_fd);
        if sr_ret r <? 0 then abandon
        else
          r ← call (LandlockAddRule ruleset_fd config_rights config_dir_fd);
          if sr_ret r <? 0 then abandon
          else
            r ← call NoNewPrivs;
            if sr_ret r <? 0 then abandon
            else
              r ← call (LandlockRestrict ruleset_fd);
              if sr_ret r <? 0 then abandon
              else _ ← call_ (Close ruleset_fd); mret (NOX_OK, true).

Definition stop_running : St world bool :=
  _ ← upd_app (fun a => a <| as_running := false |>); mret false.

(** The head of event_loop: whether the loop is entered. *)
Definition event_loop_sandbox : St world bool :=
  a ← app id;
  ok ← (if (0 <=? as_config_dir_fd a) && (0 <=? as_downloads_dir_fd a) then
          '(ll_err, active) ← landlock_sandbox_init (as_config_dir_fd a) (as_downloads_dir_fd a);
          let warn := if (active : bool) then skip else ui UiError "sandbox not active" in
          match ll_err with
          | NOX_OK => _ ← warn; mret true
          | NOX_ERR_LANDLOCK_UNSUPPORTED =>
              if negb (as_allow_unsandboxed_fs a) then
                _ ← ui UiError "Landlock not supported"; stop_running
              else _ ← ui UiError "sandbox off"; _ ← warn; mret true
          | _ => _ ← ui UiError "sandbox configuration"; stop_running
          end
        else mret true);
  if negb ok then mret false
  else
    err ← lift_tr (seccomp_policy_load ndebug headers 3);
    if negb (err_ok err) then _ ← ui UiError "policy not loaded"; stop_running
    else mret true.

(** [while (state->running && !g_shutdown)]: each round gets the events of one
    epoll_wait; the list ends when the loop is left from outside. *)
Fixpoint event_rounds `{Crypto} (stdin : St world unit) (died : bool) (last : Z)
    (rounds : list (list (Z * Z))) : St world unit :=
  match rounds with
  | [] => skip
  | evs :: rounds =>
      running ← app as_running;
      if negb running then skip
      else
        '(died, last) ← loop_round stdin died last evs;
        event_rounds stdin died last rounds
  end.

(** The commands are listed and the line editor is started before the loop. *)
Definition loop_body `{Crypto} (stdin : St world unit) (rounds : list (list (Z * Z)))
    : St world unit :=
  _ ← call_ (Stderr "commands");
  _ ← ln_edit_init;
  event_rounds stdin false 0 rounds.

Definition event_loop `{Crypto} (stdin : St world unit) (rounds : list (list (Z * Z)))
    : St world unit :=
  ok ← event_loop_sandbox;
  if negb ok then skip else loop_body stdin rounds.

End Sandbox.
