(* ===== verification/Main.v ===== *)
(** * The program: main and cleanup of src/main.c

    The state of the process is the world, the arena with the addresses of the
    keys in it, and the PIN buffer.  Code that can end the process runs in [PM]:
    it goes on with a value, exits with a code, aborts, or turns out to be a
    child that was forked, which exits with a code or is replaced by Tor.  A [return] of main runs the exit handler that
    restores the terminal; [NOX_EXIT] does not. *)

From S2P Require Import Prelude Primitives Types World Arena Onion Network Database StateMachine.
From S2P Require Import FileTransfer History Keys Control TorProcess Frontend Seccomp EventLoop.
From S2P Require Import Input Sandbox Startup.

Record process := Process {
  p_w : world;
  p_m : machine;            (* the arena; its history of calls is that of [p_w] *)
  p_master_key : Z;         (* addresses in the arena, 0 is NULL *)
  p_db_key : Z;
  p_session_key : Z;
  p_static_priv : Z;
  p_static_pub : Z;
  p_pin : option bytes;     (* pin_buf *)
  p_termios_saved : bool }.

#[global] Instance eta_process : Eta process :=
  fun r => Process (p_w r) (p_m r) (p_master_key r) (p_db_key r) (p_session_key r)
    (p_static_priv r) (p_static_pub r) (p_pin r) (p_termios_saved r).

Inductive outcome (A : Type) := Go (a : A) | Exit (code : Z) | Aborted | In_child (code : option Z).
Arguments Go {A} a.
Arguments Exit {A} code.
Arguments Aborted {A}.
Arguments In_child {A} code.

Definition PM (A : Type) : Type := process -> outcome A * process.

#[global] Instance PM_ret : MRet PM := fun A a p => (Go a, p).
#[global] Instance PM_bind : MBind PM := fun A B k m p =>
  match m p with
  | (Go a, p') => k a p'
  | (Exit c, p') => (Exit c, p')
  | (Aborted, p') => (Aborted, p')
  | (In_child c, p') => (In_child c, p')
  end.

(** [_exit(code)] *)
Definition quit {A} (code : Z) : PM A := fun p => (Exit code, p).
Definition in_child {A} (code : option Z) : PM A := fun p => (In_child code, p).
Definition upd (f : process -> process) : PM unit := fun p => (Go tt, f p).
Definition see {A} (f : process -> A) : PM A := fun p => (Go (f p), p).
Definition nothing : PM unit := mret tt.

Definition on_world {A} (m : St world A) : PM A :=
  fun p => let '(a, w) := m (p_w p) in (Go a, p <| p_w := w |>).

(** Run code of the arena: it reads and extends the one history of calls. *)
Definition on_arena {A} (m : AM A) : PM A := fun p =>
  let '(r, m') := m (p_m p <| m_tr := w_tr (p_w p) |>) in
  let p' := p <| p_m := m' |> <| p_w := p_w p <| w_tr := m_tr m' |> |> in
  match r with Return a => (Go a, p') | Abort => (Aborted, p') end.

(** Key material, by address. *)
Definition load (addr : Z) : PM bytes :=
  on_arena (a ← read m_arena; peek (addr - ar_base a) NOX_KEY_LEN).
Definition put_key (addr : Z) (key : bytes) : PM unit := on_arena (store addr key).

(** What the pointers into the arena show is gone with it. *)
Definition no_arena_keys (a : app_state) : app_state :=
  a <| as_db_key := None |> <| as_my_static_priv := None |> <| as_my_static_pub := None |>.

Section Main.
Context `{OS} `{Crypto} `{KeyCrypto} `{Base64}.
(** The build, the kernel headers, and bounds of directories and of a file of
    /proc. *)
Context (ioctl_dev scope ndebug debug : bool) (headers : String.string -> bool).
Context (dir_max status_lines : nat).

Definition pcall (c : syscall) : PM sysret := on_world (call c).
Definition pcall_ (c : syscall) : PM unit := on_world (call_ c).
Definition on_trace {A} (m : St trace A) : PM A := on_world (lift_tr m).

(** [return code] of main *)
Definition return_ {A} (code : Z) : PM A :=
  saved ← see p_termios_saved;
  saved ← on_trace (restore_terminal saved);
  _ ← upd (fun p => p <| p_termios_saved := saved |>);
  quit code.

(** [sodium_free(pin_buf)] *)
Definition free_pin : PM unit :=
  _ ← pcall_ (Wipe "pin_buf"); upd (fun p => p <| p_pin := None |>).

Definition destroy_arena : PM unit :=
  _ ← on_arena arena_destroy; on_world (upd_app no_arena_keys).

(** ** cleanup *)

Definition zero_peer : peer_session := idle_peer <| ps_tofu_peer_fd := 0 |>.

Definition cleanup_slot (i : nat) : St world unit :=
  ps ← peer i;
  _ ← (if (0 <=? ps_fd ps) || negb (bool_decide (ps_session ps = None))
          || negb (bool_decide (ps_hs ps = None))
       then _ ← sm_dispatch i EV_PEER_DISCONNECTED; skip else skip);
  ps ← peer i;
  epoll ← app as_epoll_fd;
  _ ← (if 0 <=? ps_fd ps then _ ← epoll_remove_fd epoll (ps_fd ps); call_ (Close (ps_fd ps))
       else skip);
  upd_peer i (fun _ => zero_peer).

(** [if (fd >= 0) { close(fd); fd = -1; }] *)
Definition close_field (get : app_state -> Z) (clear : app_state -> app_state) : St world unit :=
  fd ← app get;
  if 0 <=? fd then _ ← call_ (Close fd); upd_app clear else skip.

(** [if (path[0]) { unlink(path); path[0] = 0; }] *)
Definition unlink_field (get : app_state -> bytes) (clear : app_state -> app_state)
    : St world unit :=
  path ← app get;
  if negb (bool_decide (path = [])) then _ ← call_ (Unlink path); upd_app clear else skip.

(** Up to the arena; afterwards. *)
Definition cleanup_peers : St world unit :=
  ghost ← app as_ghost_mode;
  _ ← (if negb ghost then db_close else skip);
  _ ← upd_app (fun a => a <| as_db_key := None |>);
  seed ← app as_my_onion_seed;
  _ ← (if seed : option bytes then _ ← call_ (Wipe "onion_seed"); upd_app (fun a => a <| as_my_onion_seed := None |>)
       else skip);
  _ ← file_transfer_cleanup;
  each_slot cleanup_slot 0 NOX_MAX_PEERS.

(** The buffer of standard input. *)
Definition free_stdin : St world unit :=
  buf ← app as_stdin_buf;
  if buf : option bytes then
    _ ← call_ (Wipe "stdin_buf");
    upd_app (fun a => a <| as_stdin_buf := None |> <| as_stdin_cap := 0 |>)
  else skip.

Definition cleanup_files : St world unit :=
  _ ← tor_shutdown dir_max;
  _ ← close_field as_listen_fd (fun a => a <| as_listen_fd := -1 |>);
  _ ← unlink_field as_listen_path (fun a => a <| as_listen_path := [] |>);
  _ ← unlink_field as_socks_path (fun a => a <| as_socks_path := [] |>);
  _ ← close_field as_epoll_fd (fun a => a <| as_epoll_fd := -1 |>);
  _ ← close_field as_downloads_dir_fd (fun a => a <| as_downloads_dir_fd := -1 |>);
  close_field as_config_dir_fd (fun a => a <| as_config_dir_fd := -1 |>).

Definition cleanup : PM unit :=
  _ ← (if debug then nothing else pcall_ (Stderr "clear screen"));
  _ ← on_world ln_edit_deinit;
  saved ← see p_termios_saved;
  saved ← on_trace (restore_terminal saved);
  _ ← upd (fun p => p <| p_termios_saved := saved |> <| p_master_key := 0 |> <| p_db_key := 0 |>
                     <| p_session_key := 0 |>);
  _ ← on_world cleanup_peers;
  _ ← destroy_arena;
  _ ← on_world free_stdin;
  on_world cleanup_files.

(** The label shutdown_clean. *)
Definition shutdown_clean {A} : PM A := _ ← cleanup; quit 0.

Definition shutting_down : PM bool := r ← pcall ShutdownFlag; mret (negb (sr_ret r =? 0)).

(** A failed step: [if (g_shutdown) goto shutdown_clean; ... cleanup; NOX_EXIT(1)] *)
Definition fatal {A} : PM A :=
  down ← shutting_down;
  if down : bool then shutdown_clean else _ ← cleanup; quit 1.
Definition must (err : nox_err) : PM unit := if err_ok err then nothing else fatal.
Definition stop_if_shutting_down : PM unit :=
  down ← shutting_down; if down : bool then shutdown_clean else nothing.

(** ** Keys: steps 6 to 11 *)

Definition scatter_honeypots (min max : Z) : PM unit :=
  r ← pcall (RandomUniform (max - min + 1));
  let count := min + sr_ret r mod (max - min + 1) in
  foldr (fun _ rest => _ ← on_arena (arena_alloc_canary NOX_KEY_LEN); rest) nothing
    (replicate (Z.to_nat count) tt).

Definition key_block : PM Z := on_arena (arena_alloc NOX_KEY_LEN).

(** The exits between the arena and the end of step 11. *)
Definition abandon {A} : PM A := _ ← destroy_arena; return_ 1.

Definition NOX_SODIUM_LOCKED_BUDGET : Z := 96 * 1024.

(** Step 6: the PIN. *)
Definition enter_pin (first_run : bool) : PM unit :=
  r ← pcall (Malloc PIN_CAP);
  if sr_ret r =? 0 then return_ 1
  else
    _ ← upd (fun p => p <| p_pin := Some (fresh_buffer PIN_CAP) |>);
    '(err, buf) ← on_trace (read_pin (fresh_buffer PIN_CAP) first_run);
    _ ← upd (fun p => p <| p_pin := Some buf |>);
    if err_ok err then nothing else _ ← free_pin; return_ 1.

(** Steps 7 and 8: the limit of locked memory, the arena; 8d, the capability. *)
Definition make_arena : PM unit :=
  r ← pcall Getrlimit;
  _ ← (if sr_ret r =? 0 then
         cur ← pcall RlimCur;
         if sr_ret cur <? NOX_ARENA_DEFAULT_SIZE + NOX_SODIUM_LOCKED_BUDGET
         then _ ← free_pin; return_ (-6) else nothing
       else nothing);
  err ← on_arena (arena_init NOX_ARENA_DEFAULT_SIZE);
  if negb (err_ok err) then _ ← free_pin; return_ 1
  else
    _ ← pcall_ Geteuid;
    c ← pcall (Prctl 23 13);            (* PR_CAPBSET_READ, CAP_NET_RAW *)
    if sr_ret c =? 1 then pcall_ (Prctl 24 13) else nothing.

(** Step 9: the salt and the master key. *)
Definition make_master_key : PM unit :=
  fd ← on_world (app as_config_dir_fd);
  '(err, salt) ← on_trace (crypto_load_or_create_salt fd);
  if negb (err_ok err) then _ ← free_pin; abandon
  else
    _ ← scatter_honeypots 0 3;
    block ← key_block;
    _ ← upd (fun p => p <| p_master_key := block |>);
    _ ← scatter_honeypots 0 3;
    if block =? 0 then _ ← free_pin; abandon
    else
      pin ← see p_pin;
      let buf := default [] pin in
      let '(err, key, wiped) := crypto_derive_master_key (cstr buf) salt in
      _ ← put_key block key;
      _ ← upd (fun p => p <| p_pin := Some (wiped ++ drop (length wiped) buf) |>);
      _ ← free_pin;
      if err_ok err then nothing else abandon.

(** [sodium_memzero(state.master_key); state.master_key = NULL] *)
Definition forget_master_key : PM unit :=
  block ← see p_master_key;
  _ ← put_key block (zeros 32);
  upd (fun p => p <| p_master_key := 0 |>).

(** Step 10: the blocks of the subkeys. *)
Definition subkey_blocks : PM (Z * Z * Z) :=
  _ ← scatter_honeypots 0 3;
  db ← key_block;
  _ ← upd (fun p => p <| p_db_key := db |>);
  _ ← scatter_honeypots 0 3;
  unlock ← key_block;
  _ ← scatter_honeypots 0 3;
  session ← key_block;
  _ ← upd (fun p => p <| p_session_key := session |>);
  _ ← scatter_honeypots 0 3;
  mret (db, unlock, session).

(** The subkeys; the address of identity_unlock. *)
Definition make_subkeys : PM Z :=
  '(db, unlock, session) ← subkey_blocks;
  if (db =? 0) || (unlock =? 0) || (session =? 0) then abandon
  else
    master ← see p_master_key;
    key ← load master;
    d0 ← load db; u0 ← load unlock; s0 ← load session;
    let '(err, d, u, s) := crypto_derive_subkeys key d0 u0 s0 in
    _ ← put_key db d; _ ← put_key unlock u; _ ← put_key session s;
    _ ← on_world (upd_app (fun a => a <| as_db_key := Some d |>));
    if negb (err_ok err) then abandon
    else
      ghost ← on_world (app as_ghost_mode);
      _ ← (if ghost : bool then forget_master_key else nothing);
      mret unlock.

(** [sodium_free] of the Ed25519 buffers *)
Definition free_ed : PM unit := _ ← pcall_ (Wipe "ed_pub"); pcall_ (Wipe "ed_sk").
Definition abandon_ed {A} : PM A := _ ← free_ed; abandon.

(** Step 11: the blocks of the static keys. *)
Definition static_blocks : PM (Z * Z) :=
  _ ← scatter_honeypots 0 3;
  priv ← key_block;
  _ ← upd (fun p => p <| p_static_priv := priv |>);
  _ ← scatter_honeypots 0 3;
  pub ← key_block;
  _ ← upd (fun p => p <| p_static_pub := pub |>);
  mret (priv, pub).

(** The identity: generated on the first run, then loaded from the disk and
    converted. *)
Definition make_identity (first_run : bool) (unlock : Z) : PM unit :=
  '(priv, pub) ← static_blocks;
  if (priv =? 0) || (pub =? 0) then abandon
  else
    m1 ← pcall (Malloc 32);
    m2 ← pcall (Malloc 64);
    if (sr_ret m1 =? 0) || (sr_ret m2 =? 0) then abandon_ed
    else
      fd ← on_world (app as_config_dir_fd);
      key ← load unlock;
      _ ← (if first_run : bool then
             '(err, _) ← on_trace (crypto_generate_identity fd key);
             if err_ok err then nothing else abandon_ed
           else nothing);
      '(err, ed_sk, ed_pub) ← on_trace (crypto_load_identity fd key);
      if negb (err_ok err) then abandon_ed
      else
        match crypto_ed25519_to_curve25519 true true (Some ed_pub) (Some ed_sk) with
        | (NOX_OK, pk, sk) =>
            _ ← put_key pub (default (zeros 32) pk);
            _ ← put_key priv (default (zeros 32) sk);
            _ ← on_world (upd_app (fun a => a <| as_my_static_pub := pk |> <| as_my_static_priv := sk |>));
            _ ← free_ed;
            put_key unlock (zeros 32)
        | (_, pk, sk) =>
            _ ← put_key pub (default (zeros 32) pk);
            _ ← put_key priv (default (zeros 32) sk);
            abandon_ed
        end.

(** ** Tor: steps 12 to 15 *)

Definition open_database : PM unit :=
  ghost ← on_world (app as_ghost_mode);
  if ghost : bool then nothing
  else
    a ← on_world (app id);
    block ← see p_db_key;
    key ← load block;
    err ← on_world (db_init (as_config_dir a) (as_config_dir_fd a) key);
    if err_ok err then nothing else abandon.

Definition start_tor : PM unit :=
  r ← on_world (tor_spawn ndebug debug dir_max);
  match r with
  | Child code => in_child code
  | Parent err =>
      if err_ok err then nothing
      else
        down ← shutting_down;
        if down : bool then shutdown_clean else _ ← cleanup; return_ 1
  end.

(** 13b: memory-deny-write-execute, stage 2. *)
Definition confine : PM unit :=
  _ ← pcall_ (Prctl 65 1);
  err ← on_trace (seccomp_policy_load ndebug headers 2);
  if err_ok err then nothing else _ ← cleanup; quit 1.

(** 14: authentication and bootstrap. *)
Definition attach_tor : PM unit :=
  a ← on_world (app id);
  err ← on_trace (tor_authenticate (as_tor_ctrl_fd a) (as_tor_data_dir a));
  _ ← must err;
  _ ← stop_if_shutting_down;
  err ← on_trace (tor_wait_bootstrap (as_tor_ctrl_fd a) 120);
  _ ← must err;
  stop_if_shutting_down.

Definition set_seed (seed : bytes) : PM unit :=
  on_world (upd_app (fun a => a <| as_my_onion_seed := Some seed |>)).
Definition set_onion (onion : bytes) : PM unit :=
  on_world (upd_app (fun a => a <| as_onion_addr := onion |>)).

Definition make_listener : PM unit :=
  a ← on_world (app id);
  '(err, path, fd) ← on_trace (listener_create (as_tor_data_dir a));
  _ ← on_world (upd_app (fun a => a <| as_listen_path := path |>
                                    <| as_listen_fd := default (as_listen_fd a) fd |>));
  must err.

(** The service: a random seed in ghost mode, else the one of the master key,
    which is not needed any more. *)
Definition publish : PM unit :=
  m ← pcall (Malloc 32);
  if sr_ret m =? 0 then _ ← cleanup; quit 1
  else
    _ ← set_seed (zeros 32);
    a ← on_world (app id);
    if as_ghost_mode a then
      '(err, onion, seed) ← on_trace (tor_create_new_hs (as_tor_ctrl_fd a) (as_listen_path a)
                                        (NOX_ONION_LEN + 1));
      _ ← set_onion onion;
      _ ← (match seed with Some s => set_seed s | None => nothing end);
      must err
    else
      block ← see p_master_key;
      key ← load block;
      let '(err, seed) := crypto_derive_onion_seed key in
      _ ← set_seed seed;
      _ ← must err;
      '(err, onion) ← on_trace (tor_create_derived_hs (as_tor_ctrl_fd a) (as_listen_path a) key
                                  (NOX_ONION_LEN + 1));
      _ ← set_onion onion;
      _ ← forget_master_key;
      must err.

(** The seed and the address belong together. *)
Definition seed_matches (seed addr : bytes) : bool :=
  let '(err, _, seed_pub) := derive_tor_expanded_key seed in
  if negb (err_ok err) then false
  else
    match crypto_onion_pubkey addr with
    | (NOX_OK, addr_pub) => bytes_eqb seed_pub addr_pub
    | _ => false
    end.

Definition check_address : PM unit :=
  a ← on_world (app id);
  if seed_matches (default [] (as_my_onion_seed a)) (as_onion_addr a) then nothing
  else _ ← cleanup; quit 1.

(** ** main *)

Definition main_state (ghost unsandboxed : bool) : app_state := {|
  as_peers := replicate NOX_MAX_PEERS idle_peer; as_active_peer_idx := -1;
  as_my_static_priv := None; as_my_static_pub := None; as_my_onion_seed := None; as_db_key := None;
  as_hs_attempt_count := 0; as_hs_window_start := 0; as_hs_inbound_count := 0;
  as_hs_inbound_window_start := 0; as_tor_ctrl_fd := -1; as_tor_pid := 0; as_onion_addr := [];
  as_epoll_fd := -1; as_listen_fd := -1; as_socks_path := []; as_running := true;
  as_ghost_mode := ghost; as_allow_unsandboxed_fs := unsandboxed;
  as_tofu_epoch := 0; as_tofu_prompt_epoch := 0; as_tofu_prompt_fp := zeros 32;
  as_active_peer_onion := []; as_config_dir_fd := -1; as_downloads_dir_fd := -1;
  as_config_dir := []; as_tor_data_dir := []; as_torrc_path := []; as_listen_path := [];
  as_transport_type := TRANSPORT_DIRECT; as_obfs4_bridge_line := [];
  as_stdin_buf := None; as_stdin_cap := 0; as_stdin_closed := false; as_ln_active := false |}.

Definition wants_ghost (args : list bytes) : bool :=
  existsb (fun a => bytes_eqb a (lit "--ghost") || bytes_eqb a (lit "-ghost")) args.
Definition wants_unsandboxed (args : list bytes) : bool :=
  existsb (fun a => negb (bytes_eqb a (lit "--ghost") || bytes_eqb a (lit "-ghost"))
                    && bytes_eqb a (lit "--allow-unsandboxed-fs")) args.
Definition wants_cleankeys (args : list bytes) : bool :=
  match args with a :: _ => bytes_eqb a (lit "--full_cleankeys") | [] => false end.

(** Steps 1 to 5; whether this is the first run. *)
Definition prepare : PM bool :=
  _ ← on_trace setup_signal_handlers;
  saved ← on_trace setup_terminal;
  _ ← upd (fun p => p <| p_termios_saved := saved |>);
  r ← pcall SodiumInit;
  if sr_ret r <? 0 then return_ 1
  else
    _ ← (if ndebug then
           cet ← on_trace (cet_ss_lock_and_verify status_lines);
           match cet with
           | inr code => in_child (Some code)
           | inl CET_SS_BROKEN => return_ 1
           | inl _ => nothing
           end
         else nothing);
    err ← on_world resolve_config_paths;
    if negb (err_ok err) then return_ 1
    else
      '(err, first_run) ← on_world ensure_config_dir;
      if negb (err_ok err) then return_ 1 else mret first_run.

(** Steps 6 to 16, up to the event loop. *)
Definition start (first_run : bool) : PM unit :=
  _ ← enter_pin first_run;
  _ ← make_arena;
  _ ← make_master_key;
  unlock ← make_subkeys;
  _ ← make_identity first_run unlock;
  _ ← on_world prompt_transport_selection;
  down ← shutting_down;
  _ ← (if down : bool then _ ← cleanup; return_ 0 else nothing);
  _ ← open_database;
  _ ← start_tor;
  _ ← stop_if_shutting_down;
  _ ← confine;
  _ ← stop_if_shutting_down;
  _ ← attach_tor;
  _ ← make_listener;
  _ ← publish;
  _ ← check_address;
  fd ← on_world (app as_listen_fd);
  err ← on_world (epoll_setup fd);
  _ ← must err;
  stop_if_shutting_down.

(** The loop.  [Wipe "arena"] in its history stands for its call of
    arena_destroy when Tor has died; the effect on the mapping is applied when
    the loop is left. *)
Definition run_loop (stdin : St world unit) (rounds : list (list (Z * Z))) : PM unit :=
  _ ← on_world (event_loop ioctl_dev scope ndebug headers stdin rounds);
  key ← on_world (app as_db_key);
  if key : option bytes then nothing else destroy_arena.

(** main up to the event loop. *)
Definition initialise (args : list bytes) : PM unit :=
  _ ← on_world (upd_app (fun _ => main_state (wants_ghost args) (wants_unsandboxed args)));
  if wants_cleankeys args then code ← on_world full_cleankeys; return_ code
  else first_run ← prepare; start first_run.

(** [reads] bounds the reads of standard input in one event. *)
Definition main (args : list bytes) (reads : nat) (rounds : list (list (Z * Z))) : PM unit :=
  _ ← initialise args;
  _ ← run_loop (process_stdin_events reads) rounds;
  shutdown_clean.

(** What runs before main.  The order of the two constructors is up to the
    linker. *)
Definition constructor (m : St trace (option Z)) : PM unit :=
  r ← on_trace m; match r with Some code => quit code | None => nothing end.
Definition constructors (stage1_first : bool) : PM unit :=
  let stage1 := constructor (seccomp_stage1_early ndebug headers) in
  let hardening := constructor early_hardening_init in
  if stage1_first then _ ← stage1; hardening else _ ← hardening; stage1.

(** The whole process. *)
Definition run (stage1_first : bool) (args : list bytes) (reads : nat)
    (rounds : list (list (Z * Z))) : PM unit :=
  _ ← constructors stage1_first;
  main args reads rounds.

End Main.
