(* ===== verification/MainProofs.v ===== *)
(** * Theorems about the whole program

    However the program ends, nothing secret is left; when it enters the event
    loop it is ready for it. *)

From S2P Require Import Prelude Primitives Types World Arena ArenaProofs Onion OnionProofs Network.
From S2P Require Import Database StateMachine StateMachineProofs FileTransfer History Keys Control.
From S2P Require Import ControlProofs TorProcess TorProofs Frontend Seccomp SeccompProofs EventLoop.
From S2P Require Import Sandbox Startup Main.

(** ** Programs that may end the process

    [pwp E m Q p]: run from [p], [m] goes on with [Q] or exits with [E]; it does
    not abort.  Nothing is asked of a child. *)

Definition pwp (E : process -> Prop) {A} (m : PM A) (Q : A -> process -> Prop) (p : process) : Prop :=
  match m p with
  | (Go a, p') => Q a p'
  | (Exit _, p') => E p'
  | (Aborted, _) => False
  | (In_child _, _) => True
  end.

Section Rules.
Context (E : process -> Prop).

Lemma pwp_ret {A} (a : A) (Q : A -> process -> Prop) p : Q a p -> pwp E (mret a) Q p.
Proof. done. Qed.
Lemma pwp_nothing (Q : unit -> process -> Prop) p : Q tt p -> pwp E nothing Q p.
Proof. done. Qed.
Lemma pwp_bind {A B} (m : PM A) (k : A -> PM B) Q p :
  pwp E m (fun a => pwp E (k a) Q) p -> pwp E (mbind k m) Q p.
Proof. unfold pwp, mbind, PM_bind. by destruct (m p) as [[]]. Qed.
Lemma pwp_seq {A B C} (a : PM A) (b : PM B) (c : PM C) Q p :
  pwp E (_ ← a; b) (fun _ => pwp E c Q) p -> pwp E (_ ← a; _ ← b; c) Q p.
Proof.
  unfold pwp, mbind, PM_bind. destruct (a p) as [[] p1]; try done. by destruct (b p1) as [[] p2].
Qed.
Lemma pwp_unbind {A B} (m : PM A) (k : A -> PM B) Q p :
  pwp E (mbind k m) Q p -> pwp E m (fun a => pwp E (k a) Q) p.
Proof. unfold pwp, mbind, PM_bind. by destruct (m p) as [[]]. Qed.
Lemma pwp_mono {A} (m : PM A) (Q Q' : A -> process -> Prop) p :
  pwp E m Q p -> (forall a p', Q a p' -> Q' a p') -> pwp E m Q' p.
Proof. unfold pwp. destruct (m p) as [[]]; auto. Qed.
Lemma pwp_upd f (Q : unit -> process -> Prop) p : Q tt (f p) -> pwp E (upd f) Q p.
Proof. done. Qed.
Lemma pwp_see {A} (f : process -> A) (Q : A -> process -> Prop) p : Q (f p) p -> pwp E (see f) Q p.
Proof. done. Qed.
Lemma pwp_quit {A} code (Q : A -> process -> Prop) p : E p -> pwp E (quit code) Q p.
Proof. done. Qed.
Lemma pwp_in_child {A} code (Q : A -> process -> Prop) p : pwp E (in_child code) Q p.
Proof. done. Qed.

(** Code on the world: the rest of the process stays. *)
Lemma pwp_on_world {A} (m : St world A) (Q : A -> process -> Prop) p :
  Q (m (p_w p)).1 (p <| p_w := (m (p_w p)).2 |>) -> pwp E (on_world m) Q p.
Proof. unfold pwp, on_world. by destruct (m (p_w p)). Qed.

Lemma pwp_on_arena {A} (m : AM A) (Q : A -> process -> Prop) p a m' :
  m (p_m p <| m_tr := w_tr (p_w p) |>) = (Return a, m') ->
  Q a (p <| p_m := m' |> <| p_w := p_w p <| w_tr := m_tr m' |> |>) -> pwp E (on_arena m) Q p.
Proof. unfold pwp, on_arena. by intros ->. Qed.

End Rules.

(** ** What the steps leave alone *)

(** The state that the end of the process has to erase, and the mode. *)
Definition secrets_of (a : app_state) :=
  (as_peers a, as_my_onion_seed a, as_ghost_mode a,
   (as_db_key a, as_my_static_priv a, as_my_static_pub a, as_stdin_buf a)).
Definition secrets (w : world) := secrets_of (w_app w).

#[global] Instance no_trace_secrets : NoTrace secrets.
Proof. done. Qed.
Lemma keeps_secrets_db f : keeps secrets (upd_db f).
Proof. done. Qed.
#[export] Hint Resolve keeps_secrets_db : keeps.

Ltac keep_secrets := unfold app; keep_code; try done.

Section Frames.
Context `{HOS : OS} `{HC : Crypto}.

Lemma set_config_dir_secrets d : keeps secrets (set_config_dir d).
Proof. unfold set_config_dir. keep_secrets. Qed.
Lemma home_dir_secrets : keeps secrets home_dir.
Proof. unfold home_dir. keep_secrets. Qed.
Lemma resolve_secrets : keeps secrets resolve_config_paths.
Proof.
  unfold resolve_config_paths. keep_secrets; auto using set_config_dir_secrets, home_dir_secrets.
Qed.
Lemma ensure_secrets : keeps secrets ensure_config_dir.
Proof.
  unfold ensure_config_dir, find_config_dir, drop_config_dir.
  keep_secrets; auto using home_dir_secrets.
Qed.
Lemma cleankeys_secrets : keeps secrets full_cleankeys.
Proof. unfold full_cleankeys. keep_secrets; auto using resolve_secrets. Qed.
Lemma transport_secrets : keeps secrets prompt_transport_selection.
Proof.
  unfold prompt_transport_selection, read_bridge, look_for, set_transport. keep_secrets.
Qed.
Lemma db_schema_app l : keeps w_app (db_schema l).
Proof. induction l; cbn [db_schema]; unfold db_exec_sql; keep_code. Qed.
Lemma db_init_app d fd k : keeps w_app (db_init d fd k).
Proof.
  unfold db_init, db_open, db_verify_file, db_exec_sql, forget_key. keep_code;
    auto using db_schema_app.
Qed.
Lemma db_schema_db l : keeps w_db (db_schema l).
Proof. induction l; cbn [db_schema]; unfold db_exec_sql; keep_code. Qed.
Lemma db_init_secrets d fd k : keeps secrets (db_init d fd k).
Proof. exact (keeps_part secrets_of _ (db_init_app d fd k)). Qed.
Lemma epoll_setup_secrets fd : keeps secrets (epoll_setup fd).
Proof. unfold epoll_setup, epoll_add_fd. keep_secrets. Qed.
Lemma spawn_secrets nd db dm : keeps secrets (tor_spawn nd db dm).
Proof.
  unfold tor_spawn, generate_torrc, prepare_data_dir, write_torrc, drop_torrc, torrc_lines.
  keep_secrets.
Qed.
Lemma shutdown_secrets dm : keeps secrets (tor_shutdown dm).
Proof. unfold tor_shutdown. keep_secrets. Qed.
Lemma close_field_secrets get clear :
  keeps secrets (upd_app clear) -> keeps secrets (close_field get clear).
Proof. intros. unfold close_field. keep_secrets. Qed.
Lemma unlink_field_secrets get clear :
  keeps secrets (upd_app clear) -> keeps secrets (unlink_field get clear).
Proof. intros. unfold unlink_field. keep_secrets. Qed.
Lemma cleanup_files_secrets dm : keeps secrets (cleanup_files dm).
Proof.
  unfold cleanup_files.
  repeat (apply keeps_bind; [|intros _]);
    first [apply shutdown_secrets | by apply close_field_secrets | by apply unlink_field_secrets].
Qed.

Lemma free_stdin_secrets w :
  secrets (free_stdin w).2 = secrets_of (w_app w <| as_stdin_buf := None |>).
Proof.
  unfold free_stdin. rewrite bind_eq. cbn [app gets fst snd].
  destruct (as_stdin_buf (w_app w)) eqn:E; [done|]. unfold secrets, secrets_of. cbn. by rewrite E.
Qed.

(** A disconnect touches its own slot and which peer is active. *)
Lemma disconnect_keeps {B} (π : world -> B) `{!NoTrace π} n i :
  (forall f, keeps π (upd_peer i f)) -> keeps π (upd_app (deactivate i)) ->
  keeps π (dispatch n i EV_PEER_DISCONNECTED).
Proof.
  intros Hp Hd. destruct n; [done|]. cbn [dispatch]. unfold peer, app.
  apply keeps_bind; [done|]. intros p. destruct (find_transition _ _) as [t|] eqn:Et; [|done].
  rewrite (disconnect_action _ _ Et). apply keeps_bind; [|intros e; keep_code; done].
  unfold run_action, action_cleanup, cleanup_socket, cleanup_keys, cleanup_rx, cleanup_tx,
    cleanup_buffers, peer, app. keep_code; done.
Qed.

(** What a slot can hold of a conversation is gone. *)
Definition ended (ps : peer_session) : Prop := ps_session ps = None /\ ps_hs ps = None.

Definition all_ended (w : world) : Prop :=
  forall i, (i < NOX_MAX_PEERS)%nat -> ended (peer_at i (w_app w)).

(** The part of [secrets] that is not in the slots. *)
Definition own_keys (w : world) :=
  let a := w_app w in
  (as_my_onion_seed a, as_ghost_mode a, (as_db_key a, as_my_static_priv a, as_my_static_pub a)).

#[local] Instance no_trace_own : NoTrace own_keys.
Proof. done. Qed.
Lemma own_deactivate i : keeps own_keys (upd_app (deactivate i)).
Proof. intros w. cbn. unfold deactivate, own_keys. by case_bool_decide. Qed.

Lemma cleanup_slot_own i : keeps own_keys (cleanup_slot i).
Proof.
  assert (keeps own_keys (sm_dispatch i EV_PEER_DISCONNECTED)) as Hd
    by (apply disconnect_keeps; [typeclasses eauto|done|apply own_deactivate]).
  unfold cleanup_slot, epoll_remove_fd, peer, app. keep_code; done.
Qed.

Lemma cleanup_slot_other i j : i <> j -> keeps (fun w => peer_at j (w_app w)) (cleanup_slot i).
Proof.
  intros Hij. assert (forall f, keeps (fun w => peer_at j (w_app w)) (upd_peer i f)) as Hu.
  { intros f w. cbn. by rewrite peer_at_set_ne. }
  assert (keeps (fun w => peer_at j (w_app w)) (sm_dispatch i EV_PEER_DISCONNECTED)) as Hd.
  { apply disconnect_keeps; [typeclasses eauto|exact Hu|]. intros w. cbn. apply peer_at_deactivate. }
  unfold cleanup_slot, epoll_remove_fd, peer, app. keep_code; done || apply Hu.
Qed.

Lemma cleanup_slot_ended i w : ended (peer_at i (w_app (cleanup_slot i w).2)).
Proof.
  unfold cleanup_slot. repeat rewrite bind_eq.
  match goal with |- context [upd_peer i _ ?w'] => set (w1 := w') end. cbn.
  destruct (decide (i < length (as_peers (w_app w1)))%nat) as [Hi|Hi].
  - by rewrite peer_at_set_eq.
  - unfold peer_at. rewrite lookup_ge_None_2; [done|]. rewrite length_set_peer. lia.
Qed.

Lemma cleanup_slots_ended n i w :
  (forall j, (j < i)%nat -> ended (peer_at j (w_app w))) ->
  forall j, (j < i + n)%nat -> ended (peer_at j (w_app (each_slot cleanup_slot i n w).2)).
Proof.
  revert i w. induction n as [|n IH]; intros i w Hw j Hj; cbn [each_slot].
  - apply Hw. lia.
  - rewrite bind_eq. apply (IH (S i)); [|lia]. intros k Hk.
    destruct (decide (k = i)) as [->|Hki]; [apply cleanup_slot_ended|].
    rewrite (cleanup_slot_other i k) by done. apply Hw. lia.
Qed.

Lemma each_slot_own f n i : (forall j, keeps own_keys (f j)) -> keeps own_keys (each_slot f i n).
Proof. intros Hf. revert i. induction n; intros i; cbn [each_slot]; keep_code; auto. Qed.

Lemma transfer_cleanup_own n i : keeps own_keys (transfer_cleanup_from i n).
Proof.
  revert i. induction n; intros i; cbn [transfer_cleanup_from];
    unfold transfer_cleanup_slot, peer, app; keep_code; auto; done.
Qed.

(** After cleanup_peers: no conversation, no seed. *)
Lemma cleanup_peers_spec w :
  let w' := (cleanup_peers w).2 in all_ended w' /\ as_my_onion_seed (w_app w') = None.
Proof.
  unfold cleanup_peers, file_transfer_cleanup. cbv zeta. repeat rewrite bind_eq.
  match goal with |- context [each_slot _ _ _ ?x] => set (w1 := x) end. split.
  - intros i Hi. apply (cleanup_slots_ended NOX_MAX_PEERS 0); [lia|done].
  - pose proof (each_slot_own cleanup_slot NOX_MAX_PEERS 0 cleanup_slot_own w1) as E.
    apply (f_equal (fun x => x.1.1)) in E. cbn [own_keys fst snd] in E. rewrite E.
    unfold w1. match goal with |- context [transfer_cleanup_from 0 ?n ?x] => set (w2 := x) end.
    pose proof (transfer_cleanup_own NOX_MAX_PEERS 0 w2) as E2.
    apply (f_equal (fun x => x.1.1)) in E2. cbn [own_keys fst snd] in E2. rewrite E2.
    unfold w2. clear. match goal with |- context [(app as_my_onion_seed ?x).1] => set (w3 := x) end.
    cbn [app gets fst snd]. by destruct (as_my_onion_seed (w_app w3)) eqn:Es.
Qed.

(** ** The arena *)

(** The whole mapping is zero, or all of it but two guard pages. *)
Definition scrubbed (b : bytes) : Prop :=
  b = zeros (length b) \/
  exists page, NOX_ARENA_DEFAULT_SIZE + NOX_CANARY_LEN <= len b - 2 * page /\
    mem_read page (len b - 2 * page) b = zeros (Z.to_nat (len b - 2 * page)).

Definition no_arena (p : process) : Prop :=
  m_arena (p_m p) = zero_arena /\ m_map (p_m p) = None /\
  forall b, m_freed (p_m p) = Some b -> scrubbed b.

(** The arena holds a sequence of keys, the first at the address [base]. *)
Record blocks (base : Z) (bs : list bytes) (m : machine) : Prop := {
  bl_base : ArenaProofs.start (m_arena m) = base;
  bl_holds : holds m (concat bs);
  bl_sizes : Forall (fun b => length b = 32%nat) bs;
  bl_usable : NOX_ARENA_DEFAULT_SIZE <= ar_usable_size (m_arena m) <= MAX_WIPE - 16 }.

Definition arena_any (p : process) : Prop := no_arena p \/ exists base bs, blocks base bs (p_m p).

(** The address of the block after [pre]. *)
Definition at_index (base : Z) (pre : list bytes) : Z := base + 32 * Z.of_nat (length pre).

Lemma length_concat_32 (bs : list bytes) :
  Forall (fun b => length b = 32%nat) bs -> length (concat bs) = (32 * length bs)%nat.
Proof. induction 1 as [|b bs Hb _ IH]; cbn [concat length]; [lia|]. rewrite length_app. lia. Qed.

Lemma blocks_tr base bs m tr : blocks base bs m -> blocks base bs (m <| m_tr := tr |>).
Proof. intros [Hs Hh Hz Hu]. split; [done|by apply holds_tr|done|done]. Qed.

Lemma fits_key base bs m :
  blocks base bs m -> (length bs < 100)%nat ->
  fits (ar_usable_size (m_arena m)) NOX_KEY_LEN (concat bs).
Proof.
  intros [_ _ Hs [Hu _]] Hl. split; [done|]. change (round16 NOX_KEY_LEN) with 32.
  unfold len. rewrite length_concat_32 by done. unfold NOX_ARENA_DEFAULT_SIZE in Hu. lia.
Qed.

Lemma blocks_snoc base bs v m m' :
  blocks base bs m -> ArenaProofs.start (m_arena m') = base -> holds m' (concat bs ++ v) ->
  length v = 32%nat -> ar_usable_size (m_arena m') = ar_usable_size (m_arena m) ->
  blocks base (bs ++ [v]) m'.
Proof.
  intros [_ _ Hz Hu] Hs Hh Hv Hu'. split; [done| | |by rewrite Hu'].
  - rewrite concat_app. cbn [concat]. by rewrite app_nil_r.
  - apply Forall_app. split; [done|]. by repeat constructor.
Qed.

Lemma alloc_blocks base bs m :
  blocks base bs m -> (length bs < 100)%nat ->
  exists m', arena_alloc NOX_KEY_LEN m = (Return (at_index base bs), m') /\
    blocks base (bs ++ [zeros 32]) m'.
Proof.
  intros Hb Hl. pose proof (fits_key _ _ _ Hb Hl) as Hf. pose proof Hb as [Hs Hh Hz _].
  destruct (block_alloc_ok NOX_KEY_LEN m (concat bs) Hh Hf) as [Ea Hh'].
  eexists. split; [rewrite Ea; f_equal|eapply blocks_snoc; [exact Hb| |exact Hh'|done|done]; exact Hs].
  f_equal. rewrite Hs. unfold at_index, len. rewrite length_concat_32 by done. lia.
Qed.

Lemma honeypot_blocks base bs m :
  blocks base bs m -> (length bs < 100)%nat ->
  exists m' v, arena_alloc_canary NOX_KEY_LEN m = (Return (at_index base bs), m') /\
    blocks base (bs ++ [v]) m'.
Proof.
  intros Hb Hl. pose proof (fits_key _ _ _ Hb Hl) as Hf. pose proof Hb as [Hs Hh Hz _].
  destruct (honey_ok NOX_KEY_LEN m (concat bs) Hh Hf) as (m' & v & Ea & Hv & Hs' & Hu' & Hh').
  exists m', v. rewrite Ea. split.
  - do 2 f_equal. rewrite Hs. unfold at_index, len. rewrite length_concat_32 by done. lia.
  - change (round16 NOX_KEY_LEN - NOX_KEY_LEN) with 0 in Hh'.
    change (zeros (Z.to_nat 0)) with (@nil byte) in Hh'. rewrite app_nil_r in Hh'.
    eapply blocks_snoc; [exact Hb|congruence|exact Hh'| |done]. unfold len, NOX_KEY_LEN in Hv. lia.
Qed.

Lemma store_blocks base pre x suf v m :
  blocks base (pre ++ x :: suf) m -> length v = 32%nat ->
  exists m', store (at_index base pre) v m = (Return tt, m') /\ blocks base (pre ++ v :: suf) m'.
Proof.
  intros [Hs Hh Hz Hu] Hv. unfold at_index.
  pose proof Hz as [Hpre [Hx Hsuf]%Forall_cons]%Forall_app.
  assert (len (concat pre) = 32 * Z.of_nat (length pre)) as Hc
    by (unfold len; rewrite length_concat_32 by done; lia).
  rewrite concat_app in Hh. cbn [concat] in Hh.
  destruct (store_ok m (concat pre ++ x ++ concat suf) (32 * Z.of_nat (length pre)) v Hh)
    as (m' & E1 & Ea & Hh'); [lia| |].
  { rewrite !len_app. unfold len in *. lia. }
  rewrite mem_write_mid in Hh' by (unfold len in *; lia). rewrite Hs in E1.
  exists m'. split; [exact E1|]. split; rewrite ?Ea; try done.
  - by rewrite concat_app.
  - apply Forall_app. split; [done|]. by constructor.
Qed.

Lemma peek_blocks base pre x suf m :
  blocks base (pre ++ x :: suf) m ->
  mem_read (at_index base pre - ar_base (m_arena m)) NOX_KEY_LEN (mapping m) = x.
Proof.
  intros [Hs Hh Hz _]. pose proof Hz as [Hpre [Hx Hsuf]%Forall_cons]%Forall_app.
  assert (length (concat pre) = (32 * length pre)%nat) as Hc by by apply length_concat_32.
  replace (at_index base pre - ar_base (m_arena m))
    with (ar_page_size (m_arena m) + 32 * Z.of_nat (length pre))
    by (unfold at_index; unfold ArenaProofs.start in Hs; lia).
  rewrite (holds_read _ _ _ _ Hh); unfold len; rewrite ?length_concat_32 by done;
    rewrite ?length_app; unfold NOX_KEY_LEN; cbn [length]; try lia.
  rewrite concat_app. cbn [concat].
  rewrite drop_app_length' by lia. by rewrite take_app_length' by lia.
Qed.

End Frames.

(** ** The end *)

(** Nothing secret is left: the arena was scrubbed and unmapped, no PIN, no
    seed, no key, no conversation; the terminal is as it was found. *)
Record gone (p : process) : Prop := {
  g_arena : no_arena p;
  g_pin : p_pin p = None;
  g_terminal : p_termios_saved p = false;
  g_ended : all_ended (p_w p);
  g_seed : as_my_onion_seed (w_app (p_w p)) = None;
  g_db_key : as_db_key (w_app (p_w p)) = None;
  g_static : as_my_static_priv (w_app (p_w p)) = None /\ as_my_static_pub (w_app (p_w p)) = None;
  g_stdin : as_stdin_buf (w_app (p_w p)) = None }.

(** The state of the conversations and of the own keys. *)
Definition keys_are (ghost : bool) (db priv pub : option bytes) (p : process) : Prop :=
  secrets (p_w p) = (replicate NOX_MAX_PEERS idle_peer, None, ghost, (db, priv, pub, None)).

Lemma keys_ended ghost db priv pub p :
  keys_are ghost db priv pub p -> all_ended (p_w p) /\ as_my_onion_seed (w_app (p_w p)) = None.
Proof.
  intros Hk. pose proof (f_equal (fun x => x.1.1.1) Hk) as Hp. pose proof (f_equal (fun x => x.1.1.2) Hk) as Hs.
  cbn [secrets secrets_of fst snd] in Hp, Hs. split; [|exact Hs].
  intros i Hi. unfold peer_at. rewrite Hp, lookup_replicate_2 by done. done.
Qed.

Section Ends.
Context `{HOS : OS} `{HC : Crypto}.
Context (munmap_ok : munmap_works).
(** Documented behaviour: a page size is positive or the call fails, mappings
    start at a page. *)
Context (page_ok : forall tr, sr_ret (os_answer tr Sysconf) <= 2 ^ 20).
Context (mmap_ok : forall tr tr' n, let b := sr_ret (os_answer tr (Mmap n)) in
  let ps := sr_ret (os_answer tr' Sysconf) in b = -1 \/ 0 < b /\ (0 < ps -> b mod ps = 0)).
Context (dir_max : nat) (debug : bool).

Lemma wiped_scrubbed base bs p b :
  blocks base bs (p_m p) -> wiped (m_arena (p_m p)) b -> scrubbed b.
Proof.
  intros [_ [Hok _ _ _ _] _ Hu] [Hl Hr]. right. exists (ar_page_size (m_arena (p_m p))).
  pose proof (ok_total _ Hok). unfold NOX_CANARY_LEN in *.
  replace (len b - 2 * ar_page_size (m_arena (p_m p))) with
    (Z.min (ar_usable_size (m_arena (p_m p)) + 16) MAX_WIPE) by lia.
  split; [lia|exact Hr].
Qed.

Lemma destroy_arena_spec E p :
  arena_any p ->
  pwp E destroy_arena (fun _ p' => no_arena p' /\
    w_app (p_w p') = no_arena_keys (w_app (p_w p)) /\ p_pin p' = p_pin p /\
    p_termios_saved p' = p_termios_saved p) p.
Proof.
  intros Ha. apply pwp_bind. set (m := p_m p <| m_tr := w_tr (p_w p) |>).
  assert (exists m', arena_destroy m = (Return tt, m') /\ m_arena m' = zero_arena /\
    m_map m' = None /\ forall b, m_freed m' = Some b -> scrubbed b) as (m' & E1 & Hn).
  { destruct Ha as [(Hz & Hm & Hf)|(base & bs & Hb)].
    - exists m. split; [|done]. unfold arena_destroy. rewrite am_read.
      change (m_arena m) with (m_arena (p_m p)). by rewrite Hz.
    - destruct (destroy_holds m (concat bs)) as (m' & b & E1 & Hz & Hm & Hf & Hw);
        [done|apply holds_tr, Hb|]. exists m'. split_and!; try done.
      intros b' Hb'. rewrite Hf in Hb'. injection Hb' as <-. by eapply wiped_scrubbed. }
  eapply pwp_on_arena; [exact E1|]. apply pwp_on_world. split_and!; done || apply Hn.
Qed.

Lemma return_spec {A} code (Q : A -> process -> Prop) p :
  no_arena p -> p_pin p = None -> all_ended (p_w p) ->
  as_my_onion_seed (w_app (p_w p)) = None -> as_db_key (w_app (p_w p)) = None ->
  as_my_static_priv (w_app (p_w p)) = None /\ as_my_static_pub (w_app (p_w p)) = None ->
  as_stdin_buf (w_app (p_w p)) = None -> pwp gone (return_ code) Q p.
Proof.
  intros. unfold return_. apply pwp_bind, pwp_see, pwp_bind, pwp_on_world, pwp_bind, pwp_upd, pwp_quit.
  unfold restore_terminal. destruct (p_termios_saved p) eqn:Et; by split.
Qed.

(** An exit before the arena exists. *)
Lemma return_early {A} code ghost (Q : A -> process -> Prop) p :
  no_arena p -> p_pin p = None -> keys_are ghost None None None p -> pwp gone (return_ code) Q p.
Proof.
  intros Ha Hp Hk. destruct (keys_ended _ _ _ _ _ Hk) as [He Hs].
  pose proof (f_equal snd Hk) as Hk'. cbn in Hk'. injection Hk' as H1 H2 H3 H4. by apply return_spec.
Qed.

Lemma abandon_spec {A} ghost db priv pub (Q : A -> process -> Prop) p :
  arena_any p -> p_pin p = None -> keys_are ghost db priv pub p -> pwp gone abandon Q p.
Proof.
  intros Ha Hp Hk. destruct (keys_ended _ _ _ _ _ Hk) as [He Hs].
  apply pwp_bind. eapply pwp_mono; [by apply destroy_arena_spec|].
  cbn. intros _ p' (Hn & Ea & Ep & _). apply return_spec; [done|by rewrite Ep|..].
  - intros i Hi. rewrite Ea. apply (He i Hi).
  - by rewrite Ea.
  - by rewrite Ea.
  - by rewrite Ea.
  - rewrite Ea. exact (f_equal (fun x => x.2.2) Hk).
Qed.

(** cleanup, from any state of the world. *)
Lemma cleanup_spec E p :
  arena_any p -> p_pin p = None -> pwp E (cleanup debug dir_max) (fun _ => gone) p.
Proof.
  intros Ha Hp. unfold cleanup.
  apply pwp_bind. destruct debug; [apply pwp_nothing|apply pwp_on_world].
  all: apply pwp_bind, pwp_on_world, pwp_bind, pwp_see, pwp_bind, pwp_on_world, pwp_bind, pwp_upd,
    pwp_bind, pwp_on_world, pwp_bind.
  all: eapply pwp_mono; [apply destroy_arena_spec; exact Ha|].
  all: cbn beta; intros _ p' (Hn & Eapp & Epin & Eterm); apply pwp_bind, pwp_on_world, pwp_on_world.
  all: match type of Eapp with context [cleanup_peers ?w] =>
         destruct (cleanup_peers_spec w) as [He Hs] end.
  all: pose proof (cleanup_files_secrets dir_max (free_stdin (p_w p')).2) as Ek.
  all: rewrite free_stdin_secrets, Eapp in Ek; injection Ek as K1 K2 K3 K4 K5 K6 K7.
  all: split; try done.
  all: try (cbn in Epin; cbn; by rewrite Epin).
  all: try (cbn in Eterm; cbn; rewrite Eterm; unfold restore_terminal; by destruct (p_termios_saved p)).
  all: try (intros i Hi; unfold peer_at; cbn; rewrite K1; apply (He i Hi)).
  all: try (cbn; rewrite K2; exact Hs).
Qed.

(** Before the arena exists. *)
Definition early (ghost : bool) (p : process) : Prop :=
  no_arena p /\ keys_are ghost None None None p.

(** Calls change the history only. *)
Lemma pwp_trace {A} E (m : St trace A) (Q : A -> process -> Prop) p :
  (forall a tr, Q a (p <| p_w := p_w p <| w_tr := tr |> |>)) -> pwp E (on_trace m) Q p.
Proof. intros HQ. apply pwp_on_world. unfold lift_tr. destruct (m (w_tr (p_w p))). apply HQ. Qed.
Lemma pwp_pcall E c (Q : sysret -> process -> Prop) p :
  (forall r tr, Q r (p <| p_w := p_w p <| w_tr := tr |> |>)) -> pwp E (pcall c) Q p.
Proof. apply pwp_trace. Qed.
Lemma pwp_pcall_ E c (Q : unit -> process -> Prop) p :
  (forall tr, Q tt (p <| p_w := p_w p <| w_tr := tr |> |>)) -> pwp E (pcall_ c) Q p.
Proof. intros HQ. apply pwp_on_world, HQ. Qed.

(** Code that leaves the secrets alone. *)
Lemma pwp_world {A} E (m : St world A) (Q : A -> process -> Prop) p :
  keeps secrets m ->
  (forall a w, secrets w = secrets (p_w p) -> Q a (p <| p_w := w |>)) -> pwp E (on_world m) Q p.
Proof. intros Hm HQ. apply pwp_on_world, HQ, Hm. Qed.

Lemma early_world ghost w p :
  secrets w = secrets (p_w p) -> early ghost p -> early ghost (p <| p_w := w |>).
Proof. intros Hw [Ha Hk]. split; [done|]. unfold keys_are. cbn. by rewrite Hw. Qed.

Lemma return_early' {A} code ghost (Q : A -> process -> Prop) p :
  early ghost p -> p_pin p = None -> pwp gone (return_ code) Q p.
Proof. intros [Ha Hk] Hp. by eapply return_early. Qed.

(** [free_pin] and a return. *)
Lemma free_return {A} code ghost (Q : A -> process -> Prop) p :
  early ghost p -> pwp gone (_ ← free_pin; return_ code) Q p.
Proof.
  intros He. apply pwp_bind, pwp_bind, pwp_pcall_. intros tr. apply pwp_upd.
  by apply (return_early' _ ghost).
Qed.

Lemma prepare_spec nd lines ghost p :
  early ghost p -> p_pin p = None ->
  pwp gone (prepare nd lines) (fun _ p' => early ghost p' /\ p_pin p' = None) p.
Proof.
  intros He Hp. unfold prepare.
  apply pwp_bind, pwp_trace; intros _ t1. apply pwp_bind, pwp_trace; intros saved t2.
  apply pwp_bind, pwp_upd, pwp_bind, pwp_pcall; intros r t3.
  match goal with |- pwp _ _ _ ?x => set (p1 := x) end.
  assert (early ghost p1 /\ p_pin p1 = None) as [He1 Hp1] by (split; [exact He|exact Hp]).
  clearbody p1. case_match; [by apply (return_early' _ ghost)|].
  apply pwp_bind. eapply (pwp_mono _ _ (fun _ p' => early ghost p' /\ p_pin p' = None)).
  - destruct nd; [|by apply pwp_nothing]. apply pwp_bind, pwp_trace. intros [st|code] t4; [|apply pwp_in_child].
      destruct st; first [by apply pwp_nothing | by apply (return_early' _ ghost)].
  - intros _ p2 [He2 Hp2]. apply pwp_bind, pwp_world; [apply resolve_secrets|]. intros e w Hw.
    apply (early_world _ _ _ Hw) in He2. case_match; [by apply (return_early' _ ghost)|].
    apply pwp_bind, pwp_world; [apply ensure_secrets|]. intros [e' first] w' Hw'.
    apply (early_world _ _ _ Hw') in He2. case_match; [by apply (return_early' _ ghost)|by apply pwp_ret].
Qed.

Lemma enter_pin_spec first_run ghost p :
  early ghost p -> p_pin p = None ->
  pwp gone (enter_pin first_run) (fun _ => early ghost) p.
Proof.
  intros He Hp. unfold enter_pin. apply pwp_bind, pwp_pcall. intros r t1. case_match.
  - by apply (return_early' _ ghost).
  - apply pwp_bind, pwp_upd, pwp_bind, pwp_trace. intros [err buf] t2.
    apply pwp_bind, pwp_upd. case_match; [by apply pwp_nothing|by apply (free_return _ ghost)].
Qed.

Lemma make_arena_spec ghost p :
  early ghost p ->
  pwp gone make_arena (fun _ p' => exists base, blocks base [] (p_m p') /\ keys_are ghost None None None p') p.
Proof.
  intros He. unfold make_arena. apply pwp_bind, pwp_pcall. intros r0 t0. apply pwp_bind.
  eapply (pwp_mono _ _ (fun _ => early ghost)).
  { case_match; [|by apply pwp_nothing]. apply pwp_bind, pwp_pcall. intros r1 t1.
    case_match; [by apply (free_return _ ghost)|by apply pwp_nothing]. }
  intros _ p1 [Ha Hk]. apply pwp_bind. set (m := p_m p1 <| m_tr := w_tr (p_w p1) |>).
  destruct (arena_init_correct NOX_ARENA_DEFAULT_SIZE m) as (e & m' & E1 & Hr);
    [by vm_compute|apply Ha|done| |done|].
  { intros tr. transitivity (2 ^ 20); [apply page_ok|by vm_compute]. }
  eapply pwp_on_arena; [exact E1|].
  destruct Hr as [(-> & usable & [Hh Hu _ _ _] & Hsz)|(-> & [Hm Hz Hf])]; cbn [err_ok negb].
  - pose proof (page_ok (SodiumInit :: m_tr m)).
    assert (blocks (ArenaProofs.start (m_arena m')) [] m') as Hb.
    { split; cbn; [done|exact Hh|constructor|]. rewrite Hu.
      unfold NOX_ARENA_DEFAULT_SIZE, MAX_WIPE in *. cbv zeta in Hsz. lia. }
    apply pwp_bind, pwp_pcall_. intros t1. apply pwp_bind, pwp_pcall. intros r t2. case_match.
    + apply pwp_pcall_. intros t3. eexists. split; [exact Hb|exact Hk].
    + apply pwp_nothing. eexists. split; [exact Hb|exact Hk].
  - apply (free_return _ ghost). split; [|exact Hk]. destruct Ha as (Ha1 & Ha2 & Ha3). split_and!; cbn.
    + destruct Hz as [->| ->]; [exact Ha1|done].
    + exact Hm.
    + intros b Hb. destruct Hf as [Hf|[n Hf]]; rewrite Hf in Hb; [by apply Ha3|].
      injection Hb as <-. left. unfold zeros. by rewrite length_replicate.
Qed.

End Ends.

(** ** The keys *)

(** Symbolic execution: the state is written out, a step of the arena changes
    the mapping and the history. *)
Section Exec.
Context `{HOS : OS} (E : process -> Prop).

Definition arena_step (p : process) (m : machine) (tr : trace) : process :=
  p <| p_m := m |> <| p_w := p_w p <| w_tr := tr |> |>.

Lemma do_arena {A B} (c : AM A) (k : A -> PM B) Q p a m' :
  c (p_m p <| m_tr := w_tr (p_w p) |>) = (Return a, m') ->
  pwp E (k a) Q (arena_step p m' (m_tr m')) -> pwp E (mbind k (on_arena c)) Q p.
Proof. intros Ec Hk. apply pwp_bind. by eapply pwp_on_arena. Qed.

Lemma do_block {B} base bs (k : Z -> PM B) Q p :
  blocks base bs (p_m p) -> (length bs < 100)%nat ->
  (forall m tr, blocks base (bs ++ [zeros 32]) m ->
     pwp E (k (at_index base bs)) Q (arena_step p m tr)) ->
  pwp E (mbind k key_block) Q p.
Proof.
  intros Hb Hl Hk. destruct (alloc_blocks base bs (p_m p <| m_tr := w_tr (p_w p) |>)) as (m' & Ea & Hb');
    [by apply blocks_tr|done|]. by eapply do_arena; [exact Ea|apply Hk].
Qed.

Lemma do_honeypots {B} n base bs (k : PM B) Q p :
  blocks base bs (p_m p) -> (length bs + n <= 100)%nat ->
  (forall hs m tr, length hs = n -> blocks base (bs ++ hs) m -> pwp E k Q (arena_step p m tr)) ->
  pwp E (_ ← foldr (fun _ rest => _ ← on_arena (arena_alloc_canary NOX_KEY_LEN); rest) nothing
           (replicate n tt); k) Q p.
Proof.
  intros Hb Hl Hk. apply pwp_bind. revert bs p Hb Hl Hk.
  induction n as [|n IH]; intros bs p Hb Hl Hk; cbn [replicate foldr].
  - apply pwp_nothing. specialize (Hk [] (p_m p) (w_tr (p_w p)) eq_refl).
    rewrite app_nil_r in Hk. destruct p as [[]]. apply Hk, Hb.
  - destruct (honeypot_blocks base bs (p_m p <| m_tr := w_tr (p_w p) |>)) as (m' & v & Ea & Hb');
      [by apply blocks_tr|lia|]. eapply do_arena; [exact Ea|].
    eapply IH; [exact Hb'|rewrite length_app; cbn; lia|]. intros hs m tr Hn Hb2.
    rewrite <-app_assoc in Hb2. apply (Hk (v :: hs) m tr); [cbn; lia|done].
Qed.

Lemma do_scatter {B} base bs (k : PM B) Q p :
  blocks base bs (p_m p) -> (length bs <= 90)%nat ->
  (forall hs m tr, (length hs <= 3)%nat -> blocks base (bs ++ hs) m ->
     pwp E k Q (arena_step p m tr)) ->
  pwp E (_ ← scatter_honeypots 0 3; k) Q p.
Proof.
  intros Hb Hl Hk. apply pwp_bind. unfold scatter_honeypots. apply pwp_bind, pwp_pcall. intros r t0.
  cbv zeta. pose proof (Z.mod_pos_bound (sr_ret r) 4 eq_refl) as Hm.
  set (count := 0 + sr_ret r mod (3 - 0 + 1)).
  assert (0 <= count < 4) as Hc by exact Hm. clearbody count.
  apply (pwp_unbind _ _ (fun _ => k)). eapply do_honeypots; [exact Hb|lia|]. intros hs m tr Hn Hb'. apply (Hk hs m tr); [lia|done].
Qed.

Lemma do_put {B} base pre x suf v (k : unit -> PM B) Q p :
  blocks base (pre ++ x :: suf) (p_m p) -> length v = 32%nat ->
  (forall m tr, blocks base (pre ++ v :: suf) m -> pwp E (k tt) Q (arena_step p m tr)) ->
  pwp E (mbind k (put_key (at_index base pre) v)) Q p.
Proof.
  intros Hb Hv Hk. destruct (store_blocks base pre x suf v (p_m p <| m_tr := w_tr (p_w p) |>))
    as (m' & Ea & Hb'); [by apply blocks_tr|done|]. by eapply do_arena; [exact Ea|apply Hk].
Qed.

Lemma do_load {B} base pre x suf (k : bytes -> PM B) Q p :
  blocks base (pre ++ x :: suf) (p_m p) ->
  (forall m tr, blocks base (pre ++ x :: suf) m -> pwp E (k x) Q (arena_step p m tr)) ->
  pwp E (mbind k (load (at_index base pre))) Q p.
Proof.
  intros Hb Hk. eapply do_arena; [reflexivity|]. cbn beta.
  pose proof (peek_blocks base pre x suf (p_m p <| m_tr := w_tr (p_w p) |>)) as Hx.
  unfold id. cbn [m_arena]. rewrite Hx by by apply blocks_tr. apply Hk. by apply blocks_tr.
Qed.

End Exec.

(** Normalise the state. *)
Ltac tidy :=
  cbn beta;
  lazymatch goal with |- pwp ?E ?m ?Q ?p =>
    let p' := eval cbv beta iota delta
      [arena_step set_field p_w p_m p_master_key p_db_key p_session_key p_static_priv p_static_pub
       p_pin p_termios_saved w_app w_db w_tr] in p in
    change (pwp E m Q p')
  end.

Ltac reassoc := repeat first [rewrite <-app_assoc | rewrite <-app_comm_cons]; done.

(** Bring a list of blocks into the shape [pre ++ x :: suf]. *)
Ltac at_block pre x suf H :=
  match type of H with blocks _ ?l _ =>
    replace l with (pre ++ x :: suf) in H by reassoc
  end.

Ltac few := repeat (rewrite length_app || cbn [length]); lia.

Lemma at_index_length base l l' : length l = length l' -> at_index base l = at_index base l'.
Proof. unfold at_index. by intros ->. Qed.

Section KeySteps.
Context `{HOS : OS} `{HC : Crypto} `{HK : KeyCrypto} {HKL : KeyCryptoLaws HK}.
Context (munmap_ok : munmap_works).

Lemma master_key_length pin salt : length (crypto_derive_master_key pin salt).1.2 = 32%nat.
Proof.
  unfold crypto_derive_master_key. repeat case_match; try done. by eapply pwhash_length.
Qed.

Lemma subkeys_length m d u s :
  length d = 32%nat -> length u = 32%nat -> length s = 32%nat ->
  let x := crypto_derive_subkeys m d u s in
  length x.1.1.2 = 32%nat /\ length x.1.2 = 32%nat /\ length x.2 = 32%nat.
Proof.
  intros Hd Hu Hs. cbv zeta. unfold crypto_derive_subkeys, derive. repeat case_match; cbn; split_and!;
    done || by eapply kdf_length.
Qed.

(** Exits while the arena holds keys. *)
Lemma abandon_blocks {A} ghost base bs db priv pub (Q : A -> process -> Prop) p :
  blocks base bs (p_m p) -> keys_are ghost db priv pub p -> p_pin p = None -> pwp gone abandon Q p.
Proof. intros Hb Hk Hp. eapply abandon_spec; [done| |done|exact Hk]. right. eauto. Qed.

Lemma free_abandon {A} ghost base bs db priv pub (Q : A -> process -> Prop) p :
  blocks base bs (p_m p) -> keys_are ghost db priv pub p -> pwp gone (_ ← free_pin; abandon) Q p.
Proof.
  intros Hb Hk. apply pwp_bind, pwp_bind, pwp_pcall_. intros tr. apply pwp_upd.
  by eapply abandon_blocks.
Qed.

Lemma abandon_ed_blocks {A} ghost base bs db priv pub (Q : A -> process -> Prop) p :
  blocks base bs (p_m p) -> keys_are ghost db priv pub p -> p_pin p = None ->
  pwp gone abandon_ed Q p.
Proof.
  intros Hb Hk Hp. apply pwp_bind, pwp_bind, pwp_pcall_. intros t1. apply pwp_pcall_. intros t2.
  by eapply abandon_blocks.
Qed.

(** The master key, at its place between honeypots. *)
Definition with_master (ghost : bool) (base : Z) (h0 h1 : list bytes) (m : bytes) (p : process) : Prop :=
  blocks base (h0 ++ m :: h1) (p_m p) /\ keys_are ghost None None None p /\
  p_pin p = None /\ p_master_key p = at_index base h0 /\ (length h0 <= 3 /\ length h1 <= 3)%nat.

Lemma make_master_key_spec ghost base p :
  blocks base [] (p_m p) -> keys_are ghost None None None p ->
  pwp gone make_master_key (fun _ p' => exists h0 h1 m, with_master ghost base h0 h1 m p') p.
Proof.
  destruct p as [[a d tr] mc mk dk sk pr pu pin tm]. cbn [p_m]. intros Hb Hk. unfold make_master_key.
  apply pwp_bind, pwp_on_world, pwp_bind, pwp_trace. intros [err salt] t1. tidy.
  destruct (negb _); [by eapply free_abandon|].
  eapply do_scatter; [exact Hb|cbn; lia|]. intros h0 m1 t2 Hh0 Hb1. tidy.
  eapply do_block; [exact Hb1|cbn; lia|]. intros m2 t3 Hb2. tidy. cbn [Datatypes.app] in *.
  apply pwp_bind, pwp_upd. tidy.
  eapply do_scatter; [exact Hb2|few|]. intros h1 m3 t4 Hh1 Hb3. tidy.
  destruct (_ =? 0); [by eapply free_abandon|]. apply pwp_bind, pwp_see. cbn [p_pin].
  pose proof (master_key_length (cstr (default [] pin)) salt) as Hlen.
  destruct (crypto_derive_master_key _ salt) as [[err' key] wiped].
  at_block h0 (zeros 32) h1 Hb3. eapply do_put; [exact Hb3|exact Hlen|]. intros m4 t5 Hb4. tidy.
  apply pwp_bind, pwp_upd, pwp_bind, pwp_bind, pwp_pcall_. intros t6. apply pwp_upd. tidy.
  destruct (err_ok err'); [|by eapply abandon_blocks].
  apply pwp_nothing. by exists h0, h1, key.
Qed.

(** The subkeys, after the master key.  In ghost mode that is not needed any
    more. *)
Record with_subkeys (ghost : bool) (base : Z) (h0 h1 h2 h3 h4 : list bytes) (m d u s : bytes)
    (p : process) : Prop := {
  sk_blocks : blocks base (h0 ++ m :: h1 ++ d :: h2 ++ u :: h3 ++ s :: h4) (p_m p);
  sk_keys : keys_are ghost (Some d) None None p;
  sk_pin : p_pin p = None;
  sk_master : p_master_key p = if ghost then 0 else at_index base h0;
  sk_ghost : ghost = true -> m = zeros 32;
  sk_db : p_db_key p = at_index base (h0 ++ m :: h1);
  sk_session : p_session_key p = at_index base (h0 ++ m :: h1 ++ d :: h2 ++ u :: h3);
  sk_few : (length h0 <= 6 /\ length h1 <= 6 /\ length h2 <= 6 /\ length h3 <= 6 /\ length h4 <= 6)%nat }.

(** Three blocks between honeypots. *)
Lemma do_subkey_blocks {B} base bs (k : Z * Z * Z -> PM B) Q p :
  blocks base bs (p_m p) -> (length bs <= 60)%nat ->
  (forall g h2 h3 h4 mc tr, let z := zeros 32 in
     let db := at_index base (bs ++ g) in
     let session := at_index base (bs ++ g ++ z :: h2 ++ z :: h3) in
     blocks base (bs ++ g ++ z :: h2 ++ z :: h3 ++ z :: h4) mc ->
     (length g <= 3 /\ length h2 <= 3 /\ length h3 <= 3 /\ length h4 <= 3)%nat ->
     pwp gone (k (db, at_index base (bs ++ g ++ z :: h2), session)) Q
       (arena_step p mc tr <| p_db_key := db |> <| p_session_key := session |>)) ->
  pwp gone (mbind k subkey_blocks) Q p.
Proof.
  destruct p as [[a d tr] mc mk dk sk pr pu pin tm]. cbn [p_m]. intros Hb Hl Hk.
  apply pwp_bind. unfold subkey_blocks.
  eapply do_scatter; [exact Hb|lia|]. intros g m1 t1 Hg Hb1. tidy.
  eapply do_block; [exact Hb1|few|]. intros m2 t2 Hb2. tidy. apply pwp_bind, pwp_upd. tidy.
  eapply do_scatter; [exact Hb2|few|]. intros h2 m3 t3 Hh2 Hb3. tidy.
  eapply do_block; [exact Hb3|few|]. intros m4 t4 Hb4. tidy.
  eapply do_scatter; [exact Hb4|few|]. intros h3 m5 t5 Hh3 Hb5. tidy.
  eapply do_block; [exact Hb5|few|]. intros m6 t6 Hb6. tidy. apply pwp_bind, pwp_upd. tidy.
  eapply do_scatter; [exact Hb6|few|]. intros h4 m7 t7 Hh4 Hb7. tidy. apply pwp_ret.
  at_block (bs ++ g ++ zeros 32 :: h2 ++ zeros 32 :: h3) (zeros 32) h4 Hb7.
  replace ((bs ++ g ++ zeros 32 :: h2 ++ zeros 32 :: h3) ++ zeros 32 :: h4)
    with (bs ++ g ++ zeros 32 :: h2 ++ zeros 32 :: h3 ++ zeros 32 :: h4) in Hb7 by reassoc.
  specialize (Hk g h2 h3 h4 m7 t7 Hb7 ltac:(lia)).
  rewrite (at_index_length base (bs ++ g ++ zeros 32 :: h2) (((bs ++ g) ++ [zeros 32]) ++ h2)) in Hk by few.
  rewrite (at_index_length base (bs ++ g ++ zeros 32 :: h2 ++ zeros 32 :: h3)
    (((((bs ++ g) ++ [zeros 32]) ++ h2) ++ [zeros 32]) ++ h3)) in Hk by few.
  exact Hk.
Qed.

Lemma do_forget {B} E base pre x suf (k : unit -> PM B) Q p :
  blocks base (pre ++ x :: suf) (p_m p) -> p_master_key p = at_index base pre ->
  (forall m tr, blocks base (pre ++ zeros 32 :: suf) m ->
     pwp E (k tt) Q (arena_step p m tr <| p_master_key := 0 |>)) ->
  pwp E (mbind k forget_master_key) Q p.
Proof.
  intros Hb Hm Hk. apply pwp_bind. unfold forget_master_key. apply pwp_bind, pwp_see. rewrite Hm.
  eapply do_put; [exact Hb|done|]. intros m tr Hb'. apply pwp_upd, (Hk m tr Hb').
Qed.

Lemma make_subkeys_spec ghost base h0 g0 m0 p :
  with_master ghost base h0 g0 m0 p ->
  pwp gone make_subkeys (fun unlock p' => exists h1 h2 h3 h4 m d u s,
    with_subkeys ghost base h0 h1 h2 h3 h4 m d u s p' /\
    unlock = at_index base (h0 ++ m :: h1 ++ d :: h2)) p.
Proof.
  destruct p as [[a dbs tr] mc mk dk sk pr pu pin tm]. intros (Hb & Hk & Hp & Hm & Hl).
  cbn [p_m p_pin p_master_key] in Hb, Hp, Hm. subst pin mk. unfold make_subkeys.
  eapply do_subkey_blocks; [exact Hb|few|]. intros g h2 h3 h4 m1 t1 z db session Hb1 Hfew. tidy.
  destruct (_ || _); [by eapply abandon_blocks|]. apply pwp_bind, pwp_see. cbn [p_master_key].
  at_block h0 m0 ((g0 ++ g) ++ z :: h2 ++ z :: h3 ++ z :: h4) Hb1.
  set (h1 := g0 ++ g) in *. assert (length h1 <= 6)%nat as Hh1 by (unfold h1; few).
  eapply do_load; [exact Hb1|]. intros m2 t2 Hb2. tidy. clear Hb1.
  rewrite (at_index_length base ((h0 ++ m0 :: g0) ++ g ++ z :: h2) (h0 ++ m0 :: h1 ++ z :: h2))
    by (unfold h1; few).
  assert (db = at_index base (h0 ++ m0 :: h1)) as -> by (apply at_index_length; unfold h1; few).
  assert (session = at_index base (h0 ++ m0 :: h1 ++ z :: h2 ++ z :: h3)) as ->
    by (apply at_index_length; unfold h1; few).
  clearbody h1.
  at_block (h0 ++ m0 :: h1) z (h2 ++ z :: h3 ++ z :: h4) Hb2.
  eapply do_load; [exact Hb2|]. intros m3 t3 Hb3. tidy.
  at_block (h0 ++ m0 :: h1 ++ z :: h2) z (h3 ++ z :: h4) Hb3.
  eapply do_load; [exact Hb3|]. intros m4 t4 Hb4. tidy.
  at_block (h0 ++ m0 :: h1 ++ z :: h2 ++ z :: h3) z h4 Hb4.
  eapply do_load; [exact Hb4|]. intros m5 t5 Hb5. tidy.
  destruct (subkeys_length m0 z z z) as (Ld & Lu & Ls); [done|done|done|].
  destruct (crypto_derive_subkeys m0 z z z) as [[[err d] u] s]. cbn [fst snd] in Ld, Lu, Ls.
  at_block (h0 ++ m0 :: h1) z (h2 ++ z :: h3 ++ z :: h4) Hb5.
  eapply do_put; [exact Hb5|exact Ld|]. intros m6 t6 Hb6. tidy.
  at_block (h0 ++ m0 :: h1 ++ d :: h2) z (h3 ++ z :: h4) Hb6.
  rewrite (at_index_length base (h0 ++ m0 :: h1 ++ z :: h2) (h0 ++ m0 :: h1 ++ d :: h2)) by few.
  eapply do_put; [exact Hb6|exact Lu|]. intros m7 t7 Hb7. tidy.
  at_block (h0 ++ m0 :: h1 ++ d :: h2 ++ u :: h3) z h4 Hb7.
  rewrite (at_index_length base (h0 ++ m0 :: h1 ++ z :: h2 ++ z :: h3)
    (h0 ++ m0 :: h1 ++ d :: h2 ++ u :: h3)) by few.
  eapply do_put; [exact Hb7|exact Ls|]. intros m8 t8 Hb8. tidy.
  at_block h0 m0 (h1 ++ d :: h2 ++ u :: h3 ++ s :: h4) Hb8.
  apply pwp_bind, pwp_on_world. cbv beta iota delta [upd_app modify fst snd]. tidy.
  assert (keys_are ghost (Some d) None None
    (Process (World (a <| as_db_key := Some d |>) dbs t8) m8 0 0 0 0 0 None false)) as Hk8.
  { unfold keys_are, secrets, secrets_of in *. cbn in *. injection Hk as -> -> -> _ -> -> ->. done. }
  destruct (negb _); [by eapply abandon_blocks|].
  apply pwp_bind, pwp_on_world.
  replace (app as_ghost_mode _).1 with ghost by (symmetry; exact (f_equal (fun x => x.1.2) Hk)).
  destruct ghost.
  - eapply do_forget; [exact Hb8|done|]. intros m9 t9 Hb9. tidy. apply pwp_ret.
    exists h1, h2, h3, h4, (zeros 32), d, u, s. split; [split; try done; lia || apply at_index_length; few|].
    apply at_index_length; few.
  - apply pwp_bind, pwp_nothing, pwp_ret. exists h1, h2, h3, h4, m0, d, u, s.
    split; [split; done || lia|done].
Qed.

(** All keys, when step 11 is over: the block of identity_unlock is zero. *)
Record with_identity (ghost : bool) (base : Z) (h0 h1 h2 h3 h4 h5 : list bytes)
    (m d s priv pub : bytes) (p : process) : Prop := {
  id_blocks : blocks base (h0 ++ m :: h1 ++ d :: h2 ++ zeros 32 :: h3 ++ s :: h4 ++ priv :: h5 ++ [pub])
    (p_m p);
  id_keys : keys_are ghost (Some d) (Some priv) (Some pub) p;
  id_pin : p_pin p = None;
  id_master : p_master_key p = if ghost then 0 else at_index base h0;
  id_ghost : ghost = true -> m = zeros 32;
  id_db : p_db_key p = at_index base (h0 ++ m :: h1);
  id_few : (length h0 <= 9 /\ length h1 <= 9 /\ length h2 <= 9 /\ length h3 <= 9 /\ length h4 <= 9 /\
            length h5 <= 9)%nat }.

Lemma do_static_blocks {B} base bs (k : Z * Z -> PM B) Q p :
  blocks base bs (p_m p) -> (length bs <= 60)%nat ->
  (forall g h5 mc tr, let z := zeros 32 in
     let priv := at_index base (bs ++ g) in let pub := at_index base (bs ++ g ++ z :: h5) in
     blocks base (bs ++ g ++ z :: h5 ++ [z]) mc -> (length g <= 3 /\ length h5 <= 3)%nat ->
     pwp gone (k (priv, pub)) Q (arena_step p mc tr <| p_static_priv := priv |> <| p_static_pub := pub |>)) ->
  pwp gone (mbind k static_blocks) Q p.
Proof.
  destruct p as [[a d tr] mc mk dk sk pr pu pin tm]. cbn [p_m]. intros Hb Hl Hk.
  apply pwp_bind. unfold static_blocks.
  eapply do_scatter; [exact Hb|lia|]. intros g m1 t1 Hg Hb1. tidy.
  eapply do_block; [exact Hb1|few|]. intros m2 t2 Hb2. tidy. apply pwp_bind, pwp_upd. tidy.
  eapply do_scatter; [exact Hb2|few|]. intros h5 m3 t3 Hh5 Hb3. tidy.
  eapply do_block; [exact Hb3|few|]. intros m4 t4 Hb4. tidy. apply pwp_bind, pwp_upd. tidy.
  apply pwp_ret. replace ((((bs ++ g) ++ [zeros 32]) ++ h5) ++ [zeros 32])
    with (bs ++ g ++ zeros 32 :: h5 ++ [zeros 32]) in Hb4 by reassoc.
  specialize (Hk g h5 m4 t4 Hb4 ltac:(lia)).
  rewrite (at_index_length base (bs ++ g ++ zeros 32 :: h5) (((bs ++ g) ++ [zeros 32]) ++ h5)) in Hk by few.
  exact Hk.
Qed.

Lemma to_curve_spec pk sk :
  let x := crypto_ed25519_to_curve25519 true true (Some pk) (Some sk) in
  length (default (zeros 32) x.1.2) = 32%nat /\ length (default (zeros 32) x.2) = 32%nat /\
  (x.1.1 = NOX_OK -> exists pub priv, x = (NOX_OK, Some pub, Some priv)).
Proof.
  cbv zeta. unfold crypto_ed25519_to_curve25519. cbn [negb andb].
  rewrite !bool_decide_eq_false_2 by done. cbn.
  destruct (pk_to_curve pk) as [pub|] eqn:Ep; cbn; [|done].
  destruct (sk_to_curve sk) as [priv|] eqn:Es; cbn; [|done].
  split_and!; [by eapply pk_to_curve_length|by eapply sk_to_curve_length|]. by exists pub, priv.
Qed.

(** The converted keys go to their blocks. *)
Lemma do_static_keys {B} base bs h5 pub priv (k : PM B) Q p :
  blocks base (bs ++ zeros 32 :: h5 ++ [zeros 32]) (p_m p) ->
  length pub = 32%nat -> length priv = 32%nat ->
  (forall m tr, blocks base (bs ++ priv :: h5 ++ [pub]) m -> pwp gone k Q (arena_step p m tr)) ->
  pwp gone (_ ← put_key (at_index base (bs ++ zeros 32 :: h5)) pub;
            _ ← put_key (at_index base bs) priv; k) Q p.
Proof.
  intros Hb Lpub Lpriv Hk. at_block (bs ++ zeros 32 :: h5) (zeros 32) (@nil bytes) Hb.
  eapply do_put; [exact Hb|exact Lpub|]. intros m1 t1 Hb1. at_block bs (zeros 32) (h5 ++ [pub]) Hb1.
  eapply do_put; [exact Hb1|exact Lpriv|]. intros m2 t2 Hb2. destruct p as [[]]. apply (Hk m2 t2 Hb2).
Qed.

(** The identity is generated on the first run only; neither that nor loading
    it touches the arena. *)
Lemma do_generate {B} (first_run : bool) ghost base bs db fd key (k : PM B) Q p :
  blocks base bs (p_m p) -> keys_are ghost db None None p -> p_pin p = None ->
  (forall tr, pwp gone k Q (p <| p_w := p_w p <| w_tr := tr |> |>)) ->
  pwp gone (_ ← (if first_run then
                   '(err, _) ← on_trace (crypto_generate_identity fd key);
                   if err_ok err then nothing else abandon_ed
                 else nothing); k) Q p.
Proof.
  intros Hb Hk Hp Hgo. apply pwp_bind. destruct first_run.
  - apply pwp_bind, pwp_trace. intros [err pk] tr.
    destruct (err_ok err); [apply pwp_nothing, Hgo|by eapply abandon_ed_blocks].
  - apply pwp_nothing. specialize (Hgo (w_tr (p_w p))). by destruct p as [[]].
Qed.

Lemma make_identity_spec first_run ghost base h0 h1 h2 h3 g4 m d u s p :
  with_subkeys ghost base h0 h1 h2 h3 g4 m d u s p ->
  pwp gone (make_identity first_run (at_index base (h0 ++ m :: h1 ++ d :: h2)))
    (fun _ p' => exists h4 h5 priv pub,
       with_identity ghost base h0 h1 h2 h3 h4 h5 m d s priv pub p') p.
Proof.
  destruct p as [[a dbs tr] mc mk dk sk pr pu pin tm]. intros [Hb Hk Hp Hm Hg Hd Hs Hf].
  cbn [p_m p_pin p_master_key p_db_key p_session_key] in *. subst pin. unfold make_identity.
  eapply do_static_blocks; [exact Hb|few|]. intros g h5 m1 t1 z priv_at pub_at Hb1 Hl. tidy.
  destruct (_ || _); [by eapply abandon_blocks|].
  apply pwp_bind, pwp_pcall. intros r1 t2. apply pwp_bind, pwp_pcall. intros r2 t3. tidy.
  destruct (_ || _); [by eapply abandon_ed_blocks|]. apply pwp_bind, pwp_on_world. tidy.
  at_block (h0 ++ m :: h1 ++ d :: h2) u (h3 ++ s :: (g4 ++ g) ++ z :: h5 ++ [z]) Hb1.
  eapply do_load; [exact Hb1|]. intros m2 t4 Hb2. tidy.
  eapply do_generate; [exact Hb2|exact Hk|done|]. intros t5. tidy.
  apply pwp_bind, pwp_trace. intros [[err ed_sk] ed_pub] t6. tidy.
  destruct (negb _); [by eapply abandon_ed_blocks|].
  destruct (to_curve_spec ed_pub ed_sk) as (Lpub & Lpriv & Hok).
  set (bs := h0 ++ m :: h1 ++ d :: h2 ++ u :: h3 ++ s :: (g4 ++ g)).
  replace ((h0 ++ m :: h1 ++ d :: h2) ++ u :: h3 ++ s :: (g4 ++ g) ++ z :: h5 ++ [z])
    with (bs ++ z :: h5 ++ [z]) in Hb2 by (unfold bs; reassoc).
  assert (priv_at = at_index base bs) as Epriv by (apply at_index_length; unfold bs; few).
  assert (pub_at = at_index base (bs ++ z :: h5)) as Epub by (apply at_index_length; unfold bs; few).
  clearbody priv_at pub_at. subst priv_at pub_at.
  destruct (crypto_ed25519_to_curve25519 true true (Some ed_pub) (Some ed_sk)) as [[e pk] sk'].
  cbn [fst snd] in Lpub, Lpriv, Hok.
  destruct (decide (e = NOX_OK)) as [->|Hne].
  2: { destruct e; [done|..]; (eapply do_static_keys; [exact Hb2|exact Lpub|exact Lpriv|]);
       intros m3 t7 Hb3; tidy; by eapply abandon_ed_blocks. }
  destruct (Hok eq_refl) as (pub & priv & [= -> ->]). cbn [default] in *. unfold id in *.
  eapply do_static_keys; [exact Hb2|exact Lpub|exact Lpriv|]. intros m3 t7 Hb3. tidy.
  apply pwp_bind, pwp_on_world. cbv beta iota delta [upd_app modify fst snd]. tidy.
  apply pwp_bind, pwp_bind, pwp_pcall_. intros t8. apply pwp_pcall_. intros t9. tidy.
  replace (bs ++ priv :: h5 ++ [pub]) with
    ((h0 ++ m :: h1 ++ d :: h2) ++ u :: h3 ++ s :: (g4 ++ g) ++ priv :: h5 ++ [pub]) in Hb3
    by (unfold bs; reassoc).
  destruct (store_blocks base (h0 ++ m :: h1 ++ d :: h2) u (h3 ++ s :: (g4 ++ g) ++ priv :: h5 ++ [pub]) (zeros 32)
    (m3 <| m_tr := t9 |>)) as (m4 & E4 & Hb4); [apply blocks_tr, Hb3|done|].
  eapply pwp_on_arena; [exact E4|]. exists (g4 ++ g), h5, priv, pub. split; cbn; try done.
  - replace (h0 ++ m :: h1 ++ d :: h2 ++ zeros 32 :: h3 ++ s :: (g4 ++ g) ++ priv :: h5 ++ [pub])
      with ((h0 ++ m :: h1 ++ d :: h2) ++ zeros 32 :: h3 ++ s :: (g4 ++ g) ++ priv :: h5 ++ [pub])
      by reassoc. exact Hb4.
  - unfold keys_are, secrets, secrets_of in *. cbn in *. injection Hk as -> -> -> -> _ _ ->. done.
  - few.
Qed.

End KeySteps.

(** ** Tor *)

(** The arena from step 11 on, block by block.  Between the keys lie honeypots
    only; the block of the master key holds the key or zeros. *)
Definition keyring (ghost live : bool) (seed : option bytes) (p : process) : Prop :=
  exists base h0 h1 h2 h3 h4 h5 m d s priv pub,
    blocks base (h0 ++ m :: h1 ++ d :: h2 ++ zeros 32 :: h3 ++ s :: h4 ++ priv :: h5 ++ [pub]) (p_m p) /\
    (length h0 <= 9 /\ length h1 <= 9 /\ length h2 <= 9 /\ length h3 <= 9 /\ length h4 <= 9 /\
     length h5 <= 9)%nat /\
    secrets (p_w p) =
      (replicate NOX_MAX_PEERS idle_peer, seed, ghost, (Some d, Some priv, Some pub, None)) /\
    p_pin p = None /\ p_master_key p = (if live then at_index base h0 else 0) /\
    (live = false -> m = zeros 32) /\ p_db_key p = at_index base (h0 ++ m :: h1).

Lemma identity_keyring ghost base h0 h1 h2 h3 h4 h5 m d s priv pub p :
  with_identity ghost base h0 h1 h2 h3 h4 h5 m d s priv pub p -> keyring ghost (negb ghost) None p.
Proof.
  intros [Hb Hk Hp Hm Hg Hd Hf]. exists base, h0, h1, h2, h3, h4, h5, m, d, s, priv, pub.
  split_and!; try done; try lia; by destruct ghost; auto.
Qed.

Lemma keyring_any ghost live seed p : keyring ghost live seed p -> arena_any p /\ p_pin p = None.
Proof. intros (? & ? & ? & ? & ? & ? & ? & ? & ? & ? & ? & ? & Hb & _ & _ & Hp & _). split; [right|]; eauto. Qed.

Lemma keyring_world ghost live seed p w :
  secrets w = secrets (p_w p) -> keyring ghost live seed p -> keyring ghost live seed (p <| p_w := w |>).
Proof.
  intros Hw (base & h0 & h1 & h2 & h3 & h4 & h5 & m & d & s & priv & pub & Hb & Hf & Hs & H).
  exists base, h0, h1, h2, h3, h4, h5, m, d, s, priv, pub. split_and!; try apply H; try apply Hf; [done|].
  cbn [p_w]. by rewrite <-Hs, <-Hw.
Qed.

Lemma keyring_seed ghost live seed sd p :
  keyring ghost live seed p ->
  keyring ghost live (Some sd)
    (p <| p_w := (upd_app (fun a => a <| as_my_onion_seed := Some sd |>) (p_w p)).2 |>).
Proof.
  intros (base & h0 & h1 & h2 & h3 & h4 & h5 & m & d & s & priv & pub & Hb & Hf & Hs & H).
  exists base, h0, h1, h2, h3, h4, h5, m, d, s, priv, pub. split_and!; try apply H; try apply Hf; [done|].
  unfold secrets, secrets_of in *. cbn in *. by injection Hs as -> _ -> -> -> -> ->.
Qed.

(** With the database, which is open with its key unless in ghost mode. *)
Definition working (ghost live : bool) (seed : option bytes) (p : process) : Prop :=
  keyring ghost live seed p /\
  (ghost = false -> db_ready (w_db (p_w p)) = true /\ db_key (w_db (p_w p)) = as_db_key (w_app (p_w p))).

Lemma db_key_secrets w w' : secrets w' = secrets w -> as_db_key (w_app w') = as_db_key (w_app w).
Proof. intros Hs. exact (f_equal (fun x => x.2.1.1.1) Hs). Qed.

Lemma working_world ghost live seed p w :
  secrets w = secrets (p_w p) -> w_db w = w_db (p_w p) ->
  working ghost live seed p -> working ghost live seed (p <| p_w := w |>).
Proof.
  intros Hs Hd [Hk Hr]. split; [by apply keyring_world|]. cbn [p_w]. intros Hg.
  destruct (Hr Hg) as [H1 H2].
  change (db_ready (w_db w) = true /\ db_key (w_db w) = as_db_key (w_app w)).
  by rewrite Hd, (db_key_secrets _ _ Hs).
Qed.

Section TorSteps.
Context `{HOS : OS} `{HC : Crypto} `{HK : KeyCrypto} {HKL : KeyCryptoLaws HK} `{HB : Base64}.
Context (munmap_ok : munmap_works) (dir_max : nat) (ndebug debug : bool).
Context (headers : String.string -> bool).

Lemma pwp_working {A} E ghost live seed (m : St world A) (Q : A -> process -> Prop) p :
  keeps secrets m -> keeps w_db m -> working ghost live seed p ->
  (forall a p', working ghost live seed p' -> Q a p') -> pwp E (on_world m) Q p.
Proof. intros Hs Hd Hw HQ. apply pwp_on_world, HQ. by apply working_world; [apply Hs|apply Hd|]. Qed.

Lemma working_trace {A} E ghost live seed (m : St trace A) (Q : A -> process -> Prop) p :
  working ghost live seed p -> (forall a p', working ghost live seed p' -> Q a p') ->
  pwp E (on_trace m) Q p.
Proof. apply pwp_working; apply keeps_lift; typeclasses eauto. Qed.

(** ** The exits with cleanup *)

Lemma cleanup_quit {A} code (Q : A -> process -> Prop) p :
  arena_any p -> p_pin p = None -> pwp gone (_ ← cleanup debug dir_max; quit code) Q p.
Proof. intros Ha Hp. apply pwp_bind. eapply pwp_mono; [by apply cleanup_spec|]. intros a p' Hg. exact Hg. Qed.

Lemma return_gone {A} code (Q : A -> process -> Prop) p : gone p -> pwp gone (return_ code) Q p.
Proof. intros [? ? ? ? ? ? ?]. by apply return_spec. Qed.

Lemma cleanup_return {A} code (Q : A -> process -> Prop) p :
  arena_any p -> p_pin p = None -> pwp gone (_ ← cleanup debug dir_max; return_ code) Q p.
Proof. intros Ha Hp. apply pwp_bind. eapply pwp_mono; [by apply cleanup_spec|]. intros a p'. apply return_gone. Qed.

Lemma fatal_spec {A} (Q : A -> process -> Prop) p :
  arena_any p -> p_pin p = None -> pwp gone (fatal debug dir_max) Q p.
Proof.
  intros Ha Hp. unfold fatal, shutting_down. apply pwp_bind, pwp_bind, pwp_pcall. intros r tr.
  apply pwp_ret. destruct (negb _); by apply cleanup_quit.
Qed.

Lemma must_spec err (Q : unit -> process -> Prop) p :
  arena_any p -> p_pin p = None -> (err = NOX_OK -> Q tt p) -> pwp gone (must debug dir_max err) Q p.
Proof.
  intros Ha Hp HQ. unfold must. destruct err; cbn [err_ok]; [by apply pwp_nothing, HQ|..];
    by apply fatal_spec.
Qed.

Lemma stop_spec (Q : unit -> process -> Prop) p :
  arena_any p -> p_pin p = None -> (forall tr, Q tt (p <| p_w := p_w p <| w_tr := tr |> |>)) ->
  pwp gone (stop_if_shutting_down debug dir_max) Q p.
Proof.
  intros Ha Hp HQ. unfold stop_if_shutting_down, shutting_down. apply pwp_bind, pwp_bind, pwp_pcall.
  intros r tr. apply pwp_ret. destruct (negb _); [by apply cleanup_quit|apply pwp_nothing, HQ].
Qed.

(** The same for a state that works. *)
Lemma must_working ghost live seed err (Q : unit -> process -> Prop) p :
  working ghost live seed p -> (err = NOX_OK -> Q tt p) -> pwp gone (must debug dir_max err) Q p.
Proof. intros [Hk _]. apply keyring_any in Hk as [Ha Hp]. by apply must_spec. Qed.
Lemma stop_working ghost live seed (Q : unit -> process -> Prop) p :
  working ghost live seed p -> (forall p', working ghost live seed p' -> Q tt p') ->
  pwp gone (stop_if_shutting_down debug dir_max) Q p.
Proof.
  intros Hw HQ. destruct (keyring_any _ _ _ _ (proj1 Hw)) as [Ha Hp]. apply stop_spec; [done|done|].
  intros tr. apply HQ. by apply working_world.
Qed.

(** ** The steps *)

(** What follows the identity: the transport and the database. *)
Lemma db_init_ok d fd k w :
  (db_init d fd k w).1 = NOX_OK ->
  db_ready (w_db (db_init d fd k w).2) = true /\ db_key (w_db (db_init d fd k w).2) = Some k.
Proof.
  set (P := fun w => db_key (w_db w) = Some k).
  assert (forall (A : Type) (m : St world A), keeps w_db m -> hoare P m (fun _ => P)) as Hkeep
    by (intros A m Hm w0 H0; unfold P; by rewrite Hm).
  assert (forall p f, hoare P (db_open p f) (fun e w => e = NOX_OK ->
    db_ready (w_db w) = true /\ db_key (w_db w) = Some k)) as Ho.
  { intros p f. unfold db_open. case_match; [by intros ? ?|].
    apply hoare_keep; [apply Hkeep; unfold db_verify_file; keep_code|]. intros [|]; [|by intros ? ?].
    apply hoare_keep; [apply Hkeep; keep_code|]. intros r. case_match; [by intros ? ?|].
    apply hoare_keep; [apply Hkeep; keep_code|]. intros _.
    apply hoare_keep; [apply Hkeep, db_schema_db|]. intros e. case_match; [by intros ? ?; destruct e|].
    apply hoare_keep; [apply Hkeep; unfold db_exec_sql; keep_code|]. intros _ ? ? _. by split. }
  unfold db_init. rewrite bind_eq. cbn [gets fst snd]. destruct (db_ready (w_db w)); [done|].
  rewrite bind_eq. by apply Ho.
Qed.

Lemma open_database_spec ghost p :
  keyring ghost (negb ghost) None p ->
  pwp gone open_database (fun _ p' => working ghost (negb ghost) None p') p.
Proof.
  intros Hk. unfold open_database. apply pwp_bind, pwp_on_world.
  pose proof Hk as (base & h0 & h1 & h2 & h3 & h4 & h5 & m & d & s & priv & pub & Hb & Hf & Hs & Hp & Hm & Hz & Hd).
  replace (app as_ghost_mode (p_w p)).1 with ghost by (symmetry; exact (f_equal (fun x => x.1.2) Hs)).
  change (p <| p_w := (app as_ghost_mode (p_w p)).2 |>) with (p <| p_w := p_w p |>).
  destruct ghost; [apply pwp_nothing; split; [by apply keyring_world|done]|].
  apply pwp_bind, pwp_on_world, pwp_bind, pwp_see. cbn beta. 
  change (p_db_key (p <| p_w := p_w p |> <| p_w := (app id (p_w (p <| p_w := p_w p |>))).2 |>)) with (p_db_key p).
  rewrite Hd. at_block (h0 ++ m :: h1) d
    (h2 ++ zeros 32 :: h3 ++ s :: h4 ++ priv :: h5 ++ [pub]) Hb.
  eapply do_load; [exact Hb|]. intros m1 t1 Hb1.
  set (p1 := arena_step _ m1 t1).
  assert (keyring false true None p1) as Hk1.
  { exists base, h0, h1, h2, h3, h4, h5, m, d, s, priv, pub. split_and!; try done; try lia.
    replace (h0 ++ m :: h1 ++ d :: h2 ++ zeros 32 :: h3 ++ s :: h4 ++ priv :: h5 ++ [pub])
      with ((h0 ++ m :: h1) ++ d :: h2 ++ zeros 32 :: h3 ++ s :: h4 ++ priv :: h5 ++ [pub]) by reassoc.
    exact Hb1. }
  apply pwp_bind, pwp_on_world.
  match goal with |- context [db_init ?x ?y ?z ?w] => pose proof (db_init_secrets x y z w) as Es;
    pose proof (db_init_ok x y z w) as Eo; destruct (db_init x y z w) as [e w'] end.
  cbn [fst snd] in *. destruct (decide (e = NOX_OK)) as [->|Hne].
  - apply pwp_nothing. split; [by apply keyring_world|]. intros _. destruct (Eo eq_refl) as [H1 H2].
    split; [exact H1|]. cbn [p_w]. change (db_key (w_db w') = as_db_key (w_app w')). rewrite H2.
    rewrite (db_key_secrets _ _ Es). symmetry. exact (f_equal (fun x => x.2.1.1.1) Hs).
  - destruct (keyring_any _ _ _ _ (keyring_world _ _ _ _ _ Es Hk1)) as [Ha _].
    destruct e; [done|..]; (eapply abandon_spec; [done|exact Ha|exact Hp|exact (eq_trans Es Hs)]).
Qed.

Lemma spawn_db : keeps w_db (tor_spawn ndebug debug dir_max).
Proof.
  unfold tor_spawn, generate_torrc, prepare_data_dir, write_torrc, drop_torrc, torrc_lines, app.
  keep_code.
Qed.

Lemma start_tor_spec ghost live seed p :
  working ghost live seed p ->
  pwp gone (start_tor ndebug debug dir_max) (fun _ => working ghost live seed) p.
Proof.
  intros Hw. unfold start_tor. apply pwp_bind.
  eapply pwp_working; [apply spawn_secrets|apply spawn_db|exact Hw|]. intros [err|code] p1 Hw1;
    [|apply pwp_in_child].
  destruct (err_ok err); [by apply pwp_nothing|]. destruct (keyring_any _ _ _ _ (proj1 Hw1)) as [Ha Hp].
  apply pwp_bind, pwp_bind, pwp_pcall. intros r tr. apply pwp_ret.
  destruct (negb _); [by apply cleanup_quit|by apply cleanup_return].
Qed.

Lemma confine_spec ghost live seed p :
  working ghost live seed p ->
  pwp gone (confine ndebug debug headers dir_max) (fun _ => working ghost live seed) p.
Proof.
  intros Hw. unfold confine.
  apply pwp_bind. eapply pwp_working; [keep_code|keep_code|exact Hw|]. intros _ p1 Hw1.
  apply pwp_bind. eapply working_trace; [exact Hw1|]. intros e p2 Hw2.
  destruct (err_ok e); [by apply pwp_nothing|]. destruct (keyring_any _ _ _ _ (proj1 Hw2)) as [Ha Hp].
  by apply cleanup_quit.
Qed.

Lemma attach_tor_spec ghost live seed p :
  working ghost live seed p ->
  pwp gone (attach_tor debug dir_max) (fun _ => working ghost live seed) p.
Proof.
  intros Hw. unfold attach_tor.
  apply pwp_bind. eapply pwp_working; [by unfold app; keep_code|by unfold app; keep_code|exact Hw|].
  intros a p1 Hw1. apply pwp_bind. eapply working_trace; [exact Hw1|]. intros e p2 Hw2.
  apply pwp_bind. eapply must_working; [exact Hw2|]. intros _.
  apply pwp_bind. eapply stop_working; [exact Hw2|]. intros p3 Hw3.
  apply pwp_bind. eapply working_trace; [exact Hw3|]. intros e' p4 Hw4.
  apply pwp_bind. eapply must_working; [exact Hw4|]. intros _.
  eapply stop_working; [exact Hw4|]. done.
Qed.

Lemma make_listener_spec ghost live seed p :
  working ghost live seed p ->
  pwp gone (make_listener debug dir_max) (fun _ => working ghost live seed) p.
Proof.
  intros Hw. unfold make_listener.
  apply pwp_bind. eapply pwp_working; [by unfold app; keep_code|by unfold app; keep_code|exact Hw|].
  intros a p1 Hw1. apply pwp_bind. eapply working_trace; [exact Hw1|]. intros [[e path] fd] p2 Hw2.
  apply pwp_bind. eapply pwp_working; [done|done|exact Hw2|]. intros _ p3 Hw3.
  by eapply must_working.
Qed.

Lemma working_seed E ghost live seed sd (Q : unit -> process -> Prop) p :
  working ghost live seed p -> (forall p', working ghost live (Some sd) p' -> Q tt p') ->
  pwp E (set_seed sd) Q p.
Proof.
  intros [Hk Hd] HQ. apply pwp_on_world, HQ. split; [by eapply keyring_seed|]. exact Hd.
Qed.

(** Reading and erasing the master key. *)
Lemma working_load {B} E seed (k : bytes -> PM B) Q p :
  working false true seed p ->
  (forall key p', working false true seed p' -> p_master_key p' = p_master_key p -> pwp E (k key) Q p') ->
  pwp E (mbind k (load (p_master_key p))) Q p.
Proof.
  intros [(base & h0 & h1 & h2 & h3 & h4 & h5 & m & d & s & priv & pub & Hb & Hf & Hs & Hp & Hm & Hr) Hd] Hk.
  rewrite Hm. eapply do_load; [exact Hb|]. intros mc tr Hb'. apply Hk; [|done]. split; [|exact Hd].
  exists base, h0, h1, h2, h3, h4, h5, m, d, s, priv, pub. split_and!; try done; lia || apply Hr.
Qed.

Lemma working_forget {B} E seed (k : unit -> PM B) Q p :
  working false true seed p -> (forall p', working false false seed p' -> pwp E (k tt) Q p') ->
  pwp E (mbind k forget_master_key) Q p.
Proof.
  intros [(base & h0 & h1 & h2 & h3 & h4 & h5 & m & d & s & priv & pub & Hb & Hf & Hs & Hp & Hm & Hz & Hdb) Hd] Hk.
  eapply do_forget; [exact Hb|exact Hm|]. intros mc tr Hb'. apply Hk. split; [|exact Hd].
  exists base, h0, h1, h2, h3, h4, h5, (zeros 32), d, s, priv, pub. split_and!; try done; try lia.
  cbn. rewrite Hdb. apply at_index_length. few.
Qed.

Lemma working_ghost ghost live seed p :
  working ghost live seed p -> as_ghost_mode (w_app (p_w p)) = ghost.
Proof.
  intros [(? & ? & ? & ? & ? & ? & ? & ? & ? & ? & ? & ? & _ & _ & Hs & _) _].
  exact (f_equal (fun x => x.1.2) Hs).
Qed.

Lemma publish_spec ghost p :
  working ghost (negb ghost) None p ->
  pwp gone (publish debug dir_max) (fun _ p' => exists seed, working ghost false (Some seed) p') p.
Proof.
  intros Hw. unfold publish. apply pwp_bind. eapply pwp_working; [keep_code|keep_code|exact Hw|].
  intros r p1 Hw1. destruct (keyring_any _ _ _ _ (proj1 Hw1)) as [Ha Hp].
  destruct (_ =? 0); [by apply cleanup_quit|].
  apply pwp_bind. eapply working_seed; [exact Hw1|]. intros p2 Hw2.
  apply pwp_bind, pwp_on_world. change (app id (p_w p2)) with (w_app (p_w p2), p_w p2). cbn [fst snd].
  apply (working_world _ _ _ _ (p_w p2) eq_refl eq_refl) in Hw2. set (p3 := p2 <| p_w := p_w p2 |>) in *.
  change (w_app (p_w p2)) with (w_app (p_w p3)). clearbody p3. clear p2.
  rewrite (working_ghost _ _ _ _ Hw2). destruct ghost; cbn [negb] in *.
  - apply pwp_bind. eapply working_trace; [exact Hw2|]. intros [[e onion] seed] p4 Hw4.
    apply pwp_bind. eapply pwp_working; [done|done|exact Hw4|]. intros _ p5 Hw5. apply pwp_bind.
    destruct seed as [sd|].
    + eapply working_seed; [exact Hw5|]. intros p6 Hw6. eapply must_working; [exact Hw6|]. eauto.
    + apply pwp_nothing. eapply must_working; [exact Hw5|]. eauto.
  - apply pwp_bind, pwp_see. eapply working_load; [exact Hw2|]. intros key p4 Hw4 _.
    destruct (crypto_derive_onion_seed key) as [e sd].
    apply pwp_bind. eapply working_seed; [exact Hw4|]. intros p5 Hw5.
    apply pwp_bind. eapply must_working; [exact Hw5|]. intros _.
    apply pwp_bind. eapply working_trace; [exact Hw5|]. intros [e' onion] p6 Hw6.
    apply pwp_bind. eapply pwp_working; [done|done|exact Hw6|]. intros _ p7 Hw7.
    eapply working_forget; [exact Hw7|]. intros p8 Hw8. eapply must_working; [exact Hw8|]. eauto.
Qed.

(** The state in which the event loop is entered. *)
Definition ready (ghost : bool) (p : process) : Prop :=
  exists seed, working ghost false (Some seed) p /\
    seed_matches seed (as_onion_addr (w_app (p_w p))) = true /\ 0 <= as_epoll_fd (w_app (p_w p)).

Lemma epoll_setup_ok fd w :
  (epoll_setup fd w).1 = NOX_OK -> 0 <= as_epoll_fd (w_app (epoll_setup fd w).2).
Proof.
  pose proof (epoll_setup_spec fd w) as Hs. destruct (epoll_setup fd w) as [e w'].
  cbn [fst snd]. intros He. destruct (proj1 Hs He) as [H1 H2]. lia.
Qed.

Lemma loop_entry_spec ghost seed p :
  working ghost false (Some seed) p ->
  pwp gone (_ ← check_address debug dir_max;
            fd ← on_world (app as_listen_fd);
            err ← on_world (epoll_setup fd);
            _ ← must debug dir_max err;
            stop_if_shutting_down debug dir_max) (fun _ => ready ghost) p.
Proof.
  intros Hw. unfold check_address. apply pwp_bind, pwp_bind, pwp_on_world. cbn beta.
  apply (working_world _ _ _ _ (p_w p) eq_refl eq_refl) in Hw.
  change (p <| p_w := (app id (p_w p)).2 |>) with (p <| p_w := p_w p |>).
  change (app id (p_w p)).1 with (w_app (p_w (p <| p_w := p_w p |>))).
  set (p1 := p <| p_w := p_w p |>) in *. clearbody p1. clear p.
  assert (as_my_onion_seed (w_app (p_w p1)) = Some seed) as Hseed.
  { destruct Hw as [(? & ? & ? & ? & ? & ? & ? & ? & ? & ? & ? & ? & _ & _ & Hs & _) _].
    exact (f_equal (fun x => x.1.1.2) Hs). }
  rewrite Hseed. cbn [default]. unfold id. destruct (keyring_any _ _ _ _ (proj1 Hw)) as [Ha Hp].
  destruct (seed_matches _ _) eqn:Em; [apply pwp_nothing|by apply cleanup_quit].
  apply pwp_bind, pwp_on_world, pwp_bind, pwp_on_world. cbn beta.
  set (fd := (app as_listen_fd (p_w p1)).1).
  change (p_w (p1 <| p_w := (app as_listen_fd (p_w p1)).2 |>)) with (p_w p1).
  pose proof (epoll_setup_ok fd (p_w p1)) as He.
  assert (as_onion_addr (w_app (epoll_setup fd (p_w p1)).2) = as_onion_addr (w_app (p_w p1))) as Eaddr.
  { apply (ltac:(unfold epoll_setup, epoll_add_fd; keep_code; done)
             : keeps (fun w => as_onion_addr (w_app w)) (epoll_setup fd)). }
  pose proof (epoll_setup_secrets fd (p_w p1)) as Es.
  assert (w_db (epoll_setup fd (p_w p1)).2 = w_db (p_w p1)) as Ed
    by apply (ltac:(unfold epoll_setup, epoll_add_fd; keep_code) : keeps w_db (epoll_setup fd)).
  destruct (epoll_setup fd (p_w p1)) as [e w2]. cbn [fst snd] in *.
  pose proof (working_world _ _ _ _ w2 Es Ed Hw) as Hw2.
  apply pwp_bind. eapply must_working; [exact Hw2|]. intros ->.
  destruct (keyring_any _ _ _ _ (proj1 Hw2)) as [Ha2 Hp2].
  apply stop_spec; [exact Ha2|exact Hp2|]. intros tr. exists seed.
  assert (working ghost false (Some seed) (p1 <| p_w := w2 |> <| p_w := w2 <| w_tr := tr |> |>)) as Hw3
    by by apply working_world.
  split_and!; [exact Hw3| |by apply He].
  cbn. by rewrite Eaddr.
Qed.

End TorSteps.

(** ** The whole *)

Section Run.
Context `{HOS : OS} `{HC : Crypto} `{HK : KeyCrypto} {HKL : KeyCryptoLaws HK} `{HB : Base64}.
Context (munmap_ok : munmap_works).
Context (page_ok : forall tr, sr_ret (os_answer tr Sysconf) <= 2 ^ 20).
Context (mmap_ok : forall tr tr' n, let b := sr_ret (os_answer tr (Mmap n)) in
  let ps := sr_ret (os_answer tr' Sysconf) in b = -1 \/ 0 < b /\ (0 < ps -> b mod ps = 0)).
Context (ioctl_dev scope ndebug debug : bool) (headers : String.string -> bool).
Context (dir_max status_lines : nat).

Lemma start_spec first_run ghost p :
  early ghost p -> p_pin p = None ->
  pwp gone (Main.start ndebug debug headers dir_max first_run) (fun _ => ready ghost) p.
Proof.
  intros He Hp. unfold Main.start.
  apply pwp_bind. eapply pwp_mono; [apply (enter_pin_spec _ ghost); done|]. intros ? p1 He1.
  apply pwp_bind. eapply pwp_mono; [apply (make_arena_spec munmap_ok page_ok mmap_ok ghost); exact He1|].
  intros ? p2 (base & Hb & Hk).
  apply pwp_bind. eapply pwp_mono; [apply (make_master_key_spec munmap_ok ghost); [exact Hb|exact Hk]|].
  intros ? p3 (h0 & h1 & m & Hm).
  apply pwp_bind. eapply pwp_mono; [eapply (make_subkeys_spec munmap_ok); exact Hm|].
  intros unlock p4 (g1 & h2 & h3 & h4 & m' & d & u & s & Hs & ->).
  apply pwp_bind. eapply pwp_mono; [eapply (make_identity_spec munmap_ok); exact Hs|].
  intros ? p5 (g4 & h5 & priv & pub & Hid%identity_keyring).
  apply pwp_bind, pwp_world; [apply transport_secrets|]. intros ? w Hw.
  apply (keyring_world _ _ _ _ _ Hw) in Hid. destruct (keyring_any _ _ _ _ Hid) as [Ha5 Hp5].
  apply pwp_bind, pwp_bind, pwp_pcall. intros r tr. apply pwp_ret, pwp_bind.
  destruct (negb (sr_ret r =? 0)); [by apply cleanup_return|apply pwp_nothing].
  apply (keyring_world _ _ _ _ (w <| w_tr := tr |>) eq_refl) in Hid.
  apply pwp_bind. eapply pwp_mono; [apply (open_database_spec munmap_ok ghost); exact Hid|]. intros ? p6 Hw6.
  apply pwp_bind. eapply pwp_mono; [eapply start_tor_spec; [done|exact Hw6]|]. intros ? p7 Hw7.
  apply pwp_bind. eapply stop_working; [done|exact Hw7|]. intros p8 Hw8.
  apply pwp_bind. eapply pwp_mono; [eapply confine_spec; [done|exact Hw8]|]. intros ? p9 Hw9.
  apply pwp_bind. eapply stop_working; [done|exact Hw9|]. intros p10 Hw10.
  apply pwp_bind. eapply pwp_mono; [eapply attach_tor_spec; [done|exact Hw10]|]. intros ? p11 Hw11.
  apply pwp_bind. eapply pwp_mono; [eapply make_listener_spec; [done|exact Hw11]|]. intros ? p12 Hw12.
  apply pwp_bind. eapply pwp_mono; [eapply publish_spec; [done|exact Hw12]|]. intros ? p13 (seed & Hw13).
  by eapply loop_entry_spec.
Qed.

(** A process as the kernel starts it. *)
Record blank_process (p : process) : Prop := {
  bp_arena : no_arena p;
  bp_pin : p_pin p = None;
  bp_terminal : p_termios_saved p = false;
  bp_keys : exists ghost, keys_are ghost None None None p }.

Lemma constructors_spec stage1_first p :
  blank_process p ->
  pwp gone (constructors ndebug headers stage1_first) (fun _ => blank_process) p.
Proof.
  assert (forall m q, blank_process q -> pwp gone (constructor m) (fun _ => blank_process) q) as Hc.
  { intros m q [Ha Hp Ht [g Hk]]. unfold constructor. apply pwp_bind, pwp_trace. intros [code|] tr.
    - apply pwp_quit. destruct (keys_ended _ _ _ _ _ Hk) as [He Hs].
      pose proof (f_equal snd Hk) as Hk'. cbn in Hk'. injection Hk' as H1 H2 H3 H4. by split.
    - apply pwp_nothing. split; try done. by exists g. }
  intros Hb. unfold constructors. destruct stage1_first; apply pwp_bind;
    (eapply pwp_mono; [apply Hc, Hb|]); intros ? q; apply Hc.
Qed.

Lemma initialise_spec args p :
  blank_process p ->
  pwp gone (initialise ndebug debug headers dir_max status_lines args)
    (fun _ => ready (wants_ghost args)) p.
Proof.
  intros [Ha Hp Ht _]. unfold initialise. apply pwp_bind, pwp_on_world.
  match goal with |- pwp _ _ _ ?x => set (p1 := x) end.
  assert (early (wants_ghost args) p1 /\ p_pin p1 = None) as [He1 Hp1] by done. clearbody p1.
  destruct (wants_cleankeys args).
  - apply pwp_bind, pwp_world; [apply cleankeys_secrets|]. intros code w Hw.
    by apply (return_early' _ (wants_ghost args)); [apply early_world|].
  - apply pwp_bind. eapply pwp_mono; [by apply (prepare_spec _ _ (wants_ghost args))|].
    intros first p2 [He2 Hp2]. by apply start_spec.
Qed.

(** The loop leaves the arena alone, or it has been destroyed after it. *)
Lemma run_loop_spec stdin rounds p :
  arena_any p -> p_pin p = None ->
  pwp gone (run_loop ioctl_dev scope ndebug headers stdin rounds)
    (fun _ p' => arena_any p' /\ p_pin p' = None) p.
Proof.
  intros Ha Hp. unfold run_loop. apply pwp_bind, pwp_on_world, pwp_bind, pwp_on_world.
  destruct (app as_db_key _).1; [by apply pwp_nothing|].
  eapply pwp_mono; [by apply destroy_arena_spec|]. intros ? p' (Hn & _ & Ep & _).
  split; [by left|]. by rewrite Ep.
Qed.


(** C12 When start-up reaches the event loop, everything is in place: the arena
    consists of the blocks of the database key, the session key and the two
    static keys, which the application state shows, the zeroed blocks of the
    master key and of identity_unlock, and honeypots; the PIN is gone and the
    pointer to the master key is NULL; the sixteen slots are idle; the onion
    address is the one of the seed; epoll is set up; and the database is open
    with the database key, except in ghost mode. *)
Theorem loop_entered_ready stage1_first args p p' :
  blank_process p ->
  (_ ← constructors ndebug headers stage1_first;
   initialise ndebug debug headers dir_max status_lines args) p = (Go tt, p') ->
  ready (wants_ghost args) p'.
Proof.
  intros Hb E. enough (pwp gone (_ ← constructors ndebug headers stage1_first;
    initialise ndebug debug headers dir_max status_lines args) (fun _ => ready (wants_ghost args)) p) as H.
  { unfold pwp in H. by rewrite E in H. }
  apply pwp_bind. eapply pwp_mono; [by apply constructors_spec|]. intros ? p1 Hb1.
  by apply initialise_spec.
Qed.

End Run.

(** ** A complete run

    A second start of a user whose PIN is "12345678": the files are there, Tor
    answers, nothing is typed, the shutdown is clean. *)

Module Demo.

Definition pin : bytes := lit "12345678".
Definition salt : bytes := replicate 16 Byte.x05.
Definition master : bytes := default [] (@pwhash toy_keys pin salt).
Definition unlock : bytes := default [] (@derive toy_keys NOX_SUBKEY_IDENTITY_UNLOCK master).
Definition secret : bytes := replicate 32 Byte.x31 ++ replicate 32 Byte.x32.
Definition identity : bytes := zeros 24 ++ default [] (@secretbox toy_crypto unlock (zeros 24) secret).
Definition seed : bytes := (@crypto_derive_onion_seed toy_keys master).2.
Definition service : bytes := take 56 (@onion_address toy_crypto (@ed25519_pub toy_crypto seed)).
Definition line (s : bytes) : bytes := s ++ CRLF.
Definition replies : bytes :=
  line (lit "250 OK") ++
  line (lit "250-status/bootstrap-phase=NOTICE BOOTSTRAP PROGRESS=100 TAG=done") ++ line (lit "250 OK") ++
  line (lit "250-ServiceID=" ++ service) ++ line (lit "250 OK").

(** What can be read, by descriptor. *)
Definition content (fd : Z) : bytes :=
  if fd =? 0 then pin ++ [LF]
  else if fd =? 8 then salt
  else if fd =? 9 then identity
  else if fd =? 13 then replicate 32 Byte.x09
  else if fd =? 21 then replies
  else [].

Definition sockets (tr : trace) : Z :=
  len (filter (fun c => match c with Socket => true | _ => false end = true) tr).
Definition killed (tr : trace) : bool :=
  existsb (fun c => match c with Kill _ _ => true | _ => false end) tr.

Definition os : OS := fun tr c =>
  match c with
  | Getenv _ | Realpath _ => SysRet 1 0 (lit "/home/u")
  | LstatMode _ => SysRet S_IFDIR 0 []
  | FstatatMode _ _ => SysRet S_IFREG 0 []
  | OpenPath _ flags => SysRet (if flags =? OPEN_DIR then 6 else 13) 0 []
  | Openat _ name flags =>
      SysRet (if bytes_eqb name SALT_NAME then 8 else if bytes_eqb name IDENTITY_NAME then 9
              else if flags =? OPEN_DIR then 11 else 12) 0 []
  | StatField fd St_mode => SysRet (if fd =? 11 then S_IFDIR else S_IFREG) 0 []
  | StatField fd St_size => SysRet (len (content fd)) 0 []
  | StatField _ Cred_len => SysRet 12 0 []
  | StatField _ Cred_pid => SysRet 100 0 []
  | Tcgetattr => SysRet (-1) 25 []
  | RlimCur => SysRet (2 ^ 30) 0 []
  | RandomUniform n => SysRet 1 0 []
  | Sysconf => SysRet 4096 0 []
  | Mmap _ => SysRet 65536 0 []
  | ScmpInit => SysRet 1 0 []
  | LandlockVersion => SysRet 6 0 []
  | Getpid => SysRet 4711 0 []
  | Fork => SysRet 100 0 []
  | Waitpid _ _ => SysRet (if killed tr then 100 else 0) 0 []
  | Socket => SysRet (20 + sockets tr) 0 []
  | Poll _ _ _ => SysRet 1 0 []
  | EpollCreate => SysRet 3 0 []
  | Read fd n =>
      match content fd !! taken fd (content fd) tr with
      | Some b => if 1 <=? n then SysRet 1 0 [b] else SysRet 0 0 []
      | None => SysRet 0 0 []
      end
  | _ => kind_os tr c
  end.

Definition blank_app : app_state := main_state false false.
Definition process : Main.process :=
  Process (World blank_app (DbState false None [] [] 1 [] 1) []) ArenaProofs.blank 0 0 0 0 0 None false.

Abbreviation ready_state :=
  ((_ ← @constructors os false (fun _ => true) true;
    @initialise os toy_crypto toy_keys demo_b64 false false (fun _ => true) 5 5 []) process).
Abbreviation run_state :=
  (@run os toy_crypto toy_keys demo_b64 true true false false (fun _ => true) 5 5 true [] 10 [] process).

Lemma blank : blank_process process.
Proof. split; [by split|done|done|by exists false]. Qed.

End Demo.

Lemma demo_unmaps : @munmap_works Demo.os.
Proof. intros tr n. reflexivity. Qed.
Lemma demo_pages tr : sr_ret (@os_answer Demo.os tr Sysconf) <= 2 ^ 20.
Proof. by vm_compute. Qed.
Lemma demo_maps tr tr' n : let b := sr_ret (@os_answer Demo.os tr (Mmap n)) in
  let ps := sr_ret (@os_answer Demo.os tr' Sysconf) in b = -1 \/ 0 < b /\ (0 < ps -> b mod ps = 0).
Proof. right. split; [done|]. intros _. reflexivity. Qed.

Lemma pair_snd {A B} (x : A * B) a : x.1 = a -> x = (a, x.2).
Proof. destruct x. by intros [= ->]. Qed.

Lemma loop_entered_ready_witness :
  Demo.ready_state.1 = Go tt /\ @ready toy_crypto toy_keys (wants_ghost []) Demo.ready_state.2.
Proof.
  assert (Demo.ready_state.1 = Go tt) as E by (vm_compute; reflexivity). split; [exact E|].
  pose proof (@loop_entered_ready Demo.os toy_crypto toy_keys _ demo_b64 demo_unmaps demo_pages demo_maps
    false false (fun _ => true) 5 5 true [] Demo.process) as H.
  exact (H _ Demo.blank (pair_snd _ _ E)).
Defined.

