(* ===== verification/LoopFilter.v ===== *)
(** * The event loop under the seccomp filter

    The filter of stage 3 kills the process for a forbidden system call, so the
    loop must never make one.  Here the whole of it, every handler and every
    command, is shown to make only calls that the filter leaves alone. *)

From S2P Require Import Prelude Primitives Types World Noise Onion Network Database.
From S2P Require Import StateMachine FileTransfer Control ControlProofs TorProcess TorProofs.
From S2P Require Import Seccomp SeccompProofs Messages EventLoop StdinHandler Input Sandbox.

(** A call of the loop: left alone by the filter, and not one that changes it. *)
Definition loop_call (c : syscall) : bool :=
  spared c && match c with ScmpLoad _ => false | _ => true end.

(** Only such calls were made between two states. *)
Definition calm (w w' : world) : Prop := grows loop_call (w_tr w) (w_tr w').

#[export] Instance calm_preorder : PreOrder calm.
Proof.
  split.
  - intros w. apply grows_refl.
  - intros x y z. apply grows_trans.
Qed.

Create HintDb calm.

Section Rules.
Context `{HOS : OS}.

Lemma calm_call c : loop_call c = true -> within calm (call c).
Proof. intros Hc w. by apply grows_cons; [apply grows_refl|]. Qed.
Lemma calm_call_ c : loop_call c = true -> within calm (call_ c).
Proof. intros Hc w. by apply grows_cons; [apply grows_refl|]. Qed.
Lemma calm_ui k s : within calm (ui k s).
Proof. by apply calm_call_. Qed.
Lemma calm_alloc n : within calm (alloc n).
Proof. intros w. by apply grows_cons; [apply grows_refl|]. Qed.
Lemma calm_now : within calm now_monotonic.
Proof. intros w. by apply grows_cons; [apply grows_refl|]. Qed.
Lemma calm_upd_app f : within calm (upd_app f).
Proof. intros w. apply grows_refl. Qed.
Lemma calm_upd_db f : within calm (upd_db f).
Proof. intros w. apply grows_refl. Qed.
Lemma calm_upd_peer i f : within calm (upd_peer i f).
Proof. intros w. apply grows_refl. Qed.
Lemma calm_app {A} (f : app_state -> A) : within calm (app f).
Proof. intros w. apply grows_refl. Qed.
Lemma calm_peer i : within calm (peer i).
Proof. intros w. apply grows_refl. Qed.
Lemma calm_lift {A} (m : St trace A) :
  (forall tr, wp m (fun _ => grows loop_call tr) tr) -> within calm (lift_tr m).
Proof. intros Hm w. specialize (Hm (w_tr w)). unfold wp in Hm. unfold lift_tr. by destruct (m (w_tr w)). Qed.

(** The same for code on the history alone. *)
Definition tcalm {A} (m : St trace A) : Prop := forall tr, grows loop_call tr (m tr).2.

Lemma tcalm_ret {A} (a : A) : tcalm (mret a).
Proof. intros tr. apply grows_refl. Qed.
Lemma tcalm_bind {A B} (m : St trace A) (k : A -> St trace B) :
  tcalm m -> (forall a, tcalm (k a)) -> tcalm (mbind k m).
Proof. intros Hm Hk tr. rewrite bind_eq. eapply grows_trans; [apply Hm|apply Hk]. Qed.
Lemma tcalm_sys c : loop_call c = true -> tcalm (sys c).
Proof. intros Hc tr. by apply grows_cons; [apply grows_refl|]. Qed.
Lemma tcalm_malloc n : tcalm (malloc_ok n).
Proof. apply tcalm_bind; [by apply tcalm_sys|intros; apply tcalm_ret]. Qed.
Lemma calm_lift_tr {A} (m : St trace A) : tcalm m -> within calm (lift_tr m).
Proof. intros Hm. by apply calm_lift. Qed.

End Rules.

#[export] Hint Resolve tcalm_ret tcalm_malloc calm_lift_tr : calm.
#[export] Hint Extern 2 (tcalm (sys _)) => apply tcalm_sys; reflexivity : calm.

Ltac tcalm_code :=
  repeat lazymatch goal with
  | |- tcalm (mbind _ _) => apply tcalm_bind; [|intros]
  | |- tcalm (mret _) => apply tcalm_ret
  | |- tcalm (match _ with _ => _ end) => case_match
  | |- tcalm _ => first [ solve [eauto with calm nocore] | progress cbv beta zeta ]
  end.

#[export] Hint Resolve calm_ui calm_alloc calm_now calm_upd_app calm_upd_db calm_upd_peer
  calm_app calm_peer : calm.
#[export] Hint Extern 2 (within calm (call _)) => apply calm_call; reflexivity : calm.
#[export] Hint Extern 2 (within calm (call_ _)) => apply calm_call_; reflexivity : calm.

Ltac calm_code := within_code ltac:(eauto with calm nocore).

(** ** The parts of the loop, bottom up *)

Section Parts.
Context `{HOS : OS} `{HC : Crypto}.

Lemma calm_epoll_add a b : within calm (epoll_add_fd a b).
Proof. unfold epoll_add_fd. calm_code. Qed.
Lemma calm_epoll_remove a b : within calm (epoll_remove_fd a b).
Proof. unfold epoll_remove_fd. calm_code. Qed.
Lemma calm_epoll_modify a b c : within calm (epoll_modify_fd a b c).
Proof. unfold epoll_modify_fd. calm_code. Qed.
Hint Resolve calm_epoll_add calm_epoll_remove calm_epoll_modify : calm.

Lemma calm_sql_ok c : loop_call c = true -> within calm (sql_ok c).
Proof. intros Hc. unfold sql_ok. within_code ltac:(by apply calm_call). Qed.
Hint Extern 2 (within calm (sql_ok _)) => apply calm_sql_ok; reflexivity : calm.
Lemma calm_bind_all i n : within calm (bind_all i n).
Proof. revert i. induction n; intros i; cbn [bind_all]; calm_code. Qed.
Hint Resolve calm_bind_all : calm.
Lemma calm_encrypt a b : within calm (encrypt_payload a b).
Proof. unfold encrypt_payload. calm_code. Qed.
Hint Resolve calm_encrypt : calm.
Lemma calm_queue_delete a : within calm (db_queue_delete a).
Proof. unfold db_queue_delete. calm_code. Qed.
Hint Resolve calm_queue_delete : calm.
Lemma calm_add_contact a b c : within calm (db_add_contact a b c).
Proof. unfold db_add_contact. calm_code. Qed.
Lemma calm_get_contact a b : within calm (db_get_contact a b).
Proof. unfold db_get_contact. calm_code. Qed.
Lemma calm_queue_message a b : within calm (db_queue_message a b).
Proof. unfold db_queue_message. calm_code. Qed.
Lemma calm_rollback a b : within calm (db_queue_rollback_last a b).
Proof. unfold db_queue_rollback_last. calm_code. Qed.
Lemma calm_queue_batch rows room : within calm (queue_batch rows room).
Proof. revert room. induction rows as [|r rows IH]; intros room; cbn [queue_batch]; calm_code. Qed.
Hint Resolve calm_add_contact calm_get_contact calm_queue_message calm_rollback calm_queue_batch : calm.
Lemma calm_queue_send batch f : (forall t, within calm (f t)) -> within calm (queue_send batch f).
Proof. intros Hf. induction batch as [|r batch IH]; cbn [queue_send]; calm_code. Qed.
Hint Resolve calm_queue_send : calm.
Lemma calm_process_queue a f : (forall t, within calm (f t)) -> within calm (db_process_queue a f).
Proof. intros Hf. unfold db_process_queue. calm_code. Qed.
Hint Resolve calm_process_queue : calm.
Lemma calm_visit_contacts rows v :
  (forall a b c, within calm (v a b c)) -> within calm (visit_contacts rows v).
Proof. intros Hv. induction rows as [|r rows IH]; cbn [visit_contacts]; calm_code. Qed.
Hint Resolve calm_visit_contacts : calm.
Lemma calm_list_contacts v : (forall a b c, within calm (v a b c)) -> within calm (db_list_contacts v).
Proof. intros Hv. unfold db_list_contacts. calm_code. Qed.
Hint Resolve calm_list_contacts : calm.

(** The handshake, and the client of the proxy. *)
Lemma tcalm_noise_hmac_blake2b_64 k d : tcalm (noise_hmac_blake2b_64 k d).
Proof. unfold noise_hmac_blake2b_64. tcalm_code. Qed.
Hint Resolve tcalm_noise_hmac_blake2b_64 : calm.
Lemma tcalm_hkdf_blake2b c i : tcalm (hkdf_blake2b c i).
Proof. unfold hkdf_blake2b. tcalm_code. Qed.
Hint Resolve tcalm_hkdf_blake2b : calm.
Lemma tcalm_symmetric_mix_key s i : tcalm (symmetric_mix_key s i).
Proof. unfold symmetric_mix_key. tcalm_code. Qed.
Hint Resolve tcalm_symmetric_mix_key : calm.
Lemma tcalm_symmetric_split s : tcalm (symmetric_split s).
Proof. unfold symmetric_split. tcalm_code. Qed.
Hint Resolve tcalm_symmetric_split : calm.
Lemma tcalm_gen_ephemeral h : tcalm (gen_ephemeral h).
Proof. unfold gen_ephemeral. tcalm_code. Qed.
Hint Resolve tcalm_gen_ephemeral : calm.
Lemma tcalm_dh_mix h p q : tcalm (dh_mix h p q).
Proof. unfold dh_mix. tcalm_code. Qed.
Hint Resolve tcalm_dh_mix : calm.
Lemma tcalm_write_msg0 h p n : tcalm (write_msg0 h p n).
Proof. unfold write_msg0. tcalm_code. Qed.
Hint Resolve tcalm_write_msg0 : calm.
Lemma tcalm_write_msg1 h p n : tcalm (write_msg1 h p n).
Proof. unfold write_msg1. tcalm_code. Qed.
Hint Resolve tcalm_write_msg1 : calm.
Lemma tcalm_write_msg2 h p n : tcalm (write_msg2 h p n).
Proof. unfold write_msg2. tcalm_code. Qed.
Hint Resolve tcalm_write_msg2 : calm.
Lemma tcalm_handshake_write h p n : tcalm (handshake_write h p n).
Proof. unfold handshake_write. tcalm_code. Qed.
Hint Resolve tcalm_handshake_write : calm.
Lemma tcalm_read_msg0 h m n : tcalm (read_msg0 h m n).
Proof. unfold read_msg0. tcalm_code. Qed.
Hint Resolve tcalm_read_msg0 : calm.
Lemma tcalm_read_msg1 h m n : tcalm (read_msg1 h m n).
Proof. unfold read_msg1. tcalm_code. Qed.
Hint Resolve tcalm_read_msg1 : calm.
Lemma tcalm_read_msg2 h m n : tcalm (read_msg2 h m n).
Proof. unfold read_msg2. tcalm_code. Qed.
Hint Resolve tcalm_read_msg2 : calm.
Lemma tcalm_handshake_read h m n : tcalm (handshake_read h m n).
Proof. unfold handshake_read. tcalm_code. Qed.
Hint Resolve tcalm_handshake_read : calm.
Lemma tcalm_handshake_split h : tcalm (handshake_split h).
Proof. unfold handshake_split. tcalm_code. Qed.
Hint Resolve tcalm_handshake_split : calm.
Lemma tcalm_clock : tcalm clock.
Proof. unfold clock. tcalm_code. Qed.
Hint Resolve tcalm_clock : calm.
Lemma tcalm_read_retry fuel fd n : tcalm (read_retry fuel fd n).
Proof. induction fuel as [|fuel IH]; cbn [read_retry]; tcalm_code. Qed.
Hint Resolve tcalm_read_retry : calm.
Lemma tcalm_write_loop fuel fd dl buf : tcalm (write_loop fuel fd dl buf).
Proof. revert buf. induction fuel as [|fuel IH]; intros [|c buf]; cbn [write_loop]; tcalm_code. Qed.
Hint Resolve tcalm_write_loop : calm.
Lemma tcalm_read_loop fuel fd n dl got : tcalm (read_loop fuel fd n dl got).
Proof. revert got. induction fuel as [|fuel IH]; intros got; cbn [read_loop]; tcalm_code. Qed.
Hint Resolve tcalm_read_loop : calm.
Lemma tcalm_write_full f b : tcalm (write_full f b).
Proof. unfold write_full. tcalm_code. Qed.
Hint Resolve tcalm_write_full : calm.
Lemma tcalm_read_full f n : tcalm (read_full f n).
Proof. unfold read_full. tcalm_code. Qed.
Hint Resolve tcalm_read_full : calm.
Lemma tcalm_socks_abort f e : tcalm (socks_abort f e).
Proof. unfold socks_abort. tcalm_code. Qed.
Hint Resolve tcalm_socks_abort : calm.
Lemma tcalm_socks_nonblocking f : tcalm (socks_nonblocking f).
Proof. unfold socks_nonblocking. tcalm_code. Qed.
Hint Resolve tcalm_socks_nonblocking : calm.
Lemma tcalm_socks_bound_length f a : tcalm (socks_bound_length f a).
Proof. unfold socks_bound_length. tcalm_code. Qed.
Hint Resolve tcalm_socks_bound_length : calm.
Lemma tcalm_socks_reply f : tcalm (socks_reply f).
Proof. unfold socks_reply. tcalm_code. Qed.
Hint Resolve tcalm_socks_reply : calm.
Lemma tcalm_socks5_connect o p s : tcalm (socks5_connect o p s).
Proof. unfold socks5_connect. tcalm_code. Qed.
Hint Resolve tcalm_socks5_connect : calm.

(** Slots, transfers and messages. *)
Lemma calm_cleanup_socket i : within calm (cleanup_socket i).
Proof. unfold cleanup_socket. calm_code. Qed.
Hint Resolve calm_cleanup_socket : calm.
Lemma calm_cleanup_keys i : within calm (cleanup_keys i).
Proof. unfold cleanup_keys. calm_code. Qed.
Hint Resolve calm_cleanup_keys : calm.
Lemma calm_cleanup_rx i : within calm (cleanup_rx i).
Proof. unfold cleanup_rx. calm_code. Qed.
Hint Resolve calm_cleanup_rx : calm.
Lemma calm_cleanup_tx i : within calm (cleanup_tx i).
Proof. unfold cleanup_tx. calm_code. Qed.
Hint Resolve calm_cleanup_tx : calm.
Lemma calm_cleanup_buffers i : within calm (cleanup_buffers i).
Proof. unfold cleanup_buffers. calm_code. Qed.
Hint Resolve calm_cleanup_buffers : calm.
Lemma calm_action_cleanup i : within calm (action_cleanup i).
Proof. unfold action_cleanup. calm_code. Qed.
Hint Resolve calm_action_cleanup : calm.
Lemma calm_action_tofu_prompt i : within calm (action_tofu_prompt i).
Proof. unfold action_tofu_prompt. calm_code. Qed.
Hint Resolve calm_action_tofu_prompt : calm.
Lemma calm_tofu_accept d i : within calm d -> within calm (action_tofu_accept d i).
Proof. intros Hd. unfold action_tofu_accept. calm_code. Qed.
Hint Resolve calm_tofu_accept : calm.
Lemma calm_run_action d i f : within calm d -> within calm (run_action d i f).
Proof. intros Hd. unfold run_action. calm_code. Qed.
Hint Resolve calm_run_action : calm.
Lemma calm_dispatch fuel i ev : within calm (dispatch fuel i ev).
Proof. revert i ev. induction fuel as [|fuel IH]; intros i ev; cbn [dispatch]; calm_code. Qed.
Lemma calm_sm_dispatch i ev : within calm (sm_dispatch i ev).
Proof. apply calm_dispatch. Qed.
Hint Resolve calm_sm_dispatch : calm.
Lemma calm_dispatch_active ev : within calm (sm_dispatch_active ev).
Proof. unfold sm_dispatch_active. calm_code. Qed.
Hint Resolve calm_dispatch_active : calm.
Lemma calm_random32 : within calm (random32).
Proof. unfold random32. calm_code. Qed.
Hint Resolve calm_random32 : calm.
Lemma calm_sanitize a b : within calm (sanitize_filename a b).
Proof. unfold sanitize_filename. calm_code. Qed.
Hint Resolve calm_sanitize : calm.
Lemma calm_verify_dir d : within calm (verify_downloads_dir_fd d).
Proof. unfold verify_downloads_dir_fd. calm_code. Qed.
Hint Resolve calm_verify_dir : calm.
Lemma calm_write_to_file fuel fd data : within calm (write_to_file fuel fd data).
Proof. revert data. induction fuel as [|fuel IH]; intros [|c data]; cbn [write_to_file]; calm_code. Qed.
Hint Resolve calm_write_to_file : calm.
Lemma calm_open_recv_file i n : within calm (open_recv_file i n).
Proof. unfold open_recv_file. calm_code. Qed.
Hint Resolve calm_open_recv_file : calm.
Lemma calm_rx_reset i : within calm (rx_reset i).
Proof. unfold rx_reset. calm_code. Qed.
Hint Resolve calm_rx_reset : calm.
Lemma calm_rx_abort i : within calm (rx_abort i).
Proof. unfold rx_abort. calm_code. Qed.
Hint Resolve calm_rx_abort : calm.
Lemma calm_rx_metadata i p : within calm (rx_metadata i p).
Proof. unfold rx_metadata. calm_code. Qed.
Hint Resolve calm_rx_metadata : calm.
Lemma calm_rx_finish i : within calm (rx_finish i).
Proof. unfold rx_finish. calm_code. Qed.
Hint Resolve calm_rx_finish : calm.
Lemma calm_rx_chunk i p : within calm (rx_chunk i p).
Proof. unfold rx_chunk. calm_code. Qed.
Hint Resolve calm_rx_chunk : calm.
Lemma calm_file_transfer_handle_rx i p : within calm (file_transfer_handle_rx i p).
Proof. unfold file_transfer_handle_rx. calm_code. Qed.
Hint Resolve calm_file_transfer_handle_rx : calm.
Lemma calm_tx_stop i : within calm (tx_stop i).
Proof. unfold tx_stop. calm_code. Qed.
Hint Resolve calm_tx_stop : calm.
Lemma calm_tx_flush i : within calm (tx_flush i).
Proof. unfold tx_flush. calm_code. Qed.
Hint Resolve calm_tx_flush : calm.
Lemma calm_tx_fill i : within calm (tx_fill i).
Proof. unfold tx_fill. calm_code. Qed.
Hint Resolve calm_tx_fill : calm.
Lemma calm_file_transfer_handle_tx i : within calm (file_transfer_handle_tx i).
Proof. unfold file_transfer_handle_tx. calm_code. Qed.
Hint Resolve calm_file_transfer_handle_tx : calm.
Lemma calm_hash_file fuel fd acc : within calm (hash_file fuel fd acc).
Proof. revert acc. induction fuel as [|fuel IH]; intros acc; cbn [hash_file]; calm_code. Qed.
Hint Resolve calm_hash_file : calm.
Lemma calm_send_metadata i : within calm (send_metadata i).
Proof. unfold send_metadata. calm_code. Qed.
Hint Resolve calm_send_metadata : calm.
Lemma calm_tx_begin i a b c : within calm (tx_begin i a b c).
Proof. unfold tx_begin. calm_code. Qed.
Hint Resolve calm_tx_begin : calm.
Lemma calm_file_transfer_start f : within calm (file_transfer_start f).
Proof. unfold file_transfer_start. calm_code. Qed.
Hint Resolve calm_file_transfer_start : calm.
Lemma calm_send_frame i p : within calm (send_frame i p).
Proof. unfold send_frame. calm_code. Qed.
Hint Resolve calm_send_frame : calm.
Lemma calm_send_queued_callback i t : within calm (send_queued_callback i t).
Proof. unfold send_queued_callback. calm_code. Qed.
Hint Resolve calm_send_queued_callback : calm.
Lemma calm_send_segments fuel i msg o : within calm (send_segments fuel i msg o).
Proof. revert o. induction fuel as [|fuel IH]; intros o; cbn [send_segments]; calm_code. Qed.
Hint Resolve calm_send_segments : calm.
Lemma calm_send_segmented_message_to i m : within calm (send_segmented_message_to i m).
Proof. unfold send_segmented_message_to. calm_code. Qed.
Hint Resolve calm_send_segmented_message_to : calm.
Lemma calm_send_segmented_message m : within calm (send_segmented_message m).
Proof. unfold send_segmented_message. calm_code. Qed.
Hint Resolve calm_send_segmented_message : calm.
Lemma calm_queue_segments fuel r msg o q : within calm (queue_segments fuel r msg o q).
Proof. revert o q. induction fuel as [|fuel IH]; intros o q; cbn [queue_segments]; calm_code. Qed.
Hint Resolve calm_queue_segments : calm.
Lemma calm_queue_segmented_message r m : within calm (queue_segmented_message r m).
Proof. unfold queue_segmented_message. calm_code. Qed.
Hint Resolve calm_queue_segmented_message : calm.

(** Events. *)
Lemma calm_hs_fail i w : within calm (hs_fail i w).
Proof. unfold hs_fail. calm_code. Qed.
Hint Resolve calm_hs_fail : calm.
Lemma calm_session_up i o : within calm (session_up i o).
Proof. unfold session_up. calm_code. Qed.
Hint Resolve calm_session_up : calm.
Lemma calm_tofu_ask i f o n r z : within calm (tofu_ask i f o n r z).
Proof. unfold tofu_ask. calm_code. Qed.
Hint Resolve calm_tofu_ask : calm.
Lemma calm_handshake_finish i f h p : within calm (handshake_finish i f h p).
Proof. unfold handshake_finish. calm_code. Qed.
Hint Resolve calm_handshake_finish : calm.
Lemma calm_handshake_reply i f h : within calm (handshake_reply i f h).
Proof. unfold handshake_reply. calm_code. Qed.
Hint Resolve calm_handshake_reply : calm.
Lemma calm_on_handshake i f h p : within calm (on_handshake i f h p).
Proof. unfold on_handshake. calm_code. Qed.
Hint Resolve calm_on_handshake : calm.
Lemma calm_maybe_flush_queue i : within calm (maybe_flush_queue i).
Proof. unfold maybe_flush_queue. calm_code. Qed.
Hint Resolve calm_maybe_flush_queue : calm.
Lemma calm_count_rx i : within calm (count_rx i).
Proof. unfold count_rx. calm_code. Qed.
Hint Resolve calm_count_rx : calm.
Lemma calm_on_text i s p : within calm (on_text i s p).
Proof. unfold on_text. calm_code. Qed.
Hint Resolve calm_on_text : calm.
Lemma calm_on_file i p : within calm (on_file i p).
Proof. unfold on_file. calm_code. Qed.
Hint Resolve calm_on_file : calm.
Lemma calm_on_frame i f h p : within calm (on_frame i f h p).
Proof. unfold on_frame. calm_code. Qed.
Hint Resolve calm_on_frame : calm.
Lemma calm_frame_loop fuel i fd : within calm (frame_loop fuel i fd).
Proof. induction fuel as [|fuel IH]; cbn [frame_loop]; calm_code. Qed.
Hint Resolve calm_frame_loop : calm.
Lemma calm_process_peer_frames i f : within calm (process_peer_frames i f).
Proof. unfold process_peer_frames. calm_code. Qed.
Hint Resolve calm_process_peer_frames : calm.
Lemma calm_check_handshake_timeout i : within calm (check_handshake_timeout i).
Proof. unfold check_handshake_timeout. calm_code. Qed.
Hint Resolve calm_check_handshake_timeout : calm.
Lemma calm_check_tofu_timeout i : within calm (check_tofu_timeout i).
Proof. unfold check_tofu_timeout. calm_code. Qed.
Hint Resolve calm_check_tofu_timeout : calm.
Lemma calm_check_chunk_timeout i : within calm (check_chunk_timeout i).
Proof. unfold check_chunk_timeout. calm_code. Qed.
Hint Resolve calm_check_chunk_timeout : calm.
Lemma calm_check_idle_timeout i : within calm (check_idle_timeout i).
Proof. unfold check_idle_timeout. calm_code. Qed.
Hint Resolve calm_check_idle_timeout : calm.
Lemma calm_sweep_slot i : within calm (sweep_slot i).
Proof. unfold sweep_slot. calm_code. Qed.
Hint Resolve calm_sweep_slot : calm.
Lemma calm_each_slot f i n : (forall j, within calm (f j)) -> within calm (each_slot f i n).
Proof. intros Hf. revert i. induction n as [|n IH]; intros i; cbn [each_slot]; calm_code. Qed.
Hint Resolve calm_each_slot : calm.
Lemma calm_sweep : within calm (sweep).
Proof. unfold sweep. calm_code. Qed.
Hint Resolve calm_sweep : calm.
Lemma calm_tor_died_slot i : within calm (tor_died_slot i).
Proof. unfold tor_died_slot. calm_code. Qed.
Hint Resolve calm_tor_died_slot : calm.
Lemma calm_on_tor_dead : within calm (on_tor_dead).
Proof. unfold on_tor_dead. calm_code. Qed.
Hint Resolve calm_on_tor_dead : calm.
Lemma calm_tor_health_check d l : within calm (tor_health_check d l).
Proof. unfold tor_health_check. calm_code. Qed.
Hint Resolve calm_tor_health_check : calm.
Lemma calm_drain_slot i : within calm (drain_slot i).
Proof. unfold drain_slot. calm_code. Qed.
Hint Resolve calm_drain_slot : calm.
Lemma calm_drain : within calm (drain).
Proof. unfold drain. calm_code. Qed.
Hint Resolve calm_drain : calm.
Lemma calm_inbound_allowed : within calm (inbound_allowed).
Proof. unfold inbound_allowed. calm_code. Qed.
Hint Resolve calm_inbound_allowed : calm.
Lemma calm_accept_in_slot i f : within calm (accept_in_slot i f).
Proof. unfold accept_in_slot. calm_code. Qed.
Hint Resolve calm_accept_in_slot : calm.
Lemma calm_on_accept : within calm (on_accept).
Proof. unfold on_accept. calm_code. Qed.
Hint Resolve calm_on_accept : calm.
Lemma calm_on_epollout i f : within calm (on_epollout i f).
Proof. unfold on_epollout. calm_code. Qed.
Hint Resolve calm_on_epollout : calm.
Lemma calm_on_epollin i f : within calm (on_epollin i f).
Proof. unfold on_epollin. calm_code. Qed.
Hint Resolve calm_on_epollin : calm.

(** Commands. *)
Lemma calm_find_peer_by_name_or_onion a : within calm (find_peer_by_name_or_onion a).
Proof. unfold find_peer_by_name_or_onion. calm_code. Qed.
Hint Resolve calm_find_peer_by_name_or_onion : calm.
Lemma calm_print_each l : within calm (print_each l).
Proof. induction l as [|i l IH]; cbn [print_each]; calm_code. Qed.
Hint Resolve calm_print_each : calm.
Lemma calm_tofu_user_response a : within calm (tofu_user_response a).
Proof. unfold tofu_user_response. calm_code. Qed.
Hint Resolve calm_tofu_user_response : calm.
Lemma calm_report_sent e : within calm (report_sent e).
Proof. unfold report_sent. calm_code. Qed.
Hint Resolve calm_report_sent : calm.
Lemma calm_cmd_add a : within calm (cmd_add a).
Proof. unfold cmd_add. calm_code. Qed.
Hint Resolve calm_cmd_add : calm.
Lemma calm_cmd_msg a : within calm (cmd_msg a).
Proof. unfold cmd_msg. calm_code. Qed.
Hint Resolve calm_cmd_msg : calm.
Lemma calm_outbound_allowed : within calm (outbound_allowed).
Proof. unfold outbound_allowed. calm_code. Qed.
Hint Resolve calm_outbound_allowed : calm.
Lemma calm_connect_hello i f t h : within calm (connect_hello i f t h).
Proof. unfold connect_hello. calm_code. Qed.
Hint Resolve calm_connect_hello : calm.
Lemma calm_connect_in_slot i f t : within calm (connect_in_slot i f t).
Proof. unfold connect_in_slot. calm_code. Qed.
Hint Resolve calm_connect_in_slot : calm.
Lemma calm_dial i t : within calm (dial i t).
Proof. unfold dial. calm_code. Qed.
Hint Resolve calm_dial : calm.
Lemma calm_cmd_connect a : within calm (cmd_connect a).
Proof. unfold cmd_connect. calm_code. Qed.
Hint Resolve calm_cmd_connect : calm.
Lemma calm_cmd_file a : within calm (cmd_file a).
Proof. unfold cmd_file. calm_code. Qed.
Hint Resolve calm_cmd_file : calm.
Lemma calm_cmd_list : within calm (cmd_list).
Proof. unfold cmd_list. calm_code. Qed.
Hint Resolve calm_cmd_list : calm.
Lemma calm_cmd_switch a : within calm (cmd_switch a).
Proof. unfold cmd_switch. calm_code. Qed.
Hint Resolve calm_cmd_switch : calm.
Lemma calm_cmd_disconnect : within calm (cmd_disconnect).
Proof. unfold cmd_disconnect. calm_code. Qed.
Hint Resolve calm_cmd_disconnect : calm.
Lemma calm_command l : within calm (command l).
Proof. unfold command. calm_code. Qed.
Hint Resolve calm_command : calm.
Lemma calm_say t : within calm (say t).
Proof. unfold say. calm_code. Qed.
Hint Resolve calm_say : calm.
Lemma calm_process_line l : within calm (process_line l).
Proof. unfold process_line. calm_code. Qed.
Hint Resolve calm_process_line : calm.

(** Standard input. *)
Lemma calm_ln_edit_init : within calm ln_edit_init.
Proof. unfold ln_edit_init. calm_code. Qed.
Lemma calm_ln_edit_deinit : within calm ln_edit_deinit.
Proof. unfold ln_edit_deinit. calm_code. Qed.
Lemma calm_set_stdin b : within calm (set_stdin b).
Proof. unfold set_stdin. calm_code. Qed.
Hint Resolve calm_ln_edit_deinit calm_set_stdin : calm.
Lemma calm_stdin_lines fuel : within calm (stdin_lines process_line fuel).
Proof. induction fuel as [|fuel IH]; cbn [stdin_lines]; calm_code. Qed.
Hint Resolve calm_stdin_lines : calm.
Lemma calm_stdin_data data : within calm (stdin_data process_line data).
Proof. unfold stdin_data. calm_code. Qed.
Lemma calm_stdin_room : within calm stdin_room.
Proof. unfold stdin_room. calm_code. Qed.
Lemma calm_stdin_eof : within calm (stdin_eof process_line).
Proof. unfold stdin_eof. calm_code. Qed.
Hint Resolve calm_stdin_data calm_stdin_room calm_stdin_eof : calm.
Lemma calm_stdin_pipe reads : within calm (stdin_pipe process_line reads).
Proof. induction reads as [|reads IH]; cbn [stdin_pipe]; unfold stdin_read; calm_code. Qed.
Hint Resolve calm_stdin_pipe : calm.
Lemma calm_stdin_events reads : within calm (process_stdin_events reads).
Proof. unfold process_stdin_events, stdin_events, stdin_edit. calm_code. Qed.

End Parts.

#[export] Hint Resolve calm_ln_edit_init calm_stdin_events : calm.
#[export] Hint Resolve calm_sweep calm_tor_health_check calm_drain calm_on_accept calm_on_epollout
  calm_on_epollin calm_on_tor_dead : calm.

(** ** The loop *)

Section Loop.
Context `{HOS : OS} `{HC : Crypto} (ioctl_dev scope ndebug : bool) (headers : String.string -> bool).
Context (stdin : St world unit) (Hstdin : within calm stdin).

Lemma calm_on_event fd ev : within calm (on_event stdin fd ev).
Proof. unfold on_event. calm_code. Qed.
Hint Resolve calm_on_event : calm.
Lemma calm_on_events evs :
  within calm (foldr (fun ev rest => _ ← on_event stdin ev.1 ev.2; rest) skip evs).
Proof. induction evs as [|e evs IH]; cbn [foldr]; calm_code. Qed.
Hint Resolve calm_on_events : calm.
Lemma calm_loop_round died last evs : within calm (loop_round stdin died last evs).
Proof. unfold loop_round. calm_code. Qed.
Hint Resolve calm_loop_round : calm.
Lemma calm_event_rounds died last rounds : within calm (event_rounds stdin died last rounds).
Proof.
  revert died last. induction rounds as [|evs rounds IH]; intros died last; cbn [event_rounds]; calm_code.
Qed.

Lemma calm_loop_body rounds : within calm (loop_body stdin rounds).
Proof. unfold loop_body. within_code ltac:(first [apply calm_event_rounds | eauto with calm nocore]). Qed.

Lemma calm_landlock c d : within calm (landlock_sandbox_init ioctl_dev scope c d).
Proof. unfold landlock_sandbox_init. calm_code. Qed.

Lemma calm_loaded w w' : calm w w' -> loaded (w_tr w') = loaded (w_tr w).
Proof.
  intros (new & -> & Hn). induction new as [|c new IH]; [done|]. cbn [forallb Datatypes.app] in *.
  apply andb_true_iff in Hn as [Hc Hn]. rewrite <-(IH Hn). unfold loop_call in Hc. by destruct c.
Qed.

(** Only filters of this policy are loaded. *)
Definition filtered (w : world) : Prop := policy_filters (loaded (w_tr w)).

Lemma filtered_calm {A} (m : St world A) w : within calm m -> filtered w -> filtered (m w).2.
Proof. intros Hm Hw. unfold filtered. by rewrite (calm_loaded w) by apply Hm. Qed.

Lemma filtered_load w : filtered w -> filtered (lift_tr (seccomp_policy_load ndebug headers 3) w).2.
Proof.
  intros Hw. unfold filtered, lift_tr. destruct (policy_load_spec ndebug headers 3 (w_tr w)) as [_ Hp].
  destruct (seccomp_policy_load ndebug headers 3 (w_tr w)) as [e tr']. cbn [fst snd w_tr] in *.
  change (w_tr (w <| w_tr := tr' |>)) with tr'.
  destruct Hp as [(_ & rules & -> & Hsub & _)|[_ ->]]; [|exact Hw].
  intros f [->|Hf]%elem_of_cons; [|by apply Hw].
  intros r Hr. by apply (policy_full ndebug headers 3); [|apply Hsub].
Qed.

Lemma calm_allowed w w' :
  filtered w -> calm w w' ->
  steps (fun t c => forall q, q ∈ requests c -> kernel_verdict (loaded t) q = Allow) (w_tr w) (w_tr w').
Proof.
  intros Hw (new & -> & Hn). induction new as [|c new IH]; [constructor|].
  cbn [forallb Datatypes.app] in *. apply andb_true_iff in Hn as [Hc Hn]. constructor; [by apply IH|].
  apply andb_true_iff in Hc as [Hc _]. intros q Hq. apply (spared_allowed _ c); [|done|done].
  pose proof (calm_loaded w (World (w_app w) (w_db w) (new ++ w_tr w))) as Hl. cbn [w_tr] in Hl.
  rewrite Hl; [done|]. by exists new.
Qed.

Lemma filtered_sandbox w :
  filtered w -> filtered (event_loop_sandbox ioctl_dev scope ndebug headers w).2.
Proof.
  intros Hw. unfold event_loop_sandbox. rewrite bind_eq. cbn [app gets fst snd].
  match goal with |- filtered (mbind _ ?m _).2 => assert (within calm m) as Hc; [|set (m0 := m) in *] end.
  { unfold stop_running. within_code ltac:(first [apply calm_landlock | eauto with calm nocore]). }
  rewrite bind_eq. pose proof (filtered_calm m0 w Hc Hw) as H1.
  destruct (m0 w) as [ok w1]. cbn [fst snd] in *.
  destruct ok; cbn [negb]; [|done]. rewrite bind_eq.
  pose proof (filtered_load w1 H1) as H2.
  destruct (lift_tr (seccomp_policy_load ndebug headers 3) w1) as [e w2]. cbn [fst snd] in *.
  unfold stop_running. destruct (err_ok e); cbn [negb]; [done|].
  apply filtered_calm; [calm_code|done].
Qed.

(** The program never kills itself.  Started with no filters but those of
    its own policy, the event loop leaves its set-up with such filters and
    from then on makes only calls whose system calls every loaded filter
    allows, in every handler, whatever peers, Tor and the kernel answer; of
    the handler of standard input it is asked that it makes only such calls,
    which the command handler does for every line. *)
Theorem loop_never_killed rounds w :
  filtered w ->
  let w1 := (event_loop_sandbox ioctl_dev scope ndebug headers w).2 in
  filtered w1 /\
  steps (fun t c => forall q, q ∈ requests c -> kernel_verdict (loaded t) q = Allow)
    (w_tr w1) (w_tr (event_loop ioctl_dev scope ndebug headers stdin rounds w).2).
Proof.
  intros Hw w1. pose proof (filtered_sandbox w Hw) as H1. split; [done|]. unfold w1, event_loop in *.
  rewrite bind_eq. destruct (event_loop_sandbox ioctl_dev scope ndebug headers w) as [ok w2].
  cbn [fst snd] in *. destruct ok; cbn [negb]; [|constructor].
  apply calm_allowed; [done|]. apply calm_loop_body.
Qed.

End Loop.

(** A command line, in a run that loads the policy. *)
Lemma loop_never_killed_witness :
  let w1 := (event_loop_sandbox (H := policy_os) true true true (fun _ => true) boot).2 in
  length (loaded (H := policy_os) (w_tr w1)) = 1%nat /\
  steps (fun t c => forall q, q ∈ requests c -> kernel_verdict (loaded (H := policy_os) t) q = Allow)
    (w_tr w1) (w_tr (@event_loop policy_os true true true (fun _ => true) toy_crypto
      (@process_line policy_os toy_crypto (lit "/list")) [[(0, 1)]] boot).2).
Proof.
  split; [vm_compute; reflexivity|].
  refine (proj2 (@loop_never_killed policy_os toy_crypto true true true (fun _ => true) _ _ [[(0, 1)]]
    boot _)).
  - apply calm_process_line.
  - intros f Hf. by apply not_elem_of_nil in Hf.
Defined.
