(* ===== verification/MainFilter.v ===== *)
(** * The whole run under the seccomp filters

    The filters are loaded one after the other while the program runs: stage 1
    before main, stage 2 once Tor has been started, stage 3 in the event loop.
    Here every call of the whole run, from the constructors to the exit, in the
    parent and in the children, is shown to be allowed by the filters that are
    loaded when it is made. *)

From S2P Require Import Prelude Primitives Types World Arena Noise Onion Network Database StateMachine.
From S2P Require Import FileTransfer History Keys Control ControlProofs TorProcess TorProofs Frontend.
From S2P Require Import Seccomp SeccompProofs Startup Messages EventLoop StdinHandler Input Sandbox Main.
From S2P Require Import LoopFilter MainProofs.

(** ** The filters of a stage *)

Definition stage_policy (k : Z) : list scmp_rule := (policy_rules true (fun _ => true) k).*1.

Definition unmatched (k : Z) (c : syscall) : Prop :=
  forall q, q ∈ requests c -> rq_native q = true /\ forallb (fun r => negb (rule_matches q r)) (stage_policy k) = true.

(** The calls each stage leaves alone. *)
Definition call1 (c : syscall) : bool := match c with ScmpLoad _ => false | _ => true end.
Definition call2 (c : syscall) : bool :=
  call1 c && match c with
  | Fork | Execv _ _ | Prctl _ _ | Mprotect _ _ _ | ArchPrctl _ _ => false
  | _ => true
  end.

Ltac check_requests :=
  intros q Hq; cbn [requests] in Hq;
  repeat (apply elem_of_cons in Hq as [->|Hq]; [split; [done|vm_compute; reflexivity]|]);
  by apply not_elem_of_nil in Hq.

Lemma call1_unmatched c : unmatched 1 c.
Proof. destruct c; check_requests. Qed.

Lemma call2_unmatched c : call2 c = true -> unmatched 2 c.
Proof. destruct c; cbn [call2 call1 andb]; intros Hc; try discriminate Hc; check_requests. Qed.

Lemma stage_policy_of nd h stage k r :
  stage <= k -> r ∈ (policy_rules nd h stage).*1 -> r ∈ stage_policy k.
Proof.
  intros Hs (x & -> & Hx)%list_elem_of_fmap. apply list_elem_of_fmap. exists x. split; [done|].
  unfold policy_rules in *. apply elem_of_app in Hx as [Hx|[Hx|Hx]%elem_of_app].
  - apply elem_of_app. left. unfold table_rules in *. apply list_elem_of_fmap in Hx as (e & -> & He).
    apply list_elem_of_fmap. exists e. split; [done|]. apply list_elem_of_filter in He as [He1 He2].
    apply list_elem_of_filter. split; [lia|]. by eapply blacklist_full.
  - apply elem_of_app. right. apply elem_of_app. left. destruct (2 <=? stage) eqn:E;
      [|by apply not_elem_of_nil in Hx]. rewrite (proj2 (Z.leb_le 2 k)) by lia. by eapply stage2_full.
  - apply elem_of_app. right. apply elem_of_app. right. destruct (3 <=? stage) eqn:E;
      [|by apply not_elem_of_nil in Hx]. by rewrite (proj2 (Z.leb_le 3 k)) by lia.
Qed.

Section Filters.
Context `{HOS : OS}.

(** Only rules of a stage are loaded. *)
Definition filters_of (k : Z) (tr : trace) : Prop :=
  forall rules, rules ∈ loaded tr -> forall r, r ∈ rules -> r ∈ stage_policy k.

Definition allowed (t : trace) (c : syscall) : Prop :=
  forall q, q ∈ requests c -> kernel_verdict (loaded t) q = Allow.

Lemma filters_of_later k k' tr : k <= k' -> filters_of k tr -> filters_of k' tr.
Proof. intros Hk Hf rules Hr r Hin. by apply (stage_policy_of true (fun _ => true) k); [|apply (Hf rules)]. Qed.

Lemma unmatched_allow k tr c : filters_of k tr -> unmatched k c -> allowed tr c.
Proof.
  intros Hf Hu q Hq. destruct (Hu q Hq) as [Hn Hm]. rewrite forallb_forall in Hm.
  unfold filters_of in Hf. induction (loaded tr) as [|f fs IH]; [done|]. cbn [kernel_verdict foldr].
  assert (filter_verdict f q = Allow) as E.
  { assert (forall r, r ∈ f -> rule_matches q r = false) as Hr.
    { intros r Hr. apply negb_true_iff, Hm, list_elem_of_In, (Hf f); [by left|done]. }
    unfold filter_verdict. rewrite Hn. cbn [negb].
    assert (existsb (rule_matches q) f = false) as ->.
    { apply not_true_is_false. intros (r & Hin & Ht)%existsb_exists.
      apply list_elem_of_In in Hin. by rewrite Hr in Ht. }
    assert (existsb (fun r => sr_kill r && rule_matches q r) f = false) as ->; [|done].
    apply not_true_is_false. intros (r & Hin & Ht)%existsb_exists. apply list_elem_of_In in Hin.
    rewrite (Hr r Hin), andb_false_r in Ht. done. }
  rewrite E. change (foldr _ Allow fs) with (kernel_verdict fs q). rewrite IH; [done|].
  intros rules Hr. apply Hf. by right.
Qed.

(** A class of calls that the filters of a stage leave alone and that loads
    none. *)
Class Harmless (P : syscall -> bool) (k : Z) :=
  harmless c : P c = true -> call1 c = true /\ unmatched k c.

#[global] Instance harmless1 : Harmless call1 1.
Proof. intros c Hc. split; [done|apply call1_unmatched]. Qed.
#[global] Instance harmless2 : Harmless call2 2.
Proof. intros c Hc. split; [by apply andb_true_iff in Hc as [? _]|by apply call2_unmatched]. Qed.
#[global] Instance harmless3 : Harmless loop_call 3.
Proof.
  intros c [Hs Hl]%andb_true_iff. split; [by destruct c|]. intros q Hq. by apply (spared_unmatched c).
Qed.

Lemma grows_allowed P k tr tr' :
  Harmless P k -> filters_of k tr -> grows P tr tr' ->
  steps allowed tr tr' /\ loaded tr' = loaded tr.
Proof.
  intros HP Hf (new & -> & Hn). induction new as [|c new IH]; [split; [constructor|done]|].
  cbn [forallb Datatypes.app] in *. apply andb_true_iff in Hn as [Hc Hn]. destruct (IH Hn) as [Hs Hl].
  destruct (harmless c Hc) as [H1 Hu]. split.
  - constructor; [done|]. apply (unmatched_allow k); [|done]. intros rules Hr. apply Hf. by rewrite <-Hl.
  - rewrite <-Hl. by destruct c.
Qed.

(** ** Code that makes only such calls *)

Section Makes.
Context (P : syscall -> bool).

Definition makes {A} (m : St trace A) : Prop := forall tr, grows P tr (m tr).2.
Definition wmakes {A} (m : St world A) : Prop := forall w, grows P (w_tr w) (w_tr (m w).2).
Definition pmakes {A} (m : PM A) : Prop := forall p, grows P (w_tr (p_w p)) (w_tr (p_w (m p).2)).

Lemma makes_ret {A} (a : A) : makes (mret a).
Proof. intros tr. apply grows_refl. Qed.
Lemma makes_bind {A B} (m : St trace A) (k : A -> St trace B) :
  makes m -> (forall a, makes (k a)) -> makes (mbind k m).
Proof. intros Hm Hk tr. rewrite bind_eq. eapply grows_trans; [apply Hm|apply Hk]. Qed.
Lemma makes_sys c : P c = true -> makes (sys c).
Proof. intros Hc tr. by apply grows_cons; [apply grows_refl|]. Qed.

Lemma wmakes_ret {A} (a : A) : wmakes (mret a).
Proof. intros w. apply grows_refl. Qed.
Lemma wmakes_bind {A B} (m : St world A) (k : A -> St world B) :
  wmakes m -> (forall a, wmakes (k a)) -> wmakes (mbind k m).
Proof. intros Hm Hk w. rewrite bind_eq. eapply grows_trans; [apply Hm|apply Hk]. Qed.
Lemma wmakes_call c : P c = true -> wmakes (call c).
Proof. intros Hc w. by apply grows_cons; [apply grows_refl|]. Qed.
Lemma wmakes_call_ c : P c = true -> wmakes (call_ c).
Proof. intros Hc w. by apply grows_cons; [apply grows_refl|]. Qed.
Lemma wmakes_lift {A} (m : St trace A) : makes m -> wmakes (lift_tr m).
Proof. intros Hm w. specialize (Hm (w_tr w)). unfold lift_tr. by destruct (m (w_tr w)). Qed.
Lemma wmakes_app {A} (f : app_state -> A) : wmakes (app f).
Proof. intros w. apply grows_refl. Qed.
Lemma wmakes_gets {A} (f : world -> A) : wmakes (gets f).
Proof. intros w. apply grows_refl. Qed.
Lemma wmakes_upd_app f : wmakes (upd_app f).
Proof. intros w. apply grows_refl. Qed.
Lemma wmakes_upd_db f : wmakes (upd_db f).
Proof. intros w. apply grows_refl. Qed.

Lemma pmakes_ret {A} (a : A) : pmakes (mret a).
Proof. intros p. apply grows_refl. Qed.
Lemma pmakes_quit {A} code : pmakes (quit (A := A) code).
Proof. intros p. apply grows_refl. Qed.
Lemma pmakes_child {A} code : pmakes (in_child (A := A) code).
Proof. intros p. apply grows_refl. Qed.
Lemma pmakes_see {A} (f : process -> A) : pmakes (see f).
Proof. intros p. apply grows_refl. Qed.
Lemma pmakes_upd f : (forall p, p_w (f p) = p_w p) -> pmakes (upd f).
Proof. intros Hf p. cbn. rewrite Hf. apply grows_refl. Qed.
Lemma pmakes_bind {A B} (m : PM A) (k : A -> PM B) :
  pmakes m -> (forall a, pmakes (k a)) -> pmakes (mbind k m).
Proof.
  intros Hm Hk p. unfold mbind, PM_bind. specialize (Hm p). destruct (m p) as [[a|c| |c] p1]; try done.
  eapply grows_trans; [exact Hm|apply Hk].
Qed.
Lemma pmakes_world {A} (m : St world A) : wmakes m -> pmakes (on_world m).
Proof. intros Hm p. specialize (Hm (p_w p)). unfold on_world. by destruct (m (p_w p)). Qed.
Lemma pmakes_trace {A} (m : St trace A) : makes m -> pmakes (on_trace m).
Proof. intros Hm. by apply pmakes_world, wmakes_lift. Qed.
Lemma pmakes_pcall c : P c = true -> pmakes (pcall c).
Proof. intros Hc. by apply pmakes_world, wmakes_call. Qed.
Lemma pmakes_pcall_ c : P c = true -> pmakes (pcall_ c).
Proof. intros Hc. by apply pmakes_world, wmakes_call_. Qed.

(** The arena. *)
Definition amakes {A} (c : AM A) : Prop := forall m, grows P (m_tr m) (m_tr (c m).2).

Lemma amakes_ret {A} (a : A) : amakes (mret a).
Proof. intros m. apply grows_refl. Qed.
Lemma amakes_abort {A} : amakes (abort (A := A)).
Proof. intros m. apply grows_refl. Qed.
Lemma amakes_read {A} (f : machine -> A) : amakes (read f).
Proof. intros m. apply grows_refl. Qed.
Lemma amakes_change f : (forall m, m_tr (f m) = m_tr m) -> amakes (change f).
Proof. intros Hf m. cbn. rewrite Hf. apply grows_refl. Qed.
Lemma amakes_bind {A B} (c : AM A) (k : A -> AM B) :
  amakes c -> (forall a, amakes (k a)) -> amakes (mbind k c).
Proof.
  intros Hc Hk m. unfold mbind, AM_bind. specialize (Hc m). destruct (c m) as [[a|] m1]; [|done].
  eapply grows_trans; [exact Hc|apply Hk].
Qed.
Lemma amakes_acall c : P c = true -> amakes (acall c).
Proof. intros Hc m. by apply grows_cons; [apply grows_refl|]. Qed.
Lemma pmakes_arena {A} (c : AM A) : amakes c -> pmakes (on_arena c).
Proof.
  intros Hc p. specialize (Hc (p_m p <| m_tr := w_tr (p_w p) |>)). unfold on_arena.
  by destruct (c (p_m p <| m_tr := w_tr (p_w p) |>)) as [[a|] m'].
Qed.

End Makes.

Lemma makes_mono (P P' : syscall -> bool) {A} (m : St trace A) :
  (forall c, P c = true -> P' c = true) -> makes P m -> makes P' m.
Proof. intros HP Hm tr. eapply grows_weaken; [exact HP|apply Hm]. Qed.
Lemma wmakes_mono (P P' : syscall -> bool) {A} (m : St world A) :
  (forall c, P c = true -> P' c = true) -> wmakes P m -> wmakes P' m.
Proof. intros HP Hm w. eapply grows_weaken; [exact HP|apply Hm]. Qed.
Lemma pmakes_mono (P P' : syscall -> bool) {A} (m : PM A) :
  (forall c, P c = true -> P' c = true) -> pmakes P m -> pmakes P' m.
Proof. intros HP Hm p. eapply grows_weaken; [exact HP|apply Hm]. Qed.

End Filters.

Lemma loop_call2 c : loop_call c = true -> call2 c = true.
Proof. intros [Hs Hl]%andb_true_iff. by destruct c. Qed.
Lemma call2_call1 c : call2 c = true -> call1 c = true.
Proof. by intros [? _]%andb_true_iff. Qed.
Lemma loop_call1 c : loop_call c = true -> call1 c = true.
Proof. intros Hc. by apply call2_call1, loop_call2. Qed.

Create HintDb makes.
#[export] Hint Resolve makes_ret wmakes_ret wmakes_app wmakes_gets wmakes_upd_app wmakes_upd_db
  pmakes_ret pmakes_quit pmakes_child pmakes_see wmakes_lift pmakes_trace pmakes_world pmakes_arena
  amakes_ret amakes_abort amakes_read : makes.
#[export] Hint Extern 2 (amakes _ (acall _)) => apply amakes_acall; reflexivity : makes.
#[export] Hint Extern 2 (amakes _ (change _)) => apply amakes_change; reflexivity : makes.
#[export] Hint Extern 2 (makes _ (sys _)) => apply makes_sys; reflexivity : makes.
#[export] Hint Extern 2 (wmakes _ (call _)) => apply wmakes_call; reflexivity : makes.
#[export] Hint Extern 2 (wmakes _ (call_ _)) => apply wmakes_call_; reflexivity : makes.
#[export] Hint Extern 2 (pmakes _ (pcall _)) => apply pmakes_pcall; reflexivity : makes.
#[export] Hint Extern 2 (pmakes _ (pcall_ _)) => apply pmakes_pcall_; reflexivity : makes.
#[export] Hint Extern 2 (pmakes _ (upd _)) => apply pmakes_upd; reflexivity : makes.

(** Follow the code. *)
Ltac makes_code :=
  repeat lazymatch goal with
  | |- makes _ (mbind _ _) => apply makes_bind; [|intros]
  | |- wmakes _ (mbind _ _) => apply wmakes_bind; [|intros]
  | |- pmakes _ (mbind _ _) => apply pmakes_bind; [|intros]
  | |- amakes _ (mbind _ _) => apply amakes_bind; [|intros]
  | |- makes _ (match _ with _ => _ end) => case_match
  | |- wmakes _ (match _ with _ => _ end) => case_match
  | |- pmakes _ (match _ with _ => _ end) => case_match
  | |- amakes _ (match _ with _ => _ end) => case_match
  | |- _ => first [ solve [eauto with makes nocore] | progress cbv beta zeta | apply pmakes_trace
                  | apply pmakes_world ]
  end.

Section Code.
Context `{HOS : OS} `{HC : Crypto} `{HK : KeyCrypto} `{HB : Base64}.

(** ** Cleaning up: allowed at every stage *)

Lemma makes_nanosleep fuel ns : makes loop_call (nanosleep_retry fuel ns).
Proof. revert ns. induction fuel; intros ns; cbn [nanosleep_retry]; makes_code. Qed.
Lemma makes_sleep ns : makes loop_call (safe_nanosleep ns).
Proof. apply makes_nanosleep. Qed.
Hint Resolve makes_sleep : makes.
Lemma makes_reap rounds pid : makes loop_call (reap_loop rounds pid).
Proof. induction rounds; cbn [reap_loop]; makes_code. Qed.
Hint Resolve makes_reap : makes.
Lemma makes_terminate pid : makes loop_call (terminate_and_reap pid).
Proof. unfold terminate_and_reap. makes_code. Qed.
Hint Resolve makes_terminate : makes.
Lemma makes_send_command fd cmd : makes loop_call (ctrl_send_command fd cmd).
Proof. apply tcalm_write_full. Qed.
Hint Resolve makes_send_command : makes.
Lemma makes_rm_entries rec k fd path :
  (forall p, makes loop_call (rec p)) -> makes loop_call (rm_entries rec k fd path).
Proof. intros Hr. induction k; cbn [rm_entries]; makes_code. Qed.
Lemma makes_rm_rf dm path : makes loop_call (rm_rf dm path).
Proof.
  unfold rm_rf. generalize (Z.to_nat NOX_PATH_MAX). intros depth. revert path.
  induction depth as [|depth IH]; intros path; cbn [rm_rf_at]; makes_code.
  by apply makes_rm_entries.
Qed.
Hint Resolve makes_rm_rf : makes.
Lemma makes_tor_shutdown dm : wmakes loop_call (tor_shutdown dm).
Proof. unfold tor_shutdown. makes_code. Qed.
Lemma makes_transfer_cleanup n i : wmakes loop_call (transfer_cleanup_from i n).
Proof.
  revert i. induction n; intros i; cbn [transfer_cleanup_from]; unfold transfer_cleanup_slot.
  - apply wmakes_ret.
  - apply wmakes_bind; [|intros; apply IHn]. change (within calm (transfer_cleanup_slot i)).
    unfold transfer_cleanup_slot. calm_code.
Qed.
Lemma makes_cleanup_slot i : wmakes loop_call (cleanup_slot i).
Proof.
  change (within calm (cleanup_slot i)). unfold cleanup_slot.
  within_code ltac:(first [apply calm_sm_dispatch | apply calm_epoll_remove | eauto with calm nocore]).
Qed.
Lemma makes_cleanup_peers : wmakes loop_call cleanup_peers.
Proof.
  unfold cleanup_peers, db_close, file_transfer_cleanup. makes_code; try apply makes_transfer_cleanup.
  apply calm_each_slot, makes_cleanup_slot.
Qed.
Lemma makes_cleanup_files dm : wmakes loop_call (cleanup_files dm).
Proof.
  unfold cleanup_files, close_field, unlink_field. makes_code. apply makes_tor_shutdown.
Qed.

Lemma makes_arena_destroy : amakes loop_call arena_destroy.
Proof.
  unfold arena_destroy, canary_intact, wipe_usable, unmap, set_arena, peek, wipe, poke. makes_code.
Qed.
Lemma makes_destroy_arena : pmakes loop_call destroy_arena.
Proof. unfold destroy_arena. makes_code. apply pmakes_arena, makes_arena_destroy. Qed.
Lemma makes_restore_terminal saved : makes loop_call (restore_terminal saved).
Proof. unfold restore_terminal. makes_code. Qed.
Hint Resolve makes_restore_terminal makes_destroy_arena makes_arena_destroy makes_cleanup_peers makes_cleanup_files : makes.

Lemma makes_ln_edit_deinit : wmakes loop_call ln_edit_deinit.
Proof. apply calm_ln_edit_deinit. Qed.
Lemma makes_free_stdin : wmakes loop_call free_stdin.
Proof. unfold free_stdin. makes_code. Qed.
Hint Resolve makes_ln_edit_deinit makes_free_stdin : makes.
Lemma makes_cleanup debug dm : pmakes loop_call (cleanup debug dm).
Proof. unfold cleanup, nothing. makes_code. Qed.
Lemma makes_return {A} code : pmakes loop_call (return_ (A := A) code).
Proof. unfold return_. makes_code. Qed.
Hint Resolve makes_cleanup makes_return : makes.
Lemma makes_shutdown_clean {A} debug dm : pmakes loop_call (shutdown_clean (A := A) debug dm).
Proof. unfold shutdown_clean. makes_code. Qed.
Lemma makes_shutting_down : pmakes loop_call shutting_down.
Proof. unfold shutting_down. makes_code. Qed.
Hint Resolve makes_shutdown_clean makes_shutting_down : makes.
Lemma makes_fatal {A} debug dm : pmakes loop_call (fatal (A := A) debug dm).
Proof. unfold fatal. makes_code. Qed.
Hint Resolve makes_fatal : makes.
Lemma makes_must debug dm e : pmakes loop_call (must debug dm e).
Proof. unfold must, nothing. makes_code. Qed.
Lemma makes_stop debug dm : pmakes loop_call (stop_if_shutting_down debug dm).
Proof. unfold stop_if_shutting_down, nothing. makes_code. Qed.

Hint Resolve makes_must makes_stop : makes.

(** ** From stage 2 to the event loop *)

Hint Extern 6 (makes call2 _) => apply (makes_mono _ _ _ loop_call2); solve [eauto with makes nocore] : makes.
Hint Extern 6 (wmakes call2 _) => apply (wmakes_mono _ _ _ loop_call2); solve [eauto with makes nocore] : makes.
Hint Extern 6 (pmakes call2 _) => apply (pmakes_mono _ _ _ loop_call2); solve [eauto with makes nocore] : makes.

Lemma makes_clock : makes call2 clock.
Proof. apply (makes_mono _ _ _ loop_call2), tcalm_clock. Qed.
Lemma makes_read_retry fuel fd n : makes call2 (read_retry fuel fd n).
Proof. apply (makes_mono _ _ _ loop_call2), tcalm_read_retry. Qed.
Lemma makes_read_full fd n : makes call2 (read_full fd n).
Proof. apply (makes_mono _ _ _ loop_call2), tcalm_read_full. Qed.
Lemma makes_random_bytes n : makes call2 (random_bytes n).
Proof. unfold random_bytes. makes_code. Qed.
Hint Resolve makes_clock makes_read_retry makes_read_full makes_random_bytes : makes.
Lemma makes_line_loop fuel fd n dl got : makes call2 (line_loop fuel fd n dl got).
Proof. revert got. induction fuel; intros got; cbn [line_loop]; makes_code. Qed.
Hint Resolve makes_line_loop : makes.
Lemma makes_read_line fd n t : makes call2 (ctrl_read_line fd n t).
Proof. unfold ctrl_read_line. makes_code. Qed.
Hint Resolve makes_read_line : makes.
Lemma makes_response_loop fuel fd n dl k buf : makes call2 (response_loop fuel fd n dl k buf).
Proof. revert k buf. induction fuel; intros k buf; cbn [response_loop]; makes_code. Qed.
Hint Resolve makes_response_loop : makes.
Lemma makes_read_response fd n t : makes call2 (ctrl_read_response fd n t).
Proof. unfold ctrl_read_response. makes_code. Qed.
Hint Resolve makes_read_response : makes.
Lemma makes_authenticate fd dir : makes call2 (tor_authenticate fd dir).
Proof. unfold tor_authenticate. makes_code. Qed.
Lemma makes_bootstrap_loop rounds fd e t : makes call2 (bootstrap_loop rounds fd e t).
Proof. revert e. induction rounds; intros e; cbn [bootstrap_loop]; makes_code. Qed.
Hint Resolve makes_authenticate makes_bootstrap_loop : makes.
Lemma makes_wait_bootstrap fd t : makes call2 (tor_wait_bootstrap fd t).
Proof. unfold tor_wait_bootstrap. makes_code. Qed.
Hint Resolve makes_wait_bootstrap : makes.
Lemma makes_add_onion fd path seed n : makes call2 (add_onion fd path seed n).
Proof. unfold add_onion. makes_code. Qed.
Hint Resolve makes_add_onion : makes.
Lemma makes_new_hs fd path n : makes call2 (tor_create_new_hs fd path n).
Proof. unfold tor_create_new_hs. makes_code. Qed.
Lemma makes_derived_hs fd path k n : makes call2 (tor_create_derived_hs fd path k n).
Proof. unfold tor_create_derived_hs. makes_code. Qed.
Lemma makes_listener dir : makes call2 (listener_create dir).
Proof. unfold listener_create. makes_code. Qed.
Lemma makes_epoll_setup fd : wmakes call2 (epoll_setup fd).
Proof. unfold epoll_setup, epoll_add_fd. makes_code. Qed.
Hint Resolve makes_new_hs makes_derived_hs makes_listener makes_epoll_setup : makes.

Lemma makes_store addr v : amakes call2 (store addr v).
Proof. unfold store, poke. makes_code. Qed.
Lemma makes_load addr : pmakes call2 (load addr).
Proof. unfold load, peek. apply pmakes_arena. makes_code. Qed.
Lemma makes_put addr v : pmakes call2 (put_key addr v).
Proof. apply pmakes_arena, makes_store. Qed.
Hint Resolve makes_load makes_put : makes.
Lemma makes_forget : pmakes call2 forget_master_key.
Proof. unfold forget_master_key. makes_code. Qed.
Hint Resolve makes_forget : makes.

Lemma makes_attach debug dm : pmakes call2 (attach_tor debug dm).
Proof. unfold attach_tor. makes_code. Qed.
Lemma makes_make_listener debug dm : pmakes call2 (make_listener debug dm).
Proof. unfold make_listener. makes_code. Qed.
Lemma makes_publish debug dm : pmakes call2 (publish debug dm).
Proof. unfold publish, set_seed, set_onion, nothing. makes_code. Qed.
Lemma makes_check_address debug dm : pmakes call2 (check_address debug dm).
Proof. unfold check_address, nothing. makes_code. Qed.

(** ** Before stage 2: no filter is loaded here either *)

Hint Extern 6 (makes call1 _) =>
  first [ apply (makes_mono _ _ _ loop_call1); solve [eauto with makes nocore]
        | apply (makes_mono _ _ _ call2_call1); solve [eauto with makes nocore] ] : makes.
Hint Extern 6 (wmakes call1 _) =>
  first [ apply (wmakes_mono _ _ _ loop_call1); solve [eauto with makes nocore]
        | apply (wmakes_mono _ _ _ call2_call1); solve [eauto with makes nocore] ] : makes.
Hint Extern 6 (pmakes call1 _) =>
  first [ apply (pmakes_mono _ _ _ loop_call1); solve [eauto with makes nocore]
        | apply (pmakes_mono _ _ _ call2_call1); solve [eauto with makes nocore] ] : makes.

(** The terminal and the PIN. *)
Lemma makes_signals : makes call1 setup_signal_handlers.
Proof. unfold setup_signal_handlers. makes_code. Qed.
Lemma makes_setup_terminal : makes call1 setup_terminal.
Proof. unfold setup_terminal. makes_code. Qed.
Lemma makes_malloc n : makes call1 (malloc_ok n).
Proof. unfold malloc_ok. makes_code. Qed.
Lemma makes_tc_restore t : makes call1 (tc_restore t).
Proof. unfold tc_restore. makes_code. Qed.
Lemma makes_line_secure fuel cap n buf : makes call1 (read_line_secure fuel cap n buf).
Proof. revert n buf. induction fuel; intros n buf; cbn [read_line_secure]; makes_code. Qed.
Hint Resolve makes_signals makes_setup_terminal makes_malloc makes_tc_restore makes_line_secure : makes.
Lemma makes_confirm_pin t pin : makes call1 (confirm_pin t pin).
Proof. unfold confirm_pin. makes_code. Qed.
Hint Resolve makes_confirm_pin : makes.
Lemma makes_read_pin buf c : makes call1 (read_pin buf c).
Proof. unfold read_pin. makes_code. Qed.
Hint Resolve makes_read_pin : makes.

(** The shadow stack, in the parent and in its child. *)
Lemma makes_ss_lines lines a l : makes call1 (proc_ss_lines lines a l).
Proof. revert a l. induction lines; intros a l; cbn [proc_ss_lines]; makes_code. Qed.
Lemma makes_waitpid fuel pid : makes call1 (waitpid_retry fuel pid).
Proof. induction fuel; cbn [waitpid_retry]; makes_code. Qed.
Lemma makes_cet_child : makes call1 cet_child.
Proof. unfold cet_child. makes_code. Qed.
Hint Resolve makes_ss_lines makes_waitpid makes_cet_child : makes.
Lemma makes_cet_test a : makes call1 (cet_self_test a).
Proof. unfold cet_self_test. makes_code. Qed.
Hint Resolve makes_cet_test : makes.
Lemma makes_cet lines : makes call1 (cet_ss_lock_and_verify lines).
Proof. unfold cet_ss_lock_and_verify. makes_code. Qed.
Hint Resolve makes_cet : makes.

(** The configuration directory. *)
Lemma makes_home : wmakes call1 home_dir.
Proof. unfold home_dir. makes_code. Qed.
Lemma makes_set_config d : wmakes call1 (set_config_dir d).
Proof. unfold set_config_dir. makes_code. Qed.
Hint Resolve makes_home makes_set_config : makes.
Lemma makes_resolve : wmakes call1 resolve_config_paths.
Proof. unfold resolve_config_paths. makes_code. Qed.
Lemma makes_find_config : wmakes call1 find_config_dir.
Proof. unfold find_config_dir. makes_code. Qed.
Hint Resolve makes_resolve makes_find_config : makes.
Lemma makes_ensure : wmakes call1 ensure_config_dir.
Proof. unfold ensure_config_dir, drop_config_dir. makes_code. Qed.
Lemma makes_prompt : wmakes call1 prompt_transport_selection.
Proof. unfold prompt_transport_selection, set_transport, look_for, read_bridge, skip. makes_code. Qed.
Lemma makes_overwrite fuel fd n : makes call1 (overwrite fuel fd n).
Proof. revert n. induction fuel; intros n; cbn [overwrite]; makes_code. Qed.
Hint Resolve makes_ensure makes_prompt makes_overwrite : makes.
Lemma makes_wipe_key_file d fd bn : makes call1 (wipe_key_file d fd bn).
Proof. unfold wipe_key_file, key_file_there, overwrite_file. makes_code. Qed.
Hint Resolve makes_wipe_key_file : makes.
Lemma makes_wipe_key_files d fd l n : makes call1 (wipe_key_files d fd l n).
Proof. revert n. induction l; intros n; cbn [wipe_key_files]; makes_code. Qed.
Hint Resolve makes_wipe_key_files : makes.
Lemma makes_cleankeys : wmakes call1 full_cleankeys.
Proof. unfold full_cleankeys, skip. makes_code. Qed.
Hint Resolve makes_cleankeys : makes.

(** The salt and the identity. *)
Lemma makes_read_exact fuel fd n got : makes call1 (read_exact fuel fd n got).
Proof. revert n got. induction fuel; intros n got; cbn [read_exact]; makes_code. Qed.
Lemma makes_write_exact fuel fd data : makes call1 (write_exact fuel fd data).
Proof. revert data. induction fuel; intros [|c data]; cbn [write_exact]; makes_code. Qed.
Lemma makes_fsync_retry fuel fd : makes call1 (fsync_retry fuel fd).
Proof. induction fuel; cbn [fsync_retry]; makes_code. Qed.
Hint Resolve makes_read_exact makes_write_exact makes_fsync_retry : makes.
Lemma makes_fsync_exact fd : makes call1 (fsync_exact fd).
Proof. unfold fsync_exact. makes_code. Qed.
Lemma makes_fsync_dir fd : makes call1 (fsync_dir fd).
Proof. unfold fsync_dir. makes_code. Qed.
Lemma makes_drop_tmp fd n : makes call1 (drop_tmp fd n).
Proof. unfold drop_tmp. makes_code. Qed.
Hint Resolve makes_fsync_exact makes_fsync_dir makes_drop_tmp : makes.
Lemma makes_salt fd : makes call1 (crypto_load_or_create_salt fd).
Proof. unfold crypto_load_or_create_salt, load_salt, create_salt. makes_code. Qed.
Lemma makes_identity_cleanup d fd tmp e : makes call1 (identity_cleanup d fd tmp e).
Proof. unfold identity_cleanup, skip. makes_code. Qed.
Lemma makes_write_identity d fd tmp n c : makes call1 (write_identity d fd tmp n c).
Proof. unfold write_identity. makes_code. Qed.
Hint Resolve makes_salt makes_identity_cleanup makes_write_identity : makes.
Lemma makes_generate_identity fd k : makes call1 (crypto_generate_identity fd k).
Proof. unfold crypto_generate_identity. makes_code. Qed.
Lemma makes_load_identity fd k : makes call1 (crypto_load_identity fd k).
Proof. unfold crypto_load_identity. makes_code. Qed.
Hint Resolve makes_generate_identity makes_load_identity : makes.

(** The arena. *)
Lemma makes_unmap n : amakes call1 (unmap n).
Proof. unfold unmap. makes_code. Qed.
Lemma makes_random_into n : amakes call1 (random_into n).
Proof. unfold random_into. makes_code. Qed.
Hint Resolve makes_unmap makes_random_into : makes.
Lemma makes_init_fail n : amakes call1 (init_fail n).
Proof. unfold init_fail, set_arena. makes_code. Qed.
Hint Resolve makes_init_fail : makes.
Lemma makes_arena_init size : amakes call1 (arena_init size).
Proof.
  unfold arena_init, get_page_size, init_map, init_protect, init_finish, set_arena, poke. makes_code.
Qed.
Lemma makes_secure_abort {A} msg : amakes call1 (secure_abort (A := A) msg).
Proof. unfold secure_abort, wipe_usable, wipe, poke. makes_code. Qed.
Hint Resolve makes_secure_abort : makes.
Lemma makes_alloc size : amakes call1 (arena_alloc size).
Proof. unfold arena_alloc, arena_check_canary, canary_intact, peek, set_arena. makes_code. Qed.
Hint Resolve makes_arena_init makes_alloc : makes.
Lemma makes_alloc_canary size : amakes call1 (arena_alloc_canary size).
Proof. unfold arena_alloc_canary, store, poke. makes_code. Qed.
Hint Resolve makes_alloc_canary : makes.

(** The database. *)
Lemma makes_db_schema l : wmakes call1 (db_schema l).
Proof. induction l; cbn [db_schema]; unfold db_exec_sql; makes_code. Qed.
Lemma makes_db_verify fd : wmakes call1 (db_verify_file fd).
Proof. unfold db_verify_file, skip. makes_code. Qed.
Hint Resolve makes_db_schema makes_db_verify : makes.
Lemma makes_db_init d fd k : wmakes call1 (db_init d fd k).
Proof. unfold db_init, db_open, forget_key, db_exec_sql. makes_code. Qed.
Hint Resolve makes_db_init : makes.

(** Tor, in the parent and in its child. *)
Lemma makes_cleanup_entry dm d n : makes call1 (cleanup_entry dm d n).
Proof. unfold cleanup_entry, is_our_stale_entry. makes_code. Qed.
Hint Resolve makes_cleanup_entry : makes.
Lemma makes_cleanup_entries dm k fd d : makes call1 (cleanup_entries dm k fd d).
Proof. induction k; cbn [cleanup_entries]; makes_code. Qed.
Hint Resolve makes_cleanup_entries : makes.
Lemma makes_cleanup_stale dm d : makes call1 (cleanup_stale_tor_dirs dm d).
Proof. unfold cleanup_stale_tor_dirs. makes_code. Qed.
Lemma makes_write_full fd b : makes call1 (write_full fd b).
Proof. apply (makes_mono _ _ _ loop_call1), tcalm_write_full. Qed.
Hint Resolve makes_cleanup_stale makes_write_full : makes.
Lemma makes_torrc nd dm : wmakes call1 (generate_torrc nd dm).
Proof.
  unfold generate_torrc, prepare_data_dir, write_torrc, torrc_lines, drop_torrc, plugin_path, pid_text.
  makes_code.
Qed.
Lemma makes_verify_peer fd pid : makes call1 (tor_verify_peer fd pid).
Proof. unfold tor_verify_peer. makes_code. Qed.
Hint Resolve makes_verify_peer : makes.
Lemma makes_wait_loop n pid path : makes call1 (wait_loop n pid path).
Proof. induction n; cbn [wait_loop]; makes_code. Qed.
Lemma makes_connect_loop n fd path : makes call1 (connect_loop n fd path).
Proof. induction n; cbn [connect_loop]; makes_code. Qed.
Hint Resolve makes_torrc makes_wait_loop makes_connect_loop : makes.
Lemma makes_tor_attach pid path : makes call1 (tor_attach pid path).
Proof. unfold tor_attach, wait_for_control_socket, tor_child_cleanup. makes_code. Qed.
Lemma makes_close_fds first last : makes call1 (close_fds_from first last).
Proof. unfold close_fds_from. induction (seqZ first (last - first)); cbn [foldr]; makes_code. Qed.
Hint Resolve makes_tor_attach makes_close_fds : makes.
Lemma makes_tor_child d path : makes call1 (tor_child d path).
Proof. unfold tor_child, redirect. makes_code. Qed.
Hint Resolve makes_tor_child : makes.
Lemma makes_tor_spawn nd d dm : wmakes call1 (tor_spawn nd d dm).
Proof. unfold tor_spawn. makes_code. Qed.
Hint Resolve makes_tor_spawn : makes.

(** The steps of main. *)
Lemma makes_free_pin : pmakes call1 free_pin.
Proof. unfold free_pin. makes_code. Qed.
Lemma makes_abandon {A} : pmakes call1 (abandon (A := A)).
Proof. unfold abandon. makes_code. Qed.
Lemma makes_scatter lo hi : pmakes call1 (scatter_honeypots lo hi).
Proof.
  unfold scatter_honeypots. makes_code.
  match goal with |- context [replicate ?k tt] => generalize k end. intros n.
  unfold nothing. induction n; cbn [replicate foldr]; makes_code.
Qed.
Lemma makes_key_block : pmakes call1 key_block.
Proof. unfold key_block. makes_code. Qed.
Hint Resolve makes_free_pin makes_abandon makes_scatter makes_key_block : makes.
Lemma makes_abandon_ed {A} : pmakes call1 (abandon_ed (A := A)).
Proof. unfold abandon_ed, free_ed. makes_code. Qed.
Hint Resolve makes_abandon_ed : makes.
Lemma makes_prepare nd lines : pmakes call1 (prepare nd lines).
Proof. unfold prepare, nothing. makes_code. Qed.
Lemma makes_enter_pin first : pmakes call1 (enter_pin first).
Proof. unfold enter_pin, nothing. makes_code. Qed.
Lemma makes_make_arena : pmakes call1 make_arena.
Proof. unfold make_arena, nothing. makes_code. Qed.
Lemma makes_master_key : pmakes call1 make_master_key.
Proof. unfold make_master_key, nothing. makes_code. Qed.
Lemma makes_subkeys : pmakes call1 make_subkeys.
Proof. unfold make_subkeys, subkey_blocks, nothing. makes_code. Qed.
Lemma makes_identity first unlock : pmakes call1 (make_identity first unlock).
Proof. unfold make_identity, static_blocks, free_ed, nothing. makes_code. Qed.
Lemma makes_open_database : pmakes call1 open_database.
Proof. unfold open_database, nothing. makes_code. Qed.
Lemma makes_start_tor nd d dm : pmakes call1 (start_tor nd d dm).
Proof. unfold start_tor, nothing. makes_code. Qed.
Lemma makes_hardening : makes call1 early_hardening_init.
Proof. unfold early_hardening_init. makes_code. Qed.

(** ** The phases *)

(** Started under filters of stage k, every call is allowed when it is made, and
    only filters of stage k' are loaded afterwards, however the code ends. *)
Definition phase (k k' : Z) {A} (m : PM A) : Prop := forall p,
  filters_of k (w_tr (p_w p)) ->
  steps allowed (w_tr (p_w p)) (w_tr (p_w (m p).2)) /\ filters_of k' (w_tr (p_w (m p).2)).

Lemma phase_bind k1 k2 k3 {A B} (m : PM A) (f : A -> PM B) :
  k2 <= k3 -> phase k1 k2 m -> (forall a, phase k2 k3 (f a)) -> phase k1 k3 (mbind f m).
Proof.
  intros Hk Hm Hf p Hp. unfold mbind, PM_bind. destruct (Hm p Hp) as [Hs Hl].
  destruct (m p) as [[a|c| |c] p1]; try (split; [done|by apply (filters_of_later k2)]).
  destruct (Hf a p1 Hl) as [Hs' Hl']. split; [|done]. by eapply steps_trans.
Qed.

Lemma phase_makes P j k {A} (m : PM A) : Harmless P j -> k <= j -> pmakes P m -> phase k k m.
Proof.
  intros HP Hk Hm p Hp. destruct (grows_allowed P j (w_tr (p_w p)) (w_tr (p_w (m p).2))) as [Hs Hl];
    [done|by apply (filters_of_later k)|apply Hm|]. split; [done|]. intros rules Hr. apply Hp. by rewrite <-Hl.
Qed.

(** Loading a stage. *)
Lemma policy_call_unmatched k c : k <= 3 -> policy_call c = true -> unmatched k c.
Proof.
  intros Hk Hc q Hq. destruct (spared_unmatched c q) as [Hn Hm]; [by destruct c|done|].
  split; [done|]. rewrite forallb_forall in *. intros r Hr. apply Hm.
  apply list_elem_of_In, (stage_policy_of true (fun _ => true) k); [done|]. by apply list_elem_of_In.
Qed.

Lemma filters_of_earlier k t t' : t `suffix_of` t' -> filters_of k t' -> filters_of k t.
Proof. intros Hs Hf rules Hr. apply Hf. by apply (loaded_grows t t' (SysRequest true "" [])). Qed.

Lemma calls_allowed P k tr tr' :
  (forall c, P c = true -> unmatched k c) -> filters_of k tr' -> grows P tr tr' -> steps allowed tr tr'.
Proof.
  intros HP Hf (new & -> & Hn). induction new as [|c new IH]; [constructor|].
  cbn [forallb Datatypes.app] in *. apply andb_true_iff in Hn as [Hc Hn].
  assert (filters_of k (new ++ tr)) as Hf' by (eapply filters_of_earlier; [|exact Hf]; by exists [c]).
  constructor; [by apply IH|]. apply (unmatched_allow k); auto.
Qed.

Lemma load_filters nd h k k' tr :
  k <= k' -> filters_of k tr -> filters_of k' (seccomp_policy_load nd h k' tr).2.
Proof.
  intros Hk Hf. destruct (policy_load_spec nd h k' tr) as [_ Hp].
  destruct (seccomp_policy_load nd h k' tr) as [e tr']. cbn [fst snd] in *.
  apply (filters_of_later k k') in Hf; [|done].
  destruct Hp as [(_ & rules & E & Hsub & _)|[_ E]]; unfold filters_of; rewrite E; [|exact Hf].
  intros f [->|Hr]%elem_of_cons; [|by apply Hf]. intros r Hr. by apply (stage_policy_of nd h k'), Hsub.
Qed.

Lemma phase_load nd h k k' :
  k <= k' -> k' <= 3 -> phase k k' (on_trace (seccomp_policy_load nd h k')).
Proof.
  intros Hk H3 p Hp. pose proof (load_filters nd h k k' _ Hk Hp) as Hf.
  destruct (policy_load_spec nd h k' (w_tr (p_w p))) as [Hg _]. revert Hf Hg.
  unfold on_trace, on_world, lift_tr.
  destruct (seccomp_policy_load nd h k' (w_tr (p_w p))) as [e tr']. cbn [fst snd]. intros Hf Hg.
  split; [|done]. eapply calls_allowed; [|exact Hf|exact Hg]. intros c Hc. by apply policy_call_unmatched.
Qed.

Lemma phase_world_bind k1 k2 k3 {A B} (m : St world A) (f : A -> St world B) :
  phase k1 k2 (on_world m) -> (forall a, phase k2 k3 (on_world (f a))) ->
  phase k1 k3 (on_world (mbind f m)).
Proof.
  intros Hm Hf p Hp. specialize (Hm p Hp). revert Hm. unfold on_world. rewrite bind_eq.
  destruct (m (p_w p)) as [a w1]. cbn [fst snd]. intros [Hs Hl].
  specialize (Hf a (p <| p_w := w1 |>) Hl). revert Hf. unfold on_world.
  change (p_w (p <| p_w := w1 |>)) with w1. destruct (f a w1) as [b w2]. cbn [fst snd].
  intros [Hs' Hl']. split; [by eapply steps_trans|done].
Qed.

Lemma phase_trace_bind k1 k2 k3 {A B} (m : St trace A) (f : A -> St trace B) :
  phase k1 k2 (on_trace m) -> (forall a, phase k2 k3 (on_trace (f a))) ->
  phase k1 k3 (on_trace (mbind f m)).
Proof.
  intros Hm Hf p Hp. specialize (Hm p Hp). revert Hm. unfold on_trace, on_world, lift_tr. rewrite bind_eq.
  destruct (m (w_tr (p_w p))) as [a t1]. cbn [fst snd]. intros [Hs Hl].
  specialize (Hf a (p <| p_w := p_w p <| w_tr := t1 |> |>) Hl). revert Hf. unfold on_trace, on_world, lift_tr.
  change (w_tr (p_w (p <| p_w := p_w p <| w_tr := t1 |> |>))) with t1.
  destruct (f a t1) as [b t2]. cbn [fst snd]. intros [Hs' Hl']. split; [by eapply steps_trans|done].
Qed.

Section Whole.
Context (ioctl_dev scope ndebug debug : bool) (headers : String.string -> bool).
Context (dir_max status_lines : nat).

(** Code that stays within one stage. *)
Ltac at_stage P k := apply (phase_makes P k); [apply _|done|first [solve [eauto with makes nocore] | makes_code]].

Lemma phase_stage1 : phase 1 1 (on_trace (seccomp_stage1_early ndebug headers)).
Proof.
  unfold seccomp_stage1_early. apply (phase_trace_bind 1 1).
  { at_stage call1 1. }
  intros a. case_match.
  { at_stage call1 1. }
  apply (phase_trace_bind 1 1); [by apply phase_load|].
  intros e. at_stage call1 1.
Qed.

Lemma phase_constructor m : phase 1 1 (on_trace m) -> phase 1 1 (constructor m).
Proof.
  intros Hm. apply (phase_bind 1 1); [done|exact Hm|].
  intros r. unfold nothing. at_stage call1 1.
Qed.

Lemma phase_constructors first : phase 1 1 (constructors ndebug headers first).
Proof.
  assert (phase 1 1 (constructor (seccomp_stage1_early ndebug headers))) as H1
    by apply phase_constructor, phase_stage1.
  assert (phase 1 1 (constructor early_hardening_init)) as H2.
  { apply phase_constructor, (phase_makes call1 1); [apply _|done|]. apply pmakes_trace, makes_hardening. }
  unfold constructors. destruct first; apply (phase_bind 1 1); done.
Qed.

Lemma phase_prompt : phase 1 1 (on_world prompt_transport_selection).
Proof. apply (phase_makes call1 1); [apply _|done|]. apply pmakes_world, makes_prompt. Qed.

Lemma phase_confine : phase 1 2 (confine ndebug debug headers dir_max).
Proof.
  unfold confine.
  apply (phase_bind 1 1); [done| |intros _].
  { at_stage call1 1. }
  apply (phase_bind 1 2); [done|by apply phase_load|intros e].
  unfold nothing. at_stage loop_call 3.
Qed.

Hint Resolve makes_enter_pin makes_make_arena makes_master_key makes_subkeys makes_identity
  makes_open_database makes_start_tor makes_prepare makes_attach makes_make_listener makes_publish
  makes_check_address : makes.

Lemma phase_start first : phase 1 2 (start ndebug debug headers dir_max first).
Proof.
  unfold start, nothing.
  do 10 (apply (phase_bind 1 1); [done|at_stage call1 1|intros]).
  apply (phase_bind 1 1); [done|at_stage call1 1|intros].
  apply (phase_bind 1 2); [done|apply phase_confine|intros].
  at_stage call2 2.
Qed.

Lemma phase_initialise args : phase 1 2 (initialise ndebug debug headers dir_max status_lines args).
Proof.
  unfold initialise. apply (phase_bind 1 1); [done|at_stage call1 1|intros].
  destruct (wants_cleankeys args).
  { eapply (phase_bind 1 1); [done|at_stage call1 1|intros]. intros p Hp.
    eapply (phase_makes call2 2 2); [apply _|done|makes_code|by apply (filters_of_later 1)]. }
  apply (phase_bind 1 1); [done|at_stage call1 1|intros]. apply phase_start.
Qed.

Lemma phase_loop stdin rounds :
  within calm stdin -> phase 2 3 (run_loop ioctl_dev scope ndebug headers stdin rounds).
Proof.
  intros Hstdin. unfold run_loop, nothing. apply (phase_bind 2 3); [done| |intros; at_stage loop_call 3].
  unfold event_loop, event_loop_sandbox.
  apply (phase_world_bind 2 3).
  - apply (phase_world_bind 2 2); [at_stage loop_call 3|intros].
    apply (phase_world_bind 2 2).
    + apply (phase_makes loop_call 3); [apply _|done|]. apply pmakes_world.
      match goal with |- wmakes _ ?m => change (within calm m) end. unfold stop_running.
      within_code ltac:(first [apply calm_landlock | eauto with calm nocore]).
    + intros ok. destruct ok; cbn [negb].
      * apply (phase_world_bind 2 3); [by apply (phase_load ndebug headers 2 3)|intros].
        unfold stop_running, ui. at_stage loop_call 3.
      * intros p Hp. split; [constructor|by apply (filters_of_later 2)].
  - intros ok. apply (phase_makes loop_call 3); [apply _|done|]. apply pmakes_world.
    destruct ok; cbn [negb]; [by apply calm_loop_body|apply wmakes_ret].
Qed.

(** C13 The program is never stopped by its own filters.  From a history without
    filters, in either order of the constructors, with every argument list,
    every answer of the kernel, of Tor, of the user and of peers and every
    build: each call of the process, from the constructors to its exit, in the
    parent and in a child up to the program it is replaced by, is one that all
    filters loaded at that moment allow. *)
Theorem run_never_killed first args reads rounds p :
  loaded (w_tr (p_w p)) = [] ->
  steps allowed (w_tr (p_w p))
    (w_tr (p_w (run ioctl_dev scope ndebug debug headers dir_max status_lines first args reads rounds p).2)).
Proof.
  intros Hl. assert (filters_of 1 (w_tr (p_w p))) as Hp
    by (intros rules Hr; rewrite Hl in Hr; by apply not_elem_of_nil in Hr).
  enough (phase 1 3 (run ioctl_dev scope ndebug debug headers dir_max status_lines first args reads rounds))
    as H by by apply H.
  unfold run, main. apply (phase_bind 1 1); [done|apply phase_constructors|intros].
  apply (phase_bind 1 2); [done|apply phase_initialise|intros].
  apply (phase_bind 2 3); [done|apply phase_loop, calm_stdin_events|intros]. at_stage loop_call 3.
Qed.

End Whole.

End Code.

(** The run of [Demo], with an event of standard input in the loop: all three
    stages are loaded. *)
Lemma run_never_killed_witness :
  let p := (@run Demo.os toy_crypto toy_keys demo_b64 true true true false (fun _ => true) 5 5 true []
              10 [[(0, 1)]] Demo.process).2 in
  length (@loaded Demo.os (w_tr (p_w p))) = 3%nat /\
  steps (@allowed Demo.os) [] (w_tr (p_w p)).
Proof.
  split; [vm_compute; reflexivity|].
  exact (@run_never_killed Demo.os toy_crypto toy_keys demo_b64 true true true false (fun _ => true) 5 5
    true [] 10 [[(0, 1)]] Demo.process eq_refl).
Defined.
