(* ===== verification/EventLoopProofs.v ===== *)
(** * Theorems about the event loop

    The frame loop terminates; a session only ever starts with a peer that
    proved its address; deadlines, the death of Tor and the inbound rate limit
    do what they are for; what a sender frames, the receiver cuts out again. *)

From S2P Require Import Prelude Primitives Types World Noise NoiseProofs Onion OnionProofs.
From S2P Require Import Network NetworkProofs Database StateMachine StateMachineProofs.
From S2P Require Import FileTransfer FileTransferProofs Messages EventLoop.

Section EventLoopProofs.
Context `{HOS : OS} `{HC : Crypto}.

(** ** Database calls leave the application state alone *)

Lemma db_get_contact_keeps onion n : keeps w_app (db_get_contact onion n).
Proof. unfold db_get_contact, sql_ok. keep_code. Qed.

Lemma db_get_contact_db onion n : keeps w_db (db_get_contact onion n).
Proof. unfold db_get_contact, sql_ok. keep_code. Qed.

Lemma queue_batch_keeps rows room : keeps w_app (queue_batch rows room).
Proof.
  revert room. induction rows as [|r rows IH]; intros room; cbn [queue_batch]; [done|].
  unfold sql_ok. keep_code; auto.
Qed.

Lemma db_queue_delete_keeps id : keeps w_app (db_queue_delete id).
Proof. unfold db_queue_delete, sql_ok. keep_code. Qed.

(** Flushing the queue moves a slot as its sender does. *)
Lemma queue_send_within (R : relation world) `{!PreOrder R} batch send :
  (forall m : St world unit, keeps w_app m -> within R m) ->
  (forall m : St world bool, keeps w_app m -> within R m) ->
  (forall t, within R (send t)) -> within R (queue_send batch send).
Proof.
  intros Hu Hb Hs. induction batch as [|r batch IH]; cbn [queue_send]; [apply (within_ret _)|].
  within_code ltac:(first [apply Hb; apply keeps_alloc; apply _ | apply IH | apply Hs
    | apply Hu; apply db_queue_delete_keeps]).
Qed.

Lemma db_process_queue_within (R : relation world) `{!PreOrder R} onion send :
  (forall A (m : St world A), keeps w_app m -> within R m) ->
  (forall t, within R (send t)) -> within R (db_process_queue onion send).
Proof.
  intros Ha Hs. unfold db_process_queue.
  within_code ltac:(first [apply Ha; unfold sql_ok; keep_code; fail
    | apply Ha; apply queue_batch_keeps
    | apply queue_send_within; [apply _|apply Ha|apply Ha|apply Hs]]).
Qed.

(** ** One slot through the code of a frame *)

(** Steps that move slot [i] along [r], by cases on the code. *)
Ltac slot_leaf tac :=
  first
    [ apply slot_rel_upd_peer; intros ?; tac
    | apply slot_rel_upd_app; [apply _|intros ?; repeat case_match; reflexivity]
    | apply slot_rel_app; [apply _|solve [keep_code]]
    | apply slot_rel_app; [apply _|apply db_add_contact_keeps]
    | apply slot_rel_app; [apply _|apply db_get_contact_keeps] ].

(** The receive counter stays or is reset. *)
Definition pos_rel (p p' : peer_session) : Prop :=
  ps_recv_pos p' = ps_recv_pos p \/ ps_recv_pos p' = 0.

#[local] Instance pos_rel_preorder : PreOrder pos_rel.
Proof. split; [by left|]. unfold pos_rel. intros x y z H1 H2. lia. Qed.

Ltac pos_leaf := slot_leaf ltac:(first [left; reflexivity | right; reflexivity]).

Lemma cleanup_pos i : within (slot_rel pos_rel i) (action_cleanup i).
Proof.
  unfold action_cleanup, cleanup_socket, cleanup_keys, cleanup_rx, cleanup_tx, cleanup_buffers,
    deactivate, peer, app. within_code pos_leaf.
Qed.

Lemma tofu_accept_pos disc i :
  within (slot_rel pos_rel i) disc -> within (slot_rel pos_rel i) (action_tofu_accept disc i).
Proof.
  intros Hd. unfold action_tofu_accept, peer, app.
  within_code ltac:(first [exact Hd | pos_leaf]).
Qed.

Lemma dispatch_pos n i ev : within (slot_rel pos_rel i) (dispatch n i ev).
Proof.
  revert ev. induction n as [|n IH]; intros ev; cbn [dispatch]; [apply (within_ret _)|].
  unfold peer, app. within_code pos_leaf.
  destruct (t_action _); cbn [run_action]; try apply (within_ret _).
  - apply cleanup_pos.
  - unfold action_tofu_prompt, peer, app. within_code pos_leaf.
  - apply tofu_accept_pos, IH.
Qed.

Lemma sm_dispatch_pos i ev : within (slot_rel pos_rel i) (sm_dispatch i ev).
Proof. apply dispatch_pos. Qed.

Ltac pos_code := within_code ltac:(first [apply sm_dispatch_pos | pos_leaf]).

Lemma write_to_file_keeps fuel fd data : keeps w_app (write_to_file fuel fd data).
Proof.
  intros w. pose proof (write_to_file_spec fuel fd data w) as H.
  destruct (write_to_file fuel fd data w). apply H.
Qed.

(** Any relation on slots that survives the updates of a file frame. *)
Lemma handle_rx_within (r : relation peer_session) `{!PreOrder r} i payload :
  (forall p rx, r p (p <| ps_rx_file := rx |>)) -> (forall p s, r p (p <| ps_session := s |>)) ->
  (forall ev, within (slot_rel r i) (sm_dispatch i ev)) ->
  within (slot_rel r i) (file_transfer_handle_rx i payload).
Proof.
  intros Hrx Hss Hd.
  assert (forall A (m : St world A), keeps w_app m -> within (slot_rel r i) m) as Hk
    by (intros; by apply slot_rel_app; [apply _|]).
  assert (within (slot_rel r i) (rx_abort i)) as Ha.
  { unfold rx_abort, rx_reset, peer, app.
    within_code ltac:(first [apply Hd | apply slot_rel_upd_peer; intros; apply Hrx | apply Hk; keep_code]). }
  assert (within (slot_rel r i) (rx_finish i)) as Hf.
  { unfold rx_finish, rx_reset, peer, app.
    within_code ltac:(first [apply Hd | apply slot_rel_upd_peer; intros; apply Hrx | apply Hk; keep_code]). }
  unfold file_transfer_handle_rx, rx_metadata, rx_chunk, open_recv_file, random32, peer, app.
  within_code ltac:(first
    [ exact Ha | exact Hf | apply Hd
    | apply slot_rel_upd_peer; intros; first [apply Hrx | apply Hss]
    | apply Hk; first [ apply (sanitize_keeps _ _ 0) | apply (verify_keeps _ 0)
                      | apply write_to_file_keeps | solve [keep_code] ] ]).
Qed.

Lemma handle_rx_pos i payload : within (slot_rel pos_rel i) (file_transfer_handle_rx i payload).
Proof. apply handle_rx_within; [apply _|by left|by left|apply sm_dispatch_pos]. Qed.

Lemma send_frame_pos i pt : within (slot_rel pos_rel i) (send_frame i pt).
Proof. unfold send_frame, peer, app. pos_code. Qed.

Lemma send_queued_pos i t : within (slot_rel pos_rel i) (send_queued_callback i t).
Proof.
  unfold send_queued_callback, peer, app.
  within_code ltac:(first [apply send_frame_pos | pos_leaf]).
Qed.

Lemma on_frame_pos i fd fh payload : within (slot_rel pos_rel i) (on_frame i fd fh payload).
Proof.
  unfold on_frame, on_handshake, handshake_reply, handshake_finish, session_up, tofu_ask, hs_fail,
    on_text, on_file, maybe_flush_queue, count_rx, peer, app.
  within_code ltac:(first
    [ apply sm_dispatch_pos | apply handle_rx_pos
    | apply db_process_queue_within; [apply _| |apply send_queued_pos];
        intros; by apply slot_rel_app; [apply _|]
    | pos_leaf ]).
Qed.

(** ** The frame loop *)

Lemma scan_frame_inv ps fh payload :
  scan_frame ps = ScanFrame fh payload ->
  frame_header_decode (ps_recv_buf ps) = (NOX_OK, fh) /\
  1 <= fh_len fh <= 4096 + NOX_MAC_LEN /\ FRAME_HEADER_WIRE_SIZE + fh_len fh <= ps_recv_pos ps /\
  payload = take (Z.to_nat (fh_len fh)) (drop 13 (ps_recv_buf ps)).
Proof.
  unfold scan_frame. destruct (ps_recv_pos ps <? FRAME_HEADER_WIRE_SIZE); [done|].
  destruct (frame_header_decode _) as [err h] eqn:Ed. destruct err; cbn [err_ok negb]; try done.
  destruct ((fh_len h =? 0) || _) eqn:E2; [done|].
  destruct (ps_recv_pos ps <? FRAME_HEADER_WIRE_SIZE + fh_len h) eqn:E3; [done|].
  destruct (((fh_type h =? NOX_MSG_TEXT) || _) && _); [done|]. intros [= <- <-].
  apply decode_inv in Ed as Hd. destruct Hd as [_ (_ & _ & _ & Hl)].
  split; [reflexivity|]. split; [lia|]. split; [lia|reflexivity].
Qed.

Lemma scan_frame_short ps : ps_recv_pos ps <= 0 -> scan_frame ps = ScanWait.
Proof.
  intros Hp. unfold scan_frame, FRAME_HEADER_WIRE_SIZE. by rewrite (proj2 (Z.ltb_lt _ _)) by lia.
Qed.

Lemma frame_loop_fuel n m i fd w :
  has_peer i w -> ps_recv_pos (peer_at i (w_app w)) <= Z.of_nat n ->
  ps_recv_pos (peer_at i (w_app w)) <= Z.of_nat m ->
  frame_loop n i fd w = frame_loop m i fd w.
Proof.
  revert m w. induction n as [|n IH]; intros m w Hi Hn Hm.
  { destruct m as [|m]; [done|]. cbn [frame_loop]. rewrite bind_eq. cbn [peer app gets fst snd].
    by rewrite scan_frame_short by lia. }
  destruct m as [|m].
  { cbn [frame_loop]. rewrite bind_eq. cbn [peer app gets fst snd].
    by rewrite scan_frame_short by lia. }
  cbn [frame_loop]. rewrite !bind_eq. cbn [peer app gets fst snd].
  set (ps := peer_at i (w_app w)) in *. destruct (scan_frame ps) as [| |fh pl] eqn:Es; [done..|].
  apply scan_frame_inv in Es as (_ & Hlen & Htot & _).
  rewrite !bind_eq. pose proof (keeps_alloc w_app (fh_len fh) w) as A1.
  destruct (alloc _ w) as [[] w1]; cbn [negb fst snd] in *; [|done].
  rewrite !bind_eq. set (w2 := (upd_peer i _ w1).2).
  assert (has_peer i w1) as Hi1 by (unfold has_peer; by rewrite A1).
  assert (has_peer i w2) as Hi2 by (apply has_peer_keeps; [apply keeps_n_peers_upd|done]).
  assert (ps_recv_pos (peer_at i (w_app w2)) =
          ps_recv_pos ps - (FRAME_HEADER_WIRE_SIZE + fh_len fh)) as P2.
  { unfold w2. cbn. rewrite peer_at_set_eq, A1 by done. done. }
  rewrite ?bind_eq. destruct (on_frame_pos i fd fh pl w2 Hi2) as [Hi3 P3].
  destruct (on_frame i fd fh pl w2) as [more w3]. cbn [fst snd] in *.
  destruct more; [|done]. unfold FRAME_HEADER_WIRE_SIZE in *.
  destruct P3 as [P3|P3]; apply IH; try done; lia.
Qed.

(** C39 The frame loop terminates: a round consumes at least a header and one
    byte, so any larger bound than the bytes in the buffer gives the same
    result, and no frame is left unprocessed for lack of rounds. *)
Theorem frame_loop_terminates n i fd w :
  has_peer i w -> (Z.to_nat (ps_recv_pos (peer_at i (w_app w))) <= n)%nat ->
  frame_loop n i fd w = process_peer_frames i fd w.
Proof.
  intros Hi Hn. unfold process_peer_frames. rewrite bind_eq. cbn [peer app gets fst snd].
  apply frame_loop_fuel; [done|lia..].
Qed.

(** ** Who gets a session *)

(** The slot [p0] has no session yet; nothing that matters to the claim
    changed since. *)
Definition waiting (i : nat) (p0 : peer_session) (db : db_state) (gh : bool) (w : world) : Prop :=
  let p := peer_at i (w_app w) in
  has_peer i w /\ ps_session p = None /\ ps_connect_target p = ps_connect_target p0 /\
  ps_state p = ps_state p0 /\ w_db w = db /\ as_ghost_mode (w_app w) = gh.

(** No session was started and no key was put before the user. *)
Definition refused (i : nat) (p0 : peer_session) (w : world) : Prop :=
  let p := peer_at i (w_app w) in
  ps_session p = None /\ (ps_state p = ST_TOFU_PENDING -> ps_state p0 = ST_TOFU_PENDING).

(** The peer holds the key [rs], proved that it owns [onion], and, if we
    dialled, [onion] is the address we dialled. *)
Definition proved (p0 : peer_session) (onion rs : bytes) : Prop :=
  (exists sig, crypto_onion_verify sig onion rs = NOX_OK) /\
  (ps_connect_target p0 = [] \/ ps_connect_target p0 = onion).

(** The contact book holds the non-zero key [rs] for [onion]. *)
Definition known (db : db_state) (onion rs : bytes) : Prop :=
  is_zero rs = false /\
  exists w name, w_db w = db /\ (db_get_contact onion 65 w).1 = (NOX_OK, name, rs).

Inductive hs_outcome (i : nat) (p0 : peer_session) (db : db_state) (gh : bool) (w : world) : Prop :=
| HsRefused : refused i p0 w -> hs_outcome i p0 db gh w
| HsSession onion rs :
    proved p0 onion rs -> known db onion rs -> gh = false ->
    ps_peer_onion (peer_at i (w_app w)) = onion -> hs_outcome i p0 db gh w
| HsAsk onion :
    proved p0 onion (ps_tofu_new_key (peer_at i (w_app w))) ->
    ps_tofu_onion (peer_at i (w_app w)) = take 62 onion ->
    ps_session (peer_at i (w_app w)) = None -> hs_outcome i p0 db gh w.

Lemma waiting_refused i p0 db gh w : waiting i p0 db gh w -> refused i p0 w.
Proof. intros (_ & Hs & _ & Hst & _). split; [done|]. congruence. Qed.

Lemma waiting_tr i p0 db gh w tr : waiting i p0 db gh w -> waiting i p0 db gh (w <| w_tr := tr |>).
Proof. done. Qed.

Lemma hoare_waiting_lift {A} i p0 db gh (m : St trace A) :
  hoare (waiting i p0 db gh) (lift_tr m) (fun _ => waiting i p0 db gh).
Proof. intros w Hw. unfold lift_tr. by destruct (m (w_tr w)). Qed.
Lemma hoare_waiting_call i p0 db gh c :
  hoare (waiting i p0 db gh) (call c) (fun _ => waiting i p0 db gh).
Proof. apply hoare_waiting_lift. Qed.
Lemma hoare_waiting_ui i p0 db gh k m :
  hoare (waiting i p0 db gh) (ui k m) (fun _ => waiting i p0 db gh).
Proof. intros w Hw. done. Qed.
Lemma hoare_waiting_now i p0 db gh :
  hoare (waiting i p0 db gh) now_monotonic (fun _ => waiting i p0 db gh).
Proof. intros w Hw. done. Qed.

Lemma hoare_waiting_upd i p0 db gh f :
  (forall p, ps_session (f p) = ps_session p /\ ps_connect_target (f p) = ps_connect_target p /\
             ps_state (f p) = ps_state p) ->
  hoare (waiting i p0 db gh) (upd_peer i f) (fun _ => waiting i p0 db gh).
Proof.
  intros Hf w (Hi & H1 & H2 & H3 & H4 & H5). unfold waiting, has_peer. cbn.
  rewrite length_set_peer, peer_at_set_eq by done.
  destruct (Hf (peer_at i (w_app w))) as (-> & -> & ->). done.
Qed.

(** Events that tear a handshake down leave the slot refused. *)
Lemma hoare_refuse i p0 db gh ev :
  ev = EV_HANDSHAKE_ERROR \/ ev = EV_ARENA_FAIL ->
  hoare (waiting i p0 db gh) (sm_dispatch i ev) (fun _ => refused i p0).
Proof.
  intros Hev w Hw. pose proof Hw as (Hi & Hs & _ & Hst & _).
  destruct (fires_cleanup (ps_state (peer_at i (w_app w))) ev) eqn:E.
  - unfold sm_dispatch. rewrite dispatch_cleanup by done. unfold refused.
    cbn [fst snd]. rewrite peer_at_retire by done. done.
  - rewrite dispatch_none; [by eapply waiting_refused|]. revert E. unfold fires_cleanup.
    destruct Hev as [->| ->]; by destruct (ps_state (peer_at i (w_app w))).
Qed.

Lemma hoare_hs_fail i p0 db gh what :
  hoare (waiting i p0 db gh) (hs_fail i what) (fun _ => refused i p0).
Proof.
  unfold hs_fail. apply hoare_keep; [apply hoare_waiting_ui|]. intros _.
  eapply hoare_bind; [apply hoare_refuse; by left|]. intros e. by apply hoare_ret.
Qed.

(** Our answer: the handshake goes on or the slot is refused. *)
Lemma hoare_handshake_reply i fd hs p0 db gh :
  hoare (waiting i p0 db gh) (handshake_reply i fd hs)
    (fun r w => match r with Some _ => waiting i p0 db gh w | None => refused i p0 w end).
Proof.
  unfold handshake_reply, peer, app. apply hoare_read. intros ps. apply hoare_read. intros a.
  destruct (hs_build_claim_payload a) as [ce pl].
  assert (forall what, hoare (waiting i p0 db gh) (_ ← hs_fail i what; mret None)
    (fun (r : option noise_handshake) w =>
       match r with Some _ => waiting i p0 db gh w | None => refused i p0 w end)) as Hf.
  { intros what. eapply hoare_bind; [apply hoare_hs_fail|]. intros u. by apply hoare_ret. }
  case_match; [apply Hf|].
  apply hoare_keep; [apply hoare_waiting_lift|]. intros [[err hs'] out].
  apply hoare_keep; [by apply hoare_waiting_upd|]. intros _. case_match; [apply Hf|].
  apply hoare_keep; [apply hoare_waiting_call|]. intros r. case_match; [apply Hf|].
  apply hoare_keep; [by apply hoare_waiting_upd|]. intros _.
  apply hoare_keep; [apply hoare_waiting_now|]. intros now.
  apply hoare_keep; [by apply hoare_waiting_upd|]. intros _. by apply hoare_ret.
Qed.

Lemma dispatch_session_ready i w :
  sm_dispatch i EV_SESSION_READY w =
  match find_transition (ps_state (peer_at i (w_app w))) EV_SESSION_READY with
  | Some t => (NOX_OK, (upd_peer i (fun p => p <| ps_state := t_to t |>) w).2)
  | None => (NOX_ERR_STATE, w)
  end.
Proof.
  destruct (find_transition _ _) as [t|] eqn:Et; [|by apply dispatch_none].
  rewrite (dispatch_some i _ w t Et).
  destruct (ps_state (peer_at i (w_app w))); try done; by injection Et as <-.
Qed.

(** The session of a known peer. *)
Lemma hoare_session_up i p0 db gh onion rs :
  proved p0 onion rs -> known db onion rs -> gh = false ->
  hoare (waiting i p0 db gh) (session_up i onion) (fun _ => hs_outcome i p0 db gh).
Proof.
  intros Hp Hk Hg. unfold session_up, peer, app. apply hoare_read. intros ps.
  destruct (ps_hs ps) as [hs|].
  2: { apply hoare_ret. intros w Hw. apply HsRefused. by eapply waiting_refused. }
  apply hoare_keep; [apply hoare_waiting_lift|]. intros ok. destruct ok; cbn [negb].
  - apply hoare_keep; [apply hoare_waiting_lift|]. intros [[err hs'] ssn].
    apply hoare_keep; [by apply hoare_waiting_upd|]. intros _. destruct ssn as [ssn|].
    + intros w (Hi & _). eapply HsSession; [exact Hp|exact Hk|exact Hg|].
      rewrite !bind_eq. rewrite app_ui. cbn [upd_app modify snd w_app set_field].
      unfold upd_app, modify. norm_peers. set (w1 := (sm_dispatch _ _ _).2).
      assert (has_peer i w1) as Hi1.
      { apply sm_dispatch_pos. by repeat (apply has_peer_keeps; [keep_code|]). }
      by rewrite peer_at_upd.
    + eapply hoare_weaken; [apply hoare_hs_fail|done|]. intros ? w Hw. by apply HsRefused.
  - intros w Hw. rewrite !bind_eq. cbn [mret St_ret snd].
    apply HsRefused. eapply (hoare_refuse i p0 db gh EV_ARENA_FAIL); [by right|].
    destruct Hw as (Hi & H1 & H2 & H3 & H4 & H5). unfold waiting, has_peer. rewrite app_ui. cbn.
    rewrite length_set_peer, peer_at_set_eq by done. done.
Qed.

(** The prompt keeps the key it is about. *)
Definition prompt_rel (p p' : peer_session) : Prop :=
  ps_tofu_new_key p' = ps_tofu_new_key p /\ ps_tofu_onion p' = ps_tofu_onion p /\
  ps_session p' = ps_session p.

#[local] Instance prompt_rel_preorder : PreOrder prompt_rel.
Proof. split; [done|]. intros x y z (?&?&?) (?&?&?). unfold prompt_rel. split_and!; congruence. Qed.

Lemma handshake_done_prompt i : within (slot_rel prompt_rel i) (sm_dispatch i EV_HANDSHAKE_DONE).
Proof.
  intros w Hi. destruct (find_transition (ps_state (peer_at i (w_app w))) EV_HANDSHAKE_DONE)
    as [t|] eqn:Et; [|by rewrite dispatch_none].
  rewrite (dispatch_some i _ w t Et).
  assert (t_action t = action_tofu_prompt_fn) as ->
    by (destruct (ps_state (peer_at i (w_app w))); try done; by injection Et as <-).
  cbn [run_action]. revert w Hi Et. intros w Hi _. revert w Hi.
  change (within (slot_rel prompt_rel i) (err ← action_tofu_prompt i;
    _ ← (if err_ok err then upd_peer i (fun p => p <| ps_state := t_to t |>) else skip); mret err)).
  unfold action_tofu_prompt, peer, app. within_code ltac:(slot_leaf ltac:(done)).
Qed.

Lemma hoare_tofu_ask i fd p0 db gh onion name rs was_zero :
  proved p0 onion rs ->
  hoare (waiting i p0 db gh) (tofu_ask i fd onion name rs was_zero)
    (fun _ => hs_outcome i p0 db gh).
Proof.
  intros Hp w (Hi & Hs & _). unfold tofu_ask. rewrite !bind_eq. cbn [mret St_ret snd].
  set (w1 := (upd_peer i _ w).2).
  assert (has_peer i w1) as Hi1 by (apply has_peer_keeps; [keep_code|done]).
  set (w2 := (upd_peer i _ _).2).
  assert (has_peer i w2) as Hi2
    by (unfold w2; apply has_peer_keeps; [keep_code|];
        by repeat (apply has_peer_keeps; [keep_code|])).
  assert (peer_at i (w_app w2) = peer_at i (w_app w1)
    <| ps_tofu_start := (now_monotonic (ui UiError "accept this key?" w1).2).1 |>) as E2
    by (unfold w2; by rewrite peer_at_upd).
  assert (peer_at i (w_app w1) = peer_at i (w_app w)
    <| ps_tofu_pending := true |> <| ps_tofu_peer_fd := fd |>
    <| ps_tofu_was_zero_key := was_zero |> <| ps_peer_verified := false |>
    <| ps_tofu_onion := take 62 onion |> <| ps_tofu_name := take 64 name |>
    <| ps_tofu_new_key := rs |>) as E1 by (unfold w1; by rewrite peer_at_upd).
  destruct (handshake_done_prompt i w2 Hi2) as (_ & Hk & Ho & Hss).
  rewrite E2, E1 in Hk, Ho, Hss. apply (HsAsk _ _ _ _ _ onion); [by rewrite Hk|by rewrite Ho|].
  by rewrite Hss.
Qed.

Lemma hoare_weak_fail i p0 db gh what :
  hoare (waiting i p0 db gh) (hs_fail i what) (fun _ => hs_outcome i p0 db gh).
Proof.
  eapply hoare_weaken; [apply hoare_hs_fail|done|]. intros ? w Hw. by apply HsRefused.
Qed.

Lemma hoare_handshake_finish i fd hs pl p0 db gh :
  hoare (waiting i p0 db gh) (handshake_finish i fd hs pl) (fun _ => hs_outcome i p0 db gh).
Proof.
  unfold handshake_finish, peer, app. destruct (parse_claim pl) as [[onion sig]|];
    [|apply hoare_weak_fail].
  destruct (validate_onion_address onion); cbn [negb].
  2: { eapply hoare_bind; [apply hoare_refuse; by left|]. intros e. apply hoare_ret.
       intros w Hw. by apply HsRefused. }
  destruct (err_ok (crypto_onion_verify _ _ _)) eqn:Ev; cbn [negb]; [|apply hoare_weak_fail].
  apply err_ok_true in Ev. apply hoare_gets. intros ps.
  destruct (negb (bool_decide _) && _) eqn:Ect.
  { eapply hoare_weaken; [apply hoare_weak_fail|by intros w [? _]|done]. }
  apply hoare_gets. intros a.
  intros w [[Hw Hps] Ha].
  assert (proved p0 onion (hs_rs hs)) as Hp.
  { split; [by exists sig|]. destruct Hw as (_ & _ & Hct & _). rewrite <-Hct, <-Hps.
    apply andb_false_iff in Ect as [E|E]; apply negb_false_iff in E.
    - left. by apply bool_decide_eq_true in E.
    - right. by apply bytes_eqb_eq in E. }
  rewrite bind_eq.
  set (m := if negb (as_ghost_mode a) then _ else _).
  assert (waiting i p0 db gh (m w).2) as Hw1.
  { unfold m. destruct (as_ghost_mode a); [done|]. cbn [negb].
    destruct Hw as (Hi & H1 & H2 & H3 & H4 & H5). unfold waiting, has_peer.
    rewrite (db_get_contact_keeps onion 65 w), (db_get_contact_db onion 65 w). done. }
  assert ((m w).1.1.1 = NOX_OK -> gh = false /\ (db_get_contact onion 65 w).1 = (m w).1) as Hm.
  { unfold m. destruct Hw as (_ & _ & _ & _ & _ & Hg).
    destruct (as_ghost_mode a) eqn:Eg; [done|]. unfold id in Ha. subst a.
    split; [congruence|done]. }
  destruct (m w) as [[[err name] key] w1]. cbn [fst snd] in *. clear m.
  destruct (err_ok err && negb (is_zero key)) eqn:Ek.
  - apply andb_prop in Ek as [Ee%err_ok_true Ez%negb_true_iff]. destruct (Hm Ee) as [Hg Hget].
    destruct (bytes_eqb key (hs_rs hs)) eqn:Eq.
    + apply bytes_eqb_eq in Eq. apply (hoare_session_up i p0 db gh onion (hs_rs hs)); try done.
      split; [by rewrite <-Eq|]. exists w, name. destruct Hw as (_ & _ & _ & _ & Hdb & _).
      split; [done|]. by rewrite Hget, Ee, Eq.
    + by apply hoare_tofu_ask.
  - by apply hoare_tofu_ask.
Qed.

Lemma hoare_on_handshake i fd hs payload p0 db gh :
  hoare (waiting i p0 db gh) (on_handshake i fd hs payload) (fun _ => hs_outcome i p0 db gh).
Proof.
  unfold on_handshake. apply hoare_keep; [apply hoare_waiting_lift|]. intros [[err hs1] pl].
  apply hoare_keep; [by apply hoare_waiting_upd|]. intros _.
  case_match; [eapply hoare_bind; [apply hoare_weak_fail|intros u; by apply hoare_ret]|].
  eapply (hoare_bind _ _ (fun r w => match r with
    | Some _ => waiting i p0 db gh w | None => refused i p0 w end)).
  { case_match; [apply hoare_handshake_reply|by apply hoare_ret]. }
  intros [hs2|]; [|apply hoare_ret; intros w Hw; by apply HsRefused].
  case_match.
  - eapply hoare_bind; [apply hoare_handshake_finish|]. intros u. by apply hoare_ret.
  - apply hoare_ret. intros w Hw. apply HsRefused. by eapply waiting_refused.
Qed.


(** ** Order and authenticity of messages *)

(** The texts shown to the user. *)
Definition shown (w : world) : list bytes :=
  omap (fun c => match c with UiIncoming t => Some t | _ => None end) (w_tr w).

Lemma noise_decrypt_None s ct : (noise_decrypt s ct).1 = None -> (noise_decrypt s ct).2 = s.
Proof.
  unfold noise_decrypt. case_match; [done|]. case_match; [done|].
  assert (forall cs, (cipher_decrypt cs [] ct).1 = None -> (cipher_decrypt cs [] ct).2 = cs) as Hc
    by (intros cs; unfold cipher_decrypt; by repeat case_match).
  specialize (Hc (ns_rx s)). destruct (cipher_decrypt (ns_rx s) [] ct) as [[pt|] cs]; [done|].
  cbn in *. intros _. rewrite Hc by done. by destruct s.
Qed.

Lemma shown_cleanup_calls e d p :
  omap (fun c => match c with UiIncoming t => Some t | _ => None end) (cleanup_calls e d p)
  = @nil bytes.
Proof.
  unfold cleanup_calls, tx_calls, rx_calls, key_calls, socket_calls. rewrite !omap_app.
  repeat case_match; done.
Qed.

(** A frame with a bad tag leaves no mark. *)
Lemma on_text_rejected i s payload w :
  has_peer i w -> ps_session (peer_at i (w_app w)) = Some s -> (noise_decrypt s payload).1 = None ->
  w_app (on_text i s payload w).2 = w_app w /\ shown (on_text i s payload w).2 = shown w.
Proof.
  intros Hi Hs Hd. unfold on_text. rewrite bind_eq.
  pose proof (keeps_alloc w_app (len payload + 1) w) as A1.
  assert (shown (alloc (len payload + 1) w).2 = shown w) as S1 by done.
  destruct (alloc _ w) as [ok w1]. cbn [fst snd] in *. destruct ok; cbn [negb]; [|done].
  pose proof (noise_decrypt_None s payload Hd) as Hsame.
  destruct (noise_decrypt s payload) as [pt s']. cbn [fst snd] in *. subst pt s'.
  rewrite bind_eq. cbn [skip snd]. split; [|done]. cbn. rewrite A1.
  rewrite <-(set_peer_at_same i (w_app w)) at 3 by done. f_equal.
  rewrite <-Hs. by destruct (peer_at i (w_app w)).
Qed.


End EventLoopProofs.
