(* ===== verification/LoopProofs.v ===== *)
(** * Theorems about the rounds of the event loop

    The sweep retires exactly the connections whose deadline passed; when Tor
    dies no connection and no key survives; inbound handshakes are limited;
    what one side frames, the other side cuts out of its buffer again. *)

From S2P Require Import Prelude Primitives Types World Noise Onion OnionProofs Network.
From S2P Require Import NetworkProofs Database StateMachine StateMachineProofs FileTransfer.
From S2P Require Import FileTransferProofs Messages EventLoop.

(** ** Code of one slot leaves the others alone *)

#[global] Instance others_preorder i : PreOrder (others_same i).
Proof. split; apply _. Qed.

Lemma others_app {A} i (m : St world A) : keeps w_app m -> within (others_same i) m.
Proof. intros Hm w. unfold others_same. rewrite Hm. split; [done|]. intros j _. by rewrite Hm. Qed.

Lemma others_upd_peer i f : within (others_same i) (upd_peer i f).
Proof.
  intros w. unfold others_same. cbn. rewrite length_set_peer. split; [done|].
  intros j Hj. by rewrite peer_at_set_ne.
Qed.

Lemma others_upd_app i f :
  (forall a, as_peers (f a) = as_peers a) -> within (others_same i) (upd_app f).
Proof.
  intros Hf w. unfold others_same, peer_at. cbn. by rewrite Hf.
Qed.

Ltac others_leaf :=
  first [ apply others_upd_peer
        | apply others_upd_app; intros ?; repeat case_match; reflexivity
        | apply others_app; solve [keep_code]
        | apply others_app; apply db_add_contact_keeps ].

Section DispatchOthers.
Context `{HOS : OS} `{HC : Crypto}.

Lemma dispatch_others n i ev : within (others_same i) (dispatch n i ev).
Proof.
  revert ev. induction n as [|n IH]; intros ev; cbn [dispatch]; [apply (within_ret _)|].
  unfold peer, app. within_code others_leaf.
  destruct (t_action _); cbn [run_action]; try apply (within_ret _).
  - unfold action_cleanup, cleanup_socket, cleanup_keys, cleanup_rx, cleanup_tx, cleanup_buffers,
      deactivate, peer, app. within_code others_leaf.
  - unfold action_tofu_prompt, peer, app. within_code others_leaf.
  - unfold action_tofu_accept, peer, app. within_code ltac:(first [apply IH | others_leaf]).
Qed.

Lemma sm_dispatch_others i ev : within (others_same i) (sm_dispatch i ev).
Proof. apply dispatch_others. Qed.

End DispatchOthers.

Ltac others_code := within_code ltac:(first [apply sm_dispatch_others | others_leaf]).

Section LoopProofs.
Context `{HOS : OS} `{HC : Crypto}.

(** A loop over the slots: [P] relates each slot before and after. *)
Lemma each_slot_spec (P : peer_session -> peer_session -> Prop) (f : nat -> St world unit) n i w :
  (forall j w, has_peer j w ->
     others_same j w (f j w).2 /\ P (peer_at j (w_app w)) (peer_at j (w_app (f j w).2))) ->
  (i + n <= n_peers w)%nat ->
  let w' := (each_slot f i n w).2 in
  n_peers w' = n_peers w /\
  forall j, ((i <= j < i + n)%nat -> P (peer_at j (w_app w)) (peer_at j (w_app w'))) /\
            (~ (i <= j < i + n)%nat -> peer_at j (w_app w') = peer_at j (w_app w)).
Proof.
  intros Hf. revert i w. induction n as [|n IH]; intros i w Hn; cbn [each_slot].
  { split; [done|]. intros j. split; [lia|done]. }
  rewrite bind_eq. destruct (Hf i w) as [[Hl Ho] HP]; [unfold has_peer, n_peers in *; lia|].
  set (w1 := (f i w).2) in *. destruct (IH (S i) w1) as [Hl2 Hj]; [unfold n_peers in *; lia|].
  split; [unfold n_peers in *; congruence|]. intros j. destruct (Hj j) as [H1 H2]. split.
  - intros Hr. destruct (decide (j = i)) as [->|Hne].
    + rewrite H2 by lia. exact HP.
    + rewrite <-(Ho j) by done. apply H1. lia.
  - intros Hr. rewrite H2 by lia. apply Ho. lia.
Qed.

(** ** The death of Tor *)

Definition dropped (p p' : peer_session) : Prop :=
  ps_state p' = ST_IDLE /\ ps_fd p' < 0 /\
  (0 <= ps_fd p \/ ps_state p <> ST_IDLE -> slot_clean p').

Lemma tor_died_slot_spec j w :
  has_peer j w ->
  others_same j w (tor_died_slot j w).2 /\
  dropped (peer_at j (w_app w)) (peer_at j (w_app (tor_died_slot j w).2)).
Proof.
  intros Hi. assert (within (others_same j) (tor_died_slot j)) as Ho
    by (unfold tor_died_slot, peer, app; others_code).
  split; [apply Ho|].
  unfold tor_died_slot. rewrite bind_eq. cbn [peer app gets fst snd].
  set (p := peer_at j (w_app w)). destruct (_ || _) eqn:E.
  - rewrite bind_eq. cbn [skip snd]. unfold sm_dispatch. rewrite dispatch_cleanup; [|done|].
    2: { fold p. by destruct (ps_state p). }
    cbn [snd]. rewrite peer_at_retire by done. fold p.
    pose proof (cleaned_slot_clean p) as Hc. destruct Hc as (H1 & H2 & H3).
    unfold dropped. split_and!; [done|done|]. intros _. apply cleaned_slot_clean.
  - apply orb_false_iff in E as [E1 E2]. apply negb_false_iff, bool_decide_eq_true in E2.
    cbn [skip snd]. unfold dropped. fold p. split_and!; [done|lia|]. intros [?|?]; [lia|done].
Qed.

(** No transition changes the mode or the rate limits. *)
Definition settings (w : world) : bool * (Z * Z) * (Z * Z) :=
  let a := w_app w in
  (as_ghost_mode a, (as_hs_attempt_count a, as_hs_window_start a),
   (as_hs_inbound_count a, as_hs_inbound_window_start a)).

#[global] Instance no_trace_settings : NoTrace settings.
Proof. done. Qed.

Lemma settings_upd_peer i f : keeps settings (upd_peer i f).
Proof. done. Qed.
#[local] Hint Resolve settings_upd_peer : keeps.

Ltac settings_code :=
  keep_code; try (intros ?; unfold settings, upd_app, modify; cbn; repeat case_match; done).

Lemma dispatch_settings n i ev : keeps settings (dispatch n i ev).
Proof.
  revert ev. induction n as [|n IH]; intros ev; cbn [dispatch]; [done|].
  unfold peer, app. apply keeps_bind; [done|]. intros p. case_match; [|done].
  apply keeps_bind; [|intros e; settings_code].
  destruct (t_action _); cbn [run_action]; try done.
  - unfold action_cleanup, cleanup_socket, cleanup_keys, cleanup_rx, cleanup_tx, cleanup_buffers,
      deactivate, peer, app. settings_code.
  - unfold action_tofu_prompt, peer, app. settings_code.
  - unfold action_tofu_accept, peer, app. specialize (IH EV_PEER_DISCONNECTED). settings_code.
Qed.

Definition ghost (w : world) : bool := as_ghost_mode (w_app w).

Lemma dispatch_ghost n i ev : keeps ghost (dispatch n i ev).
Proof. intros w. pose proof (dispatch_settings n i ev w) as E. unfold settings in E. by simplify_eq. Qed.

Lemma ghost_each_tor n i w : ghost (each_slot tor_died_slot i n w).2 = ghost w.
Proof.
  revert i w. induction n as [|n IH]; intros i w; [done|]. cbn [each_slot]. rewrite bind_eq, IH.
  unfold tor_died_slot, peer, app. rewrite bind_eq. cbn [gets fst snd]. case_match; [|done].
  rewrite bind_eq. cbn [skip snd]. apply dispatch_ghost.
Qed.


(** ** Deadlines *)

(** The deadline of a slot has passed at [now]. *)
Definition expired (p : peer_session) (now : Z) : bool :=
  if in_handshake (ps_state p) then NOX_HANDSHAKE_TIMEOUT_SEC <? now - ps_handshake_start p
  else if bool_decide (ps_state p = ST_TOFU_PENDING) then NOX_TOFU_TIMEOUT_SEC <? now - ps_tofu_start p
  else if is_established (ps_state p) then
    (NOX_PEER_IDLE_TIMEOUT_SEC <? now - ps_last_active p) ||
    ((0 <? ps_recv_pos p) && (NOX_HALFFRAME_TIMEOUT_SEC <? now - ps_last_active p)
       && (ps_recv_pos p <? RECV_BUF_CAPACITY))
  else false.

(** What the sweep does to a slot without a running transfer. *)
Definition swept (now : Z) (p p' : peer_session) : Prop :=
  rx_active (ps_rx_file p) = false -> if expired p now then slot_clean p' else p' = p.

(** The clock shows [now] during the sweep. *)
Definition clock_at (now : Z) : Prop := forall tr, sr_ret (os_answer tr ClockMonotonic) = now.

Lemma now_at now w : clock_at now -> now_monotonic w = (now, (now_monotonic w).2).
Proof. intros Hc. unfold now_monotonic. rewrite bind_eq. cbn. by rewrite Hc. Qed.

(** A deadline check that fires retires the slot. *)
Lemma retire_step i ev w :
  has_peer i w -> fires_cleanup (ps_state (peer_at i (w_app w))) ev = true ->
  has_peer i ((_ ← sm_dispatch i ev; skip) w).2 /\
  slot_clean (peer_at i (w_app ((_ ← sm_dispatch i ev; skip) w).2)).
Proof.
  intros Hi Hf. rewrite bind_eq. cbn [skip snd]. unfold sm_dispatch.
  rewrite dispatch_cleanup by done. cbn [snd]. split.
  - unfold has_peer. by rewrite (proj1 (others_same_retire i w)).
  - rewrite peer_at_retire by done. apply cleaned_slot_clean.
Qed.

(** One check: [due] says whether it fires. *)
Definition checks (i : nat) (m : St world unit) (due : peer_session -> bool) : Prop :=
  forall w, has_peer i w ->
    let p := peer_at i (w_app w) in let w' := (m w).2 in
    has_peer i w' /\
    (due p = true -> slot_clean (peer_at i (w_app w'))) /\
    (due p = false -> peer_at i (w_app w') = p).

Lemma check_handshake_checks now i :
  clock_at now -> checks i (check_handshake_timeout i)
    (fun p => in_handshake (ps_state p) && (NOX_HANDSHAKE_TIMEOUT_SEC <? now - ps_handshake_start p)).
Proof.
  intros Hc w Hi p w'. unfold w', check_handshake_timeout. rewrite bind_eq.
  cbn [peer app gets fst snd]. fold p. destruct (in_handshake (ps_state p)) eqn:Es; [|done].
  rewrite bind_eq, (now_at now) by done. cbn [fst snd andb].
  set (w1 := (now_monotonic w).2).
  destruct (_ <? _); [|done]. rewrite bind_eq. set (w2 := (ui _ _ w1).2).
  assert (peer_at i (w_app w2) = p) as P2 by done.
  destruct (retire_step i EV_HANDSHAKE_TIMEOUT w2) as [H1 H2]; [done| |done].
  rewrite P2. revert Es. by destruct (ps_state p).
Qed.

Lemma check_tofu_checks now i :
  clock_at now -> checks i (check_tofu_timeout i)
    (fun p => bool_decide (ps_state p = ST_TOFU_PENDING) && (NOX_TOFU_TIMEOUT_SEC <? now - ps_tofu_start p)).
Proof.
  intros Hc w Hi p w'. unfold w', check_tofu_timeout. rewrite bind_eq.
  cbn [peer app gets fst snd]. fold p. case_bool_decide as Es; [|done].
  rewrite bind_eq, (now_at now) by done. cbn [fst snd andb].
  set (w1 := (now_monotonic w).2).
  destruct (_ <? _); [|done]. rewrite bind_eq. set (w2 := (ui _ _ w1).2).
  assert (peer_at i (w_app w2) = p) as P2 by done.
  destruct (retire_step i EV_PEER_DISCONNECTED w2) as [H1 H2]; [done| |done].
  rewrite P2, Es. done.
Qed.

Lemma check_idle_checks now i :
  clock_at now -> checks i (check_idle_timeout i)
    (fun p => is_established (ps_state p) &&
       ((NOX_PEER_IDLE_TIMEOUT_SEC <? now - ps_last_active p) ||
        ((0 <? ps_recv_pos p) && (NOX_HALFFRAME_TIMEOUT_SEC <? now - ps_last_active p)
           && (ps_recv_pos p <? RECV_BUF_CAPACITY)))).
Proof.
  intros Hc w Hi p w'. unfold w', check_idle_timeout. rewrite bind_eq.
  cbn [peer app gets fst snd]. fold p. destruct (is_established (ps_state p)) eqn:Es; [|done].
  rewrite bind_eq, (now_at now) by done. cbn [fst snd andb].
  set (w1 := (now_monotonic w).2).
  assert (fires_cleanup (ps_state p) EV_PEER_DISCONNECTED = true) as Hf
    by (revert Es; by destruct (ps_state p)).
  destruct (NOX_PEER_IDLE_TIMEOUT_SEC <? _); cbn [orb].
  - rewrite bind_eq. destruct (retire_step i EV_PEER_DISCONNECTED (ui UiError "idle timeout" w1).2)
      as [H1 H2]; done.
  - destruct (_ && _ && _); [|done].
    destruct (retire_step i EV_PEER_DISCONNECTED w1) as [H1 H2]; done.
Qed.

Lemma check_chunk_idle i w :
  rx_active (ps_rx_file (peer_at i (w_app w))) = false -> (check_chunk_timeout i w).2 = w.
Proof.
  intros Hr. unfold check_chunk_timeout. rewrite bind_eq. cbn [peer app gets fst snd].
  by rewrite Hr.
Qed.

Lemma sweep_slot_spec now j w :
  clock_at now -> has_peer j w ->
  others_same j w (sweep_slot j w).2 /\
  swept now (peer_at j (w_app w)) (peer_at j (w_app (sweep_slot j w).2)).
Proof.
  intros Hc Hi. assert (within (others_same j) (sweep_slot j)) as Ho.
  { unfold sweep_slot, check_handshake_timeout, check_tofu_timeout, check_chunk_timeout,
      check_idle_timeout, rx_reset, peer, app. others_code. }
  split; [apply Ho|]. intros Hrx. unfold sweep_slot. rewrite bind_eq. cbn [peer app gets fst snd].
  set (p := peer_at j (w_app w)) in *.
  destruct ((ps_fd p =? -1) && bool_decide (ps_state p = ST_IDLE)) eqn:Eidle.
  { apply andb_prop in Eidle as [_ Es%bool_decide_eq_true]. unfold expired. by rewrite Es. }
  rewrite !bind_eq. destruct (check_handshake_checks now j Hc w Hi) as (Hi1 & D1 & N1).
  fold p in D1, N1. set (w1 := (check_handshake_timeout j w).2) in *.
  destruct (check_tofu_checks now j Hc w1 Hi1) as (Hi2 & D2 & N2).
  set (w2 := (check_tofu_timeout j w1).2) in *.
  destruct (check_idle_checks now j Hc w2 Hi2) as (_ & D3 & N3).
  (* a retired slot passes the later checks unchanged *)
  assert (forall q, slot_clean q -> ps_state q = ST_IDLE /\ rx_active (ps_rx_file q) = false) as Hcl
    by (intros q Hq; destruct Hq as (?&?&?&?&?&?&?&?&?&?&?&?&?&?&?); done).
  assert (rx_active (ps_rx_file (peer_at j (w_app w2))) = false ->
    (check_idle_timeout j (check_chunk_timeout j w2).2).2 = (check_idle_timeout j w2).2) as Hch
    by (intros Hr; by rewrite check_chunk_idle).
  unfold expired. destruct (in_handshake (ps_state p)) eqn:E1; cbn [andb] in D1, N1.
  - assert (bool_decide (ps_state p = ST_TOFU_PENDING) = false /\ is_established (ps_state p) = false)
      as [F1 F2] by (revert E1; by destruct (ps_state p)).
    destruct (_ <? _).
    + specialize (D1 eq_refl). destruct (Hcl _ D1) as [S1 R1]. rewrite S1 in N2.
      specialize (N2 eq_refl). rewrite N2 in *. rewrite Hch by done. rewrite S1 in N3.
      by rewrite N3.
    + rewrite (N1 eq_refl) in *. rewrite F1 in N2. rewrite (N2 eq_refl) in *.
      rewrite Hch by done. rewrite F2 in N3. by apply N3.
  - rewrite (N1 eq_refl) in *. destruct (bool_decide (ps_state p = ST_TOFU_PENDING)) eqn:E2;
      cbn [andb] in D2, N2.
    + assert (is_established (ps_state p) = false) as F2
        by (apply bool_decide_eq_true in E2; by rewrite E2).
      destruct (_ <? _).
      * specialize (D2 eq_refl). destruct (Hcl _ D2) as [S1 R1]. rewrite Hch by done.
        rewrite S1 in N3. by rewrite N3.
      * rewrite (N2 eq_refl) in *. rewrite Hch by done. rewrite F2 in N3. by apply N3.
    + rewrite (N2 eq_refl) in *. rewrite Hch by done.
      destruct (is_established (ps_state p)); [|by apply N3]. cbn [andb] in D3, N3.
      destruct (_ || _); [by apply D3|by apply N3].
Qed.

(** A sweep retires exactly the connections whose deadline has passed: thirty
    seconds for a handshake, two minutes for the user's decision, an hour of
    silence or a minute inside half a frame for a session.  Every other slot
    without a running transfer is left exactly as it is. *)
Theorem sweep_deadlines now w :
  clock_at now -> n_peers w = NOX_MAX_PEERS ->
  forall j, (j < NOX_MAX_PEERS)%nat ->
    let p := peer_at j (w_app w) in let p' := peer_at j (w_app (sweep w).2) in
    rx_active (ps_rx_file p) = false -> if expired p now then slot_clean p' else p' = p.
Proof.
  intros Hc Hn j Hj. destruct (each_slot_spec (swept now) sweep_slot NOX_MAX_PEERS 0 w) as [_ Hs].
  - intros i w' Hi. by apply sweep_slot_spec.
  - unfold n_peers in *. lia.
  - apply Hs. lia.
Qed.

(** ** Inbound connections *)

Definition inbound (w : world) : Z * Z :=
  (as_hs_inbound_count (w_app w), as_hs_inbound_window_start (w_app w)).

#[local] Instance no_trace_inbound : NoTrace inbound.
Proof. done. Qed.

(** The test of the window, and the state after it. *)
Lemma inbound_allowed_eq w :
  let now := sr_ret (os_answer (w_tr w) ClockMonotonic) in
  let w1 := w <| w_tr := ClockMonotonic :: w_tr w |> in
  inbound_allowed w =
  if 60 <=? now - as_hs_inbound_window_start (w_app w)
  then (true, w1 <| w_app := w_app w <| as_hs_inbound_count := 0 |>
                                     <| as_hs_inbound_window_start := now |> |>)
  else (negb (5 <=? as_hs_inbound_count (w_app w)), w1).
Proof.
  intros now w1. unfold inbound_allowed. rewrite !bind_eq.
  change (now_monotonic w) with (now, w1). cbn [fst snd upd_app modify app gets mret St_ret].
  unfold id. change (w_app w1) with (w_app w). destruct (60 <=? _); [done|]. by destruct w.
Qed.

Lemma dispatch_inbound i ev : keeps inbound (sm_dispatch i ev).
Proof.
  intros w. pose proof (dispatch_settings 2 i ev w) as E. unfold settings in E.
  injection E as _ _ _ E1 E2. unfold inbound. by f_equal.
Qed.

(** A connection given a slot is counted once, or refused. *)
Lemma accept_in_slot_inbound i fd w :
  let w' := (accept_in_slot i fd w).2 in
  inbound w' = inbound w \/ inbound w' = ((inbound w).1 + 1, (inbound w).2).
Proof.
  intros w'. unfold w', accept_in_slot, epoll_add_fd. rewrite !bind_eq.
  cbn [app gets fst snd upd_peer upd_app modify mret St_ret]. destruct (negb _); [by left|].
  rewrite bind_eq. set (w1 := (call _ _).2). assert (inbound w1 = inbound w) as E1 by done.
  pose proof (keeps_alloc inbound SIZEOF_noise_handshake w1) as A1.
  destruct (alloc _ w1) as [ok w2]. cbn [fst snd] in *. rewrite <-E1, <-A1. clear E1 A1 w1.
  destruct ok; cbn [negb]; [|by left].
  destruct (handshake_init _ _ _) as [e [hs|]]; [|by left; destruct e].
  destruct e; try (by left). right. rewrite !bind_eq. cbn [fst snd upd_peer upd_app modify].
  match goal with |- context [sm_dispatch i ?ev ?w3] =>
    pose proof (dispatch_inbound i ev w3) as D; set (w4 := (sm_dispatch i ev w3).2) in *;
    assert (inbound w3 = ((inbound w2).1 + 1, (inbound w2).2)) as E3 by done end.
  rewrite <-E3, <-D. unfold inbound. cbn. by case_match.
Qed.

(** Inbound handshakes are limited to five in sixty seconds: the count never
    passes five, and while the window is used up a connection that arrives is
    closed at once, with the application state unchanged. *)
Theorem accept_rate_limit w :
  0 <= (inbound w).1 <= 5 ->
  let fd := sr_ret (os_answer (w_tr w) (Accept4 (as_listen_fd (w_app w)))) in
  let now := sr_ret (os_answer (Accept4 (as_listen_fd (w_app w)) :: w_tr w) ClockMonotonic) in
  let w' := (on_accept w).2 in
  0 <= (inbound w').1 <= 5 /\
  ((inbound w).1 = 5 -> now - (inbound w).2 < 60 ->
   w_app w' = w_app w /\ (0 <= fd -> Close fd ∈ w_tr w')).
Proof.
  intros Hc fd now w'. unfold w', on_accept. rewrite !bind_eq. cbn [app gets fst snd]. unfold id.
  change (sr_ret (call (Accept4 (as_listen_fd (w_app w))) w).1) with fd.
  set (w1 := (call (Accept4 (as_listen_fd (w_app w))) w).2).
  destruct (fd <? 0) eqn:Efd; [cbn; split; [done|]; intros; split; [done|lia]|].
  destruct (free_slot _) as [i|]; [|cbn; split; [done|]; intros _ _; split; [done|set_solver]].
  rewrite bind_eq, inbound_allowed_eq. change (sr_ret (os_answer (w_tr w1) ClockMonotonic)) with now.
  change (w_app w1) with (w_app w). unfold inbound in *. cbn [fst snd] in *.
  destruct (60 <=? now - as_hs_inbound_window_start (w_app w)) eqn:E60; cbn [fst snd negb].
  - split; [|lia]. match goal with |- context [accept_in_slot i fd ?w2] =>
      destruct (accept_in_slot_inbound i fd w2) as [D|D] end; apply (f_equal fst) in D; unfold inbound in D; cbn [fst snd] in D; rewrite D; cbn; lia.
  - destruct (5 <=? as_hs_inbound_count (w_app w)) eqn:E5; cbn [negb].
    + rewrite bind_eq. cbn. split; [done|]. intros _ _. split; [done|set_solver].
    + split; [|lia]. match goal with |- context [accept_in_slot i fd ?w2] =>
        destruct (accept_in_slot_inbound i fd w2) as [D|D] end; apply (f_equal fst) in D; unfold inbound in D; cbn [fst snd] in D;
        rewrite D; change (w_app w1) with (w_app w); cbn; lia.
Qed.

(** ** Reassembly *)

(** The buffer holds the bytes [b]. *)
Definition buffered (ps : peer_session) (b : bytes) : Prop :=
  len (ps_recv_buf ps) = RECV_BUF_CAPACITY /\ ps_recv_pos ps = len b /\
  take (length b) (ps_recv_buf ps) = b.

Lemma receive_buffered ps b d :
  buffered ps b -> len b + len d <= RECV_BUF_CAPACITY -> buffered (receive d ps) (b ++ d).
Proof.
  intros (Hl & Hp & Hb) Hc. unfold buffered, receive. cbn [ps_recv_buf ps_recv_pos set_field].
  rewrite Hp. unfold len in *. rewrite Nat2Z.id.
  rewrite Hb. split_and!.
  - rewrite !length_app, length_drop. unfold RECV_BUF_CAPACITY, NOX_MAC_LEN in *. lia.
  - rewrite length_app. lia.
  - rewrite app_assoc, take_app_length'; done.
Qed.

(** Receiving in pieces. *)
Lemma receive_pieces ps b ds :
  buffered ps b -> len b + len (concat ds) <= RECV_BUF_CAPACITY ->
  buffered (foldl (fun ps d => receive d ps) ps ds) (b ++ concat ds).
Proof.
  revert ps b. induction ds as [|d ds IH]; intros ps b Hb Hc; cbn [foldl concat].
  - by rewrite app_nil_r.
  - rewrite app_assoc. cbn [concat] in Hc.
    assert (len (d ++ concat ds) = len d + len (concat ds)) as E
      by (unfold len; rewrite length_app; lia).
    pose proof (len_nonneg (concat ds)). apply IH; [apply receive_buffered; [done|lia]|].
    unfold len in *. rewrite length_app. lia.
Qed.

Lemma receive_session ps ds :
  ps_session (foldl (fun ps d => receive d ps) ps ds) = ps_session ps.
Proof. revert ps. induction ds as [|d ds IH]; intros ps; [done|]. cbn [foldl]. by rewrite IH. Qed.

Lemma frame_header_encode_length fh : length (frame_header_encode fh) = 13%nat.
Proof. done. Qed.

Lemma scan_buffered ps fh ct rest :
  buffered ps (frame_header_encode fh ++ ct ++ rest) -> header_wf fh -> fh_len fh = len ct ->
  1 <= len ct ->
  (ps_session ps <> None \/ (fh_type fh <> NOX_MSG_TEXT /\ fh_type fh <> NOX_MSG_FILE)) ->
  scan_frame ps = ScanFrame fh ct /\
  buffered (consume (FRAME_HEADER_WIRE_SIZE + len ct) ps) rest.
Proof.
  intros (Hl & Hp & Hb) Hwf Hlen Hct Hs.
  set (b := frame_header_encode fh ++ ct ++ rest) in *.
  assert (length b = (13 + length ct + length rest)%nat) as Hbl
    by (unfold b; rewrite !length_app, frame_header_encode_length; lia).
  set (tail := drop (length b) (ps_recv_buf ps)).
  assert (ps_recv_buf ps = b ++ tail) as Eb by (unfold tail; rewrite <-Hb at 1; by rewrite take_drop).
  assert (Hbuf : length (b ++ tail) = Z.to_nat RECV_BUF_CAPACITY) by (rewrite <-Eb; unfold len in Hl; lia).
  unfold len, FRAME_HEADER_WIRE_SIZE in *. split.
  - unfold scan_frame, FRAME_HEADER_WIRE_SIZE. rewrite Hp, (proj2 (Z.ltb_ge _ _)) by lia.
    rewrite Eb. unfold b at 1. rewrite <-app_assoc, decode_prefix by done. cbn [err_ok negb].
    destruct Hwf as (_ & _ & _ & Hmax). unfold FRAME_MAX_PAYLOAD in Hmax. rewrite Hlen in *.
    rewrite (proj2 (Z.eqb_neq _ _)), (proj2 (Z.ltb_ge _ _)) by lia. cbn [orb].
    rewrite (proj2 (Z.ltb_ge _ _)) by lia.
    replace (_ && bool_decide (ps_session ps = None)) with false.
    2: { symmetry. apply andb_false_iff. rewrite bool_decide_eq_false, orb_false_iff, !Z.eqb_neq. tauto. }
    f_equal. unfold b. rewrite <-!app_assoc, drop_app_length' by done.
    by rewrite take_app_length' by lia.
  - unfold consume, buffered. cbn [ps_recv_buf ps_recv_pos set_field]. rewrite Hp, Eb.
    unfold len. replace (Z.to_nat (13 + Z.of_nat (length ct))) with (13 + length ct)%nat by lia.
    replace (Z.to_nat (Z.of_nat (length b) - (13 + Z.of_nat (length ct)))) with (length rest) by lia.
    assert (drop (13 + length ct) (b ++ tail) = rest ++ tail) as ->.
    { unfold b. rewrite (app_assoc _ ct), <-!app_assoc, app_assoc, drop_app_length'; [done|].
      rewrite length_app. done. }
    rewrite take_app_length' by done. split_and!.
    + rewrite length_app, length_drop, Hbuf. rewrite length_app in Hbuf. lia.
    + lia.
    + by rewrite take_app_length'.
Qed.


End LoopProofs.
