(* ===== verification/StdinProofs.v ===== *)
(** * Theorems about the user's input: src/stdin_handler.c

    What the answer to a key prompt can do, which lines never leave the
    program, and how connections are dialled. *)

From S2P Require Import Prelude Primitives Types World Noise Onion Network Database.
From S2P Require Import StateMachine StateMachineProofs FileTransfer Messages EventLoop.
From S2P Require Import LoopProofs Control ControlProofs StdinHandler.

Lemma pending_slots_spec a i :
  i ∈ pending_slots a <-> (i < length (as_peers a))%nat /\ ps_state (peer_at i a) = ST_TOFU_PENDING.
Proof. unfold pending_slots. rewrite list_elem_of_filter, elem_of_seq. naive_solver lia. Qed.

Section StdinProofs.
Context `{HOS : OS} `{HC : Crypto}.

(** ** The answer to a key prompt *)

(** What an answer does when exactly one connection waits, slot [i]. *)
Inductive answered (i : nat) (accept : bool) (w w' : world) : Prop :=
| AnsStale :
    accept = true -> ~ token_matches (w_app w) (peer_at i (w_app w)) ->
    as_peers (w_app w') = as_peers (w_app w) ->
    token_matches (w_app w') (peer_at i (w_app w')) -> answered i accept w w'
| AnsAccepted :
    accept = true -> token_matches (w_app w) (peer_at i (w_app w)) ->
    ps_state (peer_at i (w_app w')) = ST_ACTIVE ->
    approved (peer_at i (w_app w)) (peer_at i (w_app w')) ->
    as_tofu_prompt_epoch (w_app w') = 0 -> answered i accept w w'
| AnsClosed :
    slot_clean (peer_at i (w_app w')) ->
    as_tofu_prompt_epoch (w_app w') = 0 -> answered i accept w w'.

Lemma epochs_prompt w w' :
  epochs w' = epochs w -> as_tofu_prompt_epoch (w_app w') = as_tofu_prompt_epoch (w_app w).
Proof. unfold epochs. intros E. by simplify_eq. Qed.

(** Retire the slot after the prompt was put away. *)
Lemma reject_closes i ev w :
  has_peer i w -> fires_cleanup (ps_state (peer_at i (w_app w))) ev = true ->
  as_tofu_prompt_epoch (w_app w) = 0 ->
  let w' := (sm_dispatch i ev w).2 in
  slot_clean (peer_at i (w_app w')) /\ as_tofu_prompt_epoch (w_app w') = 0.
Proof.
  intros Hi Hf H0 w'. unfold w', sm_dispatch. rewrite dispatch_cleanup by done. cbn [snd].
  rewrite peer_at_retire by done. split; [apply cleaned_slot_clean|].
  unfold retire, deactivate. cbn [w_app]. by case_bool_decide.
Qed.

Lemma accept_step i w :
  has_peer i w -> ps_state (peer_at i (w_app w)) = ST_TOFU_PENDING ->
  let '(e, w1) := sm_dispatch i EV_TOFU_ACCEPTED w in
  has_peer i w1 /\
  (e = NOX_OK -> token_matches (w_app w) (peer_at i (w_app w)) /\
     ps_state (peer_at i (w_app w1)) = ST_ACTIVE /\
     approved (peer_at i (w_app w)) (peer_at i (w_app w1))) /\
  (e <> NOX_OK -> w_app w1 = w_app w \/ slot_clean (peer_at i (w_app w1))).
Proof.
  intros Hi Hst. rewrite (dispatch_some _ _ _ (Transition ST_TOFU_PENDING EV_TOFU_ACCEPTED
    ST_ACTIVE action_tofu_accept_fn)) by (by rewrite Hst).
  cbn [t_action t_to run_action]. rewrite bind_eq.
  destruct (action_tofu_accept _ i w) as [e w1] eqn:E. cbn [fst snd].
  destruct (decide (e = NOX_OK)) as [->|Hne].
  - destruct (tofu_accept_ok _ i w w1 Hi E) as (Ht & _ & Hap & Hl & _).
    cbn [err_ok]. rewrite bind_eq. cbn [mret St_ret upd_peer upd_app modify snd].
    assert (has_peer i w1) as Hi1 by (unfold has_peer in *; lia).
    split; [|split; [|done]].
    + unfold has_peer. cbn. by rewrite length_set_peer.
    + intros _. cbn. rewrite peer_at_set_eq by done. split_and!; try done; apply Hap.
  - rewrite (err_ok_false _ Hne), bind_eq. cbn [mret St_ret skip snd].
    destruct (tofu_accept_err i w e w1 Hi Hst E Hne) as [Ha|(w2 & _ & Hi2 & ->)].
    + unfold has_peer. rewrite Ha. by split_and!; [|done|left].
    + split_and!; [|done|intros _; right; rewrite peer_at_retire by done; apply cleaned_slot_clean].
      unfold has_peer. by rewrite (proj1 (others_same_retire i w2)).
Qed.

Lemma answer_one i accept w :
  pending_slots (w_app w) = [i] -> answered i accept w (tofu_user_response accept w).2.
Proof.
  intros Hp. assert (i ∈ pending_slots (w_app w)) as [Hi Hst]%pending_slots_spec
    by (rewrite Hp; set_solver).
  unfold tofu_user_response. rewrite bind_eq. cbn [app gets fst snd]. unfold id. rewrite Hp.
  rewrite bind_eq. cbn [peer app gets fst snd]. destruct accept.
  - destruct (_ || _) eqn:Et.
    + rewrite bind_eq. apply AnsStale; [done| |done|done]. intros Hm%token_test. congruence.
    + apply token_test in Et. rewrite bind_eq.
      pose proof (accept_step i w Hi Hst) as Ha.
      destruct (sm_dispatch i EV_TOFU_ACCEPTED w) as [e w1]. destruct Ha as (Hi1 & Hok & Herr).
      cbn [fst snd]. rewrite bind_eq. cbn [upd_app modify fst snd].
      destruct (decide (e = NOX_OK)) as [->|Hne].
      * destruct (Hok eq_refl) as (H1 & H2 & H3). by apply AnsAccepted.
      * rewrite (err_ok_false _ Hne), bind_eq. cbn [skip snd]. set (w2 := _ <| w_app := _ |>).
        destruct (Herr Hne) as [Ha|Hc].
        -- destruct (reject_closes i EV_PEER_DISCONNECTED w2) as [H1 H2];
             [done| |done|by apply AnsClosed].
           unfold w2. cbn. change (peer_at i (set_field _ _)) with (peer_at i (w_app w1)).
           by rewrite Ha, Hst.
        -- rewrite dispatch_none; [by apply AnsClosed|]. destruct Hc as (Hidle & _).
           unfold w2. cbn. change (peer_at i (set_field _ _)) with (peer_at i (w_app w1)).
           by rewrite Hidle.
  - rewrite !bind_eq. cbn [upd_app modify skip fst snd].
    match goal with |- context [sm_dispatch i EV_TOFU_REJECTED ?w2] =>
      destruct (reject_closes i EV_TOFU_REJECTED w2) as [H1 H2] end; [done| |done|by apply AnsClosed].
    norm_peers. by rewrite Hst.
Qed.

Lemma print_each_app l : keeps w_app (print_each l).
Proof. induction l as [|j l IH]; [done|]. cbn [print_each]. keep_code. Qed.

(** The answer to a key prompt decides about at most one connection.  With no
    connection or several waiting, nothing changes.  With one, a "yes" given
    for another prompt only shows the key again and arms the prompt for it; a
    "yes" for this prompt opens the session or ends the connection; a "no"
    ends it.  No other slot changes. *)
Theorem tofu_answer accept w :
  let w' := (tofu_user_response accept w).2 in
  match pending_slots (w_app w) with
  | [i] => answered i accept w w' /\ others_same i w w' /\
           (accept = false -> slot_clean (peer_at i (w_app w')))
  | _ => w_app w' = w_app w
  end.
Proof.
  intros w'. destruct (pending_slots (w_app w)) as [|i [|j l]] eqn:Hp.
  - unfold w', tofu_user_response. rewrite bind_eq. cbn [app gets fst snd]. unfold id. by rewrite Hp.
  - split_and!; [by apply answer_one| |].
    + unfold w', tofu_user_response. rewrite bind_eq. cbn [app gets fst snd]. unfold id. rewrite Hp.
      match goal with |- others_same i w (?m w).2 =>
        assert (within (others_same i) m) as Ho; [|apply Ho] end.
      unfold peer, app. others_code.
    + intros ->. destruct (answer_one i false w Hp); done.
  - unfold w', tofu_user_response. rewrite bind_eq. cbn [app gets fst snd]. unfold id. rewrite Hp.
    rewrite bind_eq, print_each_app. done.
Qed.

(** ** Lines that stay inside *)

Definition known_command (line : bytes) : bool :=
  existsb (fun c => bytes_eqb line (lit c))
    ["/quit"; "/exit"; "/help"; "/addr"; "/list"; "/disconnect"; "/status"]%string ||
  existsb (fun c => starts_with (lit c) line)
    ["/add "; "/msg "; "/connect "; "/file "; "/switch "]%string.

(** One of the four answers to a key prompt. *)
Definition is_answer (line : bytes) : bool :=
  (caseless_is line "y" || caseless_is line "yes") ||
  (caseless_is line "n" || caseless_is line "no").

(** The only effect is a line on the user's own screen. *)
Definition only_shown (w w' : world) : Prop := exists k s, w' = w <| w_tr := Ui k s :: w_tr w |>.

Lemma ui_only_shown k s w : only_shown w (ui k s w).2.
Proof. by exists k, s. Qed.

Lemma slash_no_answer line : slashes line <> O -> is_answer line = false.
Proof.
  destruct line as [|c line]; [done|]. cbn [slashes].
  destruct (byte_eqb_spec c SLASH) as [->|]; [|done]. intros _.
  unfold is_answer, caseless_is. cbn [fmap list_fmap].
  change (to_lower SLASH) with SLASH. unfold bytes_eqb.
  rewrite !bool_decide_false by (intros [=]). done.
Qed.

Lemma unknown_command_shown line w :
  known_command line = false -> only_shown w (command line w).2.
Proof.
  unfold known_command. cbn [existsb]. rewrite !orb_false_iff.
  intros ((H1 & H2 & H3 & H4 & H5 & H6 & H7 & _) & P1 & P2 & P3 & P4 & P5 & _).
  unfold command. rewrite H1, H2, H3, H4, P1, P2, P3, P4, H5, P5, H6, H7. cbn [orb].
  apply ui_only_shown.
Qed.

(** A mistyped command and text typed over a key prompt stay inside: a line
    that begins with one slash and is no known command, and any line other
    than an answer or a single-slash command while a key waits for approval,
    have no effect but a line on the user's own screen. *)
Theorem input_not_sent line w :
  (slashes line = 1%nat /\ known_command line = false) \/
  (pending_slots (w_app w) <> [] /\ slashes line <> 1%nat /\ is_answer line = false) ->
  only_shown w (process_line line w).2.
Proof.
  intros Hcase. assert (is_answer line = false) as Hans.
  { destruct Hcase as [[H1 _]|(_ & _ & ?)]; [|done]. apply slash_no_answer. lia. }
  unfold process_line. rewrite bind_eq. cbn [app gets fst snd]. unfold id.
  unfold is_answer in Hans. rewrite Hans, andb_false_r.
  destruct Hcase as [[H1 Hk]|(Hp & Hn & _)].
  - rewrite H1. cbn [Nat.eqb negb]. rewrite andb_false_r. rewrite bool_decide_false by lia.
    rewrite bool_decide_true by done. by apply unknown_command_shown.
  - rewrite (bool_decide_false (pending_slots _ = [])) by done.
    rewrite (proj2 (Nat.eqb_neq _ _)) by done. cbn [negb andb]. apply ui_only_shown.
Qed.

(** ** Dialling *)

Definition limiter (w : world) : Z * Z := (as_hs_attempt_count (w_app w), as_hs_window_start (w_app w)).

#[local] Instance no_trace_limiter : NoTrace limiter.
Proof. done. Qed.

Lemma limiter_upd_peer i f : keeps limiter (upd_peer i f).
Proof. done. Qed.
#[local] Hint Resolve limiter_upd_peer : keeps.

Ltac limiter_code :=
  keep_code; try (intros ?; unfold limiter, upd_app, modify; cbn; repeat case_match; done).

Lemma dispatch_limiter n i ev : keeps limiter (dispatch n i ev).
Proof.
  intros w. pose proof (dispatch_settings n i ev w) as E. unfold settings in E.
  injection E as _ E1 E2 _ _. unfold limiter. by f_equal.
Qed.

Lemma connect_in_slot_limiter i fd target : keeps limiter (connect_in_slot i fd target).
Proof.
  assert (forall ev, keeps limiter (sm_dispatch i ev)) as Hd by (intros ev; apply dispatch_limiter).
  unfold connect_in_slot, connect_hello, hs_fail, epoll_add_fd, peer, app. limiter_code.
Qed.

Lemma dial_limiter i target w :
  limiter (dial i target w).2 = ((limiter w).1 + 1, (limiter w).2).
Proof.
  unfold dial. rewrite bind_eq. cbn [upd_app modify snd].
  match goal with |- context [(mbind ?k ?m) ?w2] =>
    assert (keeps limiter (mbind k m)) as Hk; [|by rewrite Hk] end.
  pose proof connect_in_slot_limiter. unfold app. limiter_code.
Qed.

(** The test of the window, and the state after it. *)
Lemma outbound_allowed_eq w :
  let now := sr_ret (os_answer (w_tr w) ClockMonotonic) in
  let w1 := w <| w_tr := ClockMonotonic :: w_tr w |> in
  outbound_allowed w =
  if 60 <=? now - as_hs_window_start (w_app w)
  then (true, w1 <| w_app := w_app w <| as_hs_attempt_count := 0 |> <| as_hs_window_start := now |> |>)
  else (negb (5 <=? as_hs_attempt_count (w_app w)), w1).
Proof.
  intros now w1. unfold outbound_allowed. rewrite !bind_eq.
  change (now_monotonic w) with (now, w1). cbn [fst snd upd_app modify app gets mret St_ret].
  unfold id. change (w_app w1) with (w_app w). destruct (60 <=? _); [done|]. by destruct w.
Qed.

(** Nothing was dialled: at most the clock was read and a line shown. *)
Definition not_dialled (w w' : world) : Prop :=
  w_app w' = w_app w /\ w_db w' = w_db w /\
  exists calls, w_tr w' = calls ++ w_tr w /\
    Forall (fun c => match c with Ui _ _ | ClockMonotonic => True | _ => False end) calls.

Lemma shown_not_dialled k s w : not_dialled w (ui k s w).2.
Proof. split; [done|]. split; [done|]. exists [Ui k s]. by repeat constructor. Qed.

(** At most five connections are dialled in a window of sixty seconds: a
    /connect either dials nothing and changes nothing, or it is counted in the
    current window, which held fewer than five, or it opens a new window once
    the old one is over. *)
Theorem connect_rate_limit args w :
  let '(count, start) := limiter w in
  let now := sr_ret (os_answer (w_tr w) ClockMonotonic) in
  let w' := (cmd_connect args w).2 in
  not_dialled w w' \/
  (now - start < 60 /\ count < 5 /\ limiter w' = (count + 1, start)) \/
  (60 <= now - start /\ limiter w' = (1, now)).
Proof.
  unfold limiter at 1. cbn zeta. set (now := sr_ret _). unfold cmd_connect.
  rewrite bind_eq. cbn [app gets fst snd]. unfold id.
  destruct (negb _); [left; apply shown_not_dialled|].
  destruct (bytes_eqb _ _); [left; apply shown_not_dialled|].
  destruct (free_slot _) as [i|]; [|left; apply shown_not_dialled].
  destruct (existsb _ _); [left; apply shown_not_dialled|].
  rewrite bind_eq, outbound_allowed_eq. fold now.
  destruct (60 <=? now - as_hs_window_start (w_app w)) eqn:E60; cbn [fst snd negb].
  - right; right. split; [lia|]. by rewrite dial_limiter.
  - destruct (5 <=? as_hs_attempt_count (w_app w)) eqn:E5; cbn [negb].
    + left. split; [done|]. split; [done|]. exists [Ui UiError "too many handshakes"; ClockMonotonic].
      by repeat constructor.
    + right; left. split_and!; [lia|lia|]. by rewrite dial_limiter.
Qed.

(** A slot nobody uses, and a slot whose first handshake message is out. *)
Definition vacant (p : peer_session) : Prop :=
  ps_fd p < 0 /\ ps_state p = ST_IDLE /\ ps_hs p = None /\
  ps_peer_onion p = [] /\ ps_connect_target p = [].
Definition dialling (target : bytes) (p : peer_session) : Prop :=
  0 <= ps_fd p /\ ps_state p = ST_HANDSHAKE_INIT /\ is_Some (ps_hs p) /\
  ps_peer_onion p = target /\ ps_connect_target p = target.

Definition dial_outcome (i : nat) (target : bytes) (w' : world) : Prop :=
  let p' := peer_at i (w_app w') in
  vacant p' \/ (dialling target p' /\ ACTIVE_PEER (w_app w') = Some i).

Lemma clean_vacant p : slot_clean p -> ps_connect_target p = [] -> vacant p.
Proof. intros (H1 & H2 & H3 & _ & _ & _ & H7 & _) Ht. by split_and!. Qed.

(** Giving the handshake up retires the slot. *)
Lemma hs_fail_vacant i what target w :
  has_peer i w -> dialling target (peer_at i (w_app w)) ->
  vacant (peer_at i (w_app (hs_fail i what w).2)).
Proof.
  intros Hi (_ & Hs & _). unfold hs_fail. rewrite !bind_eq. cbn [mret St_ret snd].
  set (w1 := (ui _ _ w).2). assert (peer_at i (w_app w1) = peer_at i (w_app w)) as P by done.
  unfold sm_dispatch. rewrite dispatch_cleanup by (by rewrite ?P, ?Hs). cbn [snd].
  rewrite peer_at_retire by done. apply clean_vacant; [apply cleaned_slot_clean|done].
Qed.

Lemma connect_hello_outcome i fd target hs w :
  has_peer i w -> (i < NOX_MAX_PEERS)%nat -> dialling target (peer_at i (w_app w)) ->
  dial_outcome i target (connect_hello i fd target hs w).2.
Proof.
  intros Hi H16 Hd. unfold connect_hello. rewrite bind_eq.
  pose proof (keeps_lift w_app (handshake_write hs [] NOISE_MAX_HANDSHAKE_LEN) w) as Hk.
  destruct (lift_tr _ w) as [[[err hs'] out] w1]. cbn [fst snd] in *.
  rewrite bind_eq. set (w2 := (upd_peer i _ w1).2).
  assert (has_peer i w1) as Hi1 by (unfold has_peer; by rewrite Hk).
  assert (has_peer i w2) as Hi2 by (unfold has_peer, w2; cbn; by rewrite length_set_peer).
  assert (dialling target (peer_at i (w_app w2))) as Hd2.
  { unfold w2. rewrite peer_at_upd, Hk by done. destruct Hd as (?&?&?&?&?). by split_and!. }
  destruct (err_ok err); cbn [negb]; [|left; by apply (hs_fail_vacant i _ target)].
  rewrite bind_eq. cbn [peer app gets fst snd]. rewrite bind_eq. set (r := call _ w2).
  destruct (negb _); [left; by apply (hs_fail_vacant i _ target)|]. right.
  rewrite !bind_eq. unfold dial_outcome, has_peer in *. clearbody w2.
  cbn [fst snd upd_peer upd_app modify]. norm_peers. cbn. norm_peers. cbn.
  destruct Hd2 as (?&?&?&?&?). split; [by split_and!|].
  unfold ACTIVE_PEER. cbn. rewrite (proj2 (Z.leb_le _ _)), (proj2 (Z.ltb_lt _ _)) by lia.
  cbn. by rewrite Nat2Z.id.
Qed.

Lemma connect_in_slot_outcome i fd target w :
  has_peer i w -> (i < NOX_MAX_PEERS)%nat -> vacant (peer_at i (w_app w)) -> 0 <= fd ->
  take 62 target = target -> dial_outcome i target (connect_in_slot i fd target w).2.
Proof.
  intros Hi H16 (Hf & Hs & Hh & Ho & Hc) Hfd Ht. unfold connect_in_slot.
  rewrite !bind_eq. cbn [app gets fst snd]. unfold id. rewrite Ht. set (w1 := (upd_peer i _ w).2).
  assert (peer_at i (w_app w1) = peer_at i (w_app w) <| ps_fd := fd |>
    <| ps_peer_onion := target |> <| ps_connect_target := target |>) as P1 by (by apply peer_at_upd).
  assert (has_peer i w1) as Hi1 by (unfold has_peer, w1; cbn; by rewrite length_set_peer).
  clearbody w1. unfold epoll_add_fd. rewrite !bind_eq. cbn [fst snd mret St_ret].
  set (r := (call _ w1).1). assert (has_peer i (call (EpollAdd (as_epoll_fd (w_app w)) fd) w1).2) by done.
  set (w2 := (call _ w1).2) in *. assert (w_app w2 = w_app w1) as A2 by done. clearbody w2 r.
  unfold has_peer in *. destruct (negb _).
  { left. rewrite !bind_eq. cbn [fst snd upd_peer upd_app modify]. norm_peers. by rewrite A2, P1. }
  rewrite bind_eq. pose proof (keeps_alloc w_app SIZEOF_noise_handshake w2) as A3.
  destruct (alloc _ w2) as [ok w3]. cbn [fst snd] in *. rewrite <-A3 in *.
  destruct ok; cbn [negb].
  2: { left. rewrite !bind_eq. cbn [fst snd upd_peer upd_app modify]. norm_peers.
       cbn. norm_peers. by rewrite A2, P1. }
  destruct (handshake_init _ _ _) as [e [hs|]].
  2: { left. destruct e; rewrite !bind_eq; cbn [fst snd upd_peer upd_app modify]; norm_peers;
       cbn; norm_peers; by rewrite A2, P1. }
  destruct (decide (e = NOX_OK)) as [->|Hne].
  2: { left. destruct e; try done; rewrite !bind_eq; cbn [fst snd upd_peer upd_app modify]; norm_peers;
       cbn; norm_peers; by rewrite A2, P1. }
  rewrite !bind_eq. cbn [fst snd].
  match goal with |- context [sm_dispatch i EV_CONNECT_CMD ?w'] => set (w4 := w') end.
  assert (has_peer i w4 /\ exists n m, peer_at i (w_app w4) = peer_at i (w_app w1)
    <| ps_hs := Some hs |> <| ps_handshake_start := n |> <| ps_last_active := m |>) as (Hi4 & n & m & P4).
  { unfold w4, has_peer. cbn [fst snd upd_peer upd_app modify]. norm_peers. rewrite A2. eauto. }
  clearbody w4. rewrite (dispatch_some _ _ _ (Transition ST_IDLE EV_CONNECT_CMD ST_HANDSHAKE_INIT
    action_connect_fn)).
  2: { rewrite P4, P1. cbn. by rewrite Hs. }
  rewrite !bind_eq. cbn [t_action t_to run_action mret St_ret fst snd err_ok negb].
  set (w5 := (upd_peer i _ w4).2).
  assert (peer_at i (w_app w5) = peer_at i (w_app w4) <| ps_state := ST_HANDSHAKE_INIT |>) as P5
    by (by apply peer_at_upd).
  apply connect_hello_outcome; [unfold has_peer, w5; cbn; by rewrite length_set_peer|done|].
  rewrite P5, P4, P1. by split_and!.
Qed.

Lemma dial_dial_outcome i target w :
  has_peer i w -> (i < NOX_MAX_PEERS)%nat -> vacant (peer_at i (w_app w)) ->
  take 62 target = target -> dial_outcome i target (dial i target w).2.
Proof.
  intros Hi H16 Hv Ht. unfold dial. rewrite !bind_eq. cbn [upd_app modify app gets fst snd].
  set (w1 := w <| w_app := _ |>). unfold lift_tr.
  pose proof (socks5_connect_fd target NOX_VIRTUAL_PORT (as_socks_path (w_app w1)) (w_tr w1)) as Hfd.
  destruct (socks5_connect _ _ _ _) as [[e fd] tr']. cbn [fst snd] in *.
  destruct e; cbn [err_ok negb]; try by left. apply connect_in_slot_outcome; try done. by apply Hfd.
Qed.

Lemma outbound_allowed_peers w :
  as_peers (w_app (outbound_allowed w).2) = as_peers (w_app w).
Proof. rewrite outbound_allowed_eq. by case_match. Qed.

(** Dialling is all or nothing.  After /connect the free slot either has its
    socket, its handshake and the address dialled, has sent the first message
    and is the active one, or it is vacant again, whatever failed: the
    proxy, epoll, memory, the keys, the state machine or the write.  No other
    slot changes. *)
Theorem connect_all_or_nothing args i w :
  free_slot (w_app w) = Some i -> n_peers w = NOX_MAX_PEERS -> vacant (peer_at i (w_app w)) ->
  let w' := (cmd_connect args w).2 in
  dial_outcome i (skip_blanks args) w' /\ others_same i w w'.
Proof.
  intros Hfree Hn Hv.
  assert ((i < NOX_MAX_PEERS)%nat) as H16.
  { unfold free_slot, find_slot in Hfree. apply fmap_Some in Hfree as ([k q] & E & ->).
    apply list_find_Some in E as [E _]. apply lookup_lt_Some in E. unfold n_peers in Hn.
    cbn. lia. }
  assert (has_peer i w) as Hi by (unfold has_peer, n_peers in *; lia).
  assert (forall w', w_app w' = w_app w ->
    dial_outcome i (skip_blanks args) w' /\ others_same i w w') as Hsame.
  { intros w' E. unfold dial_outcome, others_same. rewrite E. split; [by left|done]. }
  unfold cmd_connect. rewrite bind_eq. cbn [app gets fst snd]. unfold id.
  destruct (validate_onion_input _) eqn:Hval; cbn [negb]; [|by apply Hsame].
  destruct (bytes_eqb _ _); [by apply Hsame|]. rewrite Hfree.
  destruct (existsb _ _); [by apply Hsame|].
  assert (take 62 (skip_blanks args) = skip_blanks args) as Ht.
  { unfold validate_onion_input in Hval. apply andb_prop in Hval as [[Hl%Z.eqb_eq _]%andb_prop _].
    apply take_ge. unfold len, NOX_ONION_LEN in Hl. lia. }
  rewrite bind_eq. pose proof (outbound_allowed_peers w) as Hp.
  destruct (outbound_allowed w) as [ok w1]. cbn [fst snd] in *.
  assert (forall w', as_peers (w_app w') = as_peers (w_app w) -> others_same i w w') as Hoth.
  { intros w' E. unfold others_same, peer_at. by rewrite E. }
  destruct ok; cbn [negb].
  - split.
    + apply dial_dial_outcome; unfold has_peer, peer_at in *; by rewrite ?Hp.
    + etransitivity; [by apply Hoth|]. unfold dial, connect_in_slot, connect_hello, hs_fail,
        epoll_add_fd, peer, app.
      match goal with |- others_same i w1 (?m w1).2 =>
        assert (within (others_same i) m) as Ho; [|apply Ho] end. others_code.
  - split; [|by apply Hoth]. left. change (vacant (peer_at i (w_app w1))).
    unfold peer_at in *. by rewrite Hp.
Qed.

End StdinProofs.
