(* ===== verification/SandboxProofs.v ===== *)
(** * Theorems about the sandbox: src/landlock_sandbox.c, event_loop

    The rules are valid for every kernel and as small as the program allows;
    the loop is entered only behind the filters; and the flag that should
    waive Landlock has no effect where Landlock is missing. *)

From S2P Require Import Prelude Primitives Types World TorProofs Seccomp SeccompProofs EventLoop.
From S2P Require Import Sandbox.

(** [a] has only rights of [b]. *)
Definition within_rights (a b : Z) : Prop := Z.ldiff a b = 0.

(** Whatever Landlock version the kernel offers, both rules ask only for
    rights the ruleset handles, so the kernel cannot refuse them for that; the
    downloads rule allows creating, writing and removing files; and executing,
    making directories, devices, sockets or links, and writing in the
    configuration directory are handled and granted by no rule. *)
Theorem landlock_rules_tight ioctl_dev abi :
  let handled := handled_access ioctl_dev abi in
  let downloads := nox_ll_compute_rule_rights downloads_wanted handled in
  within_rights downloads handled /\ within_rights config_rights handled /\
  within_rights (rights [FS_READ_FILE; FS_WRITE_FILE; FS_MAKE_REG; FS_REMOVE_FILE]) downloads /\
  (3 <= abi -> within_rights FS_TRUNCATE downloads) /\
  let forbidden := rights [FS_EXECUTE; FS_REMOVE_DIR; FS_MAKE_CHAR; FS_MAKE_DIR; FS_MAKE_SOCK;
                           FS_MAKE_FIFO; FS_MAKE_BLOCK; FS_MAKE_SYM] in
  within_rights forbidden handled /\
  Z.land forbidden (Z.lor downloads config_rights) = 0 /\
  Z.land (rights [FS_WRITE_FILE; FS_MAKE_REG; FS_TRUNCATE]) config_rights = 0.
Proof.
  unfold handled_access. destruct (2 <=? abi) eqn:E2, (3 <=? abi) eqn:E3, ioctl_dev, (5 <=? abi);
    cbn zeta; split_and!; first [vm_compute; reflexivity | intros; vm_compute; reflexivity | lia].
Qed.

Section SandboxProofs.
Context `{HOS : OS} `{HC : Crypto} (ioctl_dev scope ndebug : bool) (headers : String.string -> bool).

(** The calls made to set the sandbox up. *)
Definition setup_call (c : syscall) : bool :=
  match c with
  | LandlockVersion | LandlockCreate _ _ | LandlockAddRule _ _ _ | LandlockRestrict _
  | NoNewPrivs | Close _ | Ui _ _ => true
  | _ => policy_call c
  end.

(** Only such calls were made; the database is as it was. *)
Definition setting_up (w w' : world) : Prop :=
  w_db w' = w_db w /\
  exists calls, w_tr w' = calls ++ w_tr w /\ Forall (fun c => setup_call c = true) calls.

#[local] Instance setting_up_preorder : PreOrder setting_up.
Proof.
  split.
  - intros w. split; [done|]. by exists [].
  - intros x y z [D1 (c1 & T1 & F1)] [D2 (c2 & T2 & F2)]. split; [congruence|].
    exists (c2 ++ c1). rewrite T2, T1, app_assoc. split; [done|]. by apply Forall_app.
Qed.

Lemma setting_up_call c : setup_call c = true -> within setting_up (call c).
Proof. intros Hc w. split; [done|]. exists [c]. split; [done|]. by apply Forall_singleton. Qed.

Lemma setting_up_ui k s : within setting_up (ui k s).
Proof. intros w. split; [done|]. exists [Ui k s]. split; [done|]. by apply Forall_singleton. Qed.

Lemma setting_up_close fd : within setting_up (call_ (Close fd)).
Proof. intros w. split; [done|]. exists [Close fd]. split; [done|]. by apply Forall_singleton. Qed.

Lemma setting_up_app f : within setting_up (upd_app f).
Proof. intros w. split; [done|]. by exists []. Qed.

Lemma setting_up_policy : within setting_up (lift_tr (seccomp_policy_load ndebug headers 3)).
Proof.
  intros w. unfold lift_tr. destruct (policy_load_spec ndebug headers 3 (w_tr w)) as [(new & E & Hn) _].
  destruct (seccomp_policy_load ndebug headers 3 (w_tr w)) as [e t]. cbn [fst snd] in *.
  split; [done|]. exists new. split; [done|]. rewrite forallb_forall in Hn. apply Forall_forall.
  intros c Hc%list_elem_of_In%Hn. unfold setup_call. rewrite Hc. by destruct c.
Qed.

Ltac setup_code :=
  within_code ltac:(first [ apply setting_up_ui | apply setting_up_close | apply setting_up_app
                          | apply setting_up_call; reflexivity ]).

Lemma init_setting_up c d : within setting_up (landlock_sandbox_init ioctl_dev scope c d).
Proof. unfold landlock_sandbox_init. setup_code. Qed.

Lemma sandbox_setting_up : within setting_up (event_loop_sandbox ioctl_dev scope ndebug headers).
Proof.
  unfold event_loop_sandbox, stop_running, app.
  within_code ltac:(first [ apply init_setting_up | apply setting_up_policy | apply setting_up_ui | apply setting_up_app
                          | apply setting_up_call; reflexivity ]).
Qed.

(** The kernel confined the process at some point of the history. *)
Definition confined (tr : trace) : Prop :=
  exists post fd pre, tr = post ++ LandlockRestrict fd :: pre /\
    0 <= sr_ret (os_answer pre (LandlockRestrict fd)).

Lemma init_app c d : keeps w_app (landlock_sandbox_init ioctl_dev scope c d).
Proof. unfold landlock_sandbox_init. keep_code. Qed.

Lemma init_ok c d w act w' :
  landlock_sandbox_init ioctl_dev scope c d w = ((NOX_OK, act), w') -> confined (w_tr w').
Proof.
  unfold landlock_sandbox_init. destruct (_ || _); [done|]. rewrite bind_eq.
  destruct (_ <? 0); [done|]. destruct (_ <? 1); [done|]. rewrite bind_eq.
  destruct (_ <? 0); [by destruct (_ =? _)|]. do 3 (rewrite bind_eq; destruct (_ <? 0); [by rewrite bind_eq|]).
  rewrite bind_eq. set (w5 := (call NoNewPrivs _).2).
  destruct (_ <? 0) eqn:E; [by rewrite bind_eq|]. rewrite bind_eq.
  intros [= _ <-]. eexists [Close _], _, (w_tr w5). split; [done|]. apply Z.ltb_ge in E. exact E.
Qed.

(** How the head of event_loop ends. *)
Definition sandboxed (w w1 : world) : Prop :=
  w_app w1 = w_app w /\
  (exists pre, pre `suffix_of` w_tr w1 /\ policy_loaded ndebug headers 3 pre NOX_OK (w_tr w1)) /\
  (0 <= as_config_dir_fd (w_app w) -> 0 <= as_downloads_dir_fd (w_app w) ->
   as_allow_unsandboxed_fs (w_app w) = false -> confined (w_tr w1)).

Lemma confined_cons c tr : confined tr -> confined (c :: tr).
Proof. intros (post & fd & pre & -> & H). by exists (c :: post), fd, pre. Qed.
Lemma confined_app new tr : confined tr -> confined (new ++ tr).
Proof. intros H. induction new as [|c new IH]; [done|]. by apply confined_cons. Qed.

(** Both endings of the last step. *)
Lemma seccomp_step w w0 :
  w_app w0 = w_app w ->
  (0 <= as_config_dir_fd (w_app w) -> 0 <= as_downloads_dir_fd (w_app w) ->
   as_allow_unsandboxed_fs (w_app w) = false -> confined (w_tr w0)) ->
  let '(ok, w1) := (err ← lift_tr (seccomp_policy_load ndebug headers 3);
    if negb (err_ok err) then _ ← ui UiError "policy not loaded"; stop_running
    else mret true) w0 in
  if ok : bool then sandboxed w w1 else as_running (w_app w1) = false.
Proof.
  intros Ha Hc. rewrite bind_eq. unfold lift_tr.
  destruct (policy_load_spec ndebug headers 3 (w_tr w0)) as [Hg Hp].
  destruct (seccomp_policy_load ndebug headers 3 (w_tr w0)) as [e t]. cbn [fst snd] in *.
  destruct Hp as [[-> Hp]|[-> _]]; cbn [err_ok negb]; [|done].
  cbn [mret St_ret]. destruct Hg as (new & -> & _). split; [done|]. split.
  - exists (w_tr w0). split; [by exists new|by left].
  - intros H1 H2 H3. by apply confined_app, Hc.
Qed.

Lemma sandbox_spec w :
  let '(ok, w1) := event_loop_sandbox ioctl_dev scope ndebug headers w in
  if ok : bool then sandboxed w w1 else as_running (w_app w1) = false.
Proof.
  unfold event_loop_sandbox. rewrite bind_eq. cbn [app gets fst snd]. unfold id. rewrite bind_eq.
  destruct (_ && _) eqn:Efd.
  2: { cbn [mret St_ret fst snd negb]. apply seccomp_step; [done|]. lia. }
  rewrite !(bind_eq (landlock_sandbox_init _ _ _ _)).
  pose proof (init_app (as_config_dir_fd (w_app w)) (as_downloads_dir_fd (w_app w)) w) as Ha.
  destruct (landlock_sandbox_init _ _ _ _ w) as [[e act] w1] eqn:E. cbn [fst snd] in *.
  assert (w_app (ui UiError "sandbox not active" w1).2 = w_app w) as Ha2 by done.
  destruct e; try done.
  - pose proof (init_ok _ _ _ _ _ E) as Hc. rewrite !bind_eq.
    destruct act; cbn [mret St_ret fst snd negb skip];
      (apply seccomp_step; [done|]; intros; first [done | by apply confined_cons]).
  - destruct (as_allow_unsandboxed_fs (w_app w)) eqn:Eu; cbn [negb]; [|done]. rewrite !bind_eq.
    destruct act; cbn [mret St_ret fst snd negb skip];
      (apply seccomp_step; [done|]; intros; congruence).
Qed.

(** C22 The event loop runs only behind its filters.  Either the set-up fails:
    then nothing but the set-up and lines to the user has happened, no event
    was served and the program stops; or the loop is entered in an unchanged
    state right after the policy of stage 3 was loaded and, unless the user
    waived it or a directory is missing, with the process confined by
    Landlock. *)
Theorem sandbox_fail_closed stdin rounds w :
  let w' := (event_loop ioctl_dev scope ndebug headers stdin rounds w).2 in
  (setting_up w w' /\ as_running (w_app w') = false) \/
  (exists w1, sandboxed w w1 /\ w' = (loop_body stdin rounds w1).2).
Proof.
  intros w'. unfold w', event_loop. rewrite bind_eq. pose proof (sandbox_spec w) as Hs.
  pose proof (sandbox_setting_up w) as Hset.
  destruct (event_loop_sandbox _ _ _ _ w) as [ok w1]. cbn [fst snd] in *. destruct ok; cbn [negb].
  - right. by exists w1.
  - left. by split.
Qed.

(** The flag --allow-unsandboxed-fs does not help on a kernel without
    Landlock: when the kernel does not know the version query, the loop is
    never entered, whatever the flag says. *)
Theorem unsandboxed_flag_ineffective stdin rounds w :
  (forall tr, sr_ret (os_answer tr LandlockVersion) = -1) ->
  0 <= as_config_dir_fd (w_app w) -> 0 <= as_downloads_dir_fd (w_app w) ->
  forall flag, let w0 := w <| w_app := w_app w <| as_allow_unsandboxed_fs := flag |> |> in
  let w' := (event_loop ioctl_dev scope ndebug headers stdin rounds w0).2 in
  setting_up w0 w' /\ as_running (w_app w') = false.
Proof.
  intros Hv Hc Hd flag w0 w'. unfold w', event_loop. rewrite bind_eq.
  pose proof (sandbox_setting_up w0) as Hset.
  assert (exists w1, event_loop_sandbox ioctl_dev scope ndebug headers w0 = (false, w1) /\
    as_running (w_app w1) = false) as (w1 & E & Hr).
  { unfold event_loop_sandbox. rewrite bind_eq. cbn [app gets fst snd]. unfold id.
    cbn [w0 w_app set_field as_config_dir_fd as_downloads_dir_fd].
    rewrite (proj2 (Z.leb_le _ _) Hc), (proj2 (Z.leb_le _ _) Hd). cbn [andb].
    rewrite !bind_eq. unfold landlock_sandbox_init.
    rewrite (proj2 (Z.ltb_ge _ _) Hc), (proj2 (Z.ltb_ge _ _) Hd). cbn [orb].
    rewrite !(bind_eq (call LandlockVersion)). cbn [call lift_tr sys fst snd]. rewrite !Hv.
    cbn. eexists. split; [done|done]. }
  rewrite E in Hset |- *. cbn [fst snd negb skip] in *. by split.
Qed.

End SandboxProofs.
