(* ===== verification/MessagesProofs.v ===== *)
(** * Theorems about sending text: src/stdin_handler.c

    Where a message may be cut, that the pieces sent reach the other side's
    user in order and spell the message, and that a message is queued whole or
    not at all. *)

From S2P Require Import Prelude Primitives Types World Noise NoiseProofs Network NetworkProofs.
From S2P Require Import Database DatabaseProofs StateMachine StateMachineProofs FileTransfer.
From S2P Require Import Messages EventLoop EventLoopProofs LoopProofs.

(** ** Chunks *)

Definition byte_at (msg : bytes) (k : Z) : byte := nth (Z.to_nat k) msg NUL.

Lemma cut_back_spec msg offset n :
  (cut_back msg offset n <= n)%nat /\
  (forall k, (cut_back msg offset n < k <= n)%nat ->
     is_continuation (nth (Z.to_nat offset + k) msg NUL) = true) /\
  (cut_back msg offset n <> O ->
     is_continuation (nth (Z.to_nat offset + cut_back msg offset n) msg NUL) = false).
Proof.
  induction n as [|n IH]; cbn [cut_back]; [split_and!; [done|intros; lia|done]|].
  destruct IH as (H1 & H2 & H3). destruct (is_continuation (nth (Z.to_nat offset + S n) msg NUL)) eqn:E.
  - split_and!; [lia| |done]. intros k Hk.
    destruct (decide (k = S n)) as [->|]; [done|]. apply H2. lia.
  - split_and!; [lia|intros; lia|done].
Qed.

(** A chunk of a message makes progress, fits the buffer and the message, and
    ends where a code point ends; when the message is longer than the limit
    no later cut within the limit would do, and a cut inside a code point
    happens only in a run of 4000 continuation bytes, one byte at a time. *)
Theorem chunk_size_correct msg offset :
  0 <= offset < len msg -> len msg <= SIZE_MAX - CHUNK_LIMIT ->
  let n := nox_next_chunk_size msg offset (len msg) in
  1 <= n <= CHUNK_LIMIT /\ offset + n <= len msg /\
  (offset + n = len msg \/
   is_continuation (byte_at msg (offset + n)) = false \/
   n = 1 /\ forall k, 1 <= k <= CHUNK_LIMIT -> is_continuation (byte_at msg (offset + k)) = true) /\
  (CHUNK_LIMIT < len msg - offset -> forall k, n < k <= CHUNK_LIMIT ->
     is_continuation (byte_at msg (offset + k)) = true).
Proof.
  intros Ho Hm n. unfold n, nox_next_chunk_size, CHUNK_LIMIT, byte_at in *.
  rewrite (proj2 (Z.leb_gt _ _)) by lia. destruct (_ <=? 4000) eqn:E4; [split_and!; intros; lia|].
  rewrite (proj2 (Z.ltb_ge _ _)) by lia.
  destruct (cut_back_spec msg offset (Z.to_nat 4000)) as (H1 & H2 & H3).
  set (c := cut_back msg offset (Z.to_nat 4000)) in *.
  assert (forall k, Z.of_nat c < k <= 4000 ->
    is_continuation (nth (Z.to_nat (offset + k)) msg NUL) = true) as H2'.
  { intros k Hk. rewrite Z2Nat.inj_add by lia. apply H2. lia. }
  destruct (Z.of_nat c =? 0) eqn:E0.
  - split_and!; [lia|lia|lia| |intros; apply H2'; lia].
    right; right. split; [done|]. intros k Hk. apply H2'. lia.
  - split_and!; [lia|lia|lia| |intros; apply H2'; lia].
    right; left. rewrite Z2Nat.inj_add, Nat2Z.id by lia. apply H3. lia.
Qed.

Lemma chunk_size_bounds msg offset :
  0 <= offset < len msg ->
  let n := nox_next_chunk_size msg offset (len msg) in
  1 <= n <= CHUNK_LIMIT /\ offset + n <= len msg.
Proof.
  intros Ho n. unfold n, nox_next_chunk_size, CHUNK_LIMIT in *.
  rewrite (proj2 (Z.leb_gt _ _)) by lia. destruct (_ <=? 4000) eqn:E4; [lia|].
  destruct (_ <? offset); [lia|].
  destruct (cut_back_spec msg offset (Z.to_nat 4000)) as (H1 & _ & _).
  set (c := cut_back msg offset (Z.to_nat 4000)) in *.
  destruct (Z.of_nat c =? 0) eqn:E0; lia.
Qed.

(** The rest of the message splits into the chunk and what follows it. *)
Lemma slice_split msg offset n :
  0 <= offset -> 1 <= n -> offset + n <= len msg ->
  drop (Z.to_nat offset) msg = slice msg offset n ++ drop (Z.to_nat (offset + n)) msg /\
  len (slice msg offset n) = n.
Proof.
  intros Ho Hn Hl. unfold slice, len in *. split.
  - rewrite Z2Nat.inj_add, <-drop_drop by lia. by rewrite take_drop.
  - rewrite length_take, length_drop. lia.
Qed.

Lemma slice_no_nul msg offset n : NUL ∉ msg -> NUL ∉ slice msg offset n.
Proof. unfold slice. intros Hm (k & H & _)%elem_of_take. rewrite lookup_drop in H.
  by apply Hm, (list_elem_of_lookup_2 _ _ _ H). Qed.

(** ** One frame from end to end *)

(** The frames a side has written, in order. *)
Definition written (w : world) : list bytes :=
  omap (fun c => match c with Writev _ b => Some b | _ => None end) (reverse (w_tr w)).

(** Memory is available and every write is complete. *)
Definition line_ok (O : OS) : Prop :=
  (forall tr n, sr_ret (@os_answer O tr (Malloc n)) <> 0) /\
  (forall tr fd b, sr_ret (@os_answer O tr (Writev fd b)) = len b).

Definition text_frame (seq : Z) (ct : bytes) : frame_header :=
  FrameHeader NOX_FRAME_MAGIC NOX_MSG_TEXT seq (len ct).

Section Delivery.
Context `{HOS : OS} `{HC : Crypto} {HL : CryptoLaws HC}.

Lemma session_step a b m :
  ns_wf a -> paired a b -> len m <= NOX_MAX_MSG_LEN -> cs_n (ns_tx a) < UINT64_MAX ->
  exists ct a' b', noise_encrypt a m = (Some ct, a') /\ noise_decrypt b ct = (Some m, b') /\
    len ct = len m + 16 /\ paired a' b' /\ ns_wf a' /\ cs_n (ns_tx a') = cs_n (ns_tx a) + 1.
Proof.
  intros Hwf Hp Hl Hn. destruct (deliver_ok a b m) as (a' & b' & E & Hp' & Hwf' & Ht & _); try done.
  unfold deliver in E. destruct (noise_encrypt a m) as [[ct|] a1] eqn:Ee; [|done].
  destruct (noise_decrypt b ct) as [r b1] eqn:Ed. simplify_eq.
  exists ct, a', b'. split_and!; try done; [|by rewrite Ht].
  unfold noise_encrypt in Ee. rewrite (proj2 (Z.ltb_ge _ _)) in Ee by done.
  destruct (cipher_encrypt (ns_tx a) [] m) as [o cs] eqn:Ec. simplify_eq.
  destruct Hwf as (Hk & _ & Hw & _).
  destruct (cipher_encrypt_keyed _ _ _ _ _ Hw Hk Ec) as (_ & Ha & _).
  apply aead_encrypt_length in Ha. unfold len. lia.
Qed.

Lemma alloc_ok n w :
  line_ok HOS -> alloc n w = (true, w <| w_tr := Malloc n :: w_tr w |>).
Proof.
  intros [Hm _]. unfold alloc, lift_tr, malloc_ok, sys. run_st.
  by rewrite (proj2 (Z.eqb_neq _ _)) by apply Hm.
Qed.

Lemma now_eq w :
  now_monotonic w =
    (sr_ret (os_answer (w_tr w) ClockMonotonic), w <| w_tr := ClockMonotonic :: w_tr w |>).
Proof. done. Qed.

Lemma send_frame_ok i pt w a ct a' :
  line_ok HOS -> has_peer i w -> let p := peer_at i (w_app w) in
  ps_session p = Some a -> noise_encrypt a pt = (Some ct, a') -> len ct < 2 ^ 32 ->
  exists w', send_frame i pt w = (NOX_OK, w') /\ has_peer i w' /\
    ps_session (peer_at i (w_app w')) = Some a' /\
    ps_tx_seq (peer_at i (w_app w')) = u32 (ps_tx_seq p + 1) /\
    ps_fd (peer_at i (w_app w')) = ps_fd p /\
    ps_tx_file (peer_at i (w_app w')) = ps_tx_file p /\
    written w' = written w ++ [frame_header_encode (text_frame (ps_tx_seq p) ct) ++ ct].
Proof.
  intros [_ Hw] Hi p Hs Ee Hc. unfold send_frame. rewrite bind_eq. cbn [peer app gets fst snd].
  fold p. rewrite Hs, Ee. rewrite !bind_eq.
  assert (u32 (len ct) = len ct) as -> by (apply Z.mod_small; unfold len in *; lia).
  fold (text_frame (ps_tx_seq p) ct). set (f := _ ++ ct).
  rewrite call_eq. cbn [fst snd]. rewrite Hw.
  replace (len f =? _) with true.
  2: { symmetry. apply Z.eqb_eq. unfold f, len, FRAME_HEADER_WIRE_SIZE.
       rewrite length_app, frame_header_encode_length. lia. }
  cbn [negb]. rewrite !bind_eq, now_eq. cbn [fst snd upd_peer upd_app modify mret St_ret].
  clearbody f. eexists. split; [done|]. unfold has_peer, written in *. cbn -[reverse].
  norm_peers. cbn -[reverse]. split_and!; try done.
  by rewrite !reverse_cons, !omap_app, app_nil_r.
Qed.

(** The other side reads the bytes [f] and processes its buffer. *)
Definition deliver_frame (j : nat) (f : bytes) : St world unit :=
  _ ← upd_peer j (receive f);
  ps ← peer j;
  process_peer_frames j (ps_fd ps).

(** A slot that waits for the next frame with an empty buffer, the queue
    already handled. *)
Definition listening (j : nat) (b : noise_session) (seq : Z) (w : world) : Prop :=
  let p := peer_at j (w_app w) in
  has_peer j w /\ buffered p [] /\ ps_session p = Some b /\ ps_rx_seq p = seq /\
  ps_queue_flushed p = true.

Lemma scan_empty p : buffered p [] -> scan_frame p = ScanWait.
Proof. intros (_ & Hp & _). unfold scan_frame. by rewrite Hp. Qed.

Lemma maybe_flush_done j w :
  ps_queue_flushed (peer_at j (w_app w)) = true -> maybe_flush_queue j w = (tt, w).
Proof.
  intros Hf. unfold maybe_flush_queue. rewrite !bind_eq. cbn [peer app gets fst snd]. by rewrite Hf.
Qed.

Lemma on_text_ok j b ct pt b' seq w :
  line_ok HOS -> listening j b seq w -> noise_decrypt b ct = (Some pt, b') -> pt <> [] ->
  let w' := (on_text j b ct w).2 in
  listening j b' (u32 (seq + 1)) w' /\ shown w' = cstr pt :: shown w.
Proof.
  intros Hok (Hj & Hb & Hs & Hq & Hf) Hd Hne. unfold on_text. rewrite bind_eq, alloc_ok by done.
  cbn [fst snd negb]. rewrite Hd, bind_eq. destruct pt as [|c pt]; [done|].
  rewrite !bind_eq. cbn [fst snd]. set (t := cstr (c :: pt)). clearbody t.
  unfold has_peer in Hj. rewrite maybe_flush_done by (cbn; norm_peers; done).
  unfold count_rx. rewrite !bind_eq, now_eq. cbn. norm_peers. cbn.
  unfold listening, has_peer. cbn. norm_peers. cbn. rewrite Hq.
  split; [|done]. split_and!; try done; apply Hb.
Qed.

Lemma on_frame_text j fd fh ct b w :
  listening j b (fh_seq fh) w -> fh_type fh = NOX_MSG_TEXT ->
  on_frame j fd fh ct w = (true, (on_text j b ct w).2).
Proof.
  intros (Hj & Hb & Hs & Hq & Hf) Ht. unfold on_frame. rewrite !bind_eq.
  cbn [peer app gets fst snd]. rewrite Ht. cbn [Z.eqb NOX_MSG_TEXT NOX_MSG_CTRL Pos.eqb orb].
  rewrite Hs, Hq, Z.eqb_refl. cbn [negb]. by rewrite bind_eq.
Qed.

Lemma deliver_frame_ok j b b' fh ct pt w :
  line_ok HOS -> listening j b (fh_seq fh) w -> header_wf fh -> fh_type fh = NOX_MSG_TEXT ->
  fh_len fh = len ct -> 1 <= len ct -> noise_decrypt b ct = (Some pt, b') -> pt <> [] ->
  let w' := (deliver_frame j (frame_header_encode fh ++ ct) w).2 in
  listening j b' (u32 (fh_seq fh + 1)) w' /\ shown w' = cstr pt :: shown w.
Proof.
  intros Hok (Hj & Hb & Hs & Hq & Hf) Hwf Ht Hlen Hct Hd Hne.
  set (f := _ ++ ct). unfold deliver_frame. rewrite !bind_eq. cbn [fst snd peer app gets].
  set (w1 := (upd_peer j (receive f) w).2).
  assert (peer_at j (w_app w1) = receive f (peer_at j (w_app w))) as P1 by (by apply peer_at_upd).
  assert (has_peer j w1) as Hj1 by (unfold has_peer; cbn; by rewrite length_set_peer).
  assert (length f = (13 + length ct)%nat) as Hfl
    by (unfold f; by rewrite length_app, frame_header_encode_length).
  assert (len ct <= FRAME_MAX_PAYLOAD) as Hmax by (destruct Hwf as (_&_&_&?); lia).
  unfold FRAME_MAX_PAYLOAD, NOX_MAC_LEN in Hmax.
  assert (buffered (receive f (peer_at j (w_app w))) (frame_header_encode fh ++ ct ++ [])) as Hb1.
  { rewrite app_nil_r. apply (receive_buffered _ []); [done|]. unfold len in *. cbn. fold f.
    unfold RECV_BUF_CAPACITY, NOX_MAC_LEN. lia. }
  destruct (scan_buffered _ fh ct [] Hb1) as [Hscan Hrest]; [done..| |].
  { left. cbn. by rewrite Hs. }
  unfold process_peer_frames. rewrite bind_eq. cbn [peer app gets fst snd]. rewrite P1.
  set (fd := ps_fd _). assert (exists m, Z.to_nat (ps_recv_pos (receive f (peer_at j (w_app w)))) = S (S m)) as [m ->].
  { exists (length f - 2)%nat. destruct Hb as (_ & Hp & _). cbn. rewrite Hp. unfold len. cbn. lia. }
  cbn [frame_loop]. rewrite bind_eq. cbn [peer app gets fst snd]. rewrite P1, Hscan.
  rewrite bind_eq, alloc_ok by done. cbn [fst snd negb]. rewrite bind_eq.
  set (w2 := (upd_peer j _ _).2).
  assert (peer_at j (w_app w2) =
    consume (FRAME_HEADER_WIRE_SIZE + len ct) (receive f (peer_at j (w_app w)))) as P2.
  { unfold w2. rewrite peer_at_upd by done. rewrite Hlen. f_equal. exact P1. }
  assert (listening j b (fh_seq fh) w2) as Hl2.
  { unfold listening. rewrite P2. split_and!; try done. unfold has_peer. cbn.
    by rewrite length_set_peer. }
  rewrite bind_eq, (on_frame_text j fd fh ct b w2) by done. cbn [fst snd].
  destruct (on_text_ok j b ct pt b' (fh_seq fh) w2 Hok Hl2 Hd Hne) as [Hl3 Hsh].
  set (w3 := (on_text j b ct w2).2) in *. rewrite bind_eq. cbn [peer app gets fst snd].
  pose proof Hl3 as (_ & Hb3 & _). rewrite scan_empty by done. by split.
Qed.

End Delivery.

(** ** A message from end to end *)

Section EndToEnd.
Context (O1 O2 : OS) `{HC : Crypto} {HL : CryptoLaws HC}.
Context (Hok1 : line_ok O1) (Hok2 : line_ok O2).

(** The receiving side reads the frames one after the other. *)
Fixpoint deliver_all (j : nat) (fs : list bytes) : St world unit :=
  match fs with
  | [] => mret tt
  | f :: fs => _ ← @deliver_frame O2 HC j f; deliver_all j fs
  end.

(** Slot [i] of one side and slot [j] of the other are the two ends of a
    session with nothing in flight; [budget] more messages fit the nonce. *)
Definition linked (i j : nat) (budget : Z) (ws wr : world) : Prop :=
  let p := peer_at i (w_app ws) in
  exists a b, has_peer i ws /\ ps_session p = Some a /\ ns_wf a /\ paired a b /\
    0 <= ps_fd p /\ 0 <= ps_tx_seq p < 2 ^ 32 /\ cs_n (ns_tx a) + budget < UINT64_MAX /\
    listening j b (ps_tx_seq p) wr.

Lemma chunk_delivered i j pt budget ws wr :
  linked i j (1 + budget) ws wr -> 0 <= budget -> 1 <= len pt <= CHUNK_LIMIT -> NUL ∉ pt ->
  exists ws' f, @send_frame O1 HC i (pt ++ [NUL]) ws = (NOX_OK, ws') /\
    written ws' = written ws ++ [f] /\
    let wr' := (@deliver_frame O2 HC j f wr).2 in
    linked i j budget ws' wr' /\ shown wr' = pt :: shown wr.
Proof.
  intros (a & b & Hi & Hs & Hwf & Hp & Hfd & Hseq & Hn & Hl) Hb Hlen Hnul.
  assert (len (pt ++ [NUL]) = len pt + 1) as Hpt by (unfold len; rewrite length_app; cbn; lia).
  unfold CHUNK_LIMIT in Hlen. destruct (session_step a b (pt ++ [NUL])) as
    (ct & a' & b' & Ee & Ed & Hc & Hp' & Hwf' & Hn'); try done;
    [unfold NOX_MAX_MSG_LEN; lia|lia|].
  destruct (@send_frame_ok O1 HC i (pt ++ [NUL]) ws a ct a') as
    (ws' & E & Hi' & Hs' & Hq' & Hfd' & _ & Hw); try done; [lia|].
  exists ws', (frame_header_encode (text_frame (ps_tx_seq (peer_at i (w_app ws))) ct) ++ ct).
  split_and!; [done|done|].
  destruct (@deliver_frame_ok O2 HC j b b' (text_frame (ps_tx_seq (peer_at i (w_app ws))) ct) ct
    (pt ++ [NUL]) wr) as [Hl' Hsh]; try done; try (cbn; lia).
  - split_and!; cbn; try done; unfold FRAME_MAX_PAYLOAD, NOX_MAC_LEN; lia.
  - by destruct pt.
  - cbn zeta. rewrite Hsh, cstr_app_nul by done. split; [|done].
    exists a', b'. rewrite Hq', Hfd'. cbn in Hl'. split_and!; try done; try apply Z.mod_pos_bound; lia.
Qed.

Lemma send_segments_delivered fuel i j msg offset ws wr :
  0 <= offset <= len msg -> len msg - offset <= Z.of_nat fuel -> NUL ∉ msg ->
  linked i j (len msg - offset) ws wr ->
  exists ws' fs chunks, @send_segments O1 HC fuel i msg offset ws = (NOX_OK, ws') /\
    written ws' = written ws ++ fs /\
    let wr' := (deliver_all j fs wr).2 in
    linked i j 0 ws' wr' /\ shown wr' = reverse chunks ++ shown wr /\
    concat chunks = drop (Z.to_nat offset) msg.
Proof.
  revert offset ws wr. induction fuel as [|fuel IH]; intros offset ws wr Ho Hf Hnul Hl.
  - exists ws, [], []. cbn. rewrite app_nil_r, drop_ge by (unfold len in *; lia).
    split_and!; try done. by replace (len msg - offset) with 0 in Hl by lia.
  - cbn [send_segments]. destruct (len msg <=? offset) eqn:Eo.
    { exists ws, [], []. cbn. rewrite app_nil_r, drop_ge by (unfold len in *; lia).
      split_and!; try done. by replace (len msg - offset) with 0 in Hl by lia. }
    destruct (chunk_size_bounds msg offset) as [Hn Hend]; [lia|].
    set (n := nox_next_chunk_size msg offset (len msg)) in *.
    destruct (slice_split msg offset n) as [Hsp Hsl]; [lia..|].
    destruct (chunk_delivered i j (slice msg offset n) (len msg - (offset + n)) ws wr)
      as (w1 & f & E & Hw & Hl1 & Hsh); [|lia|lia|by apply slice_no_nul|].
    { destruct Hl as (a & b & H). exists a, b. naive_solver lia. }
    rewrite bind_eq, E. cbn [fst snd err_ok].
    destruct (IH (offset + n) w1 (@deliver_frame O2 HC j f wr).2)
      as (w2 & fs & chunks & E2 & Hw2 & Hl2 & Hsh2 & Hc2); [lia|lia|done|done|].
    exists w2, (f :: fs), (slice msg offset n :: chunks). cbn [deliver_all].
    rewrite (bind_eq (@deliver_frame O2 HC j f)). split_and!; [done| |done| |].
    + rewrite Hw2, Hw. by rewrite <-app_assoc.
    + rewrite Hsh2, Hsh, reverse_cons. by rewrite <-app_assoc.
    + cbn [concat]. by rewrite Hc2, Hsp.
Qed.

(** C3 A message typed on one side is shown on the other: sending succeeds, and
    when the frames written are read by the peer's frame loop in order, its
    user is shown pieces that spell the message, in order, and both ends are
    again in step. *)
Theorem message_delivered i j msg ws wr :
  NUL ∉ msg -> linked i j (len msg) ws wr ->
  exists ws' fs chunks, @send_segmented_message_to O1 HC i msg ws = (NOX_OK, ws') /\
    written ws' = written ws ++ fs /\
    let wr' := (deliver_all j fs wr).2 in
    linked i j 0 ws' wr' /\ shown wr' = reverse chunks ++ shown wr /\ concat chunks = msg.
Proof.
  intros Hnul Hl. pose proof Hl as (a & b & Hi & Hs & Hwf & Hp & Hfd & _).
  unfold send_segmented_message_to. rewrite bind_eq. cbn [peer app gets fst snd].
  rewrite Hs, bool_decide_false, (proj2 (Z.ltb_ge _ _)) by done. cbn [orb].
  rewrite bind_eq, alloc_ok by done. rewrite bind_eq, alloc_ok by done. cbn [fst snd negb andb].
  set (w1 := set_field _ _). assert (written w1 = written ws) as Hw1.
  { unfold w1, written. cbn -[reverse]. by rewrite !reverse_cons, !omap_app, !app_nil_r. }
  rewrite <-Hw1. apply (send_segments_delivered (length msg) i j msg 0 w1 wr).
  - unfold len. lia.
  - unfold len. lia.
  - done.
  - by rewrite Z.sub_0_r.
Qed.

End EndToEnd.

(** ** Queueing a message *)

Section Queueing.
Context `{HOS : OS} `{HC : Crypto} {HL : CryptoLaws HC}.

(** The database [d] is [d0] with [rows] appended for recipient [h]. *)
Definition appended (d0 : db_state) (h : bytes) (rows : list queue_row) (d : db_state) : Prop :=
  db_ready d = db_ready d0 /\ db_key d = db_key d0 /\
  db_queue d = db_queue d0 ++ rows /\ db_queue_next d = db_queue_next d0 + len rows /\
  Forall (fun r => db_queue_next d0 <= qr_id r /\ qr_recipient_hash r = h) rows.

Lemma appended_snoc d0 h rows row d :
  appended d0 h rows d -> qr_id row = db_queue_next d -> qr_recipient_hash row = h ->
  appended d0 h (rows ++ [row])
    (d <| db_queue := db_queue d ++ [row] |> <| db_queue_next := db_queue_next d + 1 |>).
Proof.
  intros (H1 & H2 & H3 & H4 & H5) Hid Hh. unfold appended. cbn. rewrite H3, H4, <-app_assoc.
  split_and!; try done.
  - unfold len. rewrite length_app. cbn. lia.
  - apply Forall_app. split; [done|]. apply Forall_singleton. unfold len in *. split; [lia|done].
Qed.

Lemma queue_segments_spec fuel onion msg offset rows d0 w k :
  sql_env -> len onion = NOX_ONION_LEN -> NUL ∉ msg ->
  db_ready d0 = true -> db_key d0 = Some k -> queue_wf d0 ->
  0 <= offset <= len msg -> len msg - offset <= Z.of_nat fuel ->
  let h := blake2b_keyed 32 k onion in
  appended d0 h rows (w_db w) ->
  exists err w', queue_segments fuel onion msg offset (len rows) w = (err, w') /\
    w_app w' = w_app w /\
    ((err = NOX_OK /\ exists rows' chunks, appended d0 h (rows ++ rows') (w_db w') /\
        Forall2 (holds k) rows' chunks /\ concat chunks = drop (Z.to_nat offset) msg) \/
     (err <> NOX_OK /\ db_queue (w_db w') = db_queue d0)).
Proof.
  intros He Ho Hnul Hr0 Hk0 Hwf Hoff Hf h. revert offset rows w Hoff Hf.
  induction fuel as [|fuel IH]; intros offset rows w Hoff Hf Happ; cbn [queue_segments].
  { exists NOX_OK, w. split; [done|]. split; [done|]. left. split; [done|]. exists [], [].
    rewrite app_nil_r, drop_ge by (unfold len in *; lia). done. }
  destruct (len msg <=? offset) eqn:Eo.
  { exists NOX_OK, w. split; [done|]. split; [done|]. left. split; [done|]. exists [], [].
    rewrite app_nil_r, drop_ge by (unfold len in *; lia). done. }
  destruct (chunk_size_bounds msg offset) as [Hn Hend]; [lia|].
  set (n := nox_next_chunk_size msg offset (len msg)) in *.
  destruct (slice_split msg offset n) as [Hsp Hsl]; [lia..|].
  pose proof Happ as (Hr & Hk & Hq & Hnx & Hall).
  destruct (db_queue_message_spec onion (slice msg offset n) w k) as (err & w1 & E & A1 & Hcase);
    [done|congruence|congruence|done|rewrite Hsl; unfold DB_MAX_MSG_LEN, CHUNK_LIMIT in *; lia
    |by apply slice_no_nul|].
  rewrite bind_eq, E. cbn [fst snd].
  destruct Hcase as [[-> D1]|[-> (row & D1 & Hid & Hh & Hholds)]]; cbn [err_ok negb].
  - rewrite bind_eq. destruct (0 <? len rows) eqn:Er.
    + destruct (db_queue_rollback_ok onion (len rows) w1 k) as (w2 & E2 & A2 & D2);
        [done|by rewrite D1, Hr|by rewrite D1, Hk|done|lia|].
      rewrite (bind_eq (db_queue_rollback_last _ _)), E2. cbn [fst snd skip].
      exists NOX_ERR_ALLOC, w2. split; [done|]. split; [congruence|]. right. split; [done|].
      rewrite D2, D1. cbn. rewrite Hq. by eapply rollback_appended.
    + exists NOX_ERR_ALLOC, w1. split; [done|]. split; [done|]. right. split; [done|].
      rewrite D1, Hq. destruct rows; [by rewrite app_nil_r|]. apply Z.ltb_ge in Er. unfold len in Er. cbn [length] in Er. lia.
  - replace (len rows + 1) with (len (rows ++ [row])) by (unfold len; rewrite length_app; cbn; lia).
    destruct (IH (offset + n) (rows ++ [row]) w1) as (err & w2 & E2 & A2 & Hc); [lia|lia| |].
    { rewrite D1. by apply appended_snoc. }
    exists err, w2. split; [done|]. split; [congruence|].
    destruct Hc as [[-> (rows' & chunks & Ha & Hh2 & Hcc)]|Hc]; [left|by right].
    split; [done|]. exists (row :: rows'), (slice msg offset n :: chunks).
    rewrite <-app_assoc in Ha. split_and!; [done|by constructor|]. cbn [concat]. by rewrite Hcc, Hsp.
Qed.

(** C26 A message is queued whole or not at all.  Whenever memory runs out while
    its chunks are stored, the queue ends as it was, the chunks stored before
    removed again; otherwise the rows appended decrypt to chunks that spell
    the message in order. *)
Theorem queue_all_or_nothing onion msg w k :
  sql_env -> len onion = NOX_ONION_LEN -> NUL ∉ msg ->
  db_ready (w_db w) = true -> db_key (w_db w) = Some k -> queue_wf (w_db w) ->
  let '(err, w') := queue_segmented_message onion msg w in
  w_app w' = w_app w /\
  (err = NOX_OK -> exists rows chunks,
     db_queue (w_db w') = db_queue (w_db w) ++ rows /\ Forall2 (holds k) rows chunks /\
     Forall (fun r => qr_recipient_hash r = blake2b_keyed 32 k onion) rows /\
     concat chunks = msg) /\
  (err <> NOX_OK -> db_queue (w_db w') = db_queue (w_db w)).
Proof.
  intros He Ho Hnul Hr Hk Hwf. unfold queue_segmented_message. rewrite bind_eq.
  pose proof (keeps_alloc w_app (4096 + 1) w) as A1. pose proof (keeps_alloc w_db (4096 + 1) w) as D1.
  destruct (alloc _ w) as [ok w1]. cbn [fst snd] in *. destruct ok; cbn [negb].
  2: { cbn. by rewrite D1. }
  destruct (queue_segments_spec (length msg) onion msg 0 [] (w_db w) w1 k)
    as (err & w2 & E & A2 & Hc); try done; try (unfold len; lia).
  { rewrite D1. unfold appended. rewrite app_nil_r. change (len []) with 0. rewrite Z.add_0_r. done. }
  change (len []) with 0 in E. rewrite E. split; [congruence|].
  destruct Hc as [[-> (rows & chunks & (_ & _ & Hq & _ & Hall) & Hh & Hcc)]|[Hne Hq]]; [|done].
  split; [|done]. intros _. exists rows, chunks. split_and!; try done.
  eapply Forall_impl; [done|]. by intros r [_ ?].
Qed.

End Queueing.

(** ** Text and a file at the same time *)

Section Overtaking.
Context `{HOS : OS} `{HC : Crypto} {HL : CryptoLaws HC}.

(** A chunk of a file is encrypted and framed in the buffer, none of it
    written yet. *)
Definition chunk_pending (p : peer_session) (ct : bytes) : Prop :=
  let tx := ps_tx_file p in
  tx_active tx = true /\ tx_len tx = FRAME_HEADER_WIRE_SIZE + len ct /\ tx_offset tx = 0 /\
  take (Z.to_nat (tx_len tx)) (tx_buf tx) =
    frame_header_encode (FrameHeader NOX_FRAME_MAGIC NOX_MSG_FILE (ps_tx_seq p) (len ct)) ++ ct.


(** When the announcement of a file cannot be written completely, the file is
    given up but the connection is kept: the slot is unchanged except that one
    nonce of the session is used up, so the two ends no longer agree on the
    next nonce. *)
Theorem metadata_failure_consumes_nonce i w a :
  has_peer i w -> let p := peer_at i (w_app w) in
  ps_session p = Some a -> ns_wf a -> cs_n (ns_tx a) < UINT64_MAX ->
  len (meta_payload (tx_filename (ps_tx_file p)) (tx_total_size (ps_tx_file p))
         (tx_hash (ps_tx_file p))) <= NOX_MAX_MSG_LEN ->
  (forall tr fd b, sr_ret (os_answer tr (Writev fd b)) = -1) ->
  exists w' a', send_metadata i w = (false, w') /\
    peer_at i (w_app w') = p <| ps_session := Some a' |> /\
    ns_tx a' = ns_tx a <| cs_n := cs_n (ns_tx a) + 1 |> /\ ns_rx a' = ns_rx a.
Proof.
  intros Hi p Hs Hwf Hn Hl Hw. set (b := Session (ns_rx a) (ns_tx a) []).
  destruct (deliver_ok a b _ Hwf (conj eq_refl eq_refl) Hl Hn) as (a' & b' & E & _ & _ & Ht & Hr).
  unfold deliver in E. destruct (noise_encrypt a _) as [[ct|] a1] eqn:Ee; [|done].
  destruct (noise_decrypt b ct). simplify_eq.
  unfold send_metadata. rewrite bind_eq. cbn [peer app gets fst snd]. fold p.
  rewrite Hs, Ee. rewrite !bind_eq. rewrite call_eq. cbn [fst snd]. rewrite Hw.
  rewrite (proj2 (Z.eqb_neq _ _)) by (unfold FRAME_HEADER_WIRE_SIZE, len; lia).
  eexists _, a'. split; [done|]. cbn. unfold has_peer in Hi. norm_peers. done.
Qed.

End Overtaking.
