(* ===== verification/Scenarios.v ===== *)
(** * Concrete runs

    The theorems about slots, frames, files and commands applied to small
    worlds: an established session, a transfer that ends, a handshake that
    times out, a prompt, a full rate window.  The environments answer every
    call; the crypto is [toy_crypto]. *)

From S2P Require Import Prelude Primitives Types World Noise NoiseProofs Onion OnionProofs Network.
From S2P Require Import NetworkProofs Database DatabaseProofs StateMachine StateMachineProofs.
From S2P Require Import FileTransfer FileTransferProofs Control ControlProofs Messages.
From S2P Require Import EventLoop StdinHandler.
From S2P Require Import Sandbox EventLoopProofs LoopProofs StdinProofs SandboxProofs.
From S2P Require Import MessagesProofs.

(** ** Slots *)

Definition demo_session : noise_session := Session (toy_cs 0) (toy_cs 0) [].

(** An established session with the queue already handled. *)
Definition active_slot : peer_session :=
  idle_peer <| ps_fd := 9 |> <| ps_state := ST_ACTIVE |> <| ps_session := Some demo_session |>
            <| ps_queue_flushed := true |>.

(** A handshake that started at second 0. *)
Definition handshake_slot : peer_session :=
  idle_peer <| ps_fd := 9 |> <| ps_state := ST_HANDSHAKE_RESP |>.

(** A file of three bytes is being received, none of them yet. *)
Definition receiving_slot : peer_session :=
  active_slot <| ps_state := ST_FILE_RX |>
    <| ps_rx_file := FileRx true 11 (lit "f") 3 0
         (@blake2b toy_crypto 32 (put_be64 3 ++ lit "abc")) (put_be64 3) 0 (lit "received_f") |>.

(** A file of three bytes is being sent; nothing is in the buffer. *)
Definition sending_slot : peer_session :=
  active_slot <| ps_tx_file := tx_zero <| tx_active := true |> <| tx_fd := 12 |>
                                       <| tx_total_size := 3 |> |>.

(** ** Environments *)

(** Files contain "abc". *)
Definition read_os : OS := fun tr c =>
  match c with Read _ _ => SysRet 3 0 (lit "abc") | _ => kind_os tr c end.
(** The network is gone. *)
Definition broken_os : OS := fun tr c =>
  match c with Writev _ _ => SysRet (-1) 104 [] | _ => kind_os tr c end.
(** It is second 31. *)
Definition late_os : OS := fun tr c =>
  match c with ClockMonotonic => SysRet 31 0 [] | _ => kind_os tr c end.

Lemma kind_line_ok : line_ok kind_os.
Proof. split; [discriminate|reflexivity]. Defined.

Lemma demo_ns_wf : ns_wf demo_session.
Proof. unfold ns_wf, cs_wf, UINT64_MAX. cbn. split_and!; try reflexivity; lia. Defined.

Lemma active_buffered : buffered active_slot [].
Proof. split_and!; vm_compute; reflexivity. Defined.

(** ** Files *)

Lemma sanitize_filename_safe_witness :
  let out := (@sanitize_filename kind_os (lit "../etc/passwd") 256 boot).1 in
  safe_name out /\ SLASH ∉ out.
Proof.
  pose proof (@sanitize_filename_safe kind_os (lit "../etc/passwd") 256 boot) as H.
  assert (14 <= 256) as Hm by lia. specialize (H Hm).
  destruct (@sanitize_filename kind_os (lit "../etc/passwd") 256 boot) as [out w'].
  destruct H as (H1 & _ & H2 & _). exact (conj H1 H2).
Defined.

Definition last_chunk : bytes := default [] (@noise_encrypt toy_crypto demo_session (lit "abc")).1.

Lemma receiving_inv : @rx_inv kind_os 0 [] (boot_with receiving_slot).
Proof.
  intros _. split; [discriminate|]. split; [split; [discriminate|reflexivity]|].
  split; [discriminate|]. exists []. split_and!; reflexivity.
Defined.

(** The only chunk of a file arrives and the file is complete. *)
Lemma file_rx_integrity_witness :
  let w' := (@file_transfer_handle_rx kind_os toy_crypto 0 last_chunk (boot_with receiving_slot)).2 in
  reports (w_tr w') = 1%nat /\ @delivered kind_os toy_crypto 0 [] (boot_with receiving_slot) w'.
Proof.
  pose proof (@file_rx_integrity kind_os toy_crypto 0 [] last_chunk (boot_with receiving_slot)
    (boot_has_peer _) receiving_inv) as H.
  assert (reports (w_tr (@file_transfer_handle_rx kind_os toy_crypto 0 last_chunk
    (boot_with receiving_slot)).2) = 1%nat) as Hr by (vm_compute; reflexivity).
  destruct (@file_transfer_handle_rx kind_os toy_crypto 0 last_chunk (boot_with receiving_slot))
    as [b w']. cbn zeta. cbn [snd] in Hr |- *. split; [exact Hr|]. apply H. rewrite Hr. discriminate.
Defined.

(** ** Frames *)

Definition demo_ct : bytes := default [] (@noise_encrypt toy_crypto demo_session (lit "hi" ++ [NUL])).1.
Definition demo_frame : bytes := frame_header_encode (text_frame 0 demo_ct) ++ demo_ct.

(** A frame in the buffer of an established session. *)
Definition full_slot : peer_session := receive demo_frame active_slot.

Lemma frame_loop_terminates_witness :
  ps_recv_pos full_slot = 32 /\
  @frame_loop kind_os toy_crypto 1000 0 9 (boot_with full_slot) =
  @process_peer_frames kind_os toy_crypto 0 9 (boot_with full_slot).
Proof.
  split; [vm_compute; reflexivity|].
  apply (@frame_loop_terminates kind_os toy_crypto 1000 0 9 (boot_with full_slot) (boot_has_peer _)).
  vm_compute. lia.
Defined.



(** A responder that receives garbage instead of a handshake message. *)
Definition responder_slot : peer_session :=
  handshake_slot <| ps_hs := (@handshake_init toy_crypto false (Some (replicate 32 Byte.x11))
                                (Some (replicate 32 Byte.x12))).2 |>.


(** ** Rounds *)

Lemma boot_peers p : n_peers (boot_with p) = NOX_MAX_PEERS.
Proof. reflexivity. Defined.


Lemma sweep_deadlines_witness :
  expired handshake_slot 31 = true /\
  slot_clean (peer_at 0 (w_app (@sweep late_os toy_crypto (boot_with handshake_slot)).2)).
Proof.
  split; [reflexivity|].
  assert ((0 < NOX_MAX_PEERS)%nat) as H0 by (vm_compute; lia).
  exact (@sweep_deadlines late_os toy_crypto 31 (boot_with handshake_slot) (fun _ => eq_refl)
    (boot_peers _) 0 H0 eq_refl).
Defined.

Definition crowded : world := boot <| w_app := boot_app <| as_hs_inbound_count := 5 |> |>.

Lemma accept_rate_limit_witness :
  let w' := (@on_accept kind_os toy_crypto crowded).2 in
  w_app w' = w_app crowded /\ Close 0 ∈ w_tr w'.
Proof.
  assert (0 <= (inbound crowded).1 <= 5) as Hc by (vm_compute; split; discriminate).
  destruct (@accept_rate_limit kind_os toy_crypto crowded Hc) as [_ H].
  destruct (H eq_refl eq_refl) as [H1 H2]. split; [exact H1|]. apply H2. discriminate.
Defined.

(** ** Messages *)

(** Byte 4000 is inside the two bytes of an e with an accent. *)
Definition long_text : bytes := replicate 3999 Byte.x61 ++ [Byte.xc3; Byte.xa9] ++ lit "tude".

Lemma chunk_size_correct_witness :
  let n := nox_next_chunk_size long_text 0 (len long_text) in
  n = 3999 /\ forall k, n < k <= CHUNK_LIMIT -> is_continuation (byte_at long_text (0 + k)) = true.
Proof.
  assert (0 <= 0 < len long_text) as H1 by (split; vm_compute; [discriminate|reflexivity]).
  assert (len long_text <= SIZE_MAX - CHUNK_LIMIT) as H2 by (vm_compute; discriminate).
  destruct (chunk_size_correct long_text 0 H1 H2) as (_ & _ & _ & H).
  split; [vm_compute; reflexivity|]. apply H. vm_compute. reflexivity.
Defined.

Lemma demo_linked : @linked 0 0 5 (boot_with active_slot) (boot_with active_slot).
Proof.
  exists demo_session, demo_session. split; [exact (boot_has_peer _)|]. split; [reflexivity|].
  split; [exact demo_ns_wf|]. split; [split; reflexivity|]. split; [discriminate|].
  split; [split; [discriminate|reflexivity]|]. split; [reflexivity|].
  split; [exact (boot_has_peer _)|]. split; [exact active_buffered|].
  split; [reflexivity|]. split; reflexivity.
Defined.

Lemma message_delivered_witness :
  exists fs chunks,
    shown (@deliver_all kind_os toy_crypto 0 fs (boot_with active_slot)).2 = reverse chunks ++ [] /\
    concat chunks = lit "hello".
Proof.
  assert (NUL ∉ lit "hello") as Hn by (apply (bool_decide_unpack _); exact I).
  destruct (@message_delivered kind_os kind_os toy_crypto _ kind_line_ok kind_line_ok 0 0
    (lit "hello") (boot_with active_slot) (boot_with active_slot) Hn demo_linked)
    as (ws' & fs & chunks & _ & _ & _ & H1 & H2).
  exists fs, chunks. exact (conj H1 H2).
Defined.

Lemma queue_all_or_nothing_witness :
  (@queue_segmented_message kind_os toy_crypto alice_onion (lit "hi") boot).1 = NOX_OK /\
  exists rows chunks,
    db_queue (w_db (@queue_segmented_message kind_os toy_crypto alice_onion (lit "hi") boot).2) = rows /\
    Forall2 (@holds toy_crypto (replicate 32 Byte.x14)) rows chunks /\ concat chunks = lit "hi".
Proof.
  assert (NUL ∉ lit "hi") as Hn by (apply (bool_decide_unpack _); exact I).
  pose proof (@queue_all_or_nothing kind_os toy_crypto _ alice_onion (lit "hi") boot
    (replicate 32 Byte.x14) (env_sql kind_env_ok) eq_refl Hn eq_refl eq_refl
    (Forall_nil_2 _)) as H.
  assert ((@queue_segmented_message kind_os toy_crypto alice_onion (lit "hi") boot).1 = NOX_OK) as Ho
    by (vm_compute; reflexivity).
  destruct (@queue_segmented_message kind_os toy_crypto alice_onion (lit "hi") boot) as [err w'].
  cbn [fst snd] in Ho |- *. split; [exact Ho|]. destruct H as (_ & H & _).
  destruct (H Ho) as (rows & chunks & Hq & Hh & _ & Hc). exists rows, chunks. exact (conj Hq (conj Hh Hc)).
Defined.

(** The world after the event loop framed a chunk of the file. *)
Definition chunk_framed : world :=
  (@file_transfer_handle_tx read_os toy_crypto 0 (boot_with sending_slot)).2.


Lemma metadata_failure_consumes_nonce_witness :
  exists w' a', @send_metadata broken_os toy_crypto 0 (boot_with sending_slot) = (false, w') /\
    ps_fd (peer_at 0 (w_app w')) = 9 /\ cs_n (ns_tx a') = 1.
Proof.
  destruct (@metadata_failure_consumes_nonce broken_os toy_crypto _ 0 (boot_with sending_slot)
    demo_session (boot_has_peer _) eq_refl demo_ns_wf eq_refl) as (w' & a' & E & Hp & Hn & _).
  - vm_compute. discriminate.
  - reflexivity.
  - exists w', a'. split; [exact E|]. rewrite Hp, Hn. split; reflexivity.
Defined.

(** ** Commands *)

Lemma input_not_sent_witness :
  only_shown boot (@process_line kind_os toy_crypto (lit "/qiut now") boot).2.
Proof.
  apply (@input_not_sent kind_os toy_crypto (lit "/qiut now") boot).
  left. split; vm_compute; reflexivity.
Defined.

(** A proxy that grants the connection. *)
Definition socks_os : OS :=
  talking_os 0 ([Byte.x05; Byte.x00; Byte.x05; Byte.x00; Byte.x00; Byte.x01] ++ zeros 6).

Definition bob_onion : bytes := @onion_address toy_crypto (replicate 32 Byte.x42).

Lemma connect_all_or_nothing_witness :
  let w' := (@cmd_connect socks_os toy_crypto (lit "  " ++ bob_onion) (boot_with idle_peer)).2 in
  ps_state (peer_at 0 (w_app w')) = ST_HANDSHAKE_INIT /\ dialling bob_onion (peer_at 0 (w_app w')).
Proof.
  assert (ps_state (peer_at 0 (w_app (@cmd_connect socks_os toy_crypto (lit "  " ++ bob_onion)
    (boot_with idle_peer)).2)) = ST_HANDSHAKE_INIT) as Hs by (vm_compute; reflexivity).
  destruct (@connect_all_or_nothing socks_os toy_crypto (lit "  " ++ bob_onion) 0
    (boot_with idle_peer)) as [H _].
  - vm_compute. reflexivity.
  - reflexivity.
  - unfold vacant. split_and!; vm_compute; reflexivity.
  - cbn zeta. split; [exact Hs|]. destruct H as [(_ & Hidle & _)|[H _]]; [congruence|exact H].
Defined.

(** ** The sandbox *)

(** A kernel without Landlock. *)
Definition old_kernel_os : OS := fun tr c =>
  match c with LandlockVersion => SysRet (-1) 38 [] | _ => kind_os tr c end.

Lemma unsandboxed_flag_ineffective_witness :
  as_running (w_app (@event_loop old_kernel_os true true true (fun _ => true) toy_crypto skip [[]]
    (boot <| w_app := boot_app <| as_allow_unsandboxed_fs := true |> |>)).2) = false.
Proof.
  assert (0 <= 6) as H6 by lia. assert (0 <= 7) as H7 by lia.
  exact (proj2 (@unsandboxed_flag_ineffective old_kernel_os toy_crypto true true true (fun _ => true) skip [[]] boot
    (fun _ => eq_refl) H6 H7 true)).
Defined.
